(* ===== verification/_CoqProject ===== *)
-Q . S2P
Prelude.v
CLib.v
OS.v
SafeStr.v
PmiUtil.v
PmiPrint.v
ErrCodes.v
Pmi1.v
PendingQ.v
Pmi2Wire.v
Pmi2Util.v
Pmi2Api.v
Pmi2Mem.v
Gid.v
Verbs.v
Exch.v
Keeps.v
RcPingpong.v
RcLife.v
RcProto.v
RcMain.v
RcChecks.v
Setup.v
Plain.v
UcPingpong.v
UcProto.v
UdPingpong.v
SrqPingpong.v
SrqLife.v
SrqProto.v
XsrqPingpong.v
XsrqLife.v
XsrqProto.v
XsrqMeet.v
PmMpi.v
PmMpiSpec.v
PmPmi1.v
PmPmi2.v
PmWrapper.v
Report.v
Devinfo.v
DevinfoSpec.v
Mlog.v
Asyncwatch.v
DeviceList.v
LcmArchive.v
PmStore.v
DeviceConfig.v
RankTable.v
IbvInit.v
IbvMesh.v
BenchCommon.v
BenchNet.v
BenchSched.v
BenchTurns.v
BenchSendrecv.v
BenchWriteImm.v
BenchWrite.v
BenchRead.v
BenchMpi.v
RdvImm.v
RdvWrite.v
RdvRead.v
BenchStart.v
