(* ===== verification/Prelude.v ===== *)
(** * ibvBench: a verification development

    The repository holds small programs that measure an RDMA network and the
    client libraries that start them.  This development models its C and C++ code: the
    PMI-1 and PMI-2 clients by which a process talks to its process manager
    (src/modules/pmi), and the pingpongs over libibverbs (src/rdma-core) on a
    reliable connection (rc_pingpong.c), an unreliable one (uc_pingpong.c),
    datagrams (ud_pingpong.c), many connections over a shared receive queue
    (srq_pingpong.c) and many clients of one server over extended connections
    (xsrq_pingpong.c), the wrapper that gives the benchmarks one interface to
    PMI-1, PMI-2 and MPI (pmi_wrapper_*.c), the tools that report on devices
    (devinfo.c, asyncwatch.c, device_list.c), the logger (mlog.c), and the benchmarks
    of src/benchmarks: what they share (bench_common.hpp, ibv_common.hpp with the
    start of a job), four pingpongs by messages, writes and reads
    (ibv_pingpong_*.cpp), one over MPI (mpi_pingpong.cpp), and three by rendezvous (ibv_pingpong_rdv_*.cpp) with their
    table of addresses (lcm_archive.h).

    ** The parts and the files

    - [Prelude] (this file): characters and C strings, the outcome of a piece of
      code ([outcome]: done, [exit], a fault, waiting for ever), the state and
      error monad [M], lenses that run the code of a part inside the state of
      the whole ([zoom]), partial and total correctness ([returns], [total]),
      invariants ([preserves]) with their tactics, machine integers.
    - [CLib]: the C library routines (strings, number conversions, [strtol]).
    - [OS]: descriptors, the environment, connecting and accepting, as scripts
      of what the kernel and the peer will do.
    - [SafeStr], [PmiUtil]: simple_pmiutil.c.  [MPIU_Strncpy] and [MPIU_Strnapp]
      on memory; [PMIU_readline], [PMIU_writeline], [PMIU_parse_keyvals],
      [PMIU_getval], [PMIU_chgval] over [pmiu], the static variables of the file.
      [PmiPrint]: [PMIU_printf] and [PMIU_dump_keyvals], and where they write.
    - [ErrCodes], [Pmi1]: simple_pmi.c.  The record [pmi1] holds the static
      variables; there is a definition per function, with the function's name
      ([PMI_Init], [GetResponse], [PMI_KVS_Get], [PMI_Spawn_multiple], ...).
    - [PendingQ], [Pmi2Wire], [Pmi2Util], [Pmi2Api]: pmi2_api.c and pmi2_util.c.
      [PendingQ] is the list of commands that wait for a response, on a heap;
      [Pmi2Wire] the encoder ([PMIi_WriteSimpleCommand]), the decoder
      ([PMIi_ReadCommand]) and the loops that move frames; [Pmi2Api] the calls,
      over the record [pmi2]; [Pmi2Mem] the pairs of a command as blocks of a
      heap, from [create_keyval] and [init_kv_strdup] to [freepairs].
    - [Gid], [Verbs], [Exch]: pingpong.c and what the examples have in common.
      [Gid] is the address message; [Verbs] the verbs library as a
      parameter ([world]) with the bookkeeping its interface documents; [Exch]
      the exchange of addresses over TCP.
    - [RcPingpong]: rc_pingpong.c, every function; [Keeps], [RcLife],
      [RcProto], [RcMain], [RcChecks] its theorems.
    - [Plain]: the event loop that uc_pingpong.c and ud_pingpong.c have in
      common, over the two functions that post work, and the end of [main].
    - [UcPingpong]: uc_pingpong.c, every function, related to the functions of
      [RcPingpong]; [UcProto] two ends over a connection that loses messages.
    - [Setup]: one step of a set-up or a tear-down; [UdPingpong]: ud_pingpong.c,
      every function.
    - [SrqPingpong]: srq_pingpong.c, every function; [SrqLife] the life cycle
      of its objects, [SrqProto] two ends with their queue pairs connected
      index by index.
    - [XsrqPingpong]: xsrq_pingpong.c, every function; [XsrqLife] the life cycle
      of its objects, [XsrqMeet] the exchange of addresses between a server and
      a client and the transitions that connect them, [XsrqProto] a server and
      its clients sending to each other in turn.
    - [PmPmi1], [PmPmi2], [PmMpi]: the three implementations of pmi_wrapper.h;
      [PmWrapper] the interface as a class with these three instances;
      [PmMpiSpec] the one over MPI against a store of pairs.
    - [Report]: what the tools have in common, the text printed and the tables
      of names; [Devinfo]: devinfo.c, every function; [DevinfoSpec] its
      theorems; [Asyncwatch], [DeviceList], [Mlog]: asyncwatch.c, device_list.c
      and mlog.c, each with its theorems.
    - [LcmArchive]: benchmarks/rendezvous/lcm_archive.h, the table that maps
      addresses to keys, for one caller and for threads that interleave.

    - [PmStore]: what a wrapper promises to a program that starts through it, with
      the wrapper over MPI as an instance; [DeviceConfig]: the queue sizes;
      [RankTable]: the table that [init] builds to find a rank by the number of a
      queue pair; [IbvInit]: [init] of ibv_common.hpp, over the class of
      [PmWrapper] and the objects of [Verbs]; [IbvMesh]: what the ranks of a job
      have when [init] has returned on each, proved against [PmStore].
    - [BenchCommon]: bench_common.hpp, the sizes and rounds ([RUN_VARY_MSG]), the
      options and the buffers; [BenchNet]: the posting and polling functions of
      ibv_common.hpp over the state of a process ([endst]), and two processes with
      their adapters as four agents that step in any order ([agent_step]);
      [BenchSched]: how schedules are followed; [BenchTurns]: the loop in which
      two processes send in turn.
    - [BenchSendrecv], [BenchWriteImm], [BenchWrite], [BenchRead], [RdvImm],
      [RdvWrite], [RdvRead]: one benchmark each, with the function or the part of a
      lambda of the source as a definition ([handleRTS], [iteration], [run], ...)
      and its theorem.  [BenchMpi]: mpi_pingpong.cpp, as steps of two ranks over
      what the standard of MPI says of its two calls.  [BenchStart]: from [init] to a benchmark.

    The parts stack: a PMI call changes [pmi1] (or [pmi2]), which contains
    [pmiu], which contains [os].  A pingpong changes [rc_state], which contains
    [hw] (the verbs objects), which contains [os]; a tool changes [tool], which
    contains [hw] and the text printed; a wrapper changes the state of its
    client; [init] changes [ibv_state], which contains [hw] and the state of the
    wrapper.  A call of a lower part is [zoom]ed into the state of the upper one.

    ** What the theorems show

    - The two ends of a pingpong: once both are set up, every interleaving of
      their completions ends with all messages exchanged, no step fails, and no
      queue is ever over its depth ([RcProto]).
    - Over an unreliable connection the pingpong completes exactly when nothing
      is lost; once a message is lost the client waits for ever ([UcProto]).  The program is the reliable one with its features
      off ([uc_is_rc]).
    - Over a shared receive queue ([SrqProto]) the completions of the queue
      pairs of an end come in any order, and its counts are totals over all of
      them: the ends still never wait for each other for ever, treat a bounded
      number of completions, and the shared queue always holds a receive for
      every message on its way.
    - The life cycle of the verbs objects: a failed set-up gives everything
      back, the youngest object first, a set-up that succeeds gives exactly the objects of the context,
      tearing down destroys them in an order the library accepts, and a run of
      [main] that returns 0 leaves nothing behind ([RcLife], [RcMain],
      [UcPingpong], [UdPingpong], [SrqLife], [XsrqLife]).
    - A server and its clients over extended connections: the server answers
      each client and goes round among them, each end sends what it was asked to
      send and counts what it receives, and all of them finish
      ([xsrq_completes], [xsrq_round_robin]); a server and its client end up
      with the numbers of each other ([xsrq_meet]).
    - The wrapper over MPI: after a barrier every process finds what any of them
      has published ([mpi_exchange]); its archives refine a store of pairs, up to
      the two blocks per pair that each barrier leaks ([mpi_refines]); a name or
      a value that is too long is written past its block
      ([mpi_publish_overflow]).
    - The tools: which calls devinfo makes, for which ports and in what order
      ([devinfo_asks]); the flags and the GUIDs printed can be read back from the
      text ([device_flags_roundtrip], [device_list_roundtrip]); an opened device
      is closed and a run gives everything back ([devinfo_closes],
      [devinfo_gives_back]); the error that is lost and the port that is cut
      to a byte ([devinfo_gid_error_lost], [devinfo_port_wraps]); each event is
      printed once and acknowledged ([asyncwatch_reports]).
    - The logger: which messages are logged, what becomes of them in the buffer,
      and the level it starts with ([mlog_log_spec], [mlog_init_spec]).
    - The archive of addresses: every interleaving of threads shows what a table
      of handles shows ([lcm_refines]); the probe stays in the array for the
      values whose hash is far enough from its end ([lcm_stays_inside]) and runs
      out of it for others ([lcm_overruns]).
    - Starting a job: [init] returns on every rank with each queue pair connected to
      the one the peer has made for it, the memory region of the peer and the way
      back from the number of a queue pair ([init_meshes]); the text of an address
      can be read back ([ep_roundtrip]), the keys do not clash ([ep_key_inj]), the
      table is found and has no collision ([make_table_spec]).
    - The benchmarks: every schedule of the two processes and their adapters ends,
      no assertion fails, no access leaves its buffer, the data that is checked is
      the peer's, and what was allocated is released; a process that watches its
      buffer never takes old bytes for a message ([write_completes]) ([rdv_imm_completes],
      [rdv_write_completes], [rdv_read_completes], [sendrecv_completes],
      [write_completes], [write_imm_completes], [read_completes]), over MPI also
      when the library keeps no copies ([mpi_pingpong_completes]); the sizes and
      rounds are those intended, and for which bounds the loop never ends
      ([RUN_VARY_MSG_spec]);
      started by [init], a benchmark runs to its end ([job_completes]); the notice
      of a read may overwrite a request that has just been looked at
      ([fin_overwritten]).
    - Connecting: the address a process sends is the one the other reads, and
      both queue pairs end up connected to each other ([Gid], [RcMain]).
    - Requests and responses: each PMI call sends the request it should,
      and returns what the response says ([GetResponse_spec], [PMI_KVS_Get_spec],
      [PMI_KVS_Put_spec], [PMI_Init_spec], [PMI2_KVS_Get_spec], ...), on every
      branch, failures included.
    - Formats: PMI-1 lines and PMI-2 frames survive the way from the writer to
      the reader ([PMIU_parse_keyvals_format], [command_roundtrip]), lists of
      error codes and of integers too ([spawn_result_errcodes],
      [int_array_roundtrip]).
    - Memory: the string copies, the line reader, the parser of pairs, the
      encoder and the decoder stay inside their buffers; where they do not, the
      theorem says for which input ([PMIU_parse_keyvals_overflow],
      [encode_overflow]).
    - The blocks of a PMI-2 command ([Pmi2Mem]): reading a command on the heap
      refines the decoder on texts, and freeing it gives everything back; the
      command of a spawn fills its array exactly and is freed whole; what an
      error on the way leaves behind is counted ([leaked],
      [create_keyval_nomem]).
    - Invariants over any sequence of calls: the PMI-1 client connects at most
      once and only as a singleton; the mutex of PMI-2 is free between calls;
      the list of pending commands refines the specification [spec_op] that
      describes what [SEARCH_REMOVE] does to it.

    ** How the code is modelled

    The state is explicit.  A C function is a term of the monad [M]; a value
    stored through a pointer argument is returned beside the result, as an
    option that is [None] when the function leaves it alone.  Undefined
    behaviour is the outcome [Fault]; a wait that nothing ends is [Hang].
    Integers have type [Z] with [wrap_u] and [wrap_s] where the code converts
    them; an [int] that is incremented past its maximum is a fault.  A C string
    is the list of its characters without the terminating NUL, and a buffer the
    list of its bytes where its size matters.

    The kernel and the peer are a script in [os]: what each [read], [write],
    [connect] and [accept] will meet, including signals, short transfers and
    errors.  The verbs library and the allocator are the [world] of
    [Verbs.hw]: a pointer or an [int] for each call, arbitrary, and scripts of
    completions and events.  [Verbs] adds what the interface documents (the
    objects that exist, their dependencies, [EBUSY]) and a log of the calls.

    ** Bounds and fuel

    Loops that are not structural have fuel, always enough of it:
    [PmiUtil.parse_loop] runs over a text with the length of the text plus one,
    as every round consumes a character; [Pmi2Wire.parse_pairs] likewise;
    [Pmi2Wire.write_all] and [read_exact] have one round per byte and one more,
    a transfer of nothing being the end of both loops; [CLib.put_digits] the number of digits;
    [Exch.read_rest] one round per event of the script and one more;
    [PendingQ.search_loop] the number of cells, a list with a cycle being
    a wait for ever, as in C; [RcPingpong.page_starts] one round per byte,
    the page size being at least 1;
    [RcPingpong.main_loop], [Plain.event_loop], [SrqPingpong.srq_loop] and [spin] the number of scripted completions, polls
    and events, as every round consumes one ([RcChecks.rc_loop_fuel]: with
    the fuel that [run_loop] gives, the loop ends as the code does, or waits for an
    event or polls when the script of the hardware has nothing more for it);
    the loops of [XsrqPingpong] likewise; [BenchCommon.vary] 64 rounds, as a
    [size_t] that has been doubled 64 times is 0, which is the case that never ends;
    [RankTable.loop_pos] as many rounds as the code, up to [INT32_MAX], by halves;
    [IbvInit.find_port] the 128 ports of the code; [Asyncwatch.watch] one round per event
    of the script and one more, in which it waits ([watch_ok]).

    ** What is assumed about the surroundings

    The host is little-endian, the build is the default one ([USE_PMI_PORT] is
    defined by pmi.h; [PMIU_Assert], [PMI2U_Assert] and the debug printers are
    empty; no threads in the PMI clients).  [malloc] does not fail in the PMI
    code, which does not test it ([Pmi2Mem] has it as a parameter, for the two
    functions that do); it may fail in the pingpong, which does.  The blocks that
    the barrier over MPI frees itself are texts of the model, not blocks of its heap.
    The queue pairs of a device have different numbers.  In [SrqProto] the
    hardware acknowledges a message for which the shared queue holds a receive,
    also when the process it is for has left its loop.  In [XsrqProto] the
    shared receive queues have different numbers too, and a message goes to the
    queue whose number it carries; the two completion queues of a process take
    their polls from one script.  MPI is a parameter of [PmMpi]; [PmMpiSpec]
    uses what its standard says of the two gathering operations.  What the
    library reports of a device, and [inet_ntop], are parameters of the tools.

    Of the two processes of a benchmark: the connection is reliable, and an adapter
    executes the requests of its queue in order, moves a message in one step and
    adds the completions of both sides then; a message for which there is no
    receive is tried again, without end (rnr_retry is 7).  The memory region is a
    list of slots, as [run] cuts it up; a statement of the program is one step.
    The size of a cache line is a parameter.  [malloc] and [calloc] succeed, the
    numbers of the queue pairs of a rank are different, and a barrier hands every
    rank what all of them have published.

    ** Not modelled

    The reports the pingpongs print and their usage texts, and what goes to the
    standard error except in the logger; the failure of [alloca] in
    srq_pingpong.c; the calls of [PMIU_printf] in the PMI-1 client, whose model
    is not over the state of [PmiPrint], and the debug printer of PMI-2, which
    is empty; the stubs of pmi2_api.c that return 0 and its disabled code;
    the headers pmi.h and pmi2.h beyond their constants, as they only declare.
    Of the benchmarks: the clock, the report, PAPI and the pinning of
    threads, which only measure; the lines that log; the calls that start MPI; the capacity of the completion
    queues, which is one more than the requests a queue pair holds, posted or
    completed and not yet polled, and than the receives that are posted at a time; and
    the queue pair of a process to itself.  The
    threads of [LcmArchive] see the accesses to the array in one order. *)

From Stdlib Require Export Lia ZArith Ascii.
From Stdlib Require String.
From stdpp Require Export base tactics gmap strings numbers.
From stdpp Require Export list.

#[global] Set Default Goal Selector "!".

(** ** Characters and C strings *)

(** A [char] of the source; a C string is modelled by the list of its
    characters up to (and without) the terminating NUL. *)
Abbreviation char := ascii.
Abbreviation cstr := (list ascii).

(** [L "text"] is the C string literal ["text"]. *)
Abbreviation L := String.list_ascii_of_string.

Definition NUL : char := "000"%char.
Definition LF : char := "010"%char.

Declare Scope c_scope.
Delimit Scope c_scope with c.

(** Character tests of the source ([c == 'x']) as booleans. *)
Notation "a =c b" := (Ascii.eqb a b) (at level 70) : c_scope.
Notation "a <>c b" := (negb (Ascii.eqb a b)) (at level 70) : c_scope.
Notation "a <>z b" := (negb (Z.eqb a b)) (at level 70) : c_scope.
#[global] Open Scope c_scope.

Lemma char_eqb_refl (a : char) : (a =c a) = true.
Proof. apply Ascii.eqb_refl. Qed.

Lemma char_eqb_ne (a b : char) : a ≠ b → (a =c b) = false.
Proof. apply Ascii.eqb_neq. Qed.

(** ** Outcomes of a run

    What a C function run from a state does: it returns, it terminates the
    process ([exit], [abort]), it runs into undefined behaviour (an access out
    of the bounds of an object, a NULL dereference, an uninitialised read), or
    it blocks for ever. *)
Inductive fault := OutOfBounds | NullDeref | Uninitialised | Overflow | UseAfterFree.

#[global] Instance fault_eq_dec : EqDecision fault.
Proof. solve_decision. Defined.

Inductive outcome (A : Type) :=
  | Done (a : A)
  | Exited (status : Z)
  | Fault (f : fault)
  | Hang.
Arguments Done {_} _.
Arguments Exited {_} _.
Arguments Fault {_} _.
Arguments Hang {_}.

(** Computations over a state [S]: explicit state passing, the state reached
    is kept when the run stops early. *)
Definition M (S A : Type) : Type := S → outcome A * S.

#[global] Instance M_ret S : MRet (M S) := λ A a s, (Done a, s).
#[global] Instance M_bind S : MBind (M S) := λ A B k m s,
  match m s with
  | (Done a, s') => k a s'
  | (Exited z, s') => (Exited z, s')
  | (Fault f, s') => (Fault f, s')
  | (Hang, s') => (Hang, s')
  end.

Definition get {S} : M S S := λ s, (Done s, s).
Definition put {S} (s : S) : M S () := λ _, (Done tt, s).
Definition gets {S A} (f : S → A) : M S A := λ s, (Done (f s), s).
Definition modify {S} (f : S → S) : M S () := λ s, (Done tt, f s).
Definition fault_ {S A} (f : fault) : M S A := λ s, (Fault f, s).
Definition exit_ {S A} (z : Z) : M S A := λ s, (Exited z, s).
Definition hang_ {S A} : M S A := λ s, (Hang, s).

(** Lift an [option]-valued partial computation: [None] is the fault. *)
Definition or_fault {S A} (f : fault) (o : option A) : M S A :=
  match o with Some a => mret a | None => fault_ f end.

(** A computation that does not touch the state. *)
Definition lift {S A} (o : outcome A) : M S A := λ s, (o, s).

Lemma bind_done {S A B} (m : M S A) (k : A → M S B) s a s' :
  m s = (Done a, s') → (m ≫= k) s = k a s'.
Proof. intros H. unfold mbind, M_bind. by rewrite H. Qed.

Lemma bind_fault {S A B} (m : M S A) (k : A → M S B) s f s' :
  m s = (Fault f, s') → (m ≫= k) s = (Fault f, s').
Proof. intros H. unfold mbind, M_bind. by rewrite H. Qed.

Lemma bind_hang {S A B} (m : M S A) (k : A → M S B) s s' :
  m s = (Hang, s') → (m ≫= k) s = (Hang, s').
Proof. intros H. unfold mbind, M_bind. by rewrite H. Qed.

(** A bind that returned went through both of its parts. *)
Lemma bind_done_inv {S A B} (m : M S A) (k : A → M S B) s b s'' :
  (m ≫= k) s = (Done b, s'') →
  ∃ a s', m s = (Done a, s') ∧ k a s' = (Done b, s'').
Proof.
  unfold mbind, M_bind. destruct (m s) as [[a|z|f|] s'] eqn:E; intros H; [|done..].
  by exists a, s'.
Qed.

Lemma bind_assoc {S A B C} (m : M S A) (k : A → M S B) (h : B → M S C) s :
  ((m ≫= k) ≫= h) s = (m ≫= λ a, k a ≫= h) s.
Proof. unfold mbind, M_bind. by destruct (m s) as [[] ?]. Qed.

Lemma bind_ret {S A B} (a : A) (k : A → M S B) s : (mret a ≫= k) s = k a s.
Proof. done. Qed.
Lemma bind_get {S B} (k : S → M S B) s : (get ≫= k) s = k s s.
Proof. done. Qed.

Lemma bind_ext_eq {S A B} (m m' : M S A) (k k' : A → M S B) s :
  m s = m' s → (∀ a s, k a s = k' a s) → (m ≫= k) s = (m' ≫= k') s.
Proof. intros E H. unfold mbind, M_bind. rewrite E. destruct (m' s) as [[] ?]; [apply H|done..]. Qed.
Lemma bind_ext {S A B} (m : M S A) (k k' : A → M S B) s :
  (∀ a s, k a s = k' a s) → (m ≫= k) s = (m ≫= k') s.
Proof. by apply bind_ext_eq. Qed.

(** ** State components

    A component's state is embedded in the state of the components that use
    it; [zoom] runs a component's operation on the part it owns. *)
Class Lens (S T : Type) := {
  lget : S → T;
  lset : T → S → S;
  lget_lset : ∀ t s, lget (lset t s) = t;
  lset_lget : ∀ s, lset (lget s) s = s;
  lset_lset : ∀ t t' s, lset t (lset t' s) = lset t s }.

Definition zoom {S T A} `{!Lens S T} (m : M T A) : M S A :=
  λ s, let '(r, t) := m (lget s) in (r, lset t s).

Lemma zoom_done {S T A} `{!Lens S T} (m : M T A) s a t :
  m (lget s) = (Done a, t) → zoom m s = (Done a, lset t s).
Proof. intros H. unfold zoom. by rewrite H. Qed.

Lemma zoom_hang {S T A} `{!Lens S T} (m : M T A) s t :
  m (lget s) = (Hang, t) → zoom m s = (Hang, lset t s).
Proof. intros H. unfold zoom. by rewrite H. Qed.

Lemma zoom_fault {S T A} `{!Lens S T} (m : M T A) s f t :
  m (lget s) = (Fault f, t) → zoom m s = (Fault f, lset t s).
Proof. intros H. unfold zoom. by rewrite H. Qed.

Create Rewrite HintDb lens.
#[export] Hint Rewrite @lget_lset @lset_lget @lset_lset : lens.

(** Runs of a computation that return satisfy [Q]. *)
Definition returns {S A} (m : M S A) (s : S) (Q : A → S → Prop) : Prop :=
  ∀ a s', m s = (Done a, s') → Q a s'.

Lemma returns_ret {S A} (a : A) (s : S) (Q : A → S → Prop) :
  Q a s → returns (mret a) s Q.
Proof. intros H a' s' E. unfold mret, M_ret in E. by simplify_eq. Qed.

Lemma returns_bind {S A B} (m : M S A) (k : A → M S B) s Q :
  returns m s (λ a s', returns (k a) s' Q) → returns (m ≫= k) s Q.
Proof. intros H b s'' (a & s' & Hm & Hk)%bind_done_inv. by eapply H. Qed.

Lemma returns_mono {S A} (m : M S A) s (Q Q' : A → S → Prop) :
  returns m s Q → (∀ a s', Q a s' → Q' a s') → returns m s Q'.
Proof. intros H HQ a s' E. by apply HQ, H. Qed.

(** A run of a computation returns, and its result satisfies [Q]: no fault, no
    exit, no block. *)
Definition total {S A} (m : M S A) (s : S) (Q : A → S → Prop) : Prop :=
  match m s with (Done a, s') => Q a s' | _ => False end.

Lemma total_ret {S A} (a : A) (s : S) (Q : A → S → Prop) : Q a s → total (mret a) s Q.
Proof. done. Qed.
Lemma total_get {S} (s : S) (Q : S → S → Prop) : Q s s → total get s Q.
Proof. done. Qed.
Lemma total_modify {S} (f : S → S) (s : S) (Q : () → S → Prop) :
  Q tt (f s) → total (modify f) s Q.
Proof. done. Qed.

Lemma total_bind {S A B} (m : M S A) (k : A → M S B) s Q :
  total m s (λ a s', total (k a) s' Q) → total (m ≫= k) s Q.
Proof. unfold total, mbind, M_bind. by destruct (m s) as [[] ?]. Qed.

Lemma total_bind_eq {S A B} (m : M S A) (k : A → M S B) s a s' Q :
  m s = (Done a, s') → total (k a) s' Q → total (m ≫= k) s Q.
Proof. intros E H. unfold total. by rewrite (bind_done _ _ _ _ _ E). Qed.

Lemma total_mono {S A} (m : M S A) s (Q Q' : A → S → Prop) :
  total m s Q → (∀ a s', Q a s' → Q' a s') → total m s Q'.
Proof. unfold total. destruct (m s) as [[] ?]; naive_solver. Qed.

Lemma total_done {S A} (m : M S A) s (Q : A → S → Prop) :
  total m s Q → ∃ a s', m s = (Done a, s') ∧ Q a s'.
Proof. unfold total. destruct (m s) as [[] ?]; naive_solver. Qed.

Lemma total_zoom {S T A} `{!Lens S T} (m : M T A) s (Q : A → S → Prop) :
  total m (lget s) (λ a t, Q a (lset t s)) → total (zoom m) s Q.
Proof. unfold total, zoom. by destruct (m (lget s)) as [[] ?]. Qed.

Lemma total_returns {S A} (m : M S A) s (Q Q' : A → S → Prop) :
  total m s Q → (∀ a s', Q a s' → Q' a s') → returns m s Q'.
Proof. intros H HQ a s' E. apply HQ. unfold total in H. by rewrite E in H. Qed.

(** Apply a specification [H] of the first computation. *)
Ltac total_step H := apply total_bind; eapply total_mono; [eapply H|].

(** Every run of a computation, however it ends, takes the state along a
    relation [R]: the frame of the computation when [R] is "nothing but these
    components changed". *)
Definition preserves {S A} (R : S → S → Prop) (m : M S A) : Prop := ∀ s, R s (m s).2.

Section preserves.
Context {S : Type} (R : S → S → Prop) `{!Reflexive R, !Transitive R}.

Lemma preserves_ret {A} (a : A) : preserves R (mret a).
Proof using Reflexive0. intros s. done. Qed.
Lemma preserves_get : preserves R get.
Proof using Reflexive0. intros s. done. Qed.
Lemma preserves_gets {A} (f : S → A) : preserves R (gets f).
Proof using Reflexive0. intros s. done. Qed.
Lemma preserves_fault {A} f : preserves R (@fault_ S A f).
Proof using Reflexive0. intros s. done. Qed.
Lemma preserves_exit {A} z : preserves R (@exit_ S A z).
Proof using Reflexive0. intros s. done. Qed.
Lemma preserves_hang {A} : preserves R (@hang_ S A).
Proof using Reflexive0. intros s. done. Qed.
Lemma preserves_lift {A} (o : outcome A) : preserves R (@lift S A o).
Proof using Reflexive0. intros s. done. Qed.
Lemma preserves_or_fault {A} f (o : option A) : preserves R (or_fault f o).
Proof using Reflexive0. destruct o; intros s; done. Qed.
Lemma preserves_modify f : (∀ s, R s (f s)) → preserves R (modify f).
Proof using. intros H s. apply H. Qed.

Lemma preserves_bind {A B} (m : M S A) (k : A → M S B) :
  preserves R m → (∀ a, preserves R (k a)) → preserves R (m ≫= k).
Proof using Transitive0.
  intros Hm Hk s. specialize (Hm s). unfold mbind, M_bind.
  destruct (m s) as [[a|z|f|] s']; simpl in *; [|done..].
  etrans; [exact Hm|apply Hk].
Qed.

Lemma preserves_zoom {T A} `{!Lens S T} (m : M T A) :
  (∀ s t, R s (lset t s)) → preserves R (zoom (S := S) m).
Proof using. intros H s. unfold zoom. destruct (m (lget s)) as [r t]. apply H. Qed.
End preserves.

(** The frame of a component gives the frame of the whole. *)
Lemma preserves_zoom_rel {S T A} `{!Lens S T} (R : S → S → Prop) (R' : T → T → Prop)
    (m : M T A) :
  preserves R' m → (∀ s t, R' (lget s) t → R s (lset t s)) → preserves R (zoom (S := S) m).
Proof.
  intros Hm HR s. specialize (Hm (lget s)). unfold zoom.
  destruct (m (lget s)) as [r t]. simpl in *. by apply HR.
Qed.

(** What a computation preserves may be used in the proof of its total
    specification. *)
Lemma total_preserves {S A} (R : S → S → Prop) (m : M S A) s (Q : A → S → Prop) :
  preserves R m → total m s (λ a s', R s s' → Q a s') → total m s Q.
Proof. intros HR. specialize (HR s). unfold total. destruct (m s) as [[] ?]; auto. Qed.

Lemma preserves_mono {S A} (R R' : S → S → Prop) (m : M S A) :
  preserves R m → (∀ s s', R s s' → R' s s') → preserves R' m.
Proof. intros H HR s. apply HR, H. Qed.

(** Walk through a program by the rules above; the frames of the operations it
    calls come from the hint database [preserves]. *)
Create HintDb preserves.
Ltac preserve_step := match goal with
  | |- preserves _ (mret _) => apply preserves_ret; exact _
  | |- preserves _ get => apply preserves_get; exact _
  | |- preserves _ (gets _) => apply preserves_gets; exact _
  | |- preserves _ (fault_ _) => apply preserves_fault; exact _
  | |- preserves _ (exit_ _) => apply preserves_exit; exact _
  | |- preserves _ hang_ => apply preserves_hang; exact _
  | |- preserves _ (lift _) => apply preserves_lift; exact _
  | |- preserves _ (or_fault _ _) => apply preserves_or_fault; exact _
  | |- preserves _ (_ ≫= _) => apply preserves_bind; [exact _| |intros ?]
  | |- preserves _ (match ?x with _ => _ end) => destruct x
  | |- preserves _ _ => solve [eauto with preserves nocore]
  | |- preserves _ (modify _) => apply preserves_modify; intros ?; solve [done | auto]
  | |- preserves _ (let '_ := ?x in _) => destruct x
  end.
Ltac preserve := repeat (preserve_step; cbv beta iota).

(** Step through the head of a monadic program whose run is known. *)
Ltac run_with H := first
  [ erewrite bind_done by (exact H)
  | erewrite bind_done by (apply H)
  | erewrite bind_done by (eapply H; eauto) ].

(** ** C integers *)

(** Conversion of an integer to a signed / unsigned [w]-bit type. *)
Definition wrap_u (w z : Z) : Z := z `mod` 2 ^ w.
Definition wrap_s (w z : Z) : Z := (z + 2 ^ (w - 1)) `mod` 2 ^ w - 2 ^ (w - 1).

(** A [uint32_t] survives the way through an [int]. *)
Lemma wrap_u_of_s z : (0 ≤ z < 2 ^ 32)%Z → wrap_u 32 (wrap_s 32 z) = z.
Proof.
  intros Hz. unfold wrap_u, wrap_s. change (2 ^ (32 - 1))%Z with (2 ^ 31)%Z.
  rewrite Zminus_mod, Zmod_mod, <-Zminus_mod.
  replace (z + 2 ^ 31 - 2 ^ 31)%Z with z by lia. by apply Z.mod_small.
Qed.

Definition int_min : Z := - 2 ^ 31.
Definition int_max : Z := 2 ^ 31 - 1.
Definition long_min : Z := - 2 ^ 63.
Definition long_max : Z := 2 ^ 63 - 1.

(** An addition of [int]s. *)
Definition int_add {S} (x y : Z) : M S Z :=
  if (int_min <=? x + y)%Z && (x + y <=? int_max)%Z then mret (x + y)%Z else fault_ Overflow.

Lemma int_add_preserves {S} (R : S → S → Prop) `{!Reflexive R} x y : preserves R (int_add x y).
Proof. intros s. unfold int_add. by destruct (_ && _). Qed.
#[export] Hint Extern 1 (preserves _ (int_add _ _)) => apply int_add_preserves; exact _ : preserves.

(** The running sum of a loop, in an [int]. *)
Fixpoint int_sum {S} (acc : Z) (l : list Z) : M S Z :=
  match l with
  | [] => mret acc
  | x :: l => acc ← int_add acc x; int_sum acc l
  end.

Lemma int_sum_preserves {S} (R : S → S → Prop) `{!Reflexive R, !Transitive R} acc l :
  preserves R (int_sum acc l).
Proof. revert acc. induction l as [|x l IH]; intros acc; cbn [int_sum]; preserve. Qed.
#[export] Hint Extern 1 (preserves _ (int_sum _ _)) => apply int_sum_preserves; exact _ : preserves.

Fixpoint sums_fit (acc : Z) (l : list Z) : Prop :=
  match l with
  | [] => True
  | x :: l => (int_min ≤ acc + x ≤ int_max)%Z ∧ sums_fit (acc + x) l
  end.

Lemma int_add_ok {S} x y (s : S) :
  (int_min ≤ x + y ≤ int_max)%Z → int_add x y s = (Done (x + y)%Z, s).
Proof.
  intros [H1 H2]. unfold int_add. by rewrite (proj2 (Z.leb_le _ _) H1), (proj2 (Z.leb_le _ _) H2).
Qed.

Lemma int_sum_ok {S} acc l (s : S) :
  sums_fit acc l → int_sum acc l s = (Done (acc + foldr Z.add 0%Z l)%Z, s).
Proof.
  revert acc. induction l as [|x l IH]; intros acc; cbn [int_sum sums_fit foldr].
  - intros _. by rewrite Z.add_0_r.
  - intros [H1 H2]. rewrite (bind_done _ _ _ _ _ (int_add_ok acc x s H1)), (IH _ H2).
    by rewrite Z.add_assoc.
Qed.

(** A multiplication of [int]s. *)
Definition int_mul {S} (x y : Z) : M S Z :=
  if (int_min <=? x * y)%Z && (x * y <=? int_max)%Z then mret (x * y)%Z else fault_ Overflow.

Lemma int_mul_ok {S} x y (s : S) :
  (int_min ≤ x * y ≤ int_max)%Z → int_mul x y s = (Done (x * y)%Z, s).
Proof.
  intros [H1 H2]. unfold int_mul. by rewrite (proj2 (Z.leb_le _ _) H1), (proj2 (Z.leb_le _ _) H2).
Qed.

Definition is_int (z : Z) : Prop := (int_min ≤ z ≤ int_max)%Z.

Lemma wrap_s_int z : is_int z → wrap_s 32 z = z.
Proof.
  unfold is_int, wrap_s, int_min, int_max. intros H.
  rewrite Z.mod_small; lia.
Qed.

Lemma wrap_u_le w z : (0 ≤ z → 0 ≤ w → wrap_u w z ≤ z)%Z.
Proof. intros H Hw. unfold wrap_u. apply Z.mod_le; [done|]. lia. Qed.

Lemma wrap_u_small w z : (0 ≤ z < 2 ^ w)%Z → wrap_u w z = z.
Proof. intros H. unfold wrap_u. by apply Z.mod_small. Qed.

Definition bool_Z (b : bool) : Z := if b then 1%Z else 0%Z.

