(* ===== verification/CLib.v ===== *)
(** * The C library routines the program uses

    Strings ([strlen], [strcmp], [strncmp], [strncpy]), decimal and hexadecimal
    conversion ([atoi], [strtol], [sscanf "%d"], [sscanf "%x"], [printf "%d"],
    [printf "%0nx"]), with the laws the components rely on. *)

From S2P Require Import Prelude.

Local Open Scope Z_scope.

(** ** Strings *)

Definition strlen (s : cstr) : Z := Z.of_nat (length s).

(** The C string stored at the start of a memory region; [None] when the
    region has no terminator. *)
Fixpoint cstr_at (b : list char) : option cstr :=
  match b with
  | [] => None
  | c :: b' => if c =c NUL then Some [] else cons c <$> cstr_at b'
  end.

(** The text of a region that is known to be followed by a terminator. *)
Fixpoint c_text (b : list char) : cstr :=
  match b with
  | [] => []
  | c :: b' => if c =c NUL then [] else c :: c_text b'
  end.

(** The longest prefix without a character satisfying [stop], and the rest:
    [while (!stop ( *p )) p++]. *)
Fixpoint break (stop : char → bool) (s : cstr) : cstr * cstr :=
  match s with
  | [] => ([], [])
  | c :: s' => if stop c then ([], s) else let '(a, b) := break stop s' in (c :: a, b)
  end.

(** [strcmp (a, b) == 0]. *)
Definition str_eq (a b : cstr) : bool := bool_decide (a = b).

(** [strncmp (a, b, n) == 0]: at most [n] characters are compared, and the
    comparison stops at the terminators. *)
Definition strn_eq (a b : cstr) (n : nat) : bool :=
  bool_decide (take n a = take n b).

Definition no_nul (s : cstr) : Prop := Forall (λ c, c ≠ NUL) s.

#[global] Instance no_nul_dec s : Decision (no_nul s).
Proof. unfold no_nul. apply _. Defined.

Lemma cstr_at_app s r : no_nul s → cstr_at (s ++ NUL :: r) = Some s.
Proof.
  induction 1 as [|c s Hc _ IH]; simpl; [done|].
  by rewrite char_eqb_ne, IH.
Qed.

Lemma cstr_at_no_nul b s : cstr_at b = Some s → no_nul s.
Proof.
  revert s. induction b as [|c b IH]; intros s; simpl; [done|].
  destruct (c =c NUL) eqn:E.
  - intros [= <-]. constructor.
  - destruct (cstr_at b) as [s'|]; intros [= <-].
    constructor; [by apply Ascii.eqb_neq|by apply IH].
Qed.

Lemma c_text_id s r : no_nul s → c_text (s ++ NUL :: r) = s.
Proof.
  induction 1 as [|c s Hc _ IH]; simpl; [done|]. by rewrite char_eqb_ne, IH.
Qed.

Lemma c_text_no_nul s : no_nul s → c_text s = s.
Proof.
  induction 1 as [|c s Hc _ IH]; simpl; [done|]. by rewrite char_eqb_ne, IH.
Qed.

Lemma no_nul_c_text b : no_nul (c_text b).
Proof.
  induction b as [|c b IH]; simpl; [constructor|].
  destruct (Ascii.eqb_spec c NUL); [constructor|by constructor].
Qed.

Lemma length_c_text b : (length (c_text b) ≤ length b)%nat.
Proof. induction b as [|c b IH]; simpl; [done|]. destruct (c =c NUL); simpl; lia. Qed.

Lemma break_app stop a b :
  Forall (λ c, stop c = false) a →
  match b with c :: _ => stop c = true | [] => True end →
  break stop (a ++ b) = (a, b).
Proof.
  intros Ha Hb. induction Ha as [|c a Hc _ IH]; simpl.
  - destruct b as [|c b]; simpl; [done|]. by rewrite Hb.
  - by rewrite Hc, IH.
Qed.

(** [break] splits the string: the prefix avoids [stop], the rest is empty or
    begins with a stop character. *)
Lemma break_spec stop s a b :
  break stop s = (a, b) →
  s = a ++ b ∧ Forall (λ c, stop c = false) a ∧
  match b with c :: _ => stop c = true | [] => True end.
Proof.
  revert a b. induction s as [|c s IH]; intros a b; simpl; [by intros [= <- <-]|].
  destruct (stop c) eqn:E; [by intros [= <- <-]|].
  destruct (break stop s) as [a' b']. intros [= <- <-].
  destruct (IH a' b' eq_refl) as (-> & Ha & Hb). split_and!; [done|by constructor|done].
Qed.

Lemma str_eq_refl s : str_eq s s = true.
Proof. by apply bool_decide_eq_true. Qed.

Lemma str_eq_true a b : str_eq a b = true ↔ a = b.
Proof. apply bool_decide_eq_true. Qed.

Lemma strn_eq_prefix a b :
  strn_eq a b (length b) = true ↔ b `prefix_of` a.
Proof.
  unfold strn_eq. rewrite bool_decide_eq_true, (firstn_all b). split.
  - intros <-. apply prefix_take.
  - intros [k ->]. by rewrite take_app_length.
Qed.

Lemma strn_eq_long a b n :
  (length a ≤ n)%nat → (length b ≤ n)%nat → strn_eq a b n = true ↔ a = b.
Proof.
  intros Ha Hb. unfold strn_eq. by rewrite bool_decide_eq_true, !take_ge.
Qed.

(** ** Digits *)

Definition digit_char (d : Z) : char :=
  nth (Z.to_nat d) (L "0123456789abcdef") "?"%char.

(** The value of a digit character, upper or lower case. *)
Definition digit_val (c : char) : option Z :=
  let n := Z.of_nat (nat_of_ascii c) in
  if decide (48 ≤ n ≤ 57) then Some (n - 48)
  else if decide (97 ≤ n ≤ 102) then Some (n - 87)
  else if decide (65 ≤ n ≤ 70) then Some (n - 55)
  else None.

Definition is_digit (base : Z) (c : char) : bool :=
  match digit_val c with Some d => d <? base | None => false end.

(** [isspace]. *)
Definition is_space (c : char) : bool :=
  let n := nat_of_ascii c in (n =? 32)%nat || ((9 <=? n)%nat && (n <=? 13)%nat).

Fixpoint skip_space (s : cstr) : cstr :=
  match s with
  | c :: s' => if is_space c then skip_space s' else s
  | [] => []
  end.

(** The digits at the start of [s]: their value, added to [acc], how many
    there were, and what follows them. *)
Fixpoint scan_digits (base : Z) (s : cstr) (acc : Z) (n : nat) : Z * nat * cstr :=
  match s with
  | c :: s' =>
      match digit_val c with
      | Some d => if d <? base then scan_digits base s' (acc * base + d) (S n)
                  else (acc, n, s)
      | None => (acc, n, s)
      end
  | [] => (acc, n, [])
  end.

(** An optional sign: whether it is a minus, and what follows. *)
Definition scan_sign (s : cstr) : bool * cstr :=
  match s with
  | c :: s' =>
      if c =c "-"%char then (true, s')
      else if c =c "+"%char then (false, s') else (false, s)
  | [] => (false, [])
  end.

(** An optionally signed number in [base] after white space: its mathematical
    value and the rest of the input, [None] when there are no digits. *)
Definition scan_int (base : Z) (s : cstr) : option (Z * cstr) :=
  let s := skip_space s in
  let '(neg, s) := scan_sign s in
  let '(v, n, rest) := scan_digits base s 0 0 in
  if (n =? 0)%nat then None else Some (if neg then - v else v, rest).

Definition clamp (lo hi z : Z) : Z := Z.max lo (Z.min hi z).

(** [strtol (s, NULL, 10)]: the value saturates to the range of [long], and a
    string without digits gives 0. *)
Definition strtol10 (s : cstr) : Z :=
  match scan_int 10 s with Some (v, _) => clamp long_min long_max v | None => 0 end.

(** [atoi], which the C library computes as [(int) strtol (s, NULL, 10)]. *)
Definition atoi (s : cstr) : Z := wrap_s 32 (strtol10 s).

(** [sscanf (s, "%d", &v) == 1] and the value stored. *)
Definition sscanf_d (s : cstr) : option Z :=
  match scan_int 10 s with
  | Some (v, _) => Some (wrap_s 32 (clamp long_min long_max v))
  | None => None
  end.

(** The digits of [n] in [base], most significant first, in front of [acc]. *)
Fixpoint put_digits (fuel : nat) (base n : Z) (acc : cstr) : cstr :=
  match fuel with
  | O => acc
  | S fuel =>
      let acc := digit_char (n mod base) :: acc in
      if n / base =? 0 then acc else put_digits fuel base (n / base) acc
  end.

(** [log2 n + 1] digits are enough in any base. *)
Definition show_nat (base n : Z) : cstr :=
  put_digits (S (Z.to_nat (Z.log2 n))) base n [].

(** [printf "%d"]. *)
Definition show_int (z : Z) : cstr :=
  if z <? 0 then "-"%char :: show_nat 10 (- z) else show_nat 10 z.

(** [printf "%0<w>x"] of an unsigned 32-bit argument. *)
Definition show_hex (w : nat) (z : Z) : cstr :=
  let s := show_nat 16 (wrap_u 32 z) in
  replicate (w - length s) "0"%char ++ s.

(** [sscanf "%x"] of an [unsigned int]: an optional [0x] after the sign is
    accepted; the value saturates at [ULONG_MAX] and is truncated. *)
Definition skip_0x (s : cstr) : cstr :=
  match s with
  | z :: x :: c :: s' =>
      if (z =c "0"%char) && ((x =c "x"%char) || (x =c "X"%char)) && is_digit 16 c then c :: s' else s
  | _ => s
  end.

Definition scan_hex (s : cstr) : option (Z * cstr) :=
  let s := skip_space s in
  let '(neg, s) := scan_sign s in
  let '(v, n, rest) := scan_digits 16 (skip_0x s) 0 0 in
  if (n =? 0)%nat then None
  else Some (wrap_u 32 (let m := Z.min v (2 ^ 64 - 1) in if neg then - m else m), rest).

(** ** Laws of the conversions *)

#[global] Arguments digit_char : simpl never.
#[global] Arguments digit_val : simpl never.

Lemma digit_cases d :
  0 ≤ d < 16 →
  d = 0 ∨ d = 1 ∨ d = 2 ∨ d = 3 ∨ d = 4 ∨ d = 5 ∨ d = 6 ∨ d = 7 ∨
  d = 8 ∨ d = 9 ∨ d = 10 ∨ d = 11 ∨ d = 12 ∨ d = 13 ∨ d = 14 ∨ d = 15.
Proof. lia. Qed.

Ltac digit_case d H :=
  destruct (digit_cases d H) as
    [->|[->|[->|[->|[->|[->|[->|[->|[->|[->|[->|[->|[->|[->|[->| ->]]]]]]]]]]]]]]].

Lemma digit_val_char d : 0 ≤ d < 16 → digit_val (digit_char d) = Some d.
Proof. intros H. digit_case d H; vm_compute; reflexivity. Qed.

Lemma is_digit_char base d :
  0 ≤ d < base → base ≤ 16 → is_digit base (digit_char d) = true.
Proof.
  intros H Hb. unfold is_digit. rewrite digit_val_char by lia. apply Z.ltb_lt; lia.
Qed.

(** A digit is neither white space nor a sign nor a separator. *)
Definition plain (c : char) : bool :=
  negb (is_space c || (c =c "-"%char) || (c =c "+"%char) || (c =c NUL)
        || (c =c "="%char) || (c =c ";"%char) || (c =c ":"%char) || (c =c ","%char)).

Lemma is_digit_val base c :
  is_digit base c = true → ∃ d, digit_val c = Some d ∧ d < base.
Proof.
  unfold is_digit. destruct (digit_val c) as [d|]; [|done].
  intros ?%Z.ltb_lt. by exists d.
Qed.

Lemma is_digit_plain base c : is_digit base c = true → plain c = true.
Proof.
  intros (d & Hd & _)%is_digit_val. revert Hd.
  destruct c as [[] [] [] [] [] [] [] []]; vm_compute; congruence.
Qed.

Lemma scan_digits_stop base s acc n :
  match s with c :: _ => is_digit base c = false | [] => True end →
  scan_digits base s acc n = (acc, n, s).
Proof.
  destruct s as [|c s]; simpl; [done|]. unfold is_digit.
  destruct (digit_val c); [|done]. by intros ->.
Qed.

Section digits.
Context (base : Z) (Hbase : 2 ≤ base ≤ 16).

Lemma scan_put_digits fuel n tl :
  0 ≤ n < 2 ^ Z.of_nat (S fuel) →
  ∃ k, (0 < k)%nat ∧ length (put_digits (S fuel) base n tl) = (k + length tl)%nat ∧
    ∀ acc m, scan_digits base (put_digits (S fuel) base n tl) acc m =
             scan_digits base tl (acc * base ^ Z.of_nat k + n) (m + k).
Proof using Hbase.
  revert n tl. induction fuel as [|fuel IH]; intros n tl Hn.
  all: pose proof (Z.mod_pos_bound n base ltac:(lia)) as Hm.
  all: pose proof (Z.div_mod n base ltac:(lia)) as Hdm.
  all: assert (Hone : ∀ acc m, n / base = 0 →
    scan_digits base (digit_char (n mod base) :: tl) acc m =
    scan_digits base tl (acc * base ^ Z.of_nat 1 + n) (m + 1)).
  1, 3: intros acc m Hz; simpl; rewrite digit_val_char by lia;
    rewrite (proj2 (Z.ltb_lt _ _)) by lia; f_equal; lia.
  - assert (n / base = 0) as Hz.
    { apply Z.div_small. change (2 ^ Z.of_nat 1) with 2 in Hn. lia. }
    exists 1%nat. simpl. rewrite Hz. simpl. split_and!; [lia|done|].
    intros acc m. by rewrite <-(Hone acc m Hz).
  - destruct (Z.eqb_spec (n / base) 0) as [Hz|Hz].
    + exists 1%nat. cbn -[Z.of_nat Z.pow scan_digits]. rewrite Hz.
      cbn -[Z.of_nat Z.pow scan_digits].
      split_and!; [lia|done|]. intros acc m. by apply Hone.
    + destruct (IH (n / base) (digit_char (n mod base) :: tl)) as (k & Hk & Hl & Hs).
      { split; [apply Z.div_pos; lia|].
        apply Z.div_lt_upper_bound; [lia|].
        rewrite (Nat2Z.inj_succ (S fuel)), Z.pow_succ_r in Hn by lia. nia. }
      exists (S k). cbn -[Z.of_nat Z.pow scan_digits put_digits] in *.
      remember (S fuel) as f. cbn -[Z.of_nat Z.pow scan_digits]. subst f.
      rewrite (proj2 (Z.eqb_neq _ _) Hz).
      split_and!; [lia|rewrite Hl; lia|].
      intros acc m. rewrite Hs. simpl. rewrite digit_val_char by lia.
      rewrite (proj2 (Z.ltb_lt _ _)) by lia.
      rewrite Nat2Z.inj_succ, Z.pow_succ_r by lia. f_equal; [nia|lia].
Qed.

Lemma put_digits_app fuel n tl r :
  put_digits fuel base n tl ++ r = put_digits fuel base n (tl ++ r).
Proof using.
  revert n tl. induction fuel as [|fuel IH]; intros n tl; simpl; [done|].
  destruct (n / base =? 0); [done|]. apply (IH _ (_ :: tl)).
Qed.

Lemma put_digits_Forall (P : char → Prop) fuel n tl :
  (∀ d, 0 ≤ d < base → P (digit_char d)) → Forall P tl →
  Forall P (put_digits fuel base n tl).
Proof using Hbase.
  intros HP. revert n tl. induction fuel as [|fuel IH]; intros n tl Htl; simpl; [done|].
  assert (Forall P (digit_char (n mod base) :: tl)).
  { constructor; [apply HP, Z.mod_pos_bound; lia|done]. }
  destruct (n / base =? 0); [done|]. by apply IH.
Qed.

Lemma put_digits_length fuel n k tl :
  0 ≤ n < base ^ Z.of_nat k → (0 < k)%nat →
  (length (put_digits fuel base n tl) ≤ k + length tl)%nat.
Proof using Hbase.
  revert n k tl. induction fuel as [|fuel IH]; intros n k tl Hn Hk; simpl; [lia|].
  destruct (Z.eqb_spec (n / base) 0) as [Hz|Hz]; [simpl; lia|].
  destruct k as [|[|k]]; [lia| |].
  - change (Z.of_nat 1) with 1 in Hn. rewrite Z.pow_1_r in Hn.
    destruct Hz. apply Z.div_small. lia.
  - etrans; [apply (IH _ (S k))|simpl; lia]; [|lia].
    split; [apply Z.div_pos; lia|]. apply Z.div_lt_upper_bound; [lia|].
    rewrite (Nat2Z.inj_succ (S k)), Z.pow_succ_r in Hn by lia. lia.
Qed.

Lemma show_nat_spec n :
  0 ≤ n → ∃ k, (0 < k)%nat ∧ length (show_nat base n) = k ∧
    ∀ acc m r, scan_digits base (show_nat base n ++ r) acc m =
               scan_digits base r (acc * base ^ Z.of_nat k + n) (m + k).
Proof using Hbase.
  intros Hn. unfold show_nat.
  destruct (scan_put_digits (Z.to_nat (Z.log2 n)) n []) as (k & Hk & Hl & _).
  { rewrite Nat2Z.inj_succ, Z2Nat.id by apply Z.log2_nonneg.
    destruct (decide (n = 0)) as [->|Hn0]; [done|].
    split; [lia|]. apply Z.log2_spec. lia. }
  exists k. split_and!; [done|by rewrite Hl, Nat.add_0_r|].
  intros acc m r. rewrite put_digits_app. simpl app.
  destruct (scan_put_digits (Z.to_nat (Z.log2 n)) n r) as (k' & Hk' & Hl' & Hs').
  { rewrite Nat2Z.inj_succ, Z2Nat.id by apply Z.log2_nonneg.
    destruct (decide (n = 0)) as [->|Hn0]; [done|].
    split; [lia|]. apply Z.log2_spec. lia. }
  assert (k' = k) as ->; [|apply Hs'].
  apply (f_equal (λ x, x)) in Hl'. rewrite <-(app_nil_l r), <-put_digits_app, length_app, Hl in Hl'.
  simpl in Hl'. lia.
Qed.

Lemma show_nat_digits n : Forall (λ c, is_digit base c = true) (show_nat base n).
Proof using Hbase.
  apply put_digits_Forall; [|constructor]. intros d Hd. apply is_digit_char; lia.
Qed.

Lemma show_nat_length n k :
  0 ≤ n < base ^ Z.of_nat k → (0 < k)%nat → (length (show_nat base n) ≤ k)%nat.
Proof using Hbase.
  intros. etrans; [by apply put_digits_length|]. simpl. lia.
Qed.

Lemma show_nat_cons n : ∃ c s, show_nat base n = c :: s ∧ is_digit base c = true.
Proof using Hbase.
  pose proof (show_nat_digits n) as H.
  destruct (show_nat base n) as [|c s] eqn:E; [|inversion H; eauto].
  exfalso. unfold show_nat in E. simpl in E.
  assert (∀ fuel n tl, put_digits fuel base n tl ≠ [] ∨ tl = []) as Hne.
  { clear. induction fuel as [|fuel IH]; intros n tl; simpl; [by destruct tl; auto|].
    left. destruct (n / base =? 0); [done|].
    by destruct (IH (n / base) (digit_char (n mod base) :: tl)). }
  destruct (n / base =? 0); [done|].
  by destruct (Hne (Z.to_nat (Z.log2 n)) (n / base) [digit_char (n mod base)]).
Qed.
End digits.

(** The first character of [s] is not a digit of [base]. *)
Definition no_digit_head (base : Z) (s : cstr) : Prop :=
  match s with c :: _ => is_digit base c = false | [] => True end.

Lemma is_digit_no_space base c : is_digit base c = true → is_space c = false.
Proof.
  intros H%is_digit_plain. unfold plain in H. by destruct (is_space c).
Qed.

Lemma is_digit_no_sign base c :
  is_digit base c = true → c ≠ "-"%char ∧ c ≠ "+"%char.
Proof. intros H%is_digit_plain. by split; intros ->. Qed.

Lemma scan_sign_digit base c s :
  is_digit base c = true → scan_sign (c :: s) = (false, c :: s).
Proof.
  intros [H1 H2]%is_digit_no_sign. unfold scan_sign. by rewrite !char_eqb_ne.
Qed.

Lemma scan_int_nat n r :
  0 ≤ n → no_digit_head 10 r → scan_int 10 (show_nat 10 n ++ r) = Some (n, r).
Proof.
  intros Hn Hr.
  destruct (show_nat_spec 10 ltac:(lia) n Hn) as (k & Hk & _ & Hs).
  specialize (Hs 0 0%nat r).
  destruct (show_nat_cons 10 ltac:(lia) n) as (c & s & E & Hc).
  unfold scan_int. rewrite E in *. simpl app in *. simpl skip_space.
  rewrite (is_digit_no_space _ _ Hc), (scan_sign_digit _ _ _ Hc).
  rewrite Hs, scan_digits_stop by done.
  destruct k; [lia|]. simpl. f_equal.
Qed.

Lemma scan_int_show z r :
  no_digit_head 10 r → scan_int 10 (show_int z ++ r) = Some (z, r).
Proof.
  intros Hr. unfold show_int. destruct (Z.ltb_spec z 0) as [Hz|Hz].
  - pose proof (scan_int_nat (- z) r ltac:(lia) Hr) as H.
    destruct (show_nat_spec 10 ltac:(lia) (-z) ltac:(lia)) as (k & Hk & _ & Hs).
    unfold scan_int. simpl skip_space. simpl app.
    change (is_space "-") with false. cbv iota beta.
    unfold scan_sign at 1. rewrite char_eqb_refl.
    rewrite Hs, scan_digits_stop by done.
    destruct k; [lia|]. simpl. repeat f_equal; lia.
  - by apply scan_int_nat.
Qed.

(** Printing an [int] in decimal and reading it back. *)
Lemma atoi_show_int z r :
  is_int z → no_digit_head 10 r → atoi (show_int z ++ r) = z.
Proof.
  intros Hz Hr. unfold atoi, strtol10. rewrite scan_int_show by done.
  unfold clamp, long_min, long_max. unfold is_int, int_min, int_max in Hz.
  rewrite Z.min_r, Z.max_r by lia. by apply wrap_s_int.
Qed.

Lemma atoi_show_int_nil z : is_int z → atoi (show_int z) = z.
Proof. intros. rewrite <-(app_nil_r (show_int z)). by apply atoi_show_int. Qed.

Lemma sscanf_d_show_int z r :
  is_int z → no_digit_head 10 r → sscanf_d (show_int z ++ r) = Some z.
Proof.
  intros Hz Hr. pose proof (atoi_show_int z r Hz Hr) as H.
  unfold atoi, strtol10, sscanf_d in *. rewrite scan_int_show in * by done. congruence.
Qed.

Lemma show_int_plain z : Forall (λ c, plain c = true ∨ c = "-"%char) (show_int z).
Proof.
  assert (∀ n, Forall (λ c, plain c = true ∨ c = "-"%char) (show_nat 10 n)) as Hn.
  { intros n. eapply Forall_impl; [apply (show_nat_digits 10 ltac:(lia))|].
    intros c H. left. exact (is_digit_plain _ _ H). }
  unfold show_int. destruct (z <? 0); [|done]. constructor; [by right|done].
Qed.

Lemma show_int_length z : is_int z → (length (show_int z) ≤ 11)%nat.
Proof.
  unfold is_int, int_min, int_max, show_int. intros Hz.
  destruct (Z.ltb_spec z 0); simpl;
    [apply le_n_S|etrans; [|apply (Nat.le_succ_diag_r 10)]];
    apply show_nat_length; lia.
Qed.

Lemma show_int_nonempty z : show_int z ≠ [].
Proof.
  unfold show_int. destruct (z <? 0); [done|].
  destruct (show_nat_cons 10 ltac:(lia) z) as (c & s & -> & _). done.
Qed.

(** Hexadecimal fields of fixed width. *)
Lemma show_hex_length w z :
  (0 < w)%nat → 0 ≤ z < 16 ^ Z.of_nat w → (w ≤ 8)%nat → length (show_hex w z) = w.
Proof.
  intros Hw Hz Hw8. unfold show_hex.
  assert (16 ^ Z.of_nat w ≤ 2 ^ 32).
  { change (2 ^ 32) with (16 ^ 8). apply Z.pow_le_mono_r; lia. }
  assert (0 ≤ z < 2 ^ 32) by (destruct Hz; split; [done|by eapply Z.lt_le_trans]).
  rewrite wrap_u_small by done.
  pose proof (show_nat_length 16 ltac:(lia) z w Hz Hw).
  rewrite length_app, length_replicate. lia.
Qed.

Lemma show_hex_digits w z : Forall (λ c, is_digit 16 c = true) (show_hex w z).
Proof.
  unfold show_hex. apply Forall_app_2; [by apply Forall_replicate|].
  apply (show_nat_digits 16 ltac:(lia)).
Qed.

Lemma scan_digits_zeros base k s m :
  2 ≤ base ≤ 16 →
  scan_digits base (replicate k "0"%char ++ s) 0 m = scan_digits base s 0 (m + k).
Proof.
  intros Hb. revert m. induction k as [|k IH]; intros m; cbn [replicate app scan_digits].
  { by rewrite Nat.add_0_r. }
  assert (digit_val "0" = Some 0) as -> by done.
  destruct (Z.ltb_spec 0 base); [|lia]. rewrite Z.mul_0_l, Z.add_0_l, IH. f_equal. lia.
Qed.

Lemma scan_digits_show_hex w z m r :
  0 ≤ z < 2 ^ 32 → no_digit_head 16 r →
  ∃ k, (0 < k)%nat ∧ scan_digits 16 (show_hex w z ++ r) 0 m = (z, (m + k)%nat, r).
Proof.
  intros Hz Hr. unfold show_hex. rewrite wrap_u_small by lia.
  rewrite <-app_assoc, scan_digits_zeros by lia.
  destruct (show_nat_spec 16 ltac:(lia) z ltac:(lia)) as (k & Hk & _ & Hs).
  rewrite Hs, scan_digits_stop by done.
  exists (w - length (show_nat 16 z) + k)%nat. split; [lia|].
  by rewrite Z.mul_0_l, Z.add_0_l, Nat.add_assoc.
Qed.

Lemma skip_0x_hex s r :
  Forall (λ c, is_digit 16 c = true) s → (2 ≤ length s)%nat →
  skip_0x (s ++ r) = s ++ r.
Proof.
  intros Hs Hl. destruct s as [|a [|b s]]; simpl in Hl; [lia..|].
  apply Forall_cons in Hs as [_ [Hb _]%Forall_cons]. simpl.
  assert ((b =c "x"%char) || (b =c "X"%char) = false) as Hx.
  { destruct (Ascii.eqb_spec b "x"%char) as [->|]; [done|].
    by destruct (Ascii.eqb_spec b "X"%char) as [->|]. }
  destruct (s ++ r) as [|c l]; [done|]. by rewrite Hx, andb_false_r.
Qed.

(** Printing with [%0<w>x] and scanning with [%x]. *)
Lemma scan_hex_show w z r :
  (2 ≤ w)%nat → 0 ≤ z < 2 ^ 32 → no_digit_head 16 r →
  scan_hex (show_hex w z ++ r) = Some (z, r).
Proof.
  intros Hw Hz Hr.
  pose proof (show_hex_digits w z) as Hd.
  assert (2 ≤ length (show_hex w z))%nat as Hl.
  { unfold show_hex. rewrite length_app, length_replicate. lia. }
  destruct (scan_digits_show_hex w z 0 r Hz Hr) as (k & Hk & Hs).
  rewrite <-(skip_0x_hex _ r Hd Hl) in Hs.
  unfold scan_hex. destruct (show_hex w z) as [|c s] eqn:E; [simpl in Hl; lia|].
  apply Forall_cons in Hd as [Hc _]. simpl app in *. simpl skip_space.
  rewrite (is_digit_no_space _ _ Hc), (scan_sign_digit _ _ _ Hc). rewrite Hs. destruct k; [lia|]. simpl.
  rewrite Z.min_l by lia. by rewrite wrap_u_small.
Qed.

(** ** Lists of texts *)

(** The texts with a separator between them. *)
Fixpoint join_on (sep : char) (l : list cstr) : cstr :=
  match l with
  | [] => []
  | [x] => x
  | x :: l => x ++ sep :: join_on sep l
  end.

Lemma show_int_no_comma z : Forall (λ c, c ≠ ","%char) (show_int z).
Proof.
  eapply Forall_impl; [apply show_int_plain|]. intros c [H| ->]; [|done]. by intros ->.
Qed.

(** ** [strtol] and [strtoul] with base 0 *)

(** A prefix [0x] or [0] chooses the base. *)
Definition scan_base0 (s : cstr) : Z * nat * cstr :=
  match s with
  | z :: s' =>
      if z =c "0"%char then
        let s'' := skip_0x s in
        if bool_decide (s'' = s) then scan_digits 8 s 0 0 else scan_digits 16 s'' 0 0
      else scan_digits 10 s 0 0
  | [] => (0, 0%nat, [])
  end.

(** [strtol (s, NULL, 0)] and [strtoul (s, NULL, 0)]: saturation at the range
    of the type; a minus sign negates the unsigned value. *)
Definition strtol0 (s : cstr) : Z :=
  let '(neg, s) := scan_sign (skip_space s) in
  let '(v, _, _) := scan_base0 s in
  clamp long_min long_max (if neg then - v else v).

Definition strtoul0 (s : cstr) : Z :=
  let '(neg, s) := scan_sign (skip_space s) in
  let '(v, _, _) := scan_base0 s in
  if 2 ^ 64 <=? v then 2 ^ 64 - 1 else wrap_u 64 (if neg then - v else v).
