(* ===== verification/OS.v ===== *)
(** * The operating system seen by the program

    Environment variables and connected stream descriptors.  What the peer and
    the kernel will do is a script: the events that successive [read(2)] calls
    on a descriptor meet, and the outcomes of successive [write(2)] calls.  A
    read with no event left blocks for ever.  The bytes written are kept. *)

From S2P Require Import Prelude CLib.

(** What a [read] meets: data that has arrived (a stream segment, possibly
    larger than the buffer), end of file (which stays), an error, or a signal
    ([EINTR]). *)
Inductive in_event := InData (bs : cstr) | InEof | InErr | InIntr.

(** The outcome of a [write]: everything, a short count, an error, [EINTR].
    With an empty script every write is complete. *)
Inductive wr_event := WrAll | WrShort (n : nat) | WrErr | WrIntr.

Record conn := Conn {
  c_in : list in_event;
  c_wr : list wr_event;
  c_out : cstr }.

(** What [connect] meets: success or an [errno]. *)
Inductive connect_event :=
  | ConnOk | ConnRefused | ConnInProgress | ConnIsConn | ConnTimedOut | ConnOther.

(** One attempt to dial a peer: whether the host name resolves, the descriptor
    [socket] returns (negative: none), what [connect] meets, and the connection
    that results. *)
Record dial := Dial {
  d_host : bool;
  d_fd : Z;
  d_connect : connect_event;
  d_conn : conn }.

(** What an [accept] meets. *)
Inductive accept_event := AccIntr | AccErr | AccOk (fd : Z) (c : conn).

(** The scripts for connections made by the process (with the host names and
    ports dialled so far) and to it, its own process id, the results [fork] will have, whether [execvp] finds its program. *)
Record net := Net {
  n_dial : list dial;
  n_dialed : list (cstr * Z);
  n_accept : list accept_event;
  n_pid : Z;
  n_fork : list Z;
  n_exec : bool }.

Record os := OS {
  os_env : gmap string cstr;
  os_fds : gmap Z conn;
  os_net : net }.

(** [RdOk bs]: [length bs] bytes were stored, 0 meaning end of file.
    [RdErr]: -1, with [errno] other than [EINTR]; [RdIntr]: -1 and [EINTR]. *)
Inductive read_res := RdOk (bs : cstr) | RdErr | RdIntr.

(** One [read] of at most [n] bytes; [None] blocks. *)
Definition pop_read (n : nat) (evs : list in_event) : option (read_res * list in_event) :=
  match evs with
  | [] => None
  | InData bs :: evs' =>
      Some (RdOk (take n bs),
            match drop n bs with [] => evs' | rest => InData rest :: evs' end)
  | InEof :: _ => Some (RdOk [], evs)
  | InErr :: evs' => Some (RdErr, evs')
  | InIntr :: evs' => Some (RdIntr, evs')
  end.

(** [do { n = read (...); } while (n == -1 && errno == EINTR)]. *)
Fixpoint pop_read_eintr (n : nat) (evs : list in_event) : option (read_res * list in_event) :=
  match evs with
  | InIntr :: evs' => pop_read_eintr n evs'
  | _ => pop_read n evs
  end.

Definition set_conn (fd : Z) (c : conn) (s : os) : os :=
  OS (os_env s) (<[fd := c]> (os_fds s)) (os_net s).

Definition set_in (evs : list in_event) (c : conn) : conn :=
  Conn evs (c_wr c) (c_out c).

(** A [read] on a descriptor that is not open fails ([EBADF]). *)
Definition read_with (pop : list in_event → option (read_res * list in_event))
    (fd : Z) : M os read_res := λ s,
  match os_fds s !! fd with
  | None => (Done RdErr, s)
  | Some c =>
      match pop (c_in c) with
      | None => (Hang, s)
      | Some (r, evs) => (Done r, set_conn fd (set_in evs c) s)
      end
  end.

Definition sys_read (fd : Z) (n : nat) : M os read_res := read_with (pop_read n) fd.
Definition read_eintr (fd : Z) (n : nat) : M os read_res := read_with (pop_read_eintr n) fd.

(** [do { n = write (fd, buf, size); } while (n == -1 && errno == EINTR)]:
    the number of bytes written, [None] for -1. *)
Fixpoint pop_write (buf : cstr) (ws : list wr_event) : option cstr * list wr_event :=
  match ws with
  | [] => (Some buf, [])
  | WrAll :: ws' => (Some buf, ws')
  | WrShort n :: ws' => (Some (take n buf), ws')
  | WrErr :: ws' => (None, ws')
  | WrIntr :: ws' => pop_write buf ws'
  end.

Definition write_eintr (fd : Z) (buf : cstr) : M os (option nat) := λ s,
  match os_fds s !! fd with
  | None => (Done None, s)
  | Some c =>
      let '(sent, ws) := pop_write buf (c_wr c) in
      let out := default [] sent in
      (Done (length <$> sent),
       set_conn fd (Conn (c_in c) ws (c_out c ++ out)) s)
  end.

(** One [write], without a retry. *)
Definition sys_write (fd : Z) (buf : cstr) : M os (option nat) := λ s,
  match os_fds s !! fd with
  | None => (Done None, s)
  | Some c =>
      let '(sent, ws) := match c_wr c with
                         | WrIntr :: ws => (None, ws)
                         | ws => pop_write buf ws
                         end in
      (Done (length <$> sent), set_conn fd (Conn (c_in c) ws (c_out c ++ default [] sent)) s)
  end.

Definition getenv (name : string) : M os (option cstr) := gets (λ s, os_env s !! name).

Definition setenv (name : string) (v : cstr) : M os () :=
  modify (λ s, OS (<[name := v]> (os_env s)) (os_fds s) (os_net s)).

Definition set_net (n : net) (s : os) : os := OS (os_env s) (os_fds s) n.

(** [close (fd)], with or without a [shutdown] first: the descriptor is no
    longer open. *)
Definition shutdown_close (fd : Z) : M os () :=
  modify (λ s, OS (os_env s) (delete fd (os_fds s)) (os_net s)).

(** The next attempt of the script; with no attempt left no host resolves. *)
Definition next_dial (host : cstr) (port : Z) : M os dial := λ s,
  let n := os_net s in
  (Done (hd (Dial false (-1) ConnOther (Conn [] [] [])) (n_dial n)),
   set_net (Net (tail (n_dial n)) (n_dialed n ++ [(host, port)])
              (n_accept n) (n_pid n) (n_fork n) (n_exec n)) s).

(** [accept]: the new descriptor, [None] for an error other than [EINTR], which
    makes the caller try again.  With no event left it blocks. *)
Fixpoint pop_accept (l : list accept_event) : option (option (Z * conn) * list accept_event) :=
  match l with
  | [] => None
  | AccIntr :: l => pop_accept l
  | AccErr :: l => Some (None, l)
  | AccOk fd c :: l => Some (Some (fd, c), l)
  end.

Definition accept_eintr : M os (option Z) := λ s,
  let n := os_net s in
  match pop_accept (n_accept n) with
  | None => (Hang, s)
  | Some (r, l) =>
      let s := set_net (Net (n_dial n) (n_dialed n) l (n_pid n) (n_fork n) (n_exec n)) s in
      match r with
      | None => (Done None, s)
      | Some (fd, c) => (Done (Some fd), set_conn fd c s)
      end
  end.

(** One [accept], without a retry. *)
Definition sys_accept : M os (option Z) := λ s,
  let n := os_net s in
  match n_accept n with
  | [] => (Hang, s)
  | e :: l =>
      let s := set_net (Net (n_dial n) (n_dialed n) l (n_pid n) (n_fork n) (n_exec n)) s in
      match e with
      | AccOk fd c => (Done (Some fd), set_conn fd c s)
      | AccIntr | AccErr => (Done None, s)
      end
  end.

Definition fork : M os Z := λ s,
  let n := os_net s in
  match n_fork n with
  | [] => (Done (-1)%Z, s)
  | p :: l => (Done p, set_net (Net (n_dial n) (n_dialed n) (n_accept n) (n_pid n) l (n_exec n)) s)
  end.

(** [execvp]: the program image is replaced, so this run is over, or -1. *)
Definition execvp : M os Z := λ s,
  if n_exec (os_net s) then (Exited 0, s) else (Done (-1)%Z, s).

(** [dup2 (fd, fd')]. *)
Definition dup2 (fd fd' : Z) : M os () := λ s,
  match os_fds s !! fd with
  | Some c => (Done tt, set_conn fd' c s)
  | None => (Done tt, s)
  end.

(** ** Laws *)

Lemma pop_read_eintr_data n bs evs :
  pop_read_eintr n (InData bs :: evs) = pop_read n (InData bs :: evs).
Proof. done. Qed.

Lemma read_with_done pop fd c r evs s :
  os_fds s !! fd = Some c → pop (c_in c) = Some (r, evs) →
  read_with pop fd s = (Done r, set_conn fd (set_in evs c) s).
Proof. intros H1 H2. unfold read_with. by rewrite H1, H2. Qed.

Lemma set_conn_lookup fd c s : os_fds (set_conn fd c s) !! fd = Some c.
Proof. apply lookup_insert_eq. Qed.

Lemma set_conn_set_conn fd c c' s : set_conn fd c (set_conn fd c' s) = set_conn fd c s.
Proof. unfold set_conn. simpl. by rewrite insert_insert_eq. Qed.

Lemma set_conn_id fd c s : os_fds s !! fd = Some c → set_conn fd c s = s.
Proof. intros H. unfold set_conn. rewrite insert_id by done. by destruct s. Qed.

Lemma write_eintr_all fd buf c s :
  os_fds s !! fd = Some c → c_wr c = [] →
  write_eintr fd buf s =
  (Done (Some (length buf)), set_conn fd (Conn (c_in c) [] (c_out c ++ buf)) s).
Proof. intros H1 H2. unfold write_eintr. by rewrite H1, H2. Qed.

Lemma sys_write_all fd buf evs out s :
  sys_write fd buf (set_conn fd (Conn evs [] out) s) =
  (Done (Some (length buf)), set_conn fd (Conn evs [] (out ++ buf)) s).
Proof. unfold sys_write. rewrite set_conn_lookup. simpl. by rewrite set_conn_set_conn. Qed.

Lemma sys_read_data fd n bs evs ws out s :
  (length bs ≤ n)%nat →
  sys_read fd n (set_conn fd (Conn (InData bs :: evs) ws out) s) =
  (Done (RdOk bs), set_conn fd (Conn evs ws out) s).
Proof.
  intros Hn. unfold sys_read.
  erewrite read_with_done; [|apply set_conn_lookup|cbn [c_in pop_read]; reflexivity].
  rewrite drop_ge, take_ge by done. by rewrite set_conn_set_conn.
Qed.

(** ** The stream a descriptor delivers *)

(** The bytes the next reads will return before an end of file, an error or
    the end of the script. *)
Fixpoint data_of (evs : list in_event) : cstr :=
  match evs with
  | InData (c :: bs) :: evs => c :: bs ++ data_of evs
  | InIntr :: evs => data_of evs
  | _ => []
  end.

Lemma data_of_pop n evs bs :
  data_of evs = bs → bs ≠ [] → (0 < n)%nat →
  ∃ b evs', pop_read_eintr n evs = Some (RdOk b, evs') ∧ b ≠ [] ∧
    b ++ data_of evs' = bs.
Proof.
  intros Hd Hne Hn. induction evs as [|[chunk| | |] evs IH]; simpl in *; [by subst..| | | |].
  - destruct chunk as [|c chunk]; [by subst|].
    eexists _, _. split; [done|]. destruct n as [|n]; [lia|]. simpl. split; [done|].
    destruct (drop n chunk) as [|x rest] eqn:E; simpl.
    + rewrite <-Hd. f_equal. rewrite take_ge; [done|].
      apply (f_equal length) in E. rewrite length_drop in E. simpl in E. lia.
    + rewrite <-Hd. f_equal. rewrite <-(take_drop n chunk) at 2.
      by rewrite E, <-app_assoc.
  - by subst.
  - by subst.
  - by apply IH.
Qed.

Lemma pop_read_length n evs b evs' :
  pop_read_eintr n evs = Some (RdOk b, evs') → (length b ≤ n)%nat.
Proof.
  induction evs as [|[bs| | |] evs IH]; simpl; [done| | | |done].
  - intros [= <- _]. rewrite length_take. lia.
  - intros [= <- _]. simpl. lia.
  - done.
Qed.
