(* ===== verification/SafeStr.v ===== *)
(** * Bounded string copies (simple_pmiutil.c)

    [MPIU_Strncpy] and [MPIU_Strnapp] on memory: a destination buffer is the
    list of its bytes, a store outside it is a fault ([None]). *)

From S2P Require Import Prelude CLib.

Local Open Scope Z_scope.

(** [dest[d] = c]. *)
Definition store (dest : list char) (d : nat) (c : char) : option (list char) :=
  if (d <? length dest)%nat then Some (<[d := c]> dest) else None.

(** [while ( *s_ptr && i-- > 0) *d_ptr++ = *s_ptr++;]: the final [i], offset
    of [d_ptr] and destination. *)
Fixpoint copy_loop (src : cstr) (i : Z) (d : nat) (dest : list char)
    : option (Z * nat * list char) :=
  match src with
  | [] => Some (i, d, dest)
  | c :: src' =>
      if 0 <? i then dest' ← store dest d c; copy_loop src' (i - 1) (S d) dest'
      else Some (i - 1, d, dest)
  end.

Definition MPIU_Strncpy (dest : list char) (src : cstr) (n : Z)
    : option (Z * list char) :=
  if n =? 0 then Some (0, dest)
  else
    '(i, d, dest) ← copy_loop src (wrap_s 32 n) 0 dest;
    if 0 <? i then dest ← store dest d NUL; Some (0, dest)
    else dest ← store dest (Z.to_nat (n - 1)) NUL; Some (1, dest).

(** [while (i-- > 0 && *d_ptr) d_ptr++;] *)
Fixpoint seek_end (b : list char) (i : Z) (d : nat) : option (Z * nat) :=
  if 0 <? i then
    match b with
    | [] => None
    | c :: b' => if c =c NUL then Some (i - 1, d) else seek_end b' (i - 1) (S d)
    end
  else Some (i - 1, d).

Definition MPIU_Strnapp (dest : list char) (src : cstr) (n : Z)
    : option (Z * list char) :=
  '(i, d) ← seek_end dest (wrap_s 32 n) 0;
  if i <=? 0 then Some (1, dest)
  else
    '(i, d, dest) ← copy_loop src i d dest;
    if 0 <=? i then dest ← store dest d NUL; Some (0, dest)
    else dest ← store dest (d - 1) NUL; Some (1, dest).

(** ** Lemmas *)

Lemma store_app pre m mid c :
  store (pre ++ m :: mid) (length pre) c = Some (pre ++ c :: mid).
Proof.
  unfold store. rewrite length_app. simpl.
  destruct (Nat.ltb_spec (length pre) (length pre + S (length mid))); [|lia].
  by rewrite insert_app_r_alt, Nat.sub_diag by lia.
Qed.

Lemma store_at d b c :
  (d < length b)%nat → store b d c = Some (take d b ++ c :: drop (S d) b).
Proof.
  intros Hd. destruct (lookup_lt_is_Some_2 b d Hd) as [m Hm].
  pose proof (store_app (take d b) m (drop (S d) b) c) as H.
  rewrite take_drop_middle, length_take_le in H by (done || lia). done.
Qed.

(** The copy loop in closed form: it writes [src], or its first [i] characters
    when there is no room for all of it, at the position it starts from. *)
Lemma copy_loop_spec src i pre mid :
  0 ≤ i → (Z.to_nat i ≤ length mid)%nat →
  copy_loop src i (length pre) (pre ++ mid) =
  let k := take (Z.to_nat i) src in
  Some (if strlen src <=? i then i - strlen src else -1,
        length (pre ++ k), (pre ++ k) ++ drop (length k) mid).
Proof.
  unfold strlen. revert i pre mid.
  induction src as [|c src IH]; intros i pre mid Hi Hmid; cbn [copy_loop].
  - rewrite take_nil, (proj2 (Z.leb_le _ _)) by (simpl; lia). cbn zeta.
    by rewrite app_nil_r, Z.sub_0_r.
  - destruct (Z.ltb_spec 0 i) as [Hi'|Hi'].
    + destruct mid as [|m mid]; simpl in Hmid; [lia|].
      rewrite store_app. cbn [mbind option_bind].
      replace (S (length pre)) with (length (pre ++ [c])) by (rewrite length_app; simpl; lia).
      replace (pre ++ c :: mid) with ((pre ++ [c]) ++ mid) by (by rewrite <-app_assoc).
      rewrite IH by lia. cbn zeta.
      replace (Z.to_nat i) with (S (Z.to_nat (i - 1))) by lia. cbn [take drop length].
      rewrite <-(app_assoc pre [c]). do 3 f_equal.
      destruct (Z.leb_spec (Z.of_nat (length src)) (i - 1)), (Z.leb_spec (Z.of_nat (S (length src))) i); lia.
    + assert (i = 0) as -> by lia. cbn zeta. simpl take.
      rewrite !app_nil_r. simpl drop.
      rewrite (proj2 (Z.leb_gt _ _)) by (simpl; lia). done.
Qed.

Lemma seek_end_spec d b i :
  no_nul d → 0 ≤ i → ∀ k,
  seek_end (d ++ NUL :: b) i k =
  if strlen d <? i then Some (i - strlen d - 1, (k + length d)%nat)
  else Some (-1, (k + Z.to_nat i)%nat).
Proof.
  unfold strlen. intros Hd. revert i. induction Hd as [|c d Hc _ IH]; intros i Hi k.
  - cbn [app seek_end length]. destruct (Z.ltb_spec 0 i).
    + rewrite char_eqb_refl. destruct (Z.ltb_spec (Z.of_nat 0) i); [|lia].
      f_equal. f_equal; lia.
    + destruct (Z.ltb_spec (Z.of_nat 0) i); [lia|]. f_equal. f_equal; lia.
  - cbn [app seek_end length]. destruct (Z.ltb_spec 0 i).
    + rewrite char_eqb_ne by done. rewrite IH by lia.
      destruct (Z.ltb_spec (Z.of_nat (length d)) (i - 1)),
        (Z.ltb_spec (Z.of_nat (S (length d))) i); try lia; f_equal; f_equal; lia.
    + destruct (Z.ltb_spec (Z.of_nat (S (length d))) i); [lia|].
      f_equal. f_equal; lia.
Qed.

Lemma no_nul_take n s : no_nul s → no_nul (take n s).
Proof. apply Forall_take. Qed.

Lemma no_nul_app s t : no_nul s → no_nul t → no_nul (s ++ t).
Proof. apply Forall_app_2. Qed.

(** [MPIU_Strncpy] in closed form. *)
Lemma Strncpy_closed dest src n :
  0 < n ≤ int_max → n ≤ strlen dest →
  MPIU_Strncpy dest src n =
  let k := take (Z.to_nat (n - 1)) src in
  let tail := drop (if strlen src <? n then S (length k) else Z.to_nat n) dest in
  Some (bool_Z (n <=? strlen src), k ++ NUL :: tail).
Proof.
  unfold strlen. intros Hn Hd. unfold MPIU_Strncpy.
  destruct (Z.eqb_spec n 0); [lia|].
  rewrite wrap_s_int by (unfold is_int, int_min, int_max in *; lia).
  pose proof (copy_loop_spec src n [] dest ltac:(lia) ltac:(lia)) as Hc.
  cbn [app length] in Hc. rewrite Hc. clear Hc.
  unfold strlen. cbv zeta. cbn [mbind option_bind].
  destruct (Z.leb_spec (Z.of_nat (length src)) n).
  - destruct (Z.ltb_spec 0 (n - Z.of_nat (length src))).
    + rewrite (take_ge src) by lia. rewrite (take_ge src (Z.to_nat (n - 1))) by lia.
      destruct (drop (length src) dest) as [|m tl] eqn:E.
      { apply (f_equal length) in E. rewrite length_drop in E. simpl in E. lia. }
      rewrite store_app. cbn [mbind option_bind].
      destruct (Z.leb_spec n (Z.of_nat (length src))); [lia|].
      destruct (Z.ltb_spec (Z.of_nat (length src)) n); [|lia].
      rewrite <-Nat.add_1_r, <-drop_drop, E. done.
    + assert (n = Z.of_nat (length src)) as -> by lia.
      rewrite (take_ge src) by lia.
      rewrite store_at by (rewrite length_app, length_drop; lia). cbn [mbind option_bind].
      destruct (Z.leb_spec (Z.of_nat (length src)) (Z.of_nat (length src))); [|lia].
      destruct (Z.ltb_spec (Z.of_nat (length src)) (Z.of_nat (length src))); [lia|].
      rewrite take_app_le by lia.
      replace (S (Z.to_nat (Z.of_nat (length src) - 1))) with (length src) by lia.
      rewrite drop_app_length. by rewrite Nat2Z.id.
  - change (0 <? -1) with false. cbv iota. rewrite store_at.
    2:{ rewrite length_app, length_take, length_drop. lia. }
    cbn [mbind option_bind].
    destruct (Z.leb_spec n (Z.of_nat (length src))); [|lia].
    destruct (Z.ltb_spec (Z.of_nat (length src)) n); [lia|].
    rewrite take_app_le by (rewrite length_take; lia). rewrite take_take.
    rewrite Nat.min_l by lia.
    replace (S (Z.to_nat (n - 1))) with (Z.to_nat n) by lia.
    replace (Z.to_nat n) with (length (take (Z.to_nat n) src)) at 1 by (rewrite length_take; lia).
    rewrite drop_app_length. by rewrite length_take, Nat.min_l by lia.
Qed.

(** A bounded copy into a buffer of at least [n] bytes never stores
    outside the first [n] of them, always leaves a terminated string there, the
    longest prefix of the source that fits, and returns 1 exactly when the
    source was cut. *)
Theorem MPIU_Strncpy_spec (dest : list char) (src : cstr) (n : Z)
    (Hn : 0 < n ≤ int_max) (Hdest : n ≤ strlen dest) (Hsrc : no_nul src) :
  ∃ rc dest', MPIU_Strncpy dest src n = Some (rc, dest') ∧
    cstr_at dest' = Some (take (Z.to_nat (n - 1)) src) ∧
    length dest' = length dest ∧
    drop (Z.to_nat n) dest' = drop (Z.to_nat n) dest ∧
    rc = bool_Z (n <=? strlen src).
Proof.
  rewrite Strncpy_closed by done. cbv zeta. unfold strlen in *.
  eexists _, _. split; [done|]. split; [by apply cstr_at_app, no_nul_take|].
  rewrite length_app. cbn [length].
  destruct (Z.ltb_spec (Z.of_nat (length src)) n).
  - rewrite (take_ge src) by lia. rewrite length_drop. split_and!; [lia| |done].
    rewrite (drop_app_ge src) by lia.
    destruct (Z.to_nat n - length src)%nat as [|x] eqn:E; [lia|]. simpl.
    rewrite drop_drop. f_equal. lia.
  - rewrite length_drop, length_take. split_and!; [lia| |done].
    rewrite drop_app_ge by (rewrite length_take; lia).
    rewrite length_take, Nat.min_l by lia.
    replace (Z.to_nat n - Z.to_nat (n - 1))%nat with 1%nat by lia.
    done.
Qed.

(** The text [MPIU_Strnapp (dest, src, n)] leaves in a buffer holding [d]. *)
Definition app_text (d src : cstr) (n : Z) : cstr :=
  if n - 1 <=? strlen d then d
  else if strlen d + strlen src <=? n - 1 then d ++ src
  else take (Z.to_nat (n - 2)) (d ++ src).

Definition app_fits (d src : cstr) (n : Z) : bool :=
  (strlen d <? n - 1) && (strlen d + strlen src <=? n - 1).

(** Appending to a terminated string within [n] bytes stays inside the
    buffer and leaves a terminated string; when the result does not fit it
    returns 1 and keeps [n - 2] characters of the concatenation, one fewer than
    there is room for, or the old string when it filled the buffer already. *)
Theorem MPIU_Strnapp_spec (d src : cstr) (b : list char) (n : Z)
    (Hn : 0 < n ≤ int_max) (Hdest : n ≤ strlen (d ++ NUL :: b))
    (Hd : no_nul d) (Hsrc : no_nul src) :
  ∃ dest', MPIU_Strnapp (d ++ NUL :: b) src n
             = Some (bool_Z (negb (app_fits d src n)), dest') ∧
    cstr_at dest' = Some (app_text d src n) ∧
    length dest' = length (d ++ NUL :: b).
Proof.
  unfold MPIU_Strnapp, app_text, app_fits, strlen in *.
  rewrite wrap_s_int by (unfold is_int, int_min, int_max in *; lia).
  rewrite seek_end_spec by (done || lia). unfold strlen.
  rewrite length_app in Hdest. cbn [length] in Hdest.
  destruct (Z.ltb_spec (Z.of_nat (length d)) n) as [HL|HL]; cbn [mbind option_bind].
  2:{ change (-1 <=? 0) with true. cbv iota. eexists. split; [|split; [|done]].
      - destruct (Z.ltb_spec (Z.of_nat (length d)) (n - 1)); [lia|done].
      - destruct (Z.leb_spec (n - 1) (Z.of_nat (length d))); [|lia]. by apply cstr_at_app. }
  destruct (Z.leb_spec (n - Z.of_nat (length d) - 1) 0) as [H0|H0].
  { eexists. split; [|split; [|done]].
    - destruct (Z.ltb_spec (Z.of_nat (length d)) (n - 1)); [lia|done].
    - destruct (Z.leb_spec (n - 1) (Z.of_nat (length d))); [|lia]. by apply cstr_at_app. }
  rewrite Nat.add_0_l, copy_loop_spec by (simpl; lia). cbv zeta. unfold strlen.
  cbn [mbind option_bind].
  destruct (Z.ltb_spec (Z.of_nat (length d)) (n - 1)); [|lia].
  destruct (Z.leb_spec (n - 1) (Z.of_nat (length d))); [lia|].
  destruct (Z.leb_spec (Z.of_nat (length src)) (n - Z.of_nat (length d) - 1)) as [Hf|Hf].
  - destruct (Z.leb_spec (Z.of_nat (length d) + Z.of_nat (length src)) (n - 1)); [|lia].
    destruct (Z.leb_spec 0 (n - Z.of_nat (length d) - 1 - Z.of_nat (length src))); [|lia].
    rewrite (take_ge src) by lia.
    destruct (drop (length src) (NUL :: b)) as [|m tl] eqn:E.
    { apply (f_equal length) in E. rewrite length_drop in E. cbn [length] in E. lia. }
    rewrite store_app. eexists. split; [done|]. split.
    + by apply cstr_at_app, no_nul_app.
    + apply (f_equal length) in E. rewrite length_drop in E. cbn [length] in E.
      rewrite !length_app. cbn [length]. lia.
  - destruct (Z.leb_spec (Z.of_nat (length d) + Z.of_nat (length src)) (n - 1)); [lia|].
    change (0 <=? -1) with false. cbv iota.
    rewrite length_app, length_take, Nat.min_l by lia.
    rewrite store_at.
    2:{ rewrite !length_app, length_drop, length_take. cbn [length]. lia. }
    eexists. split; [done|]. split.
    + rewrite take_app_le by (rewrite length_app, length_take; lia).
      replace (length d + Z.to_nat (n - Z.of_nat (length d) - 1) - 1)%nat
        with (Z.to_nat (n - 2)) by lia.
      rewrite cstr_at_app.
      * f_equal. rewrite !take_app, take_take. do 2 f_equal. lia.
      * by apply no_nul_take, no_nul_app, no_nul_take.
    + rewrite !length_app. cbn [length].
      rewrite length_take, length_drop, !length_app, length_drop, length_take. cbn [length]. lia.
Qed.

Lemma MPIU_Strncpy_spec_witness :
  ∃ rc dest', MPIU_Strncpy (L "xxxxxxxx") (L "kvs_0") 4 = Some (rc, dest') ∧
    cstr_at dest' = Some (L "kvs") ∧ length dest' = 8%nat ∧
    drop 4 dest' = L "xxxx" ∧ rc = 1.
Proof.
  apply (MPIU_Strncpy_spec (L "xxxxxxxx") (L "kvs_0") 4);
    [unfold int_max; lia|vm_compute; congruence|by apply (bool_decide_unpack _)].
Defined.

Lemma MPIU_Strnapp_spec_witness :
  ∃ dest', MPIU_Strnapp (L "ab" ++ NUL :: L "xxxxx") (L "cdefg") 6 = Some (1, dest') ∧
    cstr_at dest' = Some (L "abcd") ∧ length dest' = 8%nat.
Proof.
  apply (MPIU_Strnapp_spec (L "ab") (L "cdefg") (L "xxxxx") 6);
    [unfold int_max; lia|vm_compute; congruence|by apply (bool_decide_unpack _)..].
Defined.
