(* ===== verification/PmiUtil.v ===== *)
(** * PMI-1 utilities (modules/pmi/pmi1/simple/simple_pmiutil.c)

    The buffered line reader, the line writer and the table of key=value pairs
    the last message was parsed into. *)

From S2P Require Import Prelude CLib OS SafeStr.

Local Open Scope Z_scope.

Definition MAXVALLEN : Z := 1024.
Definition MAXKEYLEN : Z := 32.
Definition KEYVAL_TAB_SIZE : nat := 64.
Definition MAX_READLINE : nat := 1024.
Definition PMIU_MAXLINE : Z := 1024.
Definition PMIU_IDSIZE : Z := 32.

Abbreviation keyval := (cstr * cstr)%type.

(** The static variables of the file, over the operating system: the entries
    of [PMIU_keyval_tab] below [PMIU_keyval_tab_idx], the unread part of
    [readbuf] (from [nextChar] to [lastChar]), [lastfd] and [PMIU_print_id]. *)
Record pmiu := PMIU {
  u_os : os;
  u_tab : list keyval;
  u_readbuf : cstr;
  u_lastfd : Z;
  u_print_id : cstr }.

Definition set_u_os (o : os) (s : pmiu) : pmiu :=
  PMIU o (u_tab s) (u_readbuf s) (u_lastfd s) (u_print_id s).
Definition set_u_tab (t : list keyval) (s : pmiu) : pmiu :=
  PMIU (u_os s) t (u_readbuf s) (u_lastfd s) (u_print_id s).
Definition set_u_readbuf (b : cstr) (s : pmiu) : pmiu :=
  PMIU (u_os s) (u_tab s) b (u_lastfd s) (u_print_id s).
Definition set_u_lastfd (fd : Z) (s : pmiu) : pmiu :=
  PMIU (u_os s) (u_tab s) (u_readbuf s) fd (u_print_id s).
Definition set_u_print_id (b : cstr) (s : pmiu) : pmiu :=
  PMIU (u_os s) (u_tab s) (u_readbuf s) (u_lastfd s) b.

#[global] Program Instance pmiu_os : Lens pmiu os := {| lget := u_os; lset := set_u_os |}.
Next Obligation. done. Qed.
Next Obligation. by intros []. Qed.
Next Obligation. done. Qed.

(** [MPIU_Strncpy] on a destination of [n] bytes, seen through the text it
    leaves there: [None] is an untouched destination ([n = 0]); a negative
    length makes the forced terminator fall outside the destination. *)
Definition strncpy_text {S} (src : cstr) (n : Z) : M S (Z * option cstr) :=
  if n <? 0 then fault_ OutOfBounds
  else if n =? 0 then mret (0, None)
  else mret (bool_Z (n <=? strlen src), Some (take (Z.to_nat (n - 1)) src)).

(** [snprintf (buf, n, ...)] with the formatted text given. *)
Definition snprintf_text (text : cstr) (n : Z) : cstr := take (Z.to_nat (n - 1)) text.

Definition PMIU_Set_rank (PMI_rank : Z) : M pmiu () :=
  modify (set_u_print_id (snprintf_text (L "cli_" ++ show_int PMI_rank) PMIU_IDSIZE)).

Definition PMIU_SetServer : M pmiu () :=
  '(_, t) ← strncpy_text (L "server") PMIU_IDSIZE;
  modify (λ s, set_u_print_id (default (u_print_id s) t) s).

(** ** Reading a line *)

(** One round of the loop up to [ch = *nextChar++]: refill [readbuf] from [fd]
    when it is empty, then take its next character. *)
Inductive getc_res := GetChar (ch : char) | GetEof | GetErr.

Definition PMIU_getc (fd : Z) : M pmiu getc_res :=
  s ← get;
  match u_readbuf s with
  | ch :: rb => modify (set_u_readbuf rb);; mret (GetChar ch)
  | [] =>
      modify (set_u_lastfd fd);;
      r ← zoom (read_eintr fd (MAX_READLINE - 1));
      match r with
      | RdOk [] => mret GetEof
      | RdOk (ch :: rb) => modify (set_u_readbuf rb);; mret (GetChar ch)
      | RdErr | RdIntr => mret GetErr
      end
  end.

(** The loop [while (curlen < maxlen)]: [k] is [maxlen - curlen], [acc] holds
    the characters stored so far, [curlen - 1] of them. *)
Fixpoint readline_loop (fd : Z) (k : nat) (acc : cstr) : M pmiu (Z * cstr) :=
  match k with
  | O => mret (strlen acc, acc)
  | S k =>
      r ← PMIU_getc fd;
      match r with
      | GetEof => mret (strlen acc, acc)
      | GetErr => mret (if bool_decide (acc = []) then -1 else strlen acc, acc)
      | GetChar ch =>
          if ch =c LF then mret (strlen (acc ++ [ch]), acc ++ [ch])
          else readline_loop fd k (acc ++ [ch])
      end
  end.

(** The count returned and the bytes stored in [buf] ([None]: untouched). *)
Definition PMIU_readline (fd maxlen : Z) : M pmiu (Z * option cstr) :=
  s ← get;
  if bool_decide (u_readbuf s ≠ []) && bool_decide (fd ≠ u_lastfd s)
  then mret (-1, None)
  else '(n, b) ← readline_loop fd (Z.to_nat (maxlen - 1)) []; mret (n, Some b).

(** ** Writing a line *)

Definition PMIU_writeline (fd : Z) (buf : cstr) : M pmiu Z :=
  if PMIU_MAXLINE <? strlen buf then mret 0
  else match last buf with
  | None => fault_ OutOfBounds
  | Some c =>
      if c <>c LF then mret 0
      else
        n ← zoom (write_eintr fd buf);
        match n with None => mret (-1) | Some _ => mret 0 end
  end.

(** ** Key=value pairs *)

Definition key_stop (c : char) : bool := (c =c " "%char) || (c =c "="%char) || (c =c LF).
Definition val_stop (c : char) : bool := (c =c " "%char) || (c =c LF).

(** One round of the parser's [while (1)] at the text [p], with the table [tab]
    so far; [next] is the following round.  Entry [KEYVAL_TAB_SIZE] and byte
    [MAXVALLEN] of a value lie outside the table. *)
Definition parse_step (next : list keyval → cstr → outcome (Z * list keyval))
    (tab : list keyval) (p : cstr) : outcome (Z * list keyval) :=
  match snd (break (λ c, c <>c " "%char) p) with
  | [] => Done (0, tab)
  | c :: p' =>
      if c =c "="%char then Done (-1, tab)
      else if c =c LF then Done (0, tab)
      else
        let '(keystart, p) := break key_stop (c :: p') in
        match p with
        | d :: valstart =>
            if d =c "="%char then
              if (KEYVAL_TAB_SIZE <=? length tab)%nat then Fault OutOfBounds
              else
                let key := take (Z.to_nat (MAXKEYLEN - 1)) keystart in
                let '(text, p) := break val_stop valstart in
                let offset := strlen text in
                if MAXVALLEN <=? offset then Fault OutOfBounds
                else
                  let value := take (Z.to_nat offset)
                                 (take (Z.to_nat (MAXVALLEN - 1)) valstart) in
                  let tab := tab ++ [(key, value)] in
                  match p with
                  | e :: _ => if e =c " "%char then next tab p else Done (0, tab)
                  | [] => Done (0, tab)
                  end
            else Done (-1, tab)
        | [] => Done (-1, tab)
        end
  end.

(** [fuel] rounds; [Hang] when they are not enough. *)
Fixpoint parse_loop (fuel : nat) (tab : list keyval) (p : cstr)
    : outcome (Z * list keyval) :=
  match fuel with
  | O => Hang
  | S fuel => parse_step (parse_loop fuel) tab p
  end.

Definition PMIU_parse_keyvals (st : cstr) : M pmiu Z := λ s,
  match parse_loop (S (length st)) [] st with
  | Done (rc, tab) => (Done rc, set_u_tab tab s)
  | Exited z => (Exited z, s)
  | Fault f => (Fault f, s)
  | Hang => (Hang, s)
  end.

(** The first entry whose key is [keystr]. *)
Fixpoint tab_find (keystr : cstr) (tab : list keyval) : option cstr :=
  match tab with
  | [] => None
  | (k, v) :: tab => if str_eq keystr k then Some v else tab_find keystr tab
  end.

(** Whether a pointer (not NULL) is returned, and the text left in [valstr]. *)
Definition PMIU_getval (keystr : cstr) (vallen : Z) : M pmiu (bool * option cstr) :=
  s ← get;
  match tab_find keystr (u_tab s) with
  | Some v => '(rc, t) ← strncpy_text v vallen; mret (rc =? 0, t)
  | None => mret (false, Some [])
  end.

Definition PMIU_chgval (keystr valstr : cstr) : M pmiu () :=
  '(_, t) ← strncpy_text valstr (MAXVALLEN - 1);
  modify (λ s, set_u_tab
    ((λ '(k, v), (k, if str_eq keystr k then default v t else v)) <$> u_tab s) s).

(** ** The stream a descriptor delivers *)

(** Reading from [fd] will give [bs], counting what is still buffered, and
    every write to it is complete. *)
Definition ready (fd : Z) (s : pmiu) (bs : cstr) : Prop :=
  ∃ c, os_fds (u_os s) !! fd = Some c ∧ c_wr c = [] ∧
    (u_readbuf s = [] ∨ u_lastfd s = fd) ∧ u_readbuf s ++ data_of (c_in c) = bs.

(** From [s] to [s'] only the connection [fd] and the reader's buffer changed,
    and [w] was written to it. *)
Record io_step (fd : Z) (w : cstr) (s s' : pmiu) : Prop := {
  io_env : os_env (u_os s') = os_env (u_os s);
  io_print : u_print_id s' = u_print_id s;
  io_other : ∀ fd', fd' ≠ fd → os_fds (u_os s') !! fd' = os_fds (u_os s) !! fd';
  io_out : c_out <$> os_fds (u_os s') !! fd
           = (λ c, c_out c ++ w) <$> os_fds (u_os s) !! fd }.

Lemma io_step_refl fd s : io_step fd [] s s.
Proof.
  constructor; [done..|]. destruct (os_fds (u_os s) !! fd); simpl; [|done].
  by rewrite app_nil_r.
Qed.

Lemma io_step_trans fd w1 w2 s1 s2 s3 :
  io_step fd w1 s1 s2 → io_step fd w2 s2 s3 → io_step fd (w1 ++ w2) s1 s3.
Proof.
  intros [E1 P1 O1 W1] [E2 P2 O2 W2]. constructor; [congruence..| |].
  - intros fd' Hne. by rewrite O2, O1.
  - rewrite W2. revert W1.
    destruct (os_fds (u_os s1) !! fd) as [c1|], (os_fds (u_os s2) !! fd) as [c2|];
      simpl; intros W; [|done..].
    injection W as ->. by rewrite (assoc_L _).
Qed.

Lemma io_step_in fd c evs rb lfd s :
  os_fds (u_os s) !! fd = Some c →
  io_step fd [] s
    (set_u_readbuf rb (set_u_os (set_conn fd (set_in evs c) (u_os s)) (set_u_lastfd lfd s))).
Proof.
  intros Hc. constructor; [done..| |].
  - intros fd' Hne. simpl. by rewrite lookup_insert_ne.
  - simpl. rewrite lookup_insert_eq, Hc. simpl. by rewrite app_nil_r.
Qed.

Lemma getc_ready fd s ch rest :
  ready fd s (ch :: rest) →
  ∃ s', PMIU_getc fd s = (Done (GetChar ch), s') ∧ ready fd s' rest ∧
    io_step fd [] s s' ∧ u_tab s' = u_tab s.
Proof.
  intros (c & Hc & Hwr & Hfd & Hbs). unfold PMIU_getc.
  erewrite bind_done by reflexivity.
  destruct (u_readbuf s) as [|x rb] eqn:Erb; simpl in Hbs.
  - destruct (data_of_pop (MAX_READLINE - 1) _ _ Hbs) as (b & evs' & Hpop & Hb & Hrest);
      [done|unfold MAX_READLINE; lia|].
    destruct b as [|x b]; [done|]. simpl in Hrest. injection Hrest as -> Hrest.
    erewrite bind_done by reflexivity.
    erewrite bind_done.
    2:{ apply zoom_done. apply read_with_done; [exact Hc|exact Hpop]. }
    eexists. split; [reflexivity|]. split.
    + exists (set_in evs' c). simpl. rewrite lookup_insert_eq. auto.
    + split; [exact (io_step_in fd c evs' b fd s Hc)|done].
  - simplify_eq. eexists. split; [reflexivity|]. split.
    + exists c. simpl. destruct Hfd as [?|?]; [congruence|auto].
    + split; [|done]. constructor; [done..|]. simpl.
      destruct (os_fds (u_os s) !! fd); simpl; by rewrite ?app_nil_r.
Qed.

Lemma readline_loop_ready fd line rest k acc s :
  ready fd s (line ++ LF :: rest) → Forall (λ c, c ≠ LF) line → (length line < k)%nat →
  ∃ s', readline_loop fd k acc s
        = (Done (strlen (acc ++ line ++ [LF]), acc ++ line ++ [LF]), s') ∧
    ready fd s' rest ∧ io_step fd [] s s' ∧ u_tab s' = u_tab s.
Proof.
  intros Hr Hl. revert k acc s Hr. induction Hl as [|ch line Hch _ IH]; intros k acc s Hr Hk.
  all: destruct k as [|k]; simpl in Hk; [lia|]; cbn [readline_loop app].
  all: destruct (getc_ready _ _ _ _ Hr) as (s1 & E1 & R1 & I1 & T1).
  all: rewrite (bind_done _ _ _ _ _ E1).
  - rewrite char_eqb_refl. by exists s1.
  - rewrite char_eqb_ne by done.
    destruct (IH k (acc ++ [ch]) s1 R1) as (s2 & E2 & R2 & I2 & T2); [lia|].
    rewrite <-app_assoc in E2. exists s2. split; [done|]. split; [done|].
    split; [by apply (io_step_trans _ [] [] _ s1)|congruence].
Qed.

Lemma readline_line (fd maxlen : Z) (s : pmiu) (line rest : cstr)
    (Hr : ready fd s (line ++ LF :: rest)) (Hl : Forall (λ c, c ≠ LF) line)
    (Hlen : strlen line + 1 < maxlen) :
  ∃ s', PMIU_readline fd maxlen s = (Done (strlen line + 1, Some (line ++ [LF])), s') ∧
    ready fd s' rest ∧ io_step fd [] s s' ∧ u_tab s' = u_tab s.
Proof.
  unfold PMIU_readline, strlen in *. erewrite bind_done by reflexivity.
  destruct (readline_loop_ready fd line rest (Z.to_nat (maxlen - 1)) [] s Hr Hl)
    as (s' & E & R & I & T); [lia|].
  exists s'. split; [|done].
  destruct Hr as (c & _ & _ & [Hb|Hf] & _).
  - rewrite Hb. rewrite bool_decide_false by naive_solver. cbn [andb].
    rewrite (bind_done _ _ _ _ _ E). cbn [app]. unfold mret, M_ret, strlen.
    rewrite length_app. simpl. repeat f_equal. lia.
  - rewrite (bool_decide_false (fd ≠ u_lastfd s)) by naive_solver.
    rewrite andb_false_r, (bind_done _ _ _ _ _ E). cbn [app]. unfold mret, M_ret, strlen.
    rewrite length_app. simpl. repeat f_equal. lia.
Qed.

Lemma readline_loop_bounds fd k acc s n b s' :
  readline_loop fd k acc s = (Done (n, b), s') →
  (length b ≤ length acc + k)%nat ∧ acc `prefix_of` b ∧
  (n = strlen b ∨ (n = -1 ∧ b = [])).
Proof.
  revert acc s. induction k as [|k IH]; intros acc s H; cbn [readline_loop] in H.
  { injection H as <- <- <-. split_and!; [lia|done|by left]. }
  apply bind_done_inv in H as (r & s1 & _ & H). destruct r as [ch| |].
  - destruct (ch =c LF); [injection H as <- <- <-|apply IH in H as (Hl & Hp & Hn)].
    + rewrite length_app. simpl. split_and!; [lia|by eexists|by left].
    + rewrite length_app in Hl. simpl in Hl. split_and!; [lia| |done].
      etrans; [|exact Hp]. by eexists.
  - injection H as <- <- <-. split_and!; [lia|done|by left].
  - injection H as <- <- <-. split_and!; [lia|done|]. case_bool_decide; auto.
Qed.

Lemma readline_loop_no_fault fd k acc s f s' :
  readline_loop fd k acc s ≠ (Fault f, s').
Proof.
  revert acc s. induction k as [|k IH]; intros acc s H; cbn [readline_loop] in H; [done|].
  unfold mbind, M_bind in H.
  destruct (PMIU_getc fd s) as [[[ch| |]|z|f'|] s1] eqn:E; [|done|done|done| |done].
  - destruct (ch =c LF); [done|]. by eapply IH.
  - clear H. unfold PMIU_getc, get, mbind, M_bind in E.
    destruct (u_readbuf s); [|done]. unfold modify, zoom, read_eintr, read_with in E.
    cbn -[pop_read_eintr] in E. by repeat case_match; simplify_eq/=.
Qed.

(** Whatever the peer sends, a read stores at most [maxlen - 1]
    bytes, reports exactly their number (or -1 with nothing stored), leaves the
    buffer alone when the descriptor is not the one the buffered bytes came
    from, and never touches memory outside its buffers. *)
Theorem PMIU_readline_bounds (fd maxlen : Z) (s : pmiu) :
  match PMIU_readline fd maxlen s with
  | (Done (n, Some b), _) =>
      strlen b ≤ Z.max 0 (maxlen - 1) ∧ (n = strlen b ∨ (n = -1 ∧ b = []))
  | (Done (n, None), s') => n = -1 ∧ s' = s
  | (Fault _, _) => False
  | _ => True
  end.
Proof.
  unfold PMIU_readline. erewrite bind_done by reflexivity.
  destruct (bool_decide _ && _); [done|]. unfold mbind, M_bind.
  destruct (readline_loop fd (Z.to_nat (maxlen - 1)) [] s) as [[[n b]|z|f|] s'] eqn:E;
    [|done|by eapply readline_loop_no_fault|done].
  apply readline_loop_bounds in E as (Hl & _ & Hn). simpl in Hl.
  split; [unfold strlen; lia|done].
Qed.

(** ** The parser of key=value lines *)

(** The line the process manager sends for a list of pairs. *)
Fixpoint format_kvs (l : list keyval) : cstr :=
  match l with
  | [] => [LF]
  | [(k, v)] => k ++ "="%char :: v ++ [LF]
  | (k, v) :: l => k ++ "="%char :: v ++ " "%char :: format_kvs l
  end.

(** Pairs that a line can carry. *)
Definition kv_sendable (kv : keyval) : Prop :=
  kv.1 ≠ [] ∧ strlen kv.1 < MAXKEYLEN ∧ Forall (λ c, key_stop c = false) kv.1 ∧
  strlen kv.2 < MAXVALLEN ∧ Forall (λ c, val_stop c = false) kv.2.

#[global] Instance kv_sendable_dec kv : Decision (kv_sendable kv).
Proof. unfold kv_sendable. apply _. Defined.

(** What the table guarantees of its entries. *)
Definition kv_ok (kv : keyval) : Prop := strlen kv.1 < MAXKEYLEN ∧ strlen kv.2 < MAXVALLEN.
Definition tab_ok (tab : list keyval) : Prop :=
  (length tab ≤ KEYVAL_TAB_SIZE)%nat ∧ Forall kv_ok tab.

Lemma break_blanks c s :
  c ≠ " "%char → break (λ c, c <>c " "%char) (c :: s) = ([], c :: s).
Proof. intros Hc. simpl. by rewrite char_eqb_ne. Qed.

Lemma key_stop_not c : key_stop c = false → c ≠ " "%char ∧ c ≠ "="%char ∧ c ≠ LF.
Proof.
  unfold key_stop. intros H. split_and!; intros ->; done.
Qed.

Lemma take_text_rest text rest n :
  strlen text < n →
  take (Z.to_nat (strlen text)) (take (Z.to_nat (n - 1)) (text ++ rest)) = text.
Proof.
  unfold strlen. intros H. rewrite take_take, Nat.min_l by lia.
  rewrite Nat2Z.id. by rewrite take_app_length.
Qed.

(** One pair of the loop. *)
Lemma parse_step_pair next tab k v r :
  kv_sendable (k, v) → (length tab < KEYVAL_TAB_SIZE)%nat →
  match r with c :: _ => val_stop c = true | [] => True end →
  parse_step next tab (k ++ "="%char :: v ++ r) =
  match r with
  | e :: _ => if e =c " "%char then next (tab ++ [(k, v)]) r else Done (0, tab ++ [(k, v)])
  | [] => Done (0, tab ++ [(k, v)])
  end.
Proof.
  intros (Hk & Hkl & Hks & Hvl & Hvs) Htab Hr. simpl in *.
  destruct k as [|c k]; [done|].
  pose proof (Forall_inv Hks) as (Hb & He & Hn)%key_stop_not.
  unfold parse_step. change ((c :: k) ++ ?r) with (c :: k ++ r).
  rewrite break_blanks by done. cbv beta iota delta [snd].
  rewrite (char_eqb_ne c "=") by done. rewrite (char_eqb_ne c LF) by done.
  rewrite (app_comm_cons k), break_app by done. cbv beta iota.
  rewrite char_eqb_refl.
  destruct (Nat.leb_spec KEYVAL_TAB_SIZE (length tab)); [lia|].
  rewrite break_app by done. cbv zeta beta iota.
  destruct (Z.leb_spec MAXVALLEN (strlen v)); [lia|].
  rewrite take_text_rest by done. rewrite (take_ge (c :: k)); [done|].
  unfold MAXKEYLEN, strlen in *. lia.
Qed.

Lemma parse_step_blank next tab p :
  parse_step next tab (" "%char :: p) = parse_step next tab p.
Proof. unfold parse_step. simpl. by destruct (break _ p). Qed.

Lemma parse_loop_format l tab fuel :
  Forall kv_sendable l → (length tab + length l ≤ KEYVAL_TAB_SIZE)%nat →
  (length l < fuel)%nat →
  parse_loop fuel tab (format_kvs l) = Done (0, tab ++ l).
Proof.
  intros Hl. revert tab fuel. induction Hl as [|[k v] l Hkv _ IH]; intros tab fuel Htab Hf.
  all: destruct fuel as [|fuel]; simpl in Hf; [lia|]; simpl in Htab.
  - simpl. by rewrite app_nil_r.
  - cbn [parse_loop]. destruct l as [|kv l].
    + cbn [format_kvs]. by rewrite parse_step_pair by (done || lia).
    + change (format_kvs ((k, v) :: kv :: l))
        with (k ++ "="%char :: v ++ " "%char :: format_kvs (kv :: l)).
      rewrite parse_step_pair by (done || lia). rewrite char_eqb_refl.
      destruct fuel as [|fuel]; [simpl in Hf; lia|].
      cbn [parse_loop]. rewrite parse_step_blank.
      specialize (IH (tab ++ [(k, v)]) (S fuel)). cbn [parse_loop] in IH.
      rewrite IH; [by rewrite <-app_assoc| |simpl in *; lia].
      rewrite length_app. simpl in *. lia.
Qed.

Lemma format_kvs_length l : Forall kv_sendable l → (length l ≤ length (format_kvs l))%nat.
Proof.
  induction 1 as [|[k v] l (Hk & _) _ IH]; simpl; [lia|].
  destruct l; rewrite ?length_app; simpl in *; rewrite ?length_app; simpl; lia.
Qed.

Lemma parse_keyvals_format (l : list keyval) (s : pmiu)
    (Hl : Forall kv_sendable l) (Hn : (length l ≤ KEYVAL_TAB_SIZE)%nat) :
  PMIU_parse_keyvals (format_kvs l) s = (Done 0, set_u_tab l s).
Proof.
  unfold PMIU_parse_keyvals. rewrite parse_loop_format; [done|done|simpl; lia|].
  pose proof (format_kvs_length l Hl). lia.
Qed.

(** The number of [=] in a line bounds the number of pairs in it. *)
Definition count_eq (s : cstr) : nat := length (filter (λ c, c = "="%char) s).

Lemma count_eq_app s t : count_eq (s ++ t) = (count_eq s + count_eq t)%nat.
Proof. unfold count_eq. by rewrite filter_app, length_app. Qed.

Lemma parse_step_inv next tab p :
  (strlen p < MAXVALLEN)%Z → (count_eq p + length tab ≤ KEYVAL_TAB_SIZE)%nat →
  (∃ rc tab', parse_step next tab p = Done (rc, tab') ∧ (rc = 0 ∨ rc = -1) ∧
     (tab' = tab ∨ ∃ kv, kv_ok kv ∧ tab' = tab ++ [kv] ∧ (length tab < KEYVAL_TAB_SIZE)%nat)) ∨
  (∃ kv p', kv_ok kv ∧ (length tab < KEYVAL_TAB_SIZE)%nat ∧
     parse_step next tab p = next (tab ++ [kv]) p' ∧
     (length p' < length p)%nat ∧ (S (count_eq p') ≤ count_eq p)%nat).
Proof.
  unfold strlen, MAXVALLEN. intros Hlen Hcnt. unfold parse_step.
  destruct (break (λ c, c <>c " "%char) p) as [sp p1] eqn:E1.
  apply break_spec in E1 as (-> & _ & _). cbn [snd].
  rewrite length_app in Hlen. rewrite count_eq_app in Hcnt.
  destruct p1 as [|c p1]; [left; eauto 10|].
  destruct (c =c "="%char) eqn:Ec; [left; eauto 10|].
  destruct (c =c LF) eqn:El; [left; eauto 10|].
  destruct (break key_stop (c :: p1)) as [key p2] eqn:E2.
  apply break_spec in E2 as (Ek & _ & _).
  destruct p2 as [|d val]; [left; eauto 10|].
  destruct (d =c "="%char) eqn:Ed; [|left; eauto 10].
  apply Ascii.eqb_eq in Ed as ->. rewrite Ek in Hlen, Hcnt |- *.
  rewrite !length_app in *. rewrite !count_eq_app in *.
  replace (count_eq ("="%char :: val)) with (S (count_eq val)) in * by done.
  simpl length in *.
  destruct (Nat.leb_spec KEYVAL_TAB_SIZE (length tab)); [lia|].
  destruct (break val_stop val) as [text p3] eqn:E3.
  apply break_spec in E3 as (-> & _ & _). rewrite length_app in *. rewrite count_eq_app in *.
  cbv zeta. unfold strlen.
  destruct (Z.leb_spec MAXVALLEN (Z.of_nat (length text))) as [Hb|Hb];
    unfold MAXVALLEN in Hb; [lia|].
  match goal with |- context [tab ++ [?kv]] => set (x := kv) end.
  assert (kv_ok x) as Hx.
  { split; simpl; unfold strlen, MAXKEYLEN, MAXVALLEN; rewrite ?length_take; lia. }
  assert (tab ++ [x] = tab ∨ ∃ kv, kv_ok kv ∧ tab ++ [x] = tab ++ [kv]
    ∧ (length tab < KEYVAL_TAB_SIZE)%nat) by (right; by exists x).
  destruct p3 as [|e p3]; [left; exists 0, (tab ++ [x]); auto|].
  destruct (e =c " "%char); [|left; exists 0, (tab ++ [x]); auto].
  right. exists x, (e :: p3). do 3 (split; [done|]). simpl in *. lia.
Qed.

Lemma parse_loop_safe fuel tab p :
  (strlen p < MAXVALLEN)%Z → (count_eq p + length tab ≤ KEYVAL_TAB_SIZE)%nat →
  (length p < fuel)%nat → Forall kv_ok tab →
  ∃ rc tab', parse_loop fuel tab p = Done (rc, tab') ∧ (rc = 0 ∨ rc = -1) ∧ tab_ok tab'.
Proof.
  revert tab p. induction fuel as [|fuel IH]; intros tab p Hlen Hcnt Hf Hok; [lia|].
  cbn [parse_loop].
  destruct (parse_step_inv (parse_loop fuel) tab p Hlen Hcnt)
    as [(rc & tab' & -> & Hrc & Htab)|(kv & p' & Hkv & Hlt & -> & Hl & Hc)].
  - exists rc, tab'. split_and!; [done|done|].
    destruct Htab as [->|(kv & Hkv & -> & Hlt)]; split; [lia|done| |].
    + rewrite length_app. simpl. lia.
    + by apply Forall_app_2; [|constructor].
  - apply IH; [unfold strlen in *; lia| |lia|].
    + rewrite length_app. simpl. lia.
    + by apply Forall_app_2; [|constructor].
Qed.

(** A line shorter than the line buffer with at most 64 [=] signs is
    parsed without leaving the table, whether or not it is well formed: the
    parser ends, reports 0 or -1, and leaves at most 64 entries whose keys and
    values fit their fields. *)
Theorem PMIU_parse_keyvals_safe (st : cstr) (s : pmiu)
    (Hlen : strlen st < PMIU_MAXLINE) (Heq : (count_eq st ≤ KEYVAL_TAB_SIZE)%nat) :
  ∃ rc s', PMIU_parse_keyvals st s = (Done rc, s') ∧ (rc = 0 ∨ rc = -1) ∧
    tab_ok (u_tab s') ∧ s' = set_u_tab (u_tab s') s.
Proof.
  unfold PMIU_parse_keyvals.
  destruct (parse_loop_safe (S (length st)) [] st) as (rc & tab' & -> & Hrc & Hok);
    [done|simpl; lia|lia|done|].
  by exists rc, (set_u_tab tab' s).
Qed.

(** A line of 65 pairs that fits the line buffer runs past the table. *)
Definition crowded_line : cstr := concat (replicate 65 (L "a= ")).

(** The table has no check for its 64 entries: a line of 65 short
    pairs, well inside the line buffer, makes the parser store past the end. *)
Theorem PMIU_parse_keyvals_overflow (s : pmiu) :
  strlen crowded_line < PMIU_MAXLINE ∧
  PMIU_parse_keyvals crowded_line s = (Fault OutOfBounds, s).
Proof. split; vm_compute; reflexivity. Qed.

Lemma tab_find_lookup k l : tab_find k l = None ↔ k ∉ l.*1.
Proof.
  induction l as [|[k' v] l IH]; simpl.
  { split; [intros _; apply not_elem_of_nil|done]. }
  rewrite not_elem_of_cons. destruct (str_eq k k') eqn:E.
  - apply str_eq_true in E as ->. split; [done|]. by intros [].
  - assert (k ≠ k') by (intros ->; by rewrite str_eq_refl in E). tauto.
Qed.

Lemma PMIU_getval_found k v n s :
  tab_find k (u_tab s) = Some v → strlen v < n →
  PMIU_getval k n s = (Done (true, Some v), s).
Proof.
  intros Hf Hn. unfold PMIU_getval. erewrite bind_done by reflexivity. rewrite Hf.
  unfold strncpy_text, strlen in *.
  destruct (Z.ltb_spec n 0); [lia|]. destruct (Z.eqb_spec n 0); [lia|].
  erewrite bind_done by reflexivity. unfold mret, M_ret, strlen.
  destruct (Z.leb_spec n (Z.of_nat (length v))); [lia|].
  rewrite take_ge by lia. done.
Qed.

Lemma PMIU_getval_missing k n s :
  tab_find k (u_tab s) = None → PMIU_getval k n s = (Done (false, Some []), s).
Proof. intros Hf. unfold PMIU_getval. erewrite bind_done by reflexivity. by rewrite Hf. Qed.

Lemma PMIU_getval_trunc k v n s :
  tab_find k (u_tab s) = Some v → 0 < n ≤ strlen v →
  PMIU_getval k n s = (Done (false, Some (take (Z.to_nat (n - 1)) v)), s).
Proof.
  intros Hf Hn. unfold PMIU_getval. erewrite bind_done by reflexivity. rewrite Hf.
  unfold strncpy_text, strlen in *.
  destruct (Z.ltb_spec n 0); [lia|]. destruct (Z.eqb_spec n 0); [lia|].
  erewrite bind_done by reflexivity. unfold mret, M_ret, strlen.
  destruct (Z.leb_spec n (Z.of_nat (length v))); [done|lia].
Qed.

(** Writing a complete line. *)
Lemma PMIU_writeline_ready fd line s bs :
  ready fd s bs → strlen line < PMIU_MAXLINE →
  ∃ s', PMIU_writeline fd (line ++ [LF]) s = (Done 0, s') ∧ ready fd s' bs ∧
    io_step fd (line ++ [LF]) s s' ∧ u_tab s' = u_tab s.
Proof.
  intros (c & Hc & Hwr & Hfd & Hbs) Hl. unfold PMIU_writeline, strlen, PMIU_MAXLINE in *.
  rewrite length_app.
  destruct (Z.ltb_spec 1024 (Z.of_nat (length line + length [LF]))) as [Hlt|_];
    [simpl in Hlt; lia|].
  rewrite last_snoc, char_eqb_refl. cbv beta iota delta [negb].
  erewrite bind_done by (apply zoom_done, write_eintr_all; done).
  eexists. split; [reflexivity|]. split; [|split; [|done]].
  - exists (Conn (c_in c) [] (c_out c ++ line ++ [LF])). simpl.
    rewrite lookup_insert_eq. auto.
  - constructor; [done..| |].
    + intros fd' Hne. simpl. by rewrite lookup_insert_ne.
    + simpl. by rewrite lookup_insert_eq, Hc.
Qed.

(** ** Messages *)

Lemma ready_set_tab fd t s bs : ready fd (set_u_tab t s) bs ↔ ready fd s bs.
Proof. done. Qed.

Lemma io_step_set_tab fd w t s s' : io_step fd w s s' → io_step fd w s (set_u_tab t s').
Proof. by intros [? ? ? ?]. Qed.

(** A message is one line. *)
Lemma format_kvs_line l :
  Forall kv_sendable l →
  ∃ body, format_kvs l = body ++ [LF] ∧ Forall (λ c, c ≠ LF) body.
Proof.
  induction 1 as [|[k v] l (_ & _ & Hk & _ & Hv) _ (body & E & Hb)].
  { by exists []. }
  assert (Forall (λ c, c ≠ LF) (k ++ "="%char :: v)) as Hkv.
  { apply Forall_app_2; [|constructor; [done|]].
    - eapply Forall_impl; [exact Hk|]. by intros c (_ & _ & ?)%key_stop_not.
    - eapply Forall_impl; [exact Hv|]. intros c Hc ->. unfold val_stop in Hc.
      by rewrite orb_true_r in Hc. }
  destruct l as [|kv l].
  - exists (k ++ "="%char :: v). split; [|done]. cbn [format_kvs]. by rewrite <-app_assoc.
  - exists ((k ++ "="%char :: v) ++ " "%char :: body). split.
    + change (format_kvs ((k, v) :: kv :: l))
        with (k ++ "="%char :: v ++ " "%char :: format_kvs (kv :: l)).
      rewrite E. by rewrite <-!app_assoc.
    + apply Forall_app_2; [done|]. by constructor.
Qed.

(** What the process manager is about to send on [fd]: the pairs [l] as one
    line that fits the buffers, then [rest]. *)
Record sends (fd : Z) (s : pmiu) (l : list keyval) (rest : cstr) : Prop := {
  sends_ready : ready fd s (format_kvs l ++ rest);
  sends_pairs : Forall kv_sendable l;
  sends_count : (length l ≤ KEYVAL_TAB_SIZE)%nat;
  sends_fits : strlen (format_kvs l) < PMIU_MAXLINE }.

(** Reading and parsing such a message. *)
Lemma read_message fd s l rest :
  sends fd s l rest →
  ∃ buf s1, PMIU_readline fd PMIU_MAXLINE s = (Done (strlen buf, Some buf), s1) ∧
    0 < strlen buf ∧
    PMIU_parse_keyvals buf s1 = (Done 0, set_u_tab l s1) ∧
    ready fd s1 rest ∧ io_step fd [] s s1.
Proof.
  intros [Hr Hl Hn Hf]. destruct (format_kvs_line l Hl) as (body & E & Hb).
  pose proof (parse_keyvals_format l) as Hp. rewrite E in Hr, Hf, Hp.
  rewrite <-app_assoc in Hr. unfold strlen in Hf. rewrite length_app in Hf. simpl in Hf.
  destruct (readline_line fd PMIU_MAXLINE s body rest Hr Hb) as (s1 & E1 & R1 & I1 & T1).
  { unfold strlen. lia. }
  exists (body ++ [LF]), s1. rewrite E1. unfold strlen. rewrite length_app. simpl.
  split; [repeat f_equal; lia|]. split; [lia|]. split; [by apply Hp|done].
Qed.

Lemma tab_find_kv_ok k v l :
  Forall kv_sendable l → tab_find k l = Some v → strlen v < MAXVALLEN.
Proof.
  induction 1 as [|[k' v'] l (_ & _ & _ & Hv & _) _ IH]; simpl; [done|].
  destruct (str_eq k k'); [by intros [= <-]|done].
Qed.

(** Reading from a silent peer blocks. *)
Lemma getc_blocks fd c s :
  os_fds (u_os s) !! fd = Some c → c_in c = [] → u_readbuf s = [] →
  PMIU_getc fd s = (Hang, set_u_lastfd fd s).
Proof.
  intros Hc Hin Hb. unfold PMIU_getc. erewrite bind_done by reflexivity. rewrite Hb.
  erewrite bind_done by reflexivity. apply bind_hang.
  unfold zoom, read_eintr, read_with. cbn -[MAX_READLINE pop_read_eintr].
  rewrite Hc, Hin. simpl. by destruct s.
Qed.

Lemma readline_blocks fd n c s :
  1 < n → os_fds (u_os s) !! fd = Some c → c_in c = [] → u_readbuf s = [] →
  PMIU_readline fd n s = (Hang, set_u_lastfd fd s).
Proof.
  intros Hn Hc Hin Hb. unfold PMIU_readline. erewrite bind_done by reflexivity. rewrite Hb.
  rewrite (bool_decide_false ([] ≠ [])) by auto. cbn [andb].
  destruct (Z.to_nat (n - 1)) as [|k] eqn:Ek; [lia|].
  apply bind_hang. cbn [readline_loop]. apply bind_hang. by apply (getc_blocks fd c).
Qed.

(** ** Properties *)

(** A line of the stream is read whole, with its newline, however the
    bytes are cut into segments and whatever signals interrupt the reads; what
    follows it stays available to the next call, nothing is written and the
    table of pairs is untouched. *)
Theorem PMIU_readline_line (fd maxlen : Z) (s : pmiu) (line rest : cstr)
    (Hr : ready fd s (line ++ LF :: rest)) (Hl : Forall (λ c, c ≠ LF) line)
    (Hlen : strlen line + 1 < maxlen) :
  ∃ s', PMIU_readline fd maxlen s = (Done (strlen line + 1, Some (line ++ [LF])), s') ∧
    ready fd s' rest ∧ io_step fd [] s s' ∧ u_tab s' = u_tab s.
Proof. by apply readline_line. Qed.

(** C33: the parser inverts the formatting of a message: a line made of at
    most 64 pairs, with keys and values that fit and hold no separator, leaves
    exactly these pairs in the table. *)
Theorem PMIU_parse_keyvals_format (l : list keyval) (s : pmiu)
    (Hl : Forall kv_sendable l) (Hn : (length l ≤ KEYVAL_TAB_SIZE)%nat) :
  PMIU_parse_keyvals (format_kvs l) s = (Done 0, set_u_tab l s).
Proof. by apply parse_keyvals_format. Qed.

(** ** The properties at concrete inputs *)

(** A process connected to the process manager on descriptor 5: two segments
    cut a line in the middle, with a signal in between. *)
Definition demo_net : net := Net [] [] [] 4242 [] false.
Definition demo_os (evs : list in_event) : os :=
  OS ∅ {[ 5 := Conn evs [] [] ]} demo_net.
Definition demo_pmiu (evs : list in_event) : pmiu := PMIU (demo_os evs) [] [] (-1) (L "unset").

Lemma demo_ready evs : ready 5 (demo_pmiu evs) (data_of evs).
Proof. exists (Conn evs [] []). split_and!; [vm_compute; reflexivity|done|by left|done]. Qed.

Definition cut_line : list in_event :=
  [InData (L "cmd=put_"); InIntr; InData (L "result rc=0" ++ [LF] ++ L "cmd")].

Lemma PMIU_readline_line_witness :
  ∃ s', PMIU_readline 5 64 (demo_pmiu cut_line)
        = (Done (20, Some (L "cmd=put_result rc=0" ++ [LF])), s') ∧
    ready 5 s' (L "cmd") ∧ io_step 5 [] (demo_pmiu cut_line) s' ∧ u_tab s' = [].
Proof.
  apply (PMIU_readline_line 5 64 (demo_pmiu cut_line) (L "cmd=put_result rc=0") (L "cmd")).
  - apply (demo_ready cut_line).
  - by apply (bool_decide_unpack _).
  - vm_compute. reflexivity.
Defined.

Definition demo_pairs : list keyval := [(L "cmd", L "put_result"); (L "rc", L "0")].

Lemma PMIU_parse_keyvals_format_witness :
  PMIU_parse_keyvals (L "cmd=put_result rc=0" ++ [LF]) (demo_pmiu [])
  = (Done 0, set_u_tab demo_pairs (demo_pmiu [])).
Proof.
  apply (PMIU_parse_keyvals_format demo_pairs).
  - by apply (bool_decide_unpack _).
  - vm_compute. lia.
Defined.

Lemma PMIU_parse_keyvals_safe_witness :
  ∃ rc s', PMIU_parse_keyvals (L "cmd=a =b") (demo_pmiu []) = (Done rc, s') ∧
    (rc = 0 ∨ rc = -1) ∧ tab_ok (u_tab s') ∧ s' = set_u_tab (u_tab s') (demo_pmiu []).
Proof.
  apply (PMIU_parse_keyvals_safe (L "cmd=a =b")); [vm_compute; reflexivity|vm_compute; lia].
Defined.
