(* ===== verification/PmiPrint.v ===== *)
(** * The diagnostics of PMI-1 (simple_pmiutil.c)

    [PMIU_printf] chooses where to write when it is first called, by the
    environment, and keeps the choice in a static variable.  A message is given
    as the text [vfprintf] makes of it. *)

From S2P Require Import Prelude CLib OS SafeStr PmiUtil.

Local Open Scope Z_scope.

Inductive log_file := LogStderr | LogFile (filename : cstr).

(** The static variable [logfile], what was written where, [PMIU_print_id] and
    the environment. *)
Record printer := Printer {
  logfile : option log_file;
  pr_out : list (log_file * cstr);
  pr_id : cstr;
  pr_os : os }.

Definition set_logfile (l : option log_file) (s : printer) : printer :=
  Printer l (pr_out s) (pr_id s) (pr_os s).
Definition pr_write (l : log_file) (t : cstr) (s : printer) : printer :=
  Printer (logfile s) (pr_out s ++ [(l, t)]) (pr_id s) (pr_os s).

Section printf.
(** Whether [fopen] of a name for writing succeeds. *)
Context (fopen : cstr → bool).

Definition open_log (filename : cstr) : M printer () :=
  modify (set_logfile (if fopen filename then Some (LogFile filename) else None)).

Definition PMIU_printf (print_flag : bool) (msg : cstr) : M printer () :=
  s ← get;
  (match logfile s with
   | Some _ => mret tt
   | None =>
       match os_env (pr_os s) !! "PMI_USE_LOGFILE"%string with
       | Some _ =>
           match os_env (pr_os s) !! "PMI_ID"%string with
           | Some p => open_log (take 1023 (L "testclient-" ++ p ++ L ".out"))
           | None => open_log (L "testserver.out")
           end
       | None => modify (set_logfile (Some LogStderr))
       end
   end);;
  if print_flag then
    s ← get;
    l ← or_fault NullDeref (logfile s);
    modify (pr_write l (L "[" ++ pr_id s ++ L "]: " ++ msg))
  else mret tt.

Fixpoint printfs (l : list (bool * cstr)) : M printer () :=
  match l with
  | [] => mret tt
  | (f, msg) :: l => PMIU_printf f msg;; printfs l
  end.

(** The table of the pairs of a line. *)
Fixpoint PMIU_dump_keyvals (tab : list keyval) : M printer () :=
  match tab with
  | [] => mret tt
  | kv :: tab => PMIU_printf true (L "  " ++ kv.1 ++ L "=" ++ kv.2 ++ [LF]);; PMIU_dump_keyvals tab
  end.

(** Where an environment sends the diagnostics: [None] when the file cannot be
    opened. *)
Definition destination (e : gmap string cstr) : option log_file :=
  match e !! "PMI_USE_LOGFILE"%string with
  | None => Some LogStderr
  | Some _ =>
      let name := match e !! "PMI_ID"%string with
                  | Some p => take 1023 (L "testclient-" ++ p ++ L ".out")
                  | None => L "testserver.out"
                  end in
      if fopen name then Some (LogFile name) else None
  end.

Lemma PMIU_printf_run f msg s :
  logfile s = None ∨ logfile s = destination (os_env (pr_os s)) →
  PMIU_printf f msg s =
    let s' := set_logfile (destination (os_env (pr_os s))) s in
    if f then match destination (os_env (pr_os s)) with
              | Some l => (Done tt, pr_write l (L "[" ++ pr_id s ++ L "]: " ++ msg) s')
              | None => (Fault NullDeref, s')
              end
    else (Done tt, s').
Proof.
  intros Hs. destruct s as [lf out id o]. cbn [logfile pr_os] in *. unfold PMIU_printf. rewrite bind_get. cbn [logfile].
  assert (∀ d (k : () → M printer ()), d = destination (os_env o) →
    k tt (set_logfile d (Printer lf out id o)) = k tt (set_logfile (destination (os_env o)) (Printer lf out id o)))
    as Hk by (by intros ? ? ->).
  assert ((match lf with
     | Some _ => mret tt
     | None => match os_env o !! "PMI_USE_LOGFILE"%string with
       | Some _ => match os_env o !! "PMI_ID"%string with
                   | Some p => open_log (take 1023 (L "testclient-" ++ p ++ L ".out"))
                   | None => open_log (L "testserver.out")
                   end
       | None => modify (set_logfile (Some LogStderr))
       end
     end) (Printer lf out id o) = (Done tt, set_logfile (destination (os_env o)) (Printer lf out id o))) as E.
  { destruct lf as [l|]; [destruct Hs as [|<-]; done|]. unfold destination, open_log.
    destruct (os_env o !! "PMI_USE_LOGFILE"%string); [|done]. by destruct (os_env o !! "PMI_ID"%string). }
  cbn [pr_os]. erewrite bind_done by exact E. destruct f; [|done]. rewrite bind_get. cbn [logfile set_logfile].
  by destruct (destination (os_env o)).
Qed.

(** Whatever was or was not printed before, the diagnostics of a process go to one
    place, in the order of the calls.  When the log file cannot be opened the
    first message that is to be printed is written to NULL. *)
Theorem PMIU_printf_log (l : list (bool * cstr)) (s : printer) (Hs : logfile s = None) :
  (printfs l s).1 =
    (match destination (os_env (pr_os s)) with
     | Some _ => Done tt
     | None => if existsb fst l then Fault NullDeref else Done tt
     end) ∧
  pr_out (printfs l s).2 = pr_out s ++
    (match destination (os_env (pr_os s)) with
     | Some d => (λ m, (d, L "[" ++ pr_id s ++ L "]: " ++ m.2)) <$> filter (λ m, m.1 = true) l
     | None => []
     end).
Proof.
  assert (logfile s = None ∨ logfile s = destination (os_env (pr_os s))) as H by by left. clear Hs.
  revert s H. induction l as [|[f msg] l IH]; intros s H; cbn [printfs existsb].
  { cbn. destruct (destination _); by rewrite app_nil_r. }
  pose proof (PMIU_printf_run f msg s H) as E. cbv zeta in E.
  destruct f; destruct (destination (os_env (pr_os s))) as [d|] eqn:Ed; cbn [orb].
  - erewrite bind_done by exact E. rewrite filter_cons_True by done.
    destruct (IH (pr_write d (L "[" ++ pr_id s ++ L "]: " ++ msg) (set_logfile (Some d) s))) as [I1 I2];
      [right; cbn; by rewrite Ed|]. cbn [pr_os pr_write set_logfile pr_out pr_id] in I1, I2. rewrite Ed in I1, I2.
    split; [exact I1|]. rewrite I2. cbn. by rewrite <-(assoc_L app).
  - rewrite (bind_fault _ _ _ _ _ E). cbn. by rewrite app_nil_r.
  - erewrite bind_done by exact E. rewrite filter_cons_False by done.
    destruct (IH (set_logfile (Some d) s)) as [I1 I2]; [right; cbn; by rewrite Ed|].
    cbn [pr_os set_logfile pr_out pr_id] in I1, I2. by rewrite Ed in I1, I2.
  - erewrite bind_done by exact E.
    destruct (IH (set_logfile None s)) as [I1 I2]; [by left|].
    cbn [pr_os set_logfile pr_out pr_id] in I1, I2. by rewrite Ed in I1, I2.
Qed.

(** A dump is a run of such calls, so all of the table goes to the same place. *)
Lemma PMIU_dump_printfs tab s :
  PMIU_dump_keyvals tab s = printfs ((λ kv, (true, L "  " ++ kv.1 ++ L "=" ++ kv.2 ++ [LF])) <$> tab) s.
Proof.
  revert s. induction tab as [|kv tab IH]; intros s; [done|]. cbn [PMIU_dump_keyvals fmap list_fmap printfs].
  apply bind_ext. intros [] s'. apply IH.
Qed.
End printf.

Definition demo_printer : printer :=
  Printer None [] (L "cli_3") (OS (<["PMI_USE_LOGFILE"%string := L "1"]> (<["PMI_ID"%string := L "3"]> ∅)) ∅ (Net [] [] [] 1 [] true)).

Lemma PMIU_printf_log_witness :
  (printfs (λ _, true) [(false, L "a"); (true, L "b")] demo_printer).1 = Done tt ∧
  pr_out (printfs (λ _, true) [(false, L "a"); (true, L "b")] demo_printer).2 =
    [(LogFile (L "testclient-3.out"), L "[cli_3]: b")].
Proof.
  destruct (PMIU_printf_log (λ _, true) [(false, L "a"); (true, L "b")] demo_printer eq_refl) as [H1 H2].
  split; [rewrite H1; vm_compute; reflexivity|rewrite H2; vm_compute; reflexivity].
Defined.
