(* ===== verification/ErrCodes.v ===== *)
(** * The list of error codes of a spawn

    The loop that splits the comma-separated codes and stores them into the
    caller's array, the same text in simple_pmi.c ([PMI_Spawn_multiple]) and
    pmi2_api.c ([PMI2_Job_Spawn]). *)

From S2P Require Import Prelude CLib.

Local Open Scope Z_scope.

(** The pieces of [s] between the separators: the [strchr] loop over the list
    of error codes. *)
Fixpoint split_on (sep : char) (s : cstr) : list cstr :=
  match s with
  | [] => [[]]
  | c :: s =>
      if c =c sep then [] :: split_on sep s
      else match split_on sep s with
           | x :: xs => (c :: x) :: xs
           | [] => [[c]]
           end
  end.

(** [errors[i++] = code] for each code; the array has a fixed size. *)
Fixpoint store_codes (i : nat) (codes : list Z) (errors : list Z) : option (list Z) :=
  match codes with
  | [] => Some errors
  | c :: codes =>
      if (i <? length errors)%nat then store_codes (S i) codes (<[i := c]> errors) else None
  end.

(** ** Laws *)

Lemma split_on_clean sep x : Forall (λ c, c ≠ sep) x → split_on sep x = [x].
Proof.
  induction 1 as [|c x Hc _ IH]; simpl; [done|]. by rewrite char_eqb_ne, IH.
Qed.

Lemma split_on_app sep x s :
  Forall (λ c, c ≠ sep) x → split_on sep (x ++ sep :: s) = x :: split_on sep s.
Proof.
  induction 1 as [|c x Hc _ IH]; simpl; [by rewrite char_eqb_refl|].
  by rewrite char_eqb_ne, IH.
Qed.

Lemma split_on_join sep l :
  l ≠ [] → Forall (Forall (λ c, c ≠ sep)) l → split_on sep (join_on sep l) = l.
Proof.
  intros Hne Hl. induction Hl as [|x l Hx Hl IH]; [done|].
  destruct l as [|y l]; [by apply split_on_clean|].
  change (join_on sep (x :: y :: l)) with (x ++ sep :: join_on sep (y :: l)).
  rewrite split_on_app by done. by rewrite IH.
Qed.

Lemma store_codes_eq codes i errors :
  store_codes i codes errors =
  if decide (codes = [] ∨ i + length codes ≤ length errors)%nat
  then Some (take i errors ++ codes ++ drop (i + length codes) errors) else None.
Proof.
  revert i errors. induction codes as [|c codes IH]; intros i errors; cbn [store_codes].
  - rewrite decide_True by auto. simpl. by rewrite Nat.add_0_r, take_drop.
  - destruct (Nat.ltb_spec i (length errors)) as [Hi|Hi].
    + rewrite IH, length_insert.
      destruct (decide (S i + length codes ≤ length errors)%nat) as [Hl|Hl].
      * rewrite !decide_True by (right; simpl; lia). f_equal.
        rewrite insert_take_drop by done.
        rewrite take_app_ge by (rewrite length_take; lia).
        rewrite length_take, Nat.min_l by lia. replace (S i - i)%nat with 1%nat by lia.
        rewrite drop_app_ge by (rewrite length_take; lia).
        rewrite length_take, Nat.min_l by lia.
        replace (S i + length codes - i)%nat with (S (length codes)) by lia.
        cbn [take drop length]. rewrite drop_drop, <-(assoc_L app). simpl. do 4 f_equal. lia.
      * destruct codes as [|c' codes].
        { exfalso. simpl in Hl. lia. }
        rewrite !decide_False; [done|simpl in *; intros [?|?]; [done|lia]..].
    + rewrite decide_False; [done|]. simpl. intros [?|?]; [done|lia].
Qed.

(** Decimal codes between commas are read back. *)
Lemma split_codes codes :
  codes ≠ [] → Forall is_int codes →
  atoi <$> split_on ","%char (join_on ","%char (show_int <$> codes)) = codes.
Proof.
  intros Hne Hint. rewrite split_on_join.
  - induction Hint as [|z codes Hz _ IH]; [done|]. cbn [fmap list_fmap].
    rewrite atoi_show_int_nil by done. f_equal. destruct codes; [done|]. by apply IH.
  - by destruct codes.
  - apply Forall_fmap, Forall_true. intros z. apply show_int_no_comma.
Qed.
