(* ===== verification/Pmi1.v ===== *)
(** * The PMI-1 client (modules/pmi/pmi1/simple/simple_pmi.c)

    The static variables of the file over the state of its utilities, the
    request/response exchange with the process manager, and the PMI-1 calls:
    initialisation (from the environment, from a port, as a singleton that
    connects later), key-value space, name publishing, spawning.  The header
    pmi.h defines [USE_PMI_PORT], so the port code is part of the program.  A
    value stored through a pointer argument is returned beside the return code,
    as an option: [None] when the call leaves it alone. *)

From S2P Require Import Prelude CLib OS SafeStr PmiUtil ErrCodes.

Local Open Scope Z_scope.

Definition PMI_SUCCESS : Z := 0.
Definition PMI_FAIL : Z := -1.
Definition PMI_ERR_INVALID_ARG : Z := 3.
Definition PMI_VERSION : Z := 1.
Definition PMI_SUBVERSION : Z := 1.
Definition MPI_MAX_PORT_NAME : Z := 256.
Definition MAXHOSTNAME : Z := 256.

Inductive PMIState :=
  | PMI_UNINITIALIZED
  | SINGLETON_INIT_BUT_NO_PM
  | NORMAL_INIT_WITH_PM
  | SINGLETON_INIT_WITH_PM.

#[global] Instance PMIState_eq_dec : EqDecision PMIState.
Proof. solve_decision. Defined.

(** [PMI_initialized > SINGLETON_INIT_BUT_NO_PM]. *)
Definition with_pm (st : PMIState) : bool :=
  match st with NORMAL_INIT_WITH_PM | SINGLETON_INIT_WITH_PM => true | _ => false end.

(** The static variables of the file; [firstcall] belongs to
    [PMIi_InitIfSingleton]. *)
Record pmi1 := Pmi1 {
  p_u : pmiu;
  PMI_fd : Z;
  PMI_size : Z;
  PMI_rank : Z;
  PMI_initialized : PMIState;
  PMI_kvsname_max : Z;
  PMI_keylen_max : Z;
  PMI_vallen_max : Z;
  PMI_debug : Z;
  PMI_spawned : Z;
  PMI_totalview : Z;
  cached_singinit_key : cstr;
  cached_singinit_val : cstr;
  firstcall : bool;
  singinit_kvsname : cstr }.

Definition set_p_u (v : pmiu) (s : pmi1) : pmi1 :=
  Pmi1 v (PMI_fd s) (PMI_size s) (PMI_rank s) (PMI_initialized s) (PMI_kvsname_max s)
    (PMI_keylen_max s) (PMI_vallen_max s) (PMI_debug s) (PMI_spawned s) (PMI_totalview s)
    (cached_singinit_key s) (cached_singinit_val s) (firstcall s) (singinit_kvsname s).
Definition set_PMI_fd (v : Z) (s : pmi1) : pmi1 :=
  Pmi1 (p_u s) v (PMI_size s) (PMI_rank s) (PMI_initialized s) (PMI_kvsname_max s)
    (PMI_keylen_max s) (PMI_vallen_max s) (PMI_debug s) (PMI_spawned s) (PMI_totalview s)
    (cached_singinit_key s) (cached_singinit_val s) (firstcall s) (singinit_kvsname s).
Definition set_PMI_size (v : Z) (s : pmi1) : pmi1 :=
  Pmi1 (p_u s) (PMI_fd s) v (PMI_rank s) (PMI_initialized s) (PMI_kvsname_max s)
    (PMI_keylen_max s) (PMI_vallen_max s) (PMI_debug s) (PMI_spawned s) (PMI_totalview s)
    (cached_singinit_key s) (cached_singinit_val s) (firstcall s) (singinit_kvsname s).
Definition set_PMI_rank (v : Z) (s : pmi1) : pmi1 :=
  Pmi1 (p_u s) (PMI_fd s) (PMI_size s) v (PMI_initialized s) (PMI_kvsname_max s)
    (PMI_keylen_max s) (PMI_vallen_max s) (PMI_debug s) (PMI_spawned s) (PMI_totalview s)
    (cached_singinit_key s) (cached_singinit_val s) (firstcall s) (singinit_kvsname s).
Definition set_PMI_initialized (v : PMIState) (s : pmi1) : pmi1 :=
  Pmi1 (p_u s) (PMI_fd s) (PMI_size s) (PMI_rank s) v (PMI_kvsname_max s) (PMI_keylen_max s)
    (PMI_vallen_max s) (PMI_debug s) (PMI_spawned s) (PMI_totalview s)
    (cached_singinit_key s) (cached_singinit_val s) (firstcall s) (singinit_kvsname s).
Definition set_PMI_kvsname_max (v : Z) (s : pmi1) : pmi1 :=
  Pmi1 (p_u s) (PMI_fd s) (PMI_size s) (PMI_rank s) (PMI_initialized s) v (PMI_keylen_max s)
    (PMI_vallen_max s) (PMI_debug s) (PMI_spawned s) (PMI_totalview s)
    (cached_singinit_key s) (cached_singinit_val s) (firstcall s) (singinit_kvsname s).
Definition set_PMI_keylen_max (v : Z) (s : pmi1) : pmi1 :=
  Pmi1 (p_u s) (PMI_fd s) (PMI_size s) (PMI_rank s) (PMI_initialized s) (PMI_kvsname_max s)
    v (PMI_vallen_max s) (PMI_debug s) (PMI_spawned s) (PMI_totalview s)
    (cached_singinit_key s) (cached_singinit_val s) (firstcall s) (singinit_kvsname s).
Definition set_PMI_vallen_max (v : Z) (s : pmi1) : pmi1 :=
  Pmi1 (p_u s) (PMI_fd s) (PMI_size s) (PMI_rank s) (PMI_initialized s) (PMI_kvsname_max s)
    (PMI_keylen_max s) v (PMI_debug s) (PMI_spawned s) (PMI_totalview s)
    (cached_singinit_key s) (cached_singinit_val s) (firstcall s) (singinit_kvsname s).
Definition set_PMI_debug (v : Z) (s : pmi1) : pmi1 :=
  Pmi1 (p_u s) (PMI_fd s) (PMI_size s) (PMI_rank s) (PMI_initialized s) (PMI_kvsname_max s)
    (PMI_keylen_max s) (PMI_vallen_max s) v (PMI_spawned s) (PMI_totalview s)
    (cached_singinit_key s) (cached_singinit_val s) (firstcall s) (singinit_kvsname s).
Definition set_PMI_spawned (v : Z) (s : pmi1) : pmi1 :=
  Pmi1 (p_u s) (PMI_fd s) (PMI_size s) (PMI_rank s) (PMI_initialized s) (PMI_kvsname_max s)
    (PMI_keylen_max s) (PMI_vallen_max s) (PMI_debug s) v (PMI_totalview s)
    (cached_singinit_key s) (cached_singinit_val s) (firstcall s) (singinit_kvsname s).
Definition set_PMI_totalview (v : Z) (s : pmi1) : pmi1 :=
  Pmi1 (p_u s) (PMI_fd s) (PMI_size s) (PMI_rank s) (PMI_initialized s) (PMI_kvsname_max s)
    (PMI_keylen_max s) (PMI_vallen_max s) (PMI_debug s) (PMI_spawned s) v
    (cached_singinit_key s) (cached_singinit_val s) (firstcall s) (singinit_kvsname s).
Definition set_cached_singinit_key (v : cstr) (s : pmi1) : pmi1 :=
  Pmi1 (p_u s) (PMI_fd s) (PMI_size s) (PMI_rank s) (PMI_initialized s) (PMI_kvsname_max s)
    (PMI_keylen_max s) (PMI_vallen_max s) (PMI_debug s) (PMI_spawned s) (PMI_totalview s) v
    (cached_singinit_val s) (firstcall s) (singinit_kvsname s).
Definition set_cached_singinit_val (v : cstr) (s : pmi1) : pmi1 :=
  Pmi1 (p_u s) (PMI_fd s) (PMI_size s) (PMI_rank s) (PMI_initialized s) (PMI_kvsname_max s)
    (PMI_keylen_max s) (PMI_vallen_max s) (PMI_debug s) (PMI_spawned s) (PMI_totalview s)
    (cached_singinit_key s) v (firstcall s) (singinit_kvsname s).
Definition set_firstcall (v : bool) (s : pmi1) : pmi1 :=
  Pmi1 (p_u s) (PMI_fd s) (PMI_size s) (PMI_rank s) (PMI_initialized s) (PMI_kvsname_max s)
    (PMI_keylen_max s) (PMI_vallen_max s) (PMI_debug s) (PMI_spawned s) (PMI_totalview s)
    (cached_singinit_key s) (cached_singinit_val s) v (singinit_kvsname s).
Definition set_singinit_kvsname (v : cstr) (s : pmi1) : pmi1 :=
  Pmi1 (p_u s) (PMI_fd s) (PMI_size s) (PMI_rank s) (PMI_initialized s) (PMI_kvsname_max s)
    (PMI_keylen_max s) (PMI_vallen_max s) (PMI_debug s) (PMI_spawned s) (PMI_totalview s)
    (cached_singinit_key s) (cached_singinit_val s) (firstcall s) v.

#[global] Program Instance pmi1_pmiu : Lens pmi1 pmiu := {| lget := p_u; lset := set_p_u |}.
Next Obligation. done. Qed.
Next Obligation. by intros []. Qed.
Next Obligation. done. Qed.

(** Calls of the utilities and of the operating system. *)
Definition util {A} (m : M pmiu A) : M pmi1 A := zoom m.
Definition sys {A} (m : M os A) : M pmi1 A := zoom (S := pmi1) (T := pmiu) (zoom m).

(** [PMIU_getval (key, buf, PMIU_MAXLINE)] into a local buffer: whether a
    pointer is returned, and the text of [buf] after the call. *)
Definition getval (key : string) : M pmi1 (bool * cstr) :=
  '(found, t) ← util (PMIU_getval (L key) PMIU_MAXLINE);
  mret (found, default [] t).

(** [atoi] of a value of the last message. *)
Definition getval_int (key : string) : M pmi1 Z :=
  '(_, t) ← getval key; mret (atoi t).

(** ** Request and response *)

Definition GetResponse (request expectedCmd : cstr) (checkRc : bool) : M pmi1 Z :=
  fd ← gets PMI_fd;
  err ← util (PMIU_writeline fd request);
  if err <>z 0 then mret err
  else
    '(n, recvbuf) ← util (PMIU_readline fd PMIU_MAXLINE);
    if n <=? 0 then mret PMI_FAIL
    else
      err ← util (PMIU_parse_keyvals (default [] recvbuf));
      if err <>z 0 then mret err
      else
        '(p, cmdName) ← getval "cmd";
        if negb p then mret PMI_FAIL
        else if negb (str_eq expectedCmd cmdName) then mret PMI_FAIL
        else if checkRc then
          '(p, cmdName) ← getval "rc";
          if p && negb (str_eq cmdName (L "0")) then
            getval "msg";; mret PMI_FAIL
          else mret err
        else mret err.

Definition line_text (s : cstr) : cstr := snprintf_text s PMIU_MAXLINE.
Definition eol : cstr := [LF].

Definition PMI_Abort (exit_code : Z) : M pmi1 Z :=
  let buf := line_text (L "cmd=abort exitcode=" ++ show_int exit_code ++ eol) in
  GetResponse buf [] false;;
  mret (-1).

(** ** The opening handshake

    [init_exchange] is [PMII_getmaxes] up to the [get_maxes] request. *)
Definition check_init_response : M pmi1 () :=
  '(_, cmd) ← getval "cmd";
  if negb (strn_eq cmd (L "response_to_init") (Z.to_nat PMIU_MAXLINE)) then
    PMI_Abort (-1);; mret tt
  else
    '(_, buf) ← getval "rc";
    if negb (strn_eq buf (L "0") (Z.to_nat PMIU_MAXLINE)) then
      getval "pmi_version";; getval "pmi_subversion";;
      PMI_Abort (-1);; mret tt
    else mret tt.

Definition PMII_getmaxes : M pmi1 Z :=
  fd ← gets PMI_fd;
  rc ← util (PMIU_writeline fd (line_text
    (L "cmd=init pmi_version=" ++ show_int PMI_VERSION ++
     L " pmi_subversion=" ++ show_int PMI_SUBVERSION ++ eol)));
  if rc <>z 0 then mret PMI_FAIL
  else
    '(err, buf) ← util (PMIU_readline fd PMIU_MAXLINE);
    (if err <? 0 then PMI_Abort (-1);; mret tt else mret tt);;
    util (PMIU_parse_keyvals (default [] buf));;
    check_init_response;;
    err ← GetResponse (L "cmd=get_maxes" ++ eol) (L "maxes") false;
    if err =? PMI_SUCCESS then
      v ← getval_int "kvsname_max"; modify (set_PMI_kvsname_max v);;
      v ← getval_int "keylen_max"; modify (set_PMI_keylen_max v);;
      v ← getval_int "vallen_max"; modify (set_PMI_vallen_max v);;
      mret err
    else mret err.

(** ** Connecting through a port *)

Definition PMII_Connect_to_pm (hostname : cstr) (portnum : Z) : M pmi1 Z :=
  d ← sys (next_dial hostname (wrap_u 16 portnum));
  if negb (d_host d) then mret (-1)
  else if d_fd d <? 0 then mret (-1)
  else
    (* the descriptor of [socket] *)
    sys (modify (set_conn (d_fd d) (Conn [InErr] [WrErr] [])));;
    match d_connect d with
    | ConnRefused => sys (shutdown_close (d_fd d));; mret (-1)
    | ConnTimedOut | ConnOther => mret (-1)
    | ConnOk | ConnInProgress | ConnIsConn =>
        sys (modify (set_conn (d_fd d) (d_conn d)));; mret (d_fd d)
    end.

(** One message of the port handshake: read it, require the command [cmd] and
    give the value of [key] as a number; [None] is the error return.  [buf] is
    the text the reader's buffer held before. *)
Definition port_message (fd : Z) (buf : cstr) (cmd : string) : M pmi1 (option cstr) :=
  '(err, b) ← util (PMIU_readline fd PMIU_MAXLINE);
  if err <? 0 then mret None
  else
    let buf := default buf b in
    util (PMIU_parse_keyvals buf);;
    '(_, c) ← getval "cmd";
    if negb (str_eq c (L cmd)) then mret None else mret (Some buf).

Definition PMII_Set_from_port (fd id : Z) : M pmi1 Z :=
  err ← util (PMIU_writeline fd (line_text (L "cmd=initack pmiid=" ++ show_int id ++ eol)));
  if err <>z 0 then mret (-1)
  else
    b ← port_message fd [] "initack";
    match b with None => mret (-1) | Some buf =>
    b ← port_message fd buf "set";
    match b with None => mret (-1) | Some buf =>
    v ← getval_int "size"; modify (set_PMI_size v);;
    b ← port_message fd buf "set";
    match b with None => mret (-1) | Some buf =>
    v ← getval_int "rank"; modify (set_PMI_rank v);;
    util (PMIU_Set_rank v);;
    b ← port_message fd buf "set";
    match b with None => mret (-1) | Some buf =>
    v ← getval_int "debug"; modify (set_PMI_debug v);;
    mret 0
    end end end end.

(** The return code and [*notset]. *)
Definition getPMIFD : M pmi1 (Z * bool) :=
  modify (set_PMI_fd (-1));;
  p ← sys (getenv "PMI_FD");
  match p with
  | Some p => modify (set_PMI_fd (atoi p));; mret (0, true)
  | None =>
      p ← sys (getenv "PMI_PORT");
      match p with
      | None => mret (0, true)
      | Some p =>
          let '(host, _) := break (λ c, c =c ":"%char) p in
          let hostname := take (Z.to_nat MAXHOSTNAME) host in
          let pn := drop (length hostname) p in
          match pn with
          | c :: port =>
              if c =c ":"%char then
                fd ← PMII_Connect_to_pm hostname (atoi port);
                modify (set_PMI_fd fd);;
                if fd <? 0 then mret (-1, true)
                else
                  p ← sys (getenv "PMI_ID");
                  match p with
                  | Some p => PMII_Set_from_port fd (atoi p);; mret (0, false)
                  | None => mret (0, true)
                  end
              else mret (PMI_FAIL, true)
          | [] => mret (PMI_FAIL, true)
          end
      end
  end.

(** ** Key-value space

    [MPIU_Strncpy] into a cache of [PMIU_MAXLINE] bytes: a length beyond it
    leaves the object when the text or the forced terminator reaches there. *)
Definition cache_copy (old src : cstr) (n : Z) : M pmi1 (Z * cstr) :=
  if (PMIU_MAXLINE <? n) && (PMIU_MAXLINE <=? strlen src) then fault_ OutOfBounds
  else '(rc, t) ← strncpy_text src n; mret (rc, default old t).

Definition PMI_KVS_Put (kvsname key value : cstr) : M pmi1 Z :=
  s ← get;
  if decide (PMI_initialized s = SINGLETON_INIT_BUT_NO_PM) then
    '(rc, t) ← cache_copy (cached_singinit_key s) key (PMI_keylen_max s);
    modify (set_cached_singinit_key t);;
    if rc <>z 0 then mret PMI_FAIL
    else
      '(rc, t) ← cache_copy (cached_singinit_val s) value (PMI_vallen_max s);
      modify (set_cached_singinit_val t);;
      if rc <>z 0 then mret PMI_FAIL else mret 0
  else
    GetResponse (line_text (L "cmd=put kvsname=" ++ kvsname ++ L " key=" ++ key ++
                            L " value=" ++ value ++ eol)) (L "put_result") true.

Definition PMI_KVS_Commit (kvsname : cstr) : M pmi1 Z := mret 0.

(** ** Singleton initialisation *)

(** [accept_one_connection]: a failure other than [EINTR] ends the process. *)
Definition accept_one_connection : M pmi1 Z :=
  r ← sys accept_eintr;
  match r with None => exit_ (-1) | Some new_sock => mret new_sock end.

(** The three connections for standard input, output and error. *)
Definition connect_stdio : M pmi1 () :=
  s0 ← accept_one_connection; sys (dup2 s0 0);;
  s1 ← accept_one_connection; sys (dup2 s1 1);;
  s2 ← accept_one_connection; sys (dup2 s2 2).

(** The parent's side of [PMII_singinit], once the process manager runs. *)
Definition singinit_protocol : M pmi1 Z :=
  fd ← accept_one_connection;
  modify (set_PMI_fd fd);;
  if fd <? 0 then mret PMI_FAIL
  else
    '(_, buf) ← util (PMIU_readline fd PMIU_MAXLINE);
    buf ← or_fault Uninitialised buf;
    util (PMIU_parse_keyvals buf);;
    '(_, cmd) ← getval "cmd";
    if negb (str_eq cmd (L "singinit")) then mret PMI_FAIL
    else
      '(p, cmd) ← getval "authtype";
      if p && negb (str_eq cmd (L "none")) then mret PMI_FAIL
      else
        rc ← GetResponse (line_text
          (L "cmd=singinit pmi_version=" ++ show_int PMI_VERSION ++
           L " pmi_subversion=" ++ show_int PMI_SUBVERSION ++
           L " stdio=yes authtype=none" ++ eol)) (L "singinit_info") false;
        if rc <>z 0 then mret PMI_FAIL
        else
          '(p, cmd) ← getval "versionok";
          if p && negb (str_eq cmd (L "yes")) then mret PMI_FAIL
          else
            '(p, cmd) ← getval "stdio";
            let connectStdio := p && str_eq cmd (L "yes") in
            '(_, t) ← util (PMIU_getval (L "kvsname") 256);
            modify (λ s, set_singinit_kvsname (default (singinit_kvsname s) t) s);;
            (if connectStdio : bool then connect_stdio else mret tt);;
            mret 0.

Definition PMII_singinit : M pmi1 Z :=
  pid ← sys fork;
  if pid <? 0 then exit_ (-1)
  else if pid =? 0 then sys execvp;; mret (-1)
  else singinit_protocol.

Definition PMIi_InitIfSingleton : M pmi1 Z :=
  s ← get;
  if negb (bool_decide (PMI_initialized s = SINGLETON_INIT_BUT_NO_PM)) || negb (firstcall s)
  then mret 0
  else
    modify (set_firstcall false);;
    rc ← PMII_singinit;
    if rc <? 0 then mret (-1)
    else
      modify (λ s, set_PMI_initialized SINGLETON_INIT_WITH_PM
                  (set_PMI_size 1 (set_PMI_rank 0
                  (set_PMI_debug 0 (set_PMI_spawned 0 s)))));;
      PMII_getmaxes;;
      s ← get;
      PMI_KVS_Put (singinit_kvsname s) (cached_singinit_key s) (cached_singinit_val s);;
      mret 0.

(** ** Initialisation and group functions *)

(** What [PMI_Init] stores through its arguments. *)
Record init_out := InitOut {
  o_spawned : option Z;
  o_size : option Z;
  o_rank : option Z }.

(** [PMI_Init], in the order of the source: no descriptor; size, rank and debug
    from the environment; the TotalView message; the rest. *)
Definition init_singleton : M pmi1 (Z * init_out) :=
  modify (λ s, set_PMI_size 1 (set_PMI_rank 0
    (set_PMI_initialized SINGLETON_INIT_BUT_NO_PM
    (set_PMI_kvsname_max 256 (set_PMI_keylen_max 256 (set_PMI_vallen_max 256 s))))));;
  mret (0, InitOut (Some 0) (Some 1) (Some 0)).

Definition getenv_int (name : string) (dflt : Z) : M pmi1 Z :=
  p ← sys (getenv name);
  mret (match p with Some p => atoi p | None => dflt end).

Definition init_from_env : M pmi1 () :=
  v ← getenv_int "PMI_SIZE" 1; modify (set_PMI_size v);;
  p ← sys (getenv "PMI_RANK");
  (match p with
   | Some p => modify (set_PMI_rank (atoi p));; util (PMIU_Set_rank (atoi p))
   | None => modify (set_PMI_rank 0)
   end);;
  v ← getenv_int "PMI_DEBUG" 0; modify (set_PMI_debug v).

(** Whether initialisation goes on after the TotalView block. *)
Definition init_totalview : M pmi1 bool :=
  s ← get;
  v ← getenv_int "PMI_TOTALVIEW" (PMI_totalview s); modify (set_PMI_totalview v);;
  if v =? 0 then mret true
  else
    '(_, buf) ← util (PMIU_readline (PMI_fd s) PMIU_MAXLINE);
    buf ← or_fault Uninitialised buf;
    util (PMIU_parse_keyvals buf);;
    '(_, cmd) ← getval "cmd";
    mret (strn_eq cmd (L "tv_ready") (Z.to_nat PMIU_MAXLINE)).

Definition init_finish : M pmi1 Z :=
  PMII_getmaxes;;
  v ← getenv_int "PMI_SPAWNED" 0; modify (set_PMI_spawned v);;
  s ← get;
  (if decide (PMI_initialized s = PMI_UNINITIALIZED)
   then modify (set_PMI_initialized NORMAL_INIT_WITH_PM) else mret tt);;
  sys (setenv "PMI_FD" (show_int (PMI_fd s)));;
  mret (if v =? 0 then 0 else 1).

Definition PMI_Init : M pmi1 (Z * init_out) :=
  modify (set_PMI_initialized PMI_UNINITIALIZED);;
  s ← get;
  v ← getenv_int "PMI_DEBUG" (PMI_debug s); modify (set_PMI_debug v);;
  '(rc, notset) ← getPMIFD;
  if rc <>z 0 then mret (rc, InitOut None None None)
  else
    fd ← gets PMI_fd;
    if fd =? -1 then init_singleton
    else
      (if notset : bool then init_from_env else mret tt);;
      s ← get;
      let rank := Some (PMI_rank s) in
      let size := Some (PMI_size s) in
      ok ← init_totalview;
      if negb ok then mret (PMI_FAIL, InitOut None size rank)
      else spawned ← init_finish; mret (0, InitOut (Some spawned) size rank).

Definition PMI_Initialized : M pmi1 (Z * Z) :=
  s ← get;
  mret (PMI_SUCCESS, bool_Z (negb (bool_decide (PMI_initialized s = PMI_UNINITIALIZED)))).

Definition PMI_Get_size : M pmi1 (Z * Z) :=
  s ← get;
  mret (0, if decide (PMI_initialized s = PMI_UNINITIALIZED) then 1 else PMI_size s).

Definition PMI_Get_rank : M pmi1 (Z * Z) :=
  s ← get;
  mret (0, if decide (PMI_initialized s = PMI_UNINITIALIZED) then 0 else PMI_rank s).

Definition PMI_Get_universe_size : M pmi1 (Z * option Z) :=
  r ← PMIi_InitIfSingleton;
  if r <>z 0 then mret (-1, None)
  else
    s ← get;
    if with_pm (PMI_initialized s) then
      err ← GetResponse (L "cmd=get_universe_size" ++ eol) (L "universe_size") false;
      if err =? PMI_SUCCESS then v ← getval_int "size"; mret (PMI_SUCCESS, Some v)
      else mret (err, None)
    else mret (PMI_SUCCESS, Some 1).

Definition PMI_Get_appnum : M pmi1 (Z * option Z) :=
  s ← get;
  if with_pm (PMI_initialized s) then
    err ← GetResponse (L "cmd=get_appnum" ++ eol) (L "appnum") false;
    if err =? PMI_SUCCESS then v ← getval_int "appnum"; mret (PMI_SUCCESS, Some v)
    else mret (err, None)
  else mret (PMI_SUCCESS, Some (-1)).

Definition PMI_Barrier : M pmi1 Z :=
  s ← get;
  if with_pm (PMI_initialized s)
  then GetResponse (L "cmd=barrier_in" ++ eol) (L "barrier_out") false
  else mret PMI_SUCCESS.

Definition PMI_Finalize : M pmi1 Z :=
  s ← get;
  if with_pm (PMI_initialized s) then
    err ← GetResponse (L "cmd=finalize" ++ eol) (L "finalize_ack") false;
    sys (shutdown_close (PMI_fd s));;
    mret err
  else mret PMI_SUCCESS.

(** ** Key-value space, continued *)

Definition PMI_KVS_Get_my_name (length : Z) : M pmi1 (Z * option cstr) :=
  s ← get;
  if decide (PMI_initialized s = SINGLETON_INIT_BUT_NO_PM) then
    let name := L "singinit_kvs_" ++ show_int (n_pid (os_net (u_os (p_u s)))) ++ L "_0" in
    mret (0, if length <=? 0 then None else Some (snprintf_text name length))
  else
    err ← GetResponse (L "cmd=get_my_kvsname" ++ eol) (L "my_kvsname") false;
    if err =? PMI_SUCCESS then
      '(_, t) ← util (PMIU_getval (L "kvsname") length); mret (err, t)
    else mret (err, None).

(** The three calls for the limits; [false] is a NULL argument. *)
Definition get_max (m : pmi1 → Z) (maxlen : bool) : M pmi1 (Z * option Z) :=
  s ← get;
  if negb maxlen then mret (PMI_ERR_INVALID_ARG, None) else mret (PMI_SUCCESS, Some (m s)).
Definition PMI_KVS_Get_name_length_max := get_max PMI_kvsname_max.
Definition PMI_KVS_Get_key_length_max := get_max PMI_keylen_max.
Definition PMI_KVS_Get_value_length_max := get_max PMI_vallen_max.

(** [value] is the text left in the caller's buffer of [length] bytes. *)
Definition PMI_KVS_Get (kvsname key : cstr) (length : Z) : M pmi1 (Z * option cstr) :=
  r ← PMIi_InitIfSingleton;
  if r <>z 0 then mret (-1, None)
  else
    err ← GetResponse (line_text (L "cmd=get kvsname=" ++ kvsname ++ L " key=" ++ key ++ eol))
            (L "get_result") false;
    if err =? PMI_SUCCESS then
      rc ← getval_int "rc";
      if rc =? 0 then
        '(_, t) ← util (PMIU_getval (L "value") length); mret (0, t)
      else mret (-1, None)
    else mret (err, None).

(** ** Name publishing *)

(** The exchange the three calls share: the request, the expected answer and
    the test of its return code, which must be the text [0]. *)
Definition name_request (cmd expected : cstr) : M pmi1 (option Z) :=
  err ← GetResponse (line_text cmd) expected false;
  if err =? PMI_SUCCESS then
    '(_, buf) ← getval "rc";
    if negb (str_eq buf (L "0")) then getval "msg";; mret (Some PMI_FAIL)
    else mret None
  else mret (Some PMI_SUCCESS).

Definition PMI_Publish_name (service_name port : cstr) : M pmi1 Z :=
  s ← get;
  if with_pm (PMI_initialized s) then
    r ← name_request (L "cmd=publish_name service=" ++ service_name ++
                      L " port=" ++ port ++ eol) (L "publish_result");
    mret (default PMI_SUCCESS r)
  else mret PMI_FAIL.

Definition PMI_Unpublish_name (service_name : cstr) : M pmi1 Z :=
  s ← get;
  if with_pm (PMI_initialized s) then
    r ← name_request (L "cmd=unpublish_name service=" ++ service_name ++ eol)
          (L "unpublish_result");
    mret (default PMI_SUCCESS r)
  else mret PMI_FAIL.

Definition PMI_Lookup_name (service_name : cstr) : M pmi1 (Z * option cstr) :=
  s ← get;
  if with_pm (PMI_initialized s) then
    r ← name_request (L "cmd=lookup_name service=" ++ service_name ++ eol)
          (L "lookup_result");
    match r with
    | Some rc => mret (rc, None)
    | None =>
        '(_, t) ← util (PMIU_getval (L "port") MPI_MAX_PORT_NAME);
        mret (PMI_SUCCESS, t)
    end
  else mret (PMI_FAIL, None).

(** ** Spawning *)

(** One command of [PMI_Spawn_multiple]: [cmds[i]], [argvs[i]] (or no
    arguments), [maxprocs[i]], and the pairs of [info_keyval_vectors[i]]. *)
Record spawn_cmd := SpawnCmd {
  sc_cmd : cstr;
  sc_args : list cstr;
  sc_maxprocs : Z;
  sc_info : list keyval }.

(** [snprintf (tempbuf, ...); MPIU_Strnapp (buf, tempbuf, PMIU_MAXLINE)]: the
    text of [buf], [None] when it does not fit, which makes the caller return
    [PMI_FAIL]. *)
Definition append (buf text : cstr) : option cstr :=
  let t := line_text text in
  if app_fits buf t PMIU_MAXLINE then Some (app_text buf t PMIU_MAXLINE) else None.

Definition spawn_header (count i : nat) (c : spawn_cmd) : option cstr :=
  append (line_text (L "mcmd=spawn" ++ eol ++ L "nprocs=" ++ show_int (sc_maxprocs c) ++ eol ++
                     L "execname=" ++ sc_cmd c ++ eol))
    (L "totspawns=" ++ show_int (Z.of_nat count) ++ eol ++
     L "spawnssofar=" ++ show_int (Z.of_nat (i + 1)) ++ eol).

(** The loop over the arguments: what has been gathered is written after every
    one of them.  The text of [buf] after the loop. *)
Fixpoint spawn_args (fd : Z) (i : nat) (args : list cstr) (buf : cstr)
    : M pmi1 (option cstr) :=
  match args with
  | [] => mret (Some buf)
  | arg :: args =>
      match append buf (L "arg" ++ show_int (Z.of_nat (i + 1)) ++ L "=" ++ arg ++ eol) with
      | None => mret None
      | Some buf => util (PMIU_writeline fd buf);; spawn_args fd (S i) args []
      end
  end.

(** The two loops over vectors of pairs, [prefix] being [preput] or [info]. *)
Fixpoint append_pairs (prefix : cstr) (i : nat) (l : list keyval) (buf : cstr) : option cstr :=
  match l with
  | [] => Some buf
  | (key, val) :: l =>
      buf ← append buf (prefix ++ L "_key_" ++ show_int (Z.of_nat i) ++ L "=" ++ key ++ eol);
      buf ← append buf (prefix ++ L "_val_" ++ show_int (Z.of_nat i) ++ L "=" ++ val ++ eol);
      append_pairs prefix (S i) l buf
  end.

Definition spawn_tail (argcnt : nat) (preput info : list keyval) (buf : cstr) : option cstr :=
  let num (name : string) (n : nat) := L name ++ L "=" ++ show_int (Z.of_nat n) ++ eol in
  buf ← append buf (num "argcnt" argcnt);
  buf ← append buf (num "preput_num" (length preput));
  buf ← append_pairs (L "preput") 0 preput buf;
  buf ← append buf (num "info_num" (length info));
  buf ← append_pairs (L "info") 0 info buf;
  append buf (L "endcmd" ++ eol).

(** The loop over the commands; the number of processes asked for and the text of
    [buf] after it ([buf] is not initialised before), or the error return. *)
Fixpoint spawn_cmds (fd : Z) (count i : nat) (preput : list keyval)
    (cs : list spawn_cmd) (total_num_processes : Z) (buf : option cstr)
    : M pmi1 (option (Z * option cstr)) :=
  match cs with
  | [] => mret (Some (total_num_processes, buf))
  | c :: cs =>
      total_num_processes ← int_add total_num_processes (sc_maxprocs c);
      match spawn_header count i c with
      | None => mret None
      | Some b =>
          b ← spawn_args fd 0 (sc_args c) b;
          match b ≫= spawn_tail (length (sc_args c)) preput (sc_info c) with
          | None => mret None
          | Some b =>
              util (PMIU_writeline fd b);;
              spawn_cmds fd count (S i) preput cs total_num_processes (Some b)
          end
      end
  end.

(** What follows the exchange: the command and return code of the answer, then
    the error codes, or zeros for each of the processes when there are none. *)
Definition spawn_result (total : Z) (errors : list Z) : M pmi1 (Z * list Z) :=
  '(_, cmd) ← getval "cmd";
  if negb (strn_eq cmd (L "spawn_result") (Z.to_nat PMIU_MAXLINE)) then mret (-1, errors)
  else
    rc ← getval_int "rc";
    if rc <>z 0 then mret (-1, errors)
    else
      '(p, tempbuf) ← getval "errcodes";
      let codes := if p : bool then atoi <$> split_on ","%char tempbuf
                   else replicate (Z.to_nat total) 0 in
      errors ← or_fault OutOfBounds (store_codes 0 codes errors);
      mret (0, errors).

(** [errors] is the caller's array; it is returned with its new contents. *)
Definition PMI_Spawn_multiple (cs : list spawn_cmd) (preput : list keyval)
    (errors : list Z) : M pmi1 (Z * list Z) :=
  r ← PMIi_InitIfSingleton;
  if r <>z 0 then mret (-1, errors)
  else
    fd ← gets PMI_fd;
    b ← spawn_cmds fd (length cs) 0 preput cs 0 None;
    match b with
    | None => mret (PMI_FAIL, errors)
    | Some (total, buf) =>
        '(_, b) ← util (PMIU_readline fd PMIU_MAXLINE);
        buf ← or_fault Uninitialised (match b with Some t => Some t | None => buf end);
        util (PMIU_parse_keyvals buf);;
        spawn_result total errors
    end.

(** ** The exchange with the process manager *)

Lemma util_done {A} (m : M pmiu A) s a u :
  m (p_u s) = (Done a, u) → util m s = (Done a, set_p_u u s).
Proof. exact (zoom_done (S := pmi1) m s a u). Qed.

Lemma util_hang {A} (m : M pmiu A) s u :
  m (p_u s) = (Hang, u) → util m s = (Hang, set_p_u u s).
Proof. exact (zoom_hang (S := pmi1) m s u). Qed.

Lemma set_p_u_id s : set_p_u (p_u s) s = s.
Proof. by destruct s. Qed.

Lemma set_p_u_twice u u' s : set_p_u u (set_p_u u' s) = set_p_u u s.
Proof. done. Qed.

Lemma getval_found key v s :
  tab_find (L key) (u_tab (p_u s)) = Some v → strlen v < PMIU_MAXLINE →
  getval key s = (Done (true, v), s).
Proof.
  intros Hf Hv. unfold getval.
  erewrite bind_done by (apply util_done, PMIU_getval_found; done).
  by rewrite set_p_u_id.
Qed.

Lemma getval_missing key s :
  tab_find (L key) (u_tab (p_u s)) = None → getval key s = (Done (false, []), s).
Proof.
  intros Hf. unfold getval.
  erewrite bind_done by (apply util_done, PMIU_getval_missing; done).
  by rewrite set_p_u_id.
Qed.

(** What the calls read from a message of the process manager. *)
Definition field (key : string) (l : list keyval) : cstr := default [] (tab_find (L key) l).
Definition has (key : string) (l : list keyval) : bool :=
  bool_decide (is_Some (tab_find (L key) l)).

Lemma getval_tab key l s :
  u_tab (p_u s) = l → Forall kv_sendable l →
  getval key s = (Done (has key l, field key l), s).
Proof.
  intros Ht Hl. unfold field, has. destruct (tab_find (L key) l) as [v|] eqn:E.
  - apply getval_found; [by rewrite Ht|]. by eapply tab_find_kv_ok.
  - apply getval_missing. by rewrite Ht.
Qed.

Lemma getval_int_tab key l s :
  u_tab (p_u s) = l → Forall kv_sendable l →
  getval_int key s = (Done (atoi (field key l)), s).
Proof.
  intros Ht Hl. unfold getval_int. by rewrite (bind_done _ _ _ _ _ (getval_tab key l s Ht Hl)).
Qed.

(** The verdict on an answer with the pairs [l]. *)
Definition response_rc (expectedCmd : cstr) (checkRc : bool) (l : list keyval) : Z :=
  if has "cmd" l && str_eq expectedCmd (field "cmd" l) &&
     negb (checkRc && has "rc" l && negb (str_eq (field "rc" l) (L "0")))
  then PMI_SUCCESS else PMI_FAIL.

(** From [s] to [s'] the request [req] was written, the answer [l] read into
    the table, and nothing else of the client's state changed. *)
Record exchanged (req : cstr) (l : list keyval) (rest : cstr) (s s' : pmi1) : Prop := {
  ex_state : s' = set_p_u (p_u s') s;
  ex_tab : u_tab (p_u s') = l;
  ex_ready : ready (PMI_fd s) (p_u s') rest;
  ex_io : io_step (PMI_fd s) req (p_u s) (p_u s') }.

Lemma exchange s req expectedCmd checkRc l rest :
  sends (PMI_fd s) (p_u s) l rest → strlen req < PMIU_MAXLINE →
  ∃ s', GetResponse (req ++ eol) expectedCmd checkRc s
        = (Done (response_rc expectedCmd checkRc l), s') ∧
    exchanged (req ++ eol) l rest s s'.
Proof.
  intros Hs Hreq. pose proof (sends_pairs _ _ _ _ Hs) as Hl.
  destruct (PMIU_writeline_ready (PMI_fd s) req (p_u s) _ (sends_ready _ _ _ _ Hs) Hreq)
    as (u1 & E1 & R1 & I1 & T1).
  destruct (read_message (PMI_fd s) u1 l rest) as (buf & u2 & E2 & Hpos & E3 & R2 & I2).
  { split; [done|apply Hs..]. }
  unfold GetResponse. erewrite bind_done by reflexivity.
  erewrite bind_done by (apply util_done, E1). change (0 <>z 0) with false. cbv iota.
  erewrite bind_done by (apply util_done, E2). cbv beta iota.
  destruct (Z.leb_spec (strlen buf) 0); [lia|].
  erewrite bind_done by (apply util_done, E3). change (0 <>z 0) with false. cbv iota.
  rewrite !set_p_u_twice.
  set (s' := set_p_u (set_u_tab l u2) s).
  assert (exchanged (req ++ eol) l rest s s') as Hex.
  { constructor; [done|done|done|]. simpl. apply io_step_set_tab.
    rewrite <-(app_nil_r (req ++ eol)). by eapply io_step_trans. }
  exists s'. split; [|done]. unfold response_rc.
  rewrite (bind_done _ _ _ _ _ (getval_tab "cmd" l s' eq_refl Hl)). cbv beta iota.
  destruct (has "cmd" l); cbn [negb andb]; [|done].
  destruct (str_eq expectedCmd (field "cmd" l)); cbn [negb andb]; [|done].
  destruct checkRc; cbn [negb andb]; [|done].
  rewrite (bind_done _ _ _ _ _ (getval_tab "rc" l s' eq_refl Hl)). cbv beta iota.
  destruct (has "rc" l); cbn [negb andb]; [|done].
  destruct (str_eq (field "rc" l) (L "0")); cbn [negb]; [done|].
  by rewrite (bind_done _ _ _ _ _ (getval_tab "msg" l s' eq_refl Hl)).
Qed.

(** A request fits when [snprintf] keeps its newline. *)
Definition fits (req : cstr) : Prop := strlen (req ++ eol) < PMIU_MAXLINE.

Lemma line_text_fits req : fits req → line_text (req ++ eol) = req ++ eol.
Proof.
  unfold fits, line_text, snprintf_text, PMIU_MAXLINE, strlen. intros H. apply take_ge. lia.
Qed.

Lemma exchange_text s req expectedCmd checkRc l rest :
  sends (PMI_fd s) (p_u s) l rest → fits req →
  ∃ s', GetResponse (line_text (req ++ eol)) expectedCmd checkRc s
        = (Done (response_rc expectedCmd checkRc l), s') ∧
    exchanged (req ++ eol) l rest s s'.
Proof.
  intros Hs Hr. rewrite line_text_fits by done. apply exchange; [done|].
  unfold fits, strlen, PMIU_MAXLINE in *. rewrite length_app in Hr. simpl in Hr. lia.
Qed.

(** A message whose command is the one expected succeeds unless a return code
    is checked. *)
Lemma response_ok cmd l :
  field "cmd" l = cmd → has "cmd" l = true → response_rc cmd false l = PMI_SUCCESS.
Proof. unfold response_rc. intros -> ->. by rewrite str_eq_refl. Qed.

(** ** Properties of the calls *)

(** C17: one exchange with the process manager: the request is written as one
    line, the answer is read as one line and parsed, and the call succeeds
    exactly when the answer has the expected command and, where the return code
    is checked, no return code other than [0]; the rest of the stream is left
    for the next exchange and no other state changes. *)
Theorem GetResponse_spec (s : pmi1) (req expectedCmd : cstr) (checkRc : bool)
    (l : list keyval) (rest : cstr)
    (Hs : sends (PMI_fd s) (p_u s) l rest) (Hreq : fits req) :
  ∃ s', GetResponse (line_text (req ++ eol)) expectedCmd checkRc s
        = (Done (response_rc expectedCmd checkRc l), s') ∧
    exchanged (req ++ eol) l rest s s'.
Proof. by apply exchange_text. Qed.

Definition get_request (kvsname key : cstr) : cstr :=
  L "cmd=get kvsname=" ++ kvsname ++ L " key=" ++ key.
Definition put_request (kvsname key value : cstr) : cstr :=
  L "cmd=put kvsname=" ++ kvsname ++ L " key=" ++ key ++ L " value=" ++ value.

Lemma getval_buf key l n s :
  u_tab (p_u s) = l → 0 < n →
  ∃ found, util (PMIU_getval (L key) n) s
           = (Done (found, Some (take (Z.to_nat (n - 1)) (field key l))), s).
Proof.
  intros Ht Hn. unfold field. destruct (tab_find (L key) l) as [v|] eqn:E.
  - destruct (decide (strlen v < n)).
    + exists true. erewrite util_done by (apply PMIU_getval_found; [by rewrite Ht|done]).
      rewrite set_p_u_id. simpl. rewrite take_ge; [done|]. unfold strlen in *. lia.
    + exists false. erewrite util_done by (apply PMIU_getval_trunc; [by rewrite Ht|lia]).
      by rewrite set_p_u_id.
  - exists false. erewrite util_done by (apply PMIU_getval_missing; by rewrite Ht).
    rewrite set_p_u_id. simpl. by rewrite take_nil.
Qed.

Lemma no_singleton s :
  PMI_initialized s ≠ SINGLETON_INIT_BUT_NO_PM → PMIi_InitIfSingleton s = (Done 0, s).
Proof.
  intros H. unfold PMIi_InitIfSingleton. erewrite bind_done by reflexivity.
  by rewrite bool_decide_false.
Qed.

(** A get under a process manager. *)
Lemma kvs_get_ok (s : pmi1) (kvsname key : cstr) (n : Z)
    (l : list keyval) (rest : cstr)
    (Hinit : PMI_initialized s ≠ SINGLETON_INIT_BUT_NO_PM)
    (Hs : sends (PMI_fd s) (p_u s) l rest)
    (Hreq : fits (get_request kvsname key)) (Hn : 0 < n) :
  ∃ s', PMI_KVS_Get kvsname key n s =
      (Done (if (response_rc (L "get_result") false l =? 0) && (atoi (field "rc" l) =? 0)
             then (0, Some (take (Z.to_nat (n - 1)) (field "value" l)))
             else (-1, None)), s') ∧
    exchanged (get_request kvsname key ++ eol) l rest s s'.
Proof.
  unfold PMI_KVS_Get. erewrite bind_done by (by apply no_singleton).
  change (0 <>z 0) with false. cbv iota.
  destruct (exchange_text s _ (L "get_result") false l rest Hs Hreq) as (s' & E & Hex).
  exists s'. split; [|done].
  unfold get_request in E. rewrite <-!(assoc_L app) in E.
  rewrite (bind_done _ _ _ _ _ E).
  unfold response_rc in *. destruct (_ && _); cbn; [|done].
  rewrite (bind_done _ _ _ _ _ (getval_int_tab "rc" l s' (ex_tab _ _ _ _ _ Hex)
             (sends_pairs _ _ _ _ Hs))).
  destruct (atoi (field "rc" l) =? 0); cbn; [|done].
  destruct (getval_buf "value" l n s' (ex_tab _ _ _ _ _ Hex) Hn) as (found & Ev).
  by rewrite (bind_done _ _ _ _ _ Ev).
Qed.

(** C18: a get under a process manager asks for the key in the named space
    and, when the answer is a [get_result] with return code 0, returns 0 with
    the value of the answer in the caller's buffer, cut to the buffer's length
    and without an error when it does not fit; any other answer is an error and
    stores nothing. *)
Theorem PMI_KVS_Get_spec (s : pmi1) (kvsname key : cstr) (n : Z)
    (l : list keyval) (rest : cstr)
    (Hinit : PMI_initialized s ≠ SINGLETON_INIT_BUT_NO_PM)
    (Hs : sends (PMI_fd s) (p_u s) l rest)
    (Hreq : fits (get_request kvsname key)) (Hn : 0 < n) :
  ∃ s', PMI_KVS_Get kvsname key n s =
      (Done (if (response_rc (L "get_result") false l =? 0) && (atoi (field "rc" l) =? 0)
             then (0, Some (take (Z.to_nat (n - 1)) (field "value" l)))
             else (-1, None)), s') ∧
    exchanged (get_request kvsname key ++ eol) l rest s s'.
Proof. by apply kvs_get_ok. Qed.

(** A put under a process manager. *)
Lemma kvs_put_ok (s : pmi1) (kvsname key value : cstr)
    (l : list keyval) (rest : cstr)
    (Hinit : PMI_initialized s ≠ SINGLETON_INIT_BUT_NO_PM)
    (Hs : sends (PMI_fd s) (p_u s) l rest)
    (Hreq : fits (put_request kvsname key value)) :
  ∃ s', PMI_KVS_Put kvsname key value s =
      (Done (response_rc (L "put_result") true l), s') ∧
    exchanged (put_request kvsname key value ++ eol) l rest s s'.
Proof.
  unfold PMI_KVS_Put. erewrite bind_done by reflexivity. rewrite decide_False by done.
  destruct (exchange_text s _ (L "put_result") true l rest Hs Hreq) as (s' & E & Hex).
  exists s'. split; [|done]. unfold put_request in E. by rewrite <-!(assoc_L app) in E.
Qed.

(** A put under a process manager sends the space, the key and the value
    in one line and returns the verdict of the checked answer. *)
Theorem PMI_KVS_Put_spec (s : pmi1) (kvsname key value : cstr)
    (l : list keyval) (rest : cstr)
    (Hinit : PMI_initialized s ≠ SINGLETON_INIT_BUT_NO_PM)
    (Hs : sends (PMI_fd s) (p_u s) l rest)
    (Hreq : fits (put_request kvsname key value)) :
  ∃ s', PMI_KVS_Put kvsname key value s =
      (Done (response_rc (L "put_result") true l), s') ∧
    exchanged (put_request kvsname key value ++ eol) l rest s s'.
Proof. by apply kvs_put_ok. Qed.

(** ** The life cycle of the client *)

(** Nothing but the utilities' state changed. *)
Definition frame (s s' : pmi1) : Prop := s' = set_p_u (p_u s') s.

#[global] Instance frame_refl : Reflexive frame.
Proof. intros s. by destruct s. Qed.
#[global] Instance frame_trans : Transitive frame.
Proof. unfold frame. intros s1 s2 s3 H1 H2. rewrite H2. simpl. rewrite H1. by destruct s1. Qed.

(** The state of the client's life cycle: whether it is initialised, and
    whether the connection on demand was tried. *)
Definition same_life (s s' : pmi1) : Prop :=
  PMI_initialized s' = PMI_initialized s ∧ firstcall s' = firstcall s.

#[global] Instance same_life_refl : Reflexive same_life.
Proof. done. Qed.
#[global] Instance same_life_trans : Transitive same_life.
Proof. unfold same_life. intros s1 s2 s3 [] []. split; congruence. Qed.

Lemma frame_life s s' : frame s s' → same_life s s'.
Proof. unfold frame, same_life. intros ->. done. Qed.

Lemma util_frame {A} (m : M pmiu A) : preserves frame (util m).
Proof. apply (preserves_zoom (S := pmi1)). done. Qed.
Lemma sys_frame {A} (m : M os A) : preserves frame (sys m).
Proof. apply (preserves_zoom (S := pmi1)). done. Qed.
#[export] Hint Resolve util_frame sys_frame : preserves.

Lemma getval_frame key : preserves frame (getval key).
Proof. unfold getval. preserve. Qed.
#[export] Hint Resolve getval_frame : preserves.

Lemma getval_int_frame key : preserves frame (getval_int key).
Proof. unfold getval_int. preserve. Qed.
#[export] Hint Resolve getval_int_frame : preserves.

Lemma GetResponse_frame req cmd b : preserves frame (GetResponse req cmd b).
Proof. unfold GetResponse. preserve. Qed.
#[export] Hint Resolve GetResponse_frame : preserves.

Lemma PMI_Abort_frame z : preserves frame (PMI_Abort z).
Proof. unfold PMI_Abort. preserve. Qed.
#[export] Hint Resolve PMI_Abort_frame : preserves.

Lemma check_init_response_frame : preserves frame check_init_response.
Proof. unfold check_init_response. preserve. Qed.
#[export] Hint Resolve check_init_response_frame : preserves.

(** What keeps everything else keeps the life cycle. *)
Lemma life_of_frame {A} (m : M pmi1 A) : preserves frame m → preserves same_life m.
Proof. intros H. eapply preserves_mono; [exact H|apply frame_life]. Qed.
#[export] Hint Resolve life_of_frame : preserves.

Lemma PMII_getmaxes_life : preserves same_life PMII_getmaxes.
Proof. unfold PMII_getmaxes. preserve. Qed.
Lemma cache_copy_frame old src n : preserves frame (cache_copy old src n).
Proof. unfold cache_copy, strncpy_text. preserve. Qed.
Lemma accept_frame : preserves frame accept_one_connection.
Proof. unfold accept_one_connection. preserve. Qed.
#[export] Hint Resolve PMII_getmaxes_life cache_copy_frame accept_frame : preserves.

Lemma connect_stdio_frame : preserves frame connect_stdio.
Proof. unfold connect_stdio. preserve. Qed.
Lemma PMI_KVS_Put_life kvsname key value : preserves same_life (PMI_KVS_Put kvsname key value).
Proof. unfold PMI_KVS_Put. preserve. Qed.
#[export] Hint Resolve connect_stdio_frame PMI_KVS_Put_life : preserves.

Lemma PMII_singinit_life : preserves same_life PMII_singinit.
Proof. unfold PMII_singinit, singinit_protocol. preserve. Qed.
#[export] Hint Resolve PMII_singinit_life : preserves.

(** One step of the life cycle outside [PMI_Init]: nothing, a failed attempt to
    connect, or a connection. *)
Definition connects (s s' : pmi1) : Prop :=
  same_life s s' ∨
  (PMI_initialized s = SINGLETON_INIT_BUT_NO_PM ∧ firstcall s = true ∧ firstcall s' = false ∧
   (PMI_initialized s' = SINGLETON_INIT_BUT_NO_PM ∨
    PMI_initialized s' = SINGLETON_INIT_WITH_PM)).

#[global] Instance connects_refl : Reflexive connects.
Proof. by left. Qed.
#[global] Instance connects_trans : Transitive connects.
Proof.
  unfold connects, same_life. intros s1 s2 s3 [[E1 F1]|H1] [[E2 F2]|H2].
  - left. split; congruence.
  - right. rewrite <-E1, <-F1. done.
  - right. rewrite E2, F2. done.
  - exfalso. destruct H1 as (_ & _ & F1 & _), H2 as (_ & F2 & _). congruence.
Qed.

Lemma connects_of_life {A} (m : M pmi1 A) : preserves same_life m → preserves connects m.
Proof. intros H. eapply preserves_mono; [exact H|]. by left. Qed.
#[export] Hint Resolve connects_of_life : preserves.

(** What follows a successful connection keeps the life cycle. *)
Lemma finish_singleton_life :
  preserves same_life (PMII_getmaxes;; s ← get;
    PMI_KVS_Put (singinit_kvsname s) (cached_singinit_key s) (cached_singinit_val s);;
    mret 0).
Proof. preserve. Qed.

(** A bind seen through the state it ends in. *)
Lemma bind_state {A B} (P : pmi1 → Prop) (m : M pmi1 A) (k : A → M pmi1 B) s :
  P (m s).2 → (∀ a, m s = (Done a, (m s).2) → P (k a (m s).2).2) → P ((m ≫= k) s).2.
Proof.
  unfold mbind, M_bind. destruct (m s) as [[a|z|f|] s1]; simpl; auto.
Qed.

Lemma InitIfSingleton_connects : preserves connects PMIi_InitIfSingleton.
Proof.
  intros s. unfold PMIi_InitIfSingleton. erewrite bind_done by reflexivity.
  destruct (bool_decide _) eqn:Hi; cbn [negb orb]; [|done].
  destruct (firstcall s) eqn:Hf; cbn [negb]; [|done].
  apply bool_decide_eq_true in Hi. right. split; [done|]. split; [done|].
  erewrite bind_done by reflexivity.
  destruct (PMII_singinit_life (set_firstcall false s)) as [H1 F1]. simpl in H1, F1.
  apply (bind_state (λ s', firstcall s' = false ∧
    (PMI_initialized s' = SINGLETON_INIT_BUT_NO_PM ∨
     PMI_initialized s' = SINGLETON_INIT_WITH_PM))).
  { rewrite H1, F1. by auto. }
  intros rc _. destruct (rc <? 0); [simpl; rewrite H1, F1; by auto|].
  erewrite bind_done by reflexivity.
  match goal with |- context [set_PMI_initialized ?v ?x] => set (s2 := set_PMI_initialized v x) end.
  destruct (finish_singleton_life s2) as [H2 F2]. rewrite H2, F2. simpl. by auto.
Qed.
#[export] Hint Resolve InitIfSingleton_connects : preserves.

(** The calls of a client that is past [PMI_Init]. *)
Inductive pmi1_call :=
  | CGetUniverseSize | CGetAppnum | CBarrier | CFinalize
  | CAbort (code : Z)
  | CGetMyName (n : Z)
  | CPut (kvsname key value : cstr)
  | CGet (kvsname key : cstr) (n : Z)
  | CPublish (name port : cstr) | CUnpublish (name : cstr) | CLookup (name : cstr)
  | CSpawn (cs : list spawn_cmd) (preput : list keyval) (errors : list Z).

(** The state after a call. *)
Definition run_call (c : pmi1_call) (s : pmi1) : pmi1 :=
  match c with
  | CGetUniverseSize => (PMI_Get_universe_size s).2
  | CGetAppnum => (PMI_Get_appnum s).2
  | CBarrier => (PMI_Barrier s).2
  | CFinalize => (PMI_Finalize s).2
  | CAbort code => (PMI_Abort code s).2
  | CGetMyName n => (PMI_KVS_Get_my_name n s).2
  | CPut kvsname key value => (PMI_KVS_Put kvsname key value s).2
  | CGet kvsname key n => (PMI_KVS_Get kvsname key n s).2
  | CPublish name port => (PMI_Publish_name name port s).2
  | CUnpublish name => (PMI_Unpublish_name name s).2
  | CLookup name => (PMI_Lookup_name name s).2
  | CSpawn cs preput errors => (PMI_Spawn_multiple cs preput errors s).2
  end.

Lemma spawn_args_frame fd i args buf : preserves frame (spawn_args fd i args buf).
Proof. revert i buf. induction args as [|a args IH]; intros i buf; cbn [spawn_args]; preserve. Qed.
#[export] Hint Resolve spawn_args_frame : preserves.

Lemma spawn_cmds_frame fd count i preput cs total buf :
  preserves frame (spawn_cmds fd count i preput cs total buf).
Proof. revert i total buf. induction cs as [|c cs IH]; intros i total buf; cbn [spawn_cmds]; preserve. Qed.
Lemma spawn_result_frame total errors : preserves frame (spawn_result total errors).
Proof. unfold spawn_result. preserve. Qed.
Lemma name_request_frame cmd expected : preserves frame (name_request cmd expected).
Proof. unfold name_request. preserve. Qed.
#[export] Hint Resolve spawn_cmds_frame spawn_result_frame name_request_frame : preserves.

Lemma run_call_connects c s : connects s (run_call c s).
Proof.
  revert s. destruct c; cbn [run_call].
  - change (preserves connects PMI_Get_universe_size). unfold PMI_Get_universe_size. preserve.
  - change (preserves connects PMI_Get_appnum). unfold PMI_Get_appnum. preserve.
  - change (preserves connects PMI_Barrier). unfold PMI_Barrier. preserve.
  - change (preserves connects PMI_Finalize). unfold PMI_Finalize. preserve.
  - change (preserves connects (PMI_Abort code)). preserve.
  - change (preserves connects (PMI_KVS_Get_my_name n)). unfold PMI_KVS_Get_my_name. preserve.
  - change (preserves connects (PMI_KVS_Put kvsname key value)). preserve.
  - change (preserves connects (PMI_KVS_Get kvsname key n)). unfold PMI_KVS_Get. preserve.
  - change (preserves connects (PMI_Publish_name name port)). unfold PMI_Publish_name. preserve.
  - change (preserves connects (PMI_Unpublish_name name)). unfold PMI_Unpublish_name. preserve.
  - change (preserves connects (PMI_Lookup_name name)). unfold PMI_Lookup_name. preserve.
  - change (preserves connects (PMI_Spawn_multiple cs preput errors)).
    unfold PMI_Spawn_multiple. preserve.
Qed.

(** C25: over any sequence of calls after [PMI_Init], the initialisation state
    changes at most once, from "singleton without a process manager" to
    "singleton with a process manager", and the attempt to connect on demand is
    made at most once: a client that has made it keeps its state for ever,
    whether the attempt succeeded or not. *)
Theorem pmi1_connects_once (calls : list pmi1_call) (s : pmi1) :
  connects s (foldl (λ s c, run_call c s) s calls).
Proof.
  revert s. induction calls as [|c calls IH]; intros s; simpl; [done|].
  etrans; [apply run_call_connects|apply IH].
Qed.

(** ** Requests that do not fit, answers that are not expected *)

Lemma writeline_dropped fd text s :
  strlen text ≤ PMIU_MAXLINE → text ≠ [] → last text ≠ Some LF →
  PMIU_writeline fd text s = (Done 0, s).
Proof.
  intros Hl Hne Hlast. unfold PMIU_writeline. destruct (Z.ltb_spec PMIU_MAXLINE (strlen text)); [lia|].
  destruct (last text) as [c|] eqn:E; [|by apply last_None in E].
  rewrite char_eqb_ne by congruence. done.
Qed.

Lemma truncated_request req :
  ¬ fits req → Forall (λ c, c ≠ LF) req →
  strlen (line_text (req ++ eol)) ≤ PMIU_MAXLINE ∧ line_text (req ++ eol) ≠ [] ∧
  last (line_text (req ++ eol)) ≠ Some LF.
Proof.
  unfold fits, line_text, snprintf_text, PMIU_MAXLINE, strlen.
  rewrite length_app. change (length eol) with 1%nat. intros Hf Hr.
  rewrite take_app_le by lia. rewrite length_take. split_and!; [lia| |].
  - intros H%(f_equal length). rewrite length_take in H. cbn [length] in H. lia.
  - intros Hl. assert (Forall (λ c, c ≠ LF) (take (Z.to_nat (1024 - 1)) req)) as Ht
      by by apply Forall_take.
    apply last_Some in Hl as (t & E). rewrite E in Ht.
    apply Forall_app in Ht as [_ Ht]. by inversion Ht.
Qed.

(** A request that does not fit the line buffer is lost without an error:
    the formatted line is cut before its newline, the line writer refuses it
    but reports success, and the put then waits for an answer to a request that
    was never sent; nothing is written. *)
Theorem PMI_KVS_Put_lost (s : pmi1) (kvsname key value : cstr) (c : conn)
    (Hinit : PMI_initialized s ≠ SINGLETON_INIT_BUT_NO_PM)
    (Hc : os_fds (u_os (p_u s)) !! PMI_fd s = Some c) (Hin : c_in c = [])
    (Hbuf : u_readbuf (p_u s) = [])
    (Hlf : Forall (λ c, c ≠ LF) (put_request kvsname key value))
    (Hreq : ¬ fits (put_request kvsname key value)) :
  PMI_KVS_Put kvsname key value s =
  (Hang, set_p_u (set_u_lastfd (PMI_fd s) (p_u s)) s).
Proof.
  unfold PMI_KVS_Put. erewrite bind_done by reflexivity. rewrite decide_False by done.
  destruct (truncated_request _ Hreq Hlf) as (H1 & H2 & H3).
  unfold put_request in H1, H2, H3. rewrite <-!(assoc_L app) in H1, H2, H3.
  unfold GetResponse. erewrite bind_done by reflexivity.
  erewrite bind_done by (apply util_done, writeline_dropped; done).
  change (0 <>z 0) with false. cbv iota. rewrite set_p_u_id. apply bind_hang.
  apply util_hang. by apply (readline_blocks _ _ c).
Qed.

(** Publishing a name: the verdict of the process manager is the text of
    its return code, but an exchange that failed (a refused write, a closed
    connection, an answer with another command) is reported as success. *)
Theorem PMI_Publish_name_spec (s : pmi1) (service port : cstr)
    (l : list keyval) (rest : cstr)
    (Hinit : with_pm (PMI_initialized s) = true)
    (Hs : sends (PMI_fd s) (p_u s) l rest)
    (Hreq : fits (L "cmd=publish_name service=" ++ service ++ L " port=" ++ port)) :
  ∃ s', PMI_Publish_name service port s =
      (Done (if (response_rc (L "publish_result") false l =? PMI_SUCCESS)
                && negb (str_eq (field "rc" l) (L "0"))
             then PMI_FAIL else PMI_SUCCESS), s').
Proof.
  unfold PMI_Publish_name. erewrite bind_done by reflexivity. rewrite Hinit. cbv iota.
  destruct (exchange_text s _ (L "publish_result") false l rest Hs Hreq) as (s' & E & Hex).
  exists s'. rewrite <-!(assoc_L app) in E. unfold name_request.
  rewrite bind_assoc, (bind_done _ _ _ _ _ E).
  destruct (response_rc _ false l =? PMI_SUCCESS); [|done]. cbv iota.
  rewrite bind_assoc, (bind_done _ _ _ _ _ (getval_tab "rc" l s' (ex_tab _ _ _ _ _ Hex)
             (sends_pairs _ _ _ _ Hs))). cbv beta iota.
  destruct (str_eq (field "rc" l) (L "0")); cbn [negb andb]; [done|].
  by rewrite bind_assoc, (bind_done _ _ _ _ _ (getval_tab "msg" l s' (ex_tab _ _ _ _ _ Hex)
             (sends_pairs _ _ _ _ Hs))).
Qed.

(** ** Initialisation *)

Lemma sys_env s name :
  sys (getenv name) s = (Done (os_env (u_os (p_u s)) !! name), s).
Proof. by destruct s as [[] ? ? ? ? ? ? ? ? ? ? ? ? ? ?]. Qed.

Lemma getenv_int_eq name dflt s :
  getenv_int name dflt s =
  (Done (default dflt (atoi <$> os_env (u_os (p_u s)) !! name)), s).
Proof.
  unfold getenv_int. rewrite (bind_done _ _ _ _ _ (sys_env s name)).
  by destruct (os_env _ !! name).
Qed.

(** An environment variable of the process. *)
Definition env (s : pmi1) (name : string) : option cstr := os_env (u_os (p_u s)) !! name.

Lemma getPMIFD_inherited s fd :
  env s "PMI_FD" = Some fd → getPMIFD s = (Done (0, true), set_PMI_fd (atoi fd) s).
Proof.
  intros Hfd. unfold getPMIFD. erewrite bind_done by reflexivity.
  rewrite (bind_done _ _ _ _ _ (sys_env _ "PMI_FD")).
  change (os_env (u_os (p_u (set_PMI_fd (-1) s))) !! "PMI_FD"%string) with (env s "PMI_FD").
  rewrite Hfd. by destruct s.
Qed.

(** A process started without a process manager initialises as a job of
    one: rank 0 of 1, not spawned, limits of 256, and it has not touched the
    operating system. *)
Theorem PMI_Init_singleton (s : pmi1)
    (Hfd : env s "PMI_FD" = None) (Hport : env s "PMI_PORT" = None) :
  ∃ s', PMI_Init s = (Done (0, InitOut (Some 0) (Some 1) (Some 0)), s') ∧
    PMI_initialized s' = SINGLETON_INIT_BUT_NO_PM ∧ PMI_fd s' = -1 ∧
    PMI_size s' = 1 ∧ PMI_rank s' = 0 ∧
    (PMI_kvsname_max s', PMI_keylen_max s', PMI_vallen_max s') = (256, 256, 256) ∧
    p_u s' = p_u s.
Proof.
  unfold env in *. unfold PMI_Init. do 2 (erewrite bind_done by reflexivity).
  rewrite (bind_done _ _ _ _ _ (getenv_int_eq _ _ _)). erewrite bind_done by reflexivity.
  unfold getPMIFD. rewrite bind_assoc. erewrite bind_done by reflexivity.
  rewrite bind_assoc, (bind_done _ _ _ _ _ (sys_env _ "PMI_FD")). simpl. rewrite Hfd.
  rewrite bind_assoc, (bind_done _ _ _ _ _ (sys_env _ "PMI_PORT")). simpl. rewrite Hport.
  eexists. split; [reflexivity|]. by destruct s.
Qed.

Lemma returns_preserves {A} (R : pmi1 → pmi1 → Prop) (m : M pmi1 A) s Q :
  preserves R m → (∀ a s', R s s' → Q a s') → returns m s Q.
Proof. intros Hm HQ a s' E. apply HQ. specialize (Hm s). by rewrite E in Hm. Qed.

Lemma init_finish_returns s :
  PMI_initialized s = PMI_UNINITIALIZED →
  returns init_finish s (λ _ s', PMI_initialized s' = NORMAL_INIT_WITH_PM).
Proof.
  intros Hs. unfold init_finish. apply returns_bind.
  eapply returns_preserves; [exact PMII_getmaxes_life|]. intros _ s1 [H1 _].
  rewrite Hs in H1. apply returns_bind. intros v s2 E2.
  rewrite getenv_int_eq in E2. injection E2 as <- <-.
  do 2 (apply returns_bind; intros ? ? [= <- <-]). cbn [PMI_initialized set_PMI_spawned].
  rewrite decide_True by done. apply returns_bind. intros ? ? [= <- <-].
  apply returns_bind. eapply (returns_preserves frame); [preserve|].
  intros _ s3 H3 ? ? [= <- <-]. unfold frame in H3. by rewrite H3.
Qed.

(** Initialisation on an inherited descriptor cannot fail: whatever the
    process manager answers to the opening handshake, with a refusal, with a
    closed connection or with nonsense, [PMI_Init] returns 0 when it returns,
    and the client is in the state of a normal initialisation. *)
Theorem PMI_Init_never_fails (s : pmi1) (fd : cstr)
    (Hfd : env s "PMI_FD" = Some fd) (Hok : atoi fd ≠ -1)
    (Htv : PMI_totalview s = 0) (Htve : env s "PMI_TOTALVIEW" = None) :
  returns PMI_Init s (λ r s', r.1 = 0 ∧ PMI_initialized s' = NORMAL_INIT_WITH_PM).
Proof.
  unfold PMI_Init. do 2 (apply returns_bind; intros ? ? [= <- <-]).
  apply returns_bind.
  intros v s1 E. rewrite getenv_int_eq in E. injection E as <- <-.
  apply returns_bind. intros ? ? [= <- <-]. apply returns_bind.
  intros r s2 E2. erewrite getPMIFD_inherited in E2 by exact Hfd.
  injection E2 as <- <-. change (0 <>z 0) with false. cbv beta iota.
  apply returns_bind. intros ? ? [= <- <-]. cbn [PMI_fd set_PMI_fd].
  destruct (Z.eqb_spec (atoi fd) (-1)); [done|]. apply returns_bind.
  set (s3 := set_PMI_fd _ _).
  assert (preserves (λ s s', PMI_initialized s' = PMI_initialized s ∧
    PMI_totalview s' = PMI_totalview s ∧ os_env (u_os (p_u s')) = os_env (u_os (p_u s)))
    init_from_env) as Hp.
  { intros x. unfold init_from_env.
    rewrite (bind_done _ _ _ _ _ (getenv_int_eq _ _ _)). erewrite bind_done by reflexivity.
    rewrite (bind_done _ _ _ _ _ (sys_env _ "PMI_RANK")).
    destruct (os_env _ !! "PMI_RANK"%string).
    - rewrite bind_assoc. do 2 (erewrite bind_done by reflexivity).
      by rewrite (bind_done _ _ _ _ _ (getenv_int_eq _ _ _)).
    - erewrite bind_done by reflexivity.
      by rewrite (bind_done _ _ _ _ _ (getenv_int_eq _ _ _)). }
  eapply returns_preserves; [exact Hp|]. intros _ s4 (H4 & T4 & E4).
  apply returns_bind. intros ? ? [= <- <-]. apply returns_bind.
  unfold init_totalview. apply returns_bind. intros ? ? [= <- <-].
  apply returns_bind. intros w s5 E5. rewrite getenv_int_eq, E4 in E5. simpl in E5.
  unfold env in Htve. rewrite Htve, T4 in E5. simpl in E5. rewrite Htv in E5. injection E5 as <- <-.
  apply returns_bind. intros ? ? [= <- <-]. change (0 =? 0) with true. cbv iota.
  intros ? ? [= <- <-]. cbn [negb]. apply returns_bind.
  eapply returns_mono; [apply init_finish_returns; exact H4|].
  intros sp s6 H6 ? ? [= <- <-]. done.
Qed.

Lemma strn_eq_refl a n : strn_eq a a n = true.
Proof. unfold strn_eq. by rewrite bool_decide_eq_true. Qed.

Definition init_request : cstr := L "cmd=init pmi_version=1 pmi_subversion=1".

(** The handshake with a process manager that accepts it: the limits are those
    of its answer. *)
Lemma getmaxes_ok s l1 l2 rest :
  sends (PMI_fd s) (p_u s) l1 (format_kvs l2 ++ rest) →
  field "cmd" l1 = L "response_to_init" → field "rc" l1 = L "0" →
  Forall kv_sendable l2 → (length l2 ≤ KEYVAL_TAB_SIZE)%nat →
  strlen (format_kvs l2) < PMIU_MAXLINE →
  has "cmd" l2 = true → field "cmd" l2 = L "maxes" →
  ∃ u, PMII_getmaxes s = (Done 0,
      set_PMI_vallen_max (atoi (field "vallen_max" l2))
      (set_PMI_keylen_max (atoi (field "keylen_max" l2))
      (set_PMI_kvsname_max (atoi (field "kvsname_max" l2)) (set_p_u u s)))) ∧
    ready (PMI_fd s) u rest ∧
    io_step (PMI_fd s) (init_request ++ eol ++ L "cmd=get_maxes" ++ eol) (p_u s) u.
Proof.
  intros Hs Hc1 Hr1 Hl2 Hn2 Hf2 Hh2 Hc2. pose proof (sends_pairs _ _ _ _ Hs) as Hl1.
  destruct (PMIU_writeline_ready (PMI_fd s) init_request (p_u s) _ (sends_ready _ _ _ _ Hs))
    as (u1 & E1 & R1 & I1 & T1); [vm_compute; reflexivity|].
  destruct (read_message (PMI_fd s) u1 l1 (format_kvs l2 ++ rest))
    as (buf & u2 & E2 & Hpos & E3 & R2 & I2).
  { split; [done|apply Hs..]. }
  unfold PMII_getmaxes. erewrite bind_done by reflexivity.
  erewrite bind_done by (apply util_done; exact E1). change (0 <>z 0) with false. cbv iota.
  erewrite bind_done by (apply util_done, E2). cbv beta iota.
  destruct (Z.ltb_spec (strlen buf) 0); [lia|]. erewrite bind_done by reflexivity.
  erewrite bind_done by (apply util_done, E3). rewrite !set_p_u_twice.
  set (s1 := set_p_u (set_u_tab l1 u2) s).
  assert (check_init_response s1 = (Done tt, s1)) as Ec.
  { unfold check_init_response.
    rewrite (bind_done _ _ _ _ _ (getval_tab "cmd" l1 s1 eq_refl Hl1)), Hc1, strn_eq_refl.
    cbn [negb].
    by rewrite (bind_done _ _ _ _ _ (getval_tab "rc" l1 s1 eq_refl Hl1)), Hr1, strn_eq_refl. }
  rewrite (bind_done _ _ _ _ _ Ec).
  destruct (exchange s1 (L "cmd=get_maxes") (L "maxes") false l2 rest)
    as (s2 & E4 & [X2 T2 R4 I4]); [|vm_compute; reflexivity|].
  { split; [|done..]. exact R2. }
  rewrite (bind_done _ _ _ _ _ E4), (response_ok (L "maxes") l2 Hc2 Hh2). cbv iota.
  change (PMI_SUCCESS =? PMI_SUCCESS) with true. cbv iota.
  rewrite (bind_done _ _ _ _ _ (getval_int_tab "kvsname_max" l2 s2 T2 Hl2)).
  erewrite bind_done by reflexivity.
  erewrite bind_done by (apply (getval_int_tab "keylen_max" l2); [exact T2|exact Hl2]).
  erewrite bind_done by reflexivity.
  erewrite bind_done by (apply (getval_int_tab "vallen_max" l2); [exact T2|exact Hl2]).
  erewrite bind_done by reflexivity.
  exists (p_u s2). split; [|split; [exact R4|]].
  - unfold mret, M_ret. rewrite X2. by destruct s.
  - change (init_request ++ eol ++ L "cmd=get_maxes" ++ eol)
      with (((init_request ++ [LF]) ++ []) ++ (L "cmd=get_maxes" ++ eol)).
    eapply io_step_trans; [|exact I4]. apply io_step_set_tab.
    by eapply io_step_trans.
Qed.

(** What a process learns from its environment. *)
Definition env_int (s : pmi1) (name : string) (dflt : Z) : Z := default dflt (atoi <$> env s name).

Lemma init_from_env_eq s :
  ∃ u, init_from_env s =
    (Done tt, set_PMI_debug (env_int s "PMI_DEBUG" 0) (set_PMI_rank (env_int s "PMI_RANK" 0)
       (set_PMI_size (env_int s "PMI_SIZE" 1) (set_p_u u s)))) ∧
    u_os u = u_os (p_u s) ∧ u_tab u = u_tab (p_u s) ∧ u_readbuf u = u_readbuf (p_u s) ∧
    u_lastfd u = u_lastfd (p_u s).
Proof.
  unfold init_from_env, env_int, env.
  rewrite (bind_done _ _ _ _ _ (getenv_int_eq _ _ _)). erewrite bind_done by reflexivity.
  rewrite (bind_done _ _ _ _ _ (sys_env _ "PMI_RANK")). simpl.
  destruct (os_env _ !! "PMI_RANK"%string) as [p|].
  - rewrite bind_assoc. erewrite bind_done by reflexivity. erewrite bind_done by reflexivity.
    rewrite (bind_done _ _ _ _ _ (getenv_int_eq _ _ _)). simpl.
    eexists. split; [reflexivity|]. done.
  - erewrite bind_done by reflexivity.
    rewrite (bind_done _ _ _ _ _ (getenv_int_eq _ _ _)). simpl.
    exists (p_u s). split; [|done]. by destruct s.
Qed.

Lemma ready_same_io fd u u' bs :
  u_os u' = u_os u → u_readbuf u' = u_readbuf u → u_lastfd u' = u_lastfd u →
  ready fd u bs → ready fd u' bs.
Proof. unfold ready. intros -> -> ->. done. Qed.

(** C19: initialisation under a process manager that accepts the handshake
    returns 0 with the rank and size of the environment (1 and 0 when they are
    not set), takes the limits from the process manager, sends exactly the two
    requests of the handshake, ends in the normal state and records the
    descriptor in the environment of the processes to come. *)
Theorem PMI_Init_spec (s : pmi1) (fd : cstr) (l1 l2 : list keyval) (rest : cstr)
    (Hfd : env s "PMI_FD" = Some fd) (Hok : atoi fd ≠ -1)
    (Htv : PMI_totalview s = 0) (Htve : env s "PMI_TOTALVIEW" = None)
    (Hs : sends (atoi fd) (p_u s) l1 (format_kvs l2 ++ rest))
    (Hc1 : field "cmd" l1 = L "response_to_init") (Hr1 : field "rc" l1 = L "0")
    (Hl2 : Forall kv_sendable l2) (Hn2 : (length l2 ≤ KEYVAL_TAB_SIZE)%nat)
    (Hf2 : strlen (format_kvs l2) < PMIU_MAXLINE)
    (Hh2 : has "cmd" l2 = true) (Hc2 : field "cmd" l2 = L "maxes") :
  ∃ s', PMI_Init s =
      (Done (0, InitOut (Some (if env_int s "PMI_SPAWNED" 0 =? 0 then 0 else 1))
                  (Some (env_int s "PMI_SIZE" 1)) (Some (env_int s "PMI_RANK" 0))), s') ∧
    PMI_initialized s' = NORMAL_INIT_WITH_PM ∧ PMI_fd s' = atoi fd ∧
    PMI_size s' = env_int s "PMI_SIZE" 1 ∧ PMI_rank s' = env_int s "PMI_RANK" 0 ∧
    PMI_kvsname_max s' = atoi (field "kvsname_max" l2) ∧
    PMI_keylen_max s' = atoi (field "keylen_max" l2) ∧
    PMI_vallen_max s' = atoi (field "vallen_max" l2) ∧
    ready (atoi fd) (p_u s') rest ∧
    env s' "PMI_FD" = Some (show_int (atoi fd)) ∧
    c_out <$> os_fds (u_os (p_u s')) !! atoi fd =
      (λ c, c_out c ++ init_request ++ eol ++ L "cmd=get_maxes" ++ eol)
      <$> os_fds (u_os (p_u s)) !! atoi fd.
Proof.
  unfold PMI_Init. do 2 (erewrite bind_done by reflexivity).
  rewrite (bind_done _ _ _ _ _ (getenv_int_eq _ _ _)). erewrite bind_done by reflexivity.
  erewrite (bind_done getPMIFD) by (apply getPMIFD_inherited; exact Hfd).
  cbv beta iota. change (0 <>z 0) with false. cbv iota.
  erewrite bind_done by reflexivity. cbn [PMI_fd set_PMI_fd].
  destruct (Z.eqb_spec (atoi fd) (-1)); [done|].
  match goal with |- context [init_from_env ≫= ?k] =>
    match goal with |- context [(init_from_env ≫= k) ?x] => set (s0 := x) end end.
  destruct (init_from_env_eq s0) as (u0 & E0 & O0 & T0 & B0 & L0).
  rewrite (bind_done _ _ _ _ _ E0). erewrite bind_done by reflexivity.
  unfold init_totalview. rewrite bind_assoc. erewrite bind_done by reflexivity.
  rewrite bind_assoc, (bind_done _ _ _ _ _ (getenv_int_eq _ _ _)).
  cbn [p_u set_PMI_debug set_PMI_rank set_PMI_size set_p_u PMI_totalview].
  rewrite O0. subst s0. cbn [p_u set_PMI_fd set_PMI_debug set_PMI_initialized PMI_totalview] in *.
  unfold env in Htve. rewrite Htve, Htv. cbn [default fmap option_fmap option_map from_option].
  rewrite bind_assoc. erewrite bind_done by reflexivity.
  change (0 =? 0) with true. cbv iota. erewrite bind_done by reflexivity. cbn [negb].
  unfold init_finish. rewrite bind_assoc.
  match goal with |- context [PMII_getmaxes ≫= ?k] =>
    match goal with |- context [(PMII_getmaxes ≫= k) ?x] => set (s1 := x) end end.
  destruct (getmaxes_ok s1 l1 l2 rest) as (u2 & E2 & R2 & I2); [|done..|].
  { split; [|apply Hs..]. eapply (ready_same_io _ (p_u s)); [done..|apply Hs]. }
  rewrite (bind_done _ _ _ _ _ E2), bind_assoc, (bind_done _ _ _ _ _ (getenv_int_eq _ _ _)).
  rewrite bind_assoc. erewrite bind_done by reflexivity.
  rewrite bind_assoc. erewrite bind_done by reflexivity.
  cbn [p_u set_PMI_vallen_max set_PMI_keylen_max set_PMI_kvsname_max set_p_u].
  rewrite (io_env _ _ _ _ I2). subst s1. cbn [p_u set_PMI_totalview set_PMI_debug set_PMI_rank set_PMI_size set_p_u].
  rewrite O0. rewrite decide_True by done. rewrite bind_assoc. erewrite bind_done by reflexivity.
  rewrite bind_assoc. erewrite bind_done by reflexivity.
  eexists. split; [reflexivity|]. cbn. split_and!; try done.
  - unfold env. simpl. apply lookup_insert_eq.
  - etrans; [exact (io_out _ _ _ _ I2)|]. rewrite <-O0. reflexivity.
Qed.

(** ** The error codes of a spawn *)

(** The error codes of a spawn: a list of integers, sent as decimal
    numbers between commas, is stored at the start of the caller's array, the
    rest of which is left alone; codes beyond the end of the array are stored
    past it, because the bound is only asserted and assertions are compiled out. *)
Theorem spawn_result_errcodes (s : pmi1) (l : list keyval) (total : Z)
    (codes errors : list Z)
    (Hl : Forall kv_sendable l) (Ht : u_tab (p_u s) = l)
    (Hcmd : field "cmd" l = L "spawn_result") (Hrc : atoi (field "rc" l) = 0)
    (Hh : has "errcodes" l = true)
    (He : field "errcodes" l = join_on ","%char (show_int <$> codes))
    (Hne : codes ≠ []) (Hint : Forall is_int codes) :
  spawn_result total errors s =
  (if decide (length codes ≤ length errors)%nat
   then Done (0, codes ++ drop (length codes) errors) else Fault OutOfBounds, s).
Proof.
  unfold spawn_result.
  rewrite (bind_done _ _ _ _ _ (getval_tab "cmd" l s Ht Hl)), Hcmd, strn_eq_refl. cbn [negb].
  rewrite (bind_done _ _ _ _ _ (getval_int_tab "rc" l s Ht Hl)), Hrc.
  change (0 <>z 0) with false. cbv iota.
  rewrite (bind_done _ _ _ _ _ (getval_tab "errcodes" l s Ht Hl)), Hh, He. cbv beta iota zeta.
  rewrite split_codes by done.
  rewrite store_codes_eq. destruct (decide (length codes ≤ length errors)%nat) as [H|H].
  - by rewrite decide_True by auto.
  - rewrite decide_False; [done|]. by intros [?|?].
Qed.

(** ** The properties at concrete inputs *)

Definition demo_pmi1 (st : PMIState) (env : gmap string cstr) (evs : list in_event) : pmi1 :=
  Pmi1 (PMIU (OS env {[ 5 := Conn evs [] [] ]} demo_net) [] [] (-1) (L "unset"))
    5 1 0 st 256 256 256 0 0 0 [] [] true [].

Lemma demo_sends env st l rest evs :
  Forall kv_sendable l → (length l ≤ KEYVAL_TAB_SIZE)%nat →
  strlen (format_kvs l) < PMIU_MAXLINE → data_of evs = format_kvs l ++ rest →
  sends 5 (p_u (demo_pmi1 st env evs)) l rest.
Proof.
  intros. split; [|done..].
  exists (Conn evs [] []). split_and!; [vm_compute; reflexivity|done|by left|done].
Qed.

Ltac demo_msg := apply demo_sends;
  [by apply (bool_decide_unpack _)|vm_compute; lia|vm_compute; reflexivity|vm_compute; reflexivity].

Definition demo_get_result : list keyval :=
  [(L "cmd", L "get_result"); (L "rc", L "0"); (L "value", L "card0#42")].
Definition demo_put_result : list keyval :=
  [(L "cmd", L "put_result"); (L "rc", L "-1"); (L "msg", L "duplicate")].
Definition arrives (l : list keyval) : list in_event := [InData (format_kvs l)].

Lemma GetResponse_spec_witness :
  ∃ s', GetResponse (line_text (L "cmd=barrier_in" ++ eol)) (L "barrier_out") false
          (demo_pmi1 NORMAL_INIT_WITH_PM ∅ (arrives demo_get_result)) = (Done (-1), s') ∧
    exchanged (L "cmd=barrier_in" ++ eol) demo_get_result []
      (demo_pmi1 NORMAL_INIT_WITH_PM ∅ (arrives demo_get_result)) s'.
Proof.
  apply (GetResponse_spec (demo_pmi1 NORMAL_INIT_WITH_PM ∅ (arrives demo_get_result))
           (L "cmd=barrier_in") (L "barrier_out") false demo_get_result []).
  - demo_msg.
  - vm_compute. reflexivity.
Defined.

Lemma PMI_KVS_Get_spec_witness :
  ∃ s', PMI_KVS_Get (L "kvs_0") (L "addr") 6
          (demo_pmi1 NORMAL_INIT_WITH_PM ∅ (arrives demo_get_result))
        = (Done (0, Some (L "card0")), s') ∧
    exchanged (get_request (L "kvs_0") (L "addr") ++ eol) demo_get_result []
      (demo_pmi1 NORMAL_INIT_WITH_PM ∅ (arrives demo_get_result)) s'.
Proof.
  apply (PMI_KVS_Get_spec (demo_pmi1 NORMAL_INIT_WITH_PM ∅ (arrives demo_get_result))
           (L "kvs_0") (L "addr") 6 demo_get_result []).
  - done.
  - demo_msg.
  - vm_compute. reflexivity.
  - lia.
Defined.

Lemma PMI_KVS_Put_spec_witness :
  ∃ s', PMI_KVS_Put (L "kvs_0") (L "addr") (L "card0")
          (demo_pmi1 NORMAL_INIT_WITH_PM ∅ (arrives demo_put_result)) = (Done (-1), s') ∧
    exchanged (put_request (L "kvs_0") (L "addr") (L "card0") ++ eol) demo_put_result []
      (demo_pmi1 NORMAL_INIT_WITH_PM ∅ (arrives demo_put_result)) s'.
Proof.
  apply (PMI_KVS_Put_spec (demo_pmi1 NORMAL_INIT_WITH_PM ∅ (arrives demo_put_result))
           (L "kvs_0") (L "addr") (L "card0") demo_put_result []).
  - done.
  - demo_msg.
  - vm_compute. reflexivity.
Defined.

Definition long_value : cstr := replicate 1000 "x"%char.

Lemma PMI_KVS_Put_lost_witness :
  PMI_KVS_Put (L "kvs_0") (L "addr") long_value (demo_pmi1 NORMAL_INIT_WITH_PM ∅ []) =
  (Hang, set_p_u (set_u_lastfd 5 (p_u (demo_pmi1 NORMAL_INIT_WITH_PM ∅ [])))
           (demo_pmi1 NORMAL_INIT_WITH_PM ∅ [])).
Proof.
  apply (PMI_KVS_Put_lost (demo_pmi1 NORMAL_INIT_WITH_PM ∅ []) (L "kvs_0") (L "addr")
           long_value (Conn [] [] [])).
  - done.
  - vm_compute. reflexivity.
  - reflexivity.
  - reflexivity.
  - by apply (bool_decide_unpack _).
  - by apply (bool_decide_unpack _).
Defined.

Lemma PMI_Publish_name_spec_witness :
  ∃ s', PMI_Publish_name (L "srv") (L "p1")
          (demo_pmi1 NORMAL_INIT_WITH_PM ∅ (arrives demo_put_result))
        = (Done PMI_SUCCESS, s').
Proof.
  apply (PMI_Publish_name_spec (demo_pmi1 NORMAL_INIT_WITH_PM ∅ (arrives demo_put_result))
           (L "srv") (L "p1") demo_put_result []).
  - done.
  - demo_msg.
  - vm_compute. reflexivity.
Defined.

Lemma PMI_Init_singleton_witness :
  ∃ s', PMI_Init (demo_pmi1 PMI_UNINITIALIZED ∅ [])
        = (Done (0, InitOut (Some 0) (Some 1) (Some 0)), s') ∧
    PMI_initialized s' = SINGLETON_INIT_BUT_NO_PM ∧ PMI_fd s' = -1 ∧
    PMI_size s' = 1 ∧ PMI_rank s' = 0 ∧
    (PMI_kvsname_max s', PMI_keylen_max s', PMI_vallen_max s') = (256, 256, 256) ∧
    p_u s' = p_u (demo_pmi1 PMI_UNINITIALIZED ∅ []).
Proof.
  apply (PMI_Init_singleton (demo_pmi1 PMI_UNINITIALIZED ∅ [])); reflexivity.
Defined.

(** A process of rank 3 of 4 on descriptor 5. *)
Definition demo_env : gmap string cstr :=
  <["PMI_FD"%string := L "5"]> (<["PMI_SIZE"%string := L "4"]> {["PMI_RANK"%string := L "3"]}).

Lemma PMI_Init_never_fails_witness :
  returns PMI_Init (demo_pmi1 PMI_UNINITIALIZED demo_env [InEof])
    (λ r s', r.1 = 0 ∧ PMI_initialized s' = NORMAL_INIT_WITH_PM) ∧
  (PMI_Init (demo_pmi1 PMI_UNINITIALIZED demo_env [InEof])).1
  = Done (0, InitOut (Some 0) (Some 4) (Some 3)).
Proof.
  split.
  - apply (PMI_Init_never_fails (demo_pmi1 PMI_UNINITIALIZED demo_env [InEof]) (L "5"));
      [vm_compute; reflexivity|vm_compute; lia|reflexivity|vm_compute; reflexivity].
  - vm_compute. reflexivity.
Defined.

Definition demo_init_response : list keyval :=
  [(L "cmd", L "response_to_init"); (L "pmi_version", L "1"); (L "rc", L "0")].
Definition demo_maxes : list keyval :=
  [(L "cmd", L "maxes"); (L "kvsname_max", L "256"); (L "keylen_max", L "64");
   (L "vallen_max", L "512")].
Definition demo_handshake : pmi1 :=
  demo_pmi1 PMI_UNINITIALIZED demo_env
    [InData (format_kvs demo_init_response); InData (format_kvs demo_maxes)].

Lemma PMI_Init_spec_witness :
  ∃ s', PMI_Init demo_handshake = (Done (0, InitOut (Some 0) (Some 4) (Some 3)), s') ∧
    PMI_initialized s' = NORMAL_INIT_WITH_PM ∧ PMI_fd s' = 5 ∧
    PMI_size s' = 4 ∧ PMI_rank s' = 3 ∧
    PMI_kvsname_max s' = 256 ∧ PMI_keylen_max s' = 64 ∧ PMI_vallen_max s' = 512 ∧
    ready 5 (p_u s') [] ∧ env s' "PMI_FD" = Some (show_int 5) ∧
    c_out <$> os_fds (u_os (p_u s')) !! 5%Z =
      (λ c, c_out c ++ init_request ++ eol ++ L "cmd=get_maxes" ++ eol)
      <$> os_fds (u_os (p_u demo_handshake)) !! 5%Z.
Proof.
  apply (PMI_Init_spec demo_handshake (L "5") demo_init_response demo_maxes []).
  - vm_compute. reflexivity.
  - vm_compute. lia.
  - reflexivity.
  - vm_compute. reflexivity.
  - demo_msg.
  - reflexivity.
  - reflexivity.
  - by apply (bool_decide_unpack _).
  - vm_compute. lia.
  - vm_compute. reflexivity.
  - vm_compute. reflexivity.
  - vm_compute. reflexivity.
Defined.

Definition demo_spawn_result : list keyval :=
  [(L "cmd", L "spawn_result"); (L "rc", L "0"); (L "errcodes", L "0,-2,7")].

Lemma spawn_result_errcodes_witness :
  spawn_result 3 [9; 9; 9; 9] (set_p_u (set_u_tab demo_spawn_result (demo_pmiu []))
    (demo_pmi1 NORMAL_INIT_WITH_PM ∅ []))
  = (Done (0, [0; -2; 7; 9]), set_p_u (set_u_tab demo_spawn_result (demo_pmiu []))
    (demo_pmi1 NORMAL_INIT_WITH_PM ∅ [])).
Proof.
  apply (spawn_result_errcodes _ demo_spawn_result 3 [0; -2; 7] [9; 9; 9; 9]).
  - by apply (bool_decide_unpack _).
  - reflexivity.
  - reflexivity.
  - reflexivity.
  - vm_compute. reflexivity.
  - vm_compute. reflexivity.
  - done.
  - repeat constructor; unfold int_min, int_max; lia.
Defined.
