(* ===== verification/PendingQ.v ===== *)
(** * The queue of pending commands (pmi2_api.c: [ENQUEUE], [SEARCH_REMOVE])

    A singly linked list of heap cells with a head and a tail pointer.  The
    heap maps addresses to cells, 0 is NULL; the abstract queue is the list of
    the commands' addresses, oldest first. *)

From S2P Require Import Prelude.

Local Open Scope Z_scope.

(** [pending_item_t]. *)
Record pending_item := PItem { pi_next : Z; pi_cmd : Z }.

(** [pendingq_head], [pendingq_tail], the heap cells and the address the next
    [malloc] returns. *)
Record pendingq := PendingQ {
  pq_heap : gmap Z pending_item;
  pq_head : Z;
  pq_tail : Z;
  pq_brk : Z }.

Definition pq_empty : pendingq := PendingQ ∅ 0 0 1.

Definition load (pi : Z) : M pendingq pending_item :=
  q ← get; or_fault NullDeref (pq_heap q !! pi).

Definition set_next (pi next : Z) : M pendingq () :=
  c ← load pi;
  modify (λ q, PendingQ (<[pi := PItem next (pi_cmd c)]> (pq_heap q))
                 (pq_head q) (pq_tail q) (pq_brk q)).

Definition set_head (v : Z) : M pendingq () :=
  modify (λ q, PendingQ (pq_heap q) v (pq_tail q) (pq_brk q)).
Definition set_tail (v : Z) : M pendingq () :=
  modify (λ q, PendingQ (pq_heap q) (pq_head q) v (pq_brk q)).
Definition free_item (pi : Z) : M pendingq () :=
  modify (λ q, PendingQ (delete pi (pq_heap q)) (pq_head q) (pq_tail q) (pq_brk q)).

(** [malloc] followed by the two stores into the new cell. *)
Definition new_item (cmd : Z) : M pendingq Z := λ q,
  (Done (pq_brk q),
   PendingQ (<[pq_brk q := PItem 0 cmd]> (pq_heap q)) (pq_head q) (pq_tail q) (pq_brk q + 1)).

Definition ENQUEUE (cmd : Z) : M pendingq () :=
  pi ← new_item cmd;
  q ← get;
  if pq_head q =? 0 then set_head pi;; set_tail pi
  else set_next (pq_tail q) pi;; set_tail pi.

(** The loop over the rest of the list; [prev] stays the first cell. *)
Fixpoint search_loop (fuel : nat) (prev pi cmd : Z) : M pendingq Z :=
  match fuel with
  | O => hang_
  | S fuel =>
      if pi =? 0 then mret 0
      else
        c ← load pi;
        if pi_cmd c =? cmd then
          set_next prev (pi_next c);;
          (if pi_next c =? 0 then set_tail prev else mret tt);;
          free_item pi;;
          mret 1
        else search_loop fuel prev (pi_next c) cmd
  end.

Definition SEARCH_REMOVE (cmd : Z) : M pendingq Z :=
  q ← get;
  let pi := pq_head q in
  c ← load pi;
  if pi_cmd c =? cmd then
    set_head (pi_next c);;
    (if pi_next c =? 0 then set_tail 0 else mret tt);;
    free_item pi;;
    mret 1
  else search_loop (S (size (pq_heap q))) pi (pi_next c) cmd.

(** ** The abstract queue *)

(** The cells from [p] on are those of [l], pairs of an address and a command. *)
Fixpoint chain (h : gmap Z pending_item) (p : Z) (l : list (Z * Z)) : Prop :=
  match l with
  | [] => p = 0
  | (a, cmd) :: l => p = a ∧ ∃ next, h !! a = Some (PItem next cmd) ∧ chain h next l
  end.

(** [q] holds the cells [l]. *)
Record cells (q : pendingq) (l : list (Z * Z)) : Prop := {
  cells_chain : chain (pq_heap q) (pq_head q) l;
  cells_tail : pq_tail q = default 0 (last l.*1);
  cells_nodup : NoDup l.*1;
  cells_pos : Forall (λ a, 0 < a) l.*1;
  cells_brk : ∀ a, is_Some (pq_heap q !! a) → 0 < a < pq_brk q;
  cells_brk_pos : 0 < pq_brk q }.

(** [q] is the queue of the commands [cs]. *)
Definition is_queue (q : pendingq) (cs : list Z) : Prop := ∃ l, cells q l ∧ l.*2 = cs.

Lemma is_queue_empty : is_queue pq_empty [].
Proof.
  exists []. split; [|done]. split; simpl; [done|done|constructor|constructor| |lia].
  intros a. rewrite lookup_empty. by intros [? ?].
Qed.

Lemma chain_weaken h h' p l :
  (∀ a, a ∈ l.*1 → h' !! a = h !! a) → chain h p l → chain h' p l.
Proof.
  revert p. induction l as [|[a cmd] l IH]; intros p Hh; simpl; [done|].
  intros (-> & next & Ha & Hl). split; [done|]. exists next. split.
  - rewrite Hh; [done|]. simpl. by left.
  - apply IH; [|done]. intros b Hb. apply Hh. simpl. by right.
Qed.

Lemma chain_lookup h p l i a cmd :
  chain h p l → l !! i = Some (a, cmd) → ∃ next, h !! a = Some (PItem next cmd) ∧
    chain h next (drop (S i) l).
Proof.
  revert p i. induction l as [|[b c] l IH]; intros p i; simpl; [done|].
  intros (-> & next & Hb & Hl). destruct i as [|i]; simpl.
  - intros [= -> ->]. exists next. by rewrite drop_0.
  - intros Hi. by eapply IH.
Qed.

Lemma chain_elem h p l a : chain h p l → a ∈ l.*1 → is_Some (h !! a).
Proof.
  revert p. induction l as [|[b c] l IH]; intros p; simpl; [by intros _ ?%not_elem_of_nil|].
  intros (-> & next & Hb & Hl) [->|?]%elem_of_cons; [by eexists|by eapply IH].
Qed.

(** Appending a fresh cell at the end of a chain. *)
Lemma chain_snoc h p l a cmd :
  chain h p l → l ≠ [] → NoDup l.*1 → a ∉ l.*1 →
  ∀ t c, last l = Some (t, c) →
  chain (<[t := PItem a c]> (<[a := PItem 0 cmd]> h)) p (l ++ [(a, cmd)]).
Proof.
  revert p. induction l as [|[b c] l IH]; intros p Hl Hne Hnd Ha t c' Ht; [done|].
  simpl in *. destruct Hl as (-> & next & Hb & Hl).
  apply NoDup_cons in Hnd as [Hb' Hnd]. apply not_elem_of_cons in Ha as [Hab Ha].
  split; [done|]. destruct l as [|x l].
  - simpl in Ht. injection Ht as -> ->. exists a. split; [by rewrite lookup_insert_eq|].
    simpl. split; [done|]. exists 0. split; [|done].
    rewrite lookup_insert_ne by done. by rewrite lookup_insert_eq.
  - exists next. split.
    + rewrite !lookup_insert_ne; [done|done|]. intros ->. apply Hb'.
      rewrite last_cons_cons in Ht. apply list_elem_of_fmap. exists (b, c'). split; [done|].
      by apply last_Some_elem_of.
    + apply IH; try done. 
Qed.

Lemma last_fst (l : list (Z * Z)) : last l.*1 = fst <$> last l.
Proof. by rewrite fmap_last. Qed.

Lemma ENQUEUE_cells q l cmd :
  cells q l → ∃ q', ENQUEUE cmd q = (Done tt, q') ∧ cells q' (l ++ [(pq_brk q, cmd)]).
Proof.
  intros [Hc Ht Hnd Hpos Hbrk Hbp]. unfold ENQUEUE. erewrite bind_done by reflexivity.
  erewrite bind_done by reflexivity. cbn [pq_head].
  assert (pq_brk q ∉ l.*1) as Hfresh.
  { intros Hin. pose proof (chain_elem _ _ _ _ Hc Hin) as Hs.
    specialize (Hbrk _ Hs). lia. }
  assert (NoDup (l ++ [(pq_brk q, cmd)]).*1) as Hnd'.
  { rewrite fmap_app. apply NoDup_app. split; [done|]. split; [|apply NoDup_singleton].
    intros x Hx ->%list_elem_of_singleton. done. }
  assert (Forall (λ a, 0 < a) (l ++ [(pq_brk q, cmd)]).*1) as Hpos'.
  { rewrite fmap_app. apply Forall_app_2; [done|]. by constructor. }
  assert (default 0 (last (l ++ [(pq_brk q, cmd)]).*1) = pq_brk q) as Hlast.
  { rewrite fmap_app. simpl. by rewrite last_snoc. }
  destruct l as [|[a c] l].
  - simpl in Hc. rewrite Hc. cbn [Z.eqb]. eexists. split; [reflexivity|].
    split; simpl; try done.
    + split; [done|]. exists 0. by rewrite lookup_insert_eq.
    + intros b Hb. destruct (decide (b = pq_brk q)) as [->|Hne]; [lia|].
      rewrite lookup_insert_ne in Hb by done. specialize (Hbrk _ Hb). lia.
    + lia.
  - pose proof Hc as (Hh & _). pose proof (Forall_inv Hpos) as Ha. simpl in Ha.
    destruct (Z.eqb_spec (pq_head q) 0); [lia|].
    destruct (last ((a, c) :: l)) as [[t ct]|] eqn:El; [|by apply last_None in El].
    assert (pq_tail q = t) as Htl by (by rewrite Ht, last_fst, El).
    assert (t ≠ pq_brk q) as Hne.
    { intros ->. apply Hfresh. rewrite <-Htl in *. apply last_Some_elem_of in El.
      apply list_elem_of_fmap. by exists (pq_tail q, ct). }
    assert (∃ nt, pq_heap q !! t = Some (PItem nt ct)) as (nt & Hnt).
    { apply last_Some_elem_of, list_elem_of_lookup in El as (i & Hi).
      destruct (chain_lookup _ _ _ _ _ _ Hc Hi) as (nt & Hnt & _). by exists nt. }
    unfold set_next, load. rewrite bind_assoc. erewrite bind_done.
    2:{ erewrite bind_done by reflexivity. cbn [pq_heap pq_tail]. rewrite Htl, lookup_insert_ne, Hnt by done. reflexivity. }
    erewrite bind_done by reflexivity. eexists. split; [reflexivity|].
    split; cbn [pq_heap pq_head pq_tail pq_brk]; try done.
    + rewrite Htl. by apply chain_snoc.
    + intros b Hb. destruct (decide (b = pq_brk q)) as [->|Hb1]; [lia|].
      destruct (decide (b = t)) as [->|Hb2].
      { specialize (Hbrk t (mk_is_Some _ _ Hnt)). lia. }
      rewrite Htl, !lookup_insert_ne in Hb by done. specialize (Hbrk _ Hb). lia.
    + lia.
Qed.

(** The first cell of [l] with the command, and what follows it. *)
Fixpoint find_cmd (cmd : Z) (l : list (Z * Z)) : option (Z * list (Z * Z)) :=
  match l with
  | [] => None
  | (a, c) :: l => if c =? cmd then Some (a, l) else find_cmd cmd l
  end.

(** Cell [a] unlinked by making the cell [h0] of command [c0] point to what
    follows it. *)
Definition unlink (q : pendingq) (h0 c0 a : Z) (l : list (Z * Z)) : pendingq :=
  let next := default 0 (head l.*1) in
  PendingQ (delete a (<[h0 := PItem next c0]> (pq_heap q))) (pq_head q)
    (if next =? 0 then h0 else pq_tail q) (pq_brk q).

Lemma chain_head h p l : chain h p l → p = default 0 (head l.*1).
Proof. destruct l as [|[a c] l]; simpl; [done|]. by intros [-> _]. Qed.

Lemma search_loop_eq fuel h0 c0 n0 p cmd q l :
  chain (pq_heap q) p l → (length l < fuel)%nat → Forall (λ a, 0 < a) l.*1 →
  pq_heap q !! h0 = Some (PItem n0 c0) →
  search_loop fuel h0 p cmd q =
  match find_cmd cmd l with
  | None => (Done 0, q)
  | Some (a, l') => (Done 1, unlink q h0 c0 a l')
  end.
Proof.
  revert p l. induction fuel as [|fuel IH]; intros p l Hc Hf Hpos Hh0; [lia|].
  destruct l as [|[a c] l]; simpl in Hf; cbn [search_loop find_cmd].
  - simpl in Hc. subst p. done.
  - destruct Hc as (-> & next & Ha & Hl). simpl in Hpos. apply Forall_cons in Hpos as [Hpa Hpos].
    destruct (Z.eqb_spec a 0); [lia|]. unfold load at 1. erewrite bind_done.
    2:{ erewrite bind_done by reflexivity. by rewrite Ha. }
    cbn [pi_cmd pi_next]. destruct (Z.eqb_spec c cmd) as [->|Hne].
    + unfold set_next, load. rewrite bind_assoc. erewrite bind_done.
      2:{ erewrite bind_done by reflexivity. by rewrite Hh0. }
      cbn [pi_cmd]. erewrite bind_done by reflexivity.
      rewrite (chain_head _ _ _ Hl). unfold unlink.
      destruct (Z.eqb_spec (default 0 (head l.*1)) 0) as [->|Hn].
      * erewrite bind_done by reflexivity. by erewrite bind_done by reflexivity.
      * erewrite bind_done by reflexivity. by erewrite bind_done by reflexivity.
    + apply IH; [done|lia|done|done].
Qed.

Lemma find_cmd_split cmd l a l' :
  find_cmd cmd l = Some (a, l') → ∃ pre, l = pre ++ (a, cmd) :: l'.
Proof.
  induction l as [|[b c] l IH]; simpl; [done|].
  destruct (Z.eqb_spec c cmd) as [->|Hne].
  - intros [= -> ->]. by exists [].
  - intros (pre & ->)%IH. by exists ((b, c) :: pre).
Qed.

(** Unlinking [a], with [pre] between the first cell and it, leaves the first
    cell and what follows [a]: the cells of [pre] are lost. *)
Lemma unlink_cells q h0 c0 pre a cmd l' :
  cells q ((h0, c0) :: pre ++ (a, cmd) :: l') →
  cells (unlink q h0 c0 a l') ((h0, c0) :: l').
Proof.
  intros [Hc Ht Hnd Hpos Hbrk Hbp].
  assert (chain (pq_heap q) (default 0 (head l'.*1)) l') as Hl'.
  { assert (((h0, c0) :: pre ++ (a, cmd) :: l') !! S (length pre) = Some (a, cmd)) as Hi.
    { simpl. by rewrite lookup_app_r, Nat.sub_diag by lia. }
    destruct (chain_lookup _ _ _ _ _ _ Hc Hi) as (next & _ & Hn). cbn [drop] in Hn.
    rewrite drop_app_ge in Hn by lia.
    replace (S (length pre) - length pre)%nat with 1%nat in Hn by lia. cbn [drop] in Hn.
    rewrite drop_0 in Hn. by rewrite <-(chain_head _ _ _ Hn). }
  rewrite fmap_cons, fmap_app, fmap_cons in Hnd, Hpos. cbn [fst] in Hnd, Hpos.
  apply NoDup_cons in Hnd as [Hh0 Hnd]. apply NoDup_app in Hnd as (_ & _ & Hnd).
  apply NoDup_cons in Hnd as [Ha Hnd]. rewrite not_elem_of_app, not_elem_of_cons in Hh0.
  destruct Hh0 as (_ & Hh0a & Hh0).
  apply Forall_cons in Hpos as [Hp0 Hpos]. apply Forall_app in Hpos as [_ Hpos].
  apply Forall_cons in Hpos as [_ Hpos].
  destruct Hc as (Hhd & n0 & Hn0 & _).
  split; cbn [unlink pq_heap pq_head pq_tail pq_brk fmap list_fmap fst].
  - split; [done|]. exists (default 0 (head l'.*1)). split.
    + by rewrite lookup_delete_ne, lookup_insert_eq.
    + eapply chain_weaken; [|exact Hl']. intros b Hb.
      rewrite lookup_delete_ne by (intros ->; contradiction).
      rewrite lookup_insert_ne; [done|]. intros ->. contradiction.
  - destruct l' as [|[b c] l']; [done|].
    change (default 0 (head ((b, c) :: l').*1)) with b.
    destruct (Z.eqb_spec b 0) as [->|Hb]; [apply Forall_inv in Hpos; simpl in Hpos; lia|].
    rewrite Ht, last_fst, app_comm_cons, last_app_cons, last_cons_cons, <-last_fst.
    rewrite fmap_cons. by rewrite last_cons_cons.
  - by constructor.
  - by constructor.
  - intros b [x Hb]. apply lookup_delete_Some in Hb as [_ Hb].
    destruct (decide (b = h0)) as [->|Hne]; [apply Hbrk; by eexists|].
    rewrite lookup_insert_ne in Hb by done. apply Hbrk. by eexists.
  - done.
Qed.

(** What [SEARCH_REMOVE] computes on the abstract queue: [None] is the
    dereference of the head of an empty queue. *)
Fixpoint drop_through (cmd : Z) (cs : list Z) : option (list Z) :=
  match cs with
  | [] => None
  | c :: cs => if c =? cmd then Some cs else drop_through cmd cs
  end.

Definition removed (cmd : Z) (cs : list Z) : option (Z * list Z) :=
  match cs with
  | [] => None
  | c :: cs =>
      if c =? cmd then Some (1, cs)
      else match drop_through cmd cs with
           | Some cs' => Some (1, c :: cs')
           | None => Some (0, c :: cs)
           end
  end.

Lemma find_cmd_abs cmd l : drop_through cmd l.*2 = (λ x, x.2.*2) <$> find_cmd cmd l.
Proof.
  induction l as [|[a c] l IH]; [done|]. rewrite fmap_cons. cbn [drop_through snd find_cmd].
  by destruct (c =? cmd).
Qed.

Lemma chain_size h p l : chain h p l → NoDup l.*1 → (length l ≤ size h)%nat.
Proof.
  intros Hc Hnd. rewrite <-(length_fmap fst l).
  assert (list_to_set l.*1 ⊆@{gset Z} dom h) as Hsub.
  { intros a Ha. apply elem_of_list_to_set in Ha. apply elem_of_dom. by eapply chain_elem. }
  apply subseteq_size in Hsub. rewrite size_list_to_set in Hsub by done.
  by rewrite size_dom in Hsub.
Qed.

(** Removing the first cell. *)
Lemma pop_cells q h0 c0 l :
  cells q ((h0, c0) :: l) →
  cells (PendingQ (delete h0 (pq_heap q)) (default 0 (head l.*1))
           (if default 0 (head l.*1) =? 0 then 0 else pq_tail q) (pq_brk q)) l.
Proof.
  intros [(Hhd & next & Hn & Hc) Ht Hnd Hpos Hbrk Hbp].
  rewrite fmap_cons in Hnd, Hpos, Ht. cbn [fst] in *.
  apply NoDup_cons in Hnd as [Hh0 Hnd]. apply Forall_cons in Hpos as [_ Hpos].
  pose proof (chain_head _ _ _ Hc) as ->.
  split; cbn [pq_heap pq_head pq_tail pq_brk]; try done.
  - eapply chain_weaken; [|exact Hc]. intros b Hb. rewrite lookup_delete_ne; [done|].
    intros ->. contradiction.
  - destruct l as [|[b c] l]; [done|].
    change (default 0 (head ((b, c) :: l).*1)) with b. rewrite fmap_cons in Ht, Hpos.
    cbn [fst] in Ht, Hpos.
    destruct (Z.eqb_spec b 0) as [->|Hb]; [apply Forall_inv in Hpos; simpl in Hpos; lia|].
    rewrite Ht, fmap_cons. by rewrite last_cons_cons.
  - intros b [x Hb]. apply lookup_delete_Some in Hb as [_ Hb]. apply Hbrk. by eexists.
Qed.

Lemma SEARCH_REMOVE_abs q cs cmd :
  is_queue q cs →
  match removed cmd cs with
  | None => SEARCH_REMOVE cmd q = (Fault NullDeref, q)
  | Some (r, cs') => ∃ q', SEARCH_REMOVE cmd q = (Done r, q') ∧ is_queue q' cs'
  end.
Proof.
  intros (l & Hq & <-). pose proof Hq as [Hc Ht Hnd Hpos Hbrk Hbp]. unfold SEARCH_REMOVE.
  erewrite bind_done by reflexivity. destruct l as [|[h0 c0] l].
  - simpl in Hc. cbn [fmap list_fmap removed]. unfold load.
    destruct (pq_heap q !! pq_head q) eqn:E.
    { specialize (Hbrk _ (mk_is_Some _ _ E)). lia. }
    apply bind_fault. erewrite bind_done by reflexivity. by rewrite E.
  - destruct Hc as (Hhd & next & Hn & Hc). rewrite fmap_cons. cbn [removed snd]. rewrite Hhd.
    erewrite bind_done.
    2:{ unfold load. erewrite bind_done by reflexivity. by rewrite Hn. }
    cbn [pi_cmd pi_next]. destruct (Z.eqb_spec c0 cmd) as [->|Hne].
    + pose proof (pop_cells _ _ _ _ Hq) as Hp. rewrite (chain_head _ _ _ Hc).
      erewrite bind_done by reflexivity.
      destruct (default 0 (head l.*1) =? 0);
        do 2 (erewrite bind_done by reflexivity); eexists; (split; [reflexivity|]);
        exists l; (split; [exact Hp|done]).
    + pose proof (chain_size _ _ _ Hc) as Hsz.
      rewrite (search_loop_eq _ h0 c0 next next cmd q l); [|done| |by apply Forall_cons in Hpos as [_ ?]|done].
      2:{ rewrite fmap_cons in Hnd. apply NoDup_cons in Hnd as [_ Hnd]. specialize (Hsz Hnd). lia. }
      rewrite find_cmd_abs. destruct (find_cmd cmd l) as [[a l']|] eqn:E; simpl.
      * destruct (find_cmd_split _ _ _ _ E) as (pre & ->).
        eexists. split; [reflexivity|]. exists ((h0, c0) :: l'). split; [|done].
        by eapply unlink_cells.
      * eexists. split; [reflexivity|]. by exists ((h0, c0) :: l).
Qed.

(** ** Properties *)

(** A step of the queue and the corresponding step of the list of commands. *)
Inductive pq_op := PqEnqueue (cmd : Z) | PqRemove (cmd : Z).

Definition run_op (o : pq_op) : M pendingq Z :=
  match o with
  | PqEnqueue cmd => ENQUEUE cmd;; mret 0
  | PqRemove cmd => SEARCH_REMOVE cmd
  end.

Definition spec_op (o : pq_op) (cs : list Z) : option (Z * list Z) :=
  match o with
  | PqEnqueue cmd => Some (0, cs ++ [cmd])
  | PqRemove cmd => removed cmd cs
  end.

(** C26: the linked list refines a list of commands: an insertion appends to
    it; a search on an empty queue dereferences NULL; a search that finds its
    command at the head removes exactly it, one that finds it further on also
    loses every command between the head and it (the trailing pointer of the
    loop never advances), and one that does not find it changes nothing. *)
Theorem pendingq_refines (q : pendingq) (cs : list Z) (o : pq_op) (Hq : is_queue q cs) :
  match spec_op o cs with
  | None => run_op o q = (Fault NullDeref, q)
  | Some (r, cs') => ∃ q', run_op o q = (Done r, q') ∧ is_queue q' cs'
  end.
Proof.
  destruct o as [cmd|cmd]; simpl; [|by apply SEARCH_REMOVE_abs].
  destruct Hq as (l & Hl & <-). destruct (ENQUEUE_cells q l cmd Hl) as (q' & E & Hq').
  exists q'. rewrite (bind_done _ _ _ _ _ E). split; [done|].
  eexists. split; [exact Hq'|]. by rewrite fmap_app.
Qed.

Lemma pendingq_refines_witness :
  ∃ q', run_op (PqRemove 30)
      (run_op (PqEnqueue 30) (run_op (PqEnqueue 20) (run_op (PqEnqueue 10) pq_empty).2).2).2
    = (Done 1, q') ∧ is_queue q' [10].
Proof.
  assert (∀ q cs cmd, is_queue q cs → is_queue (run_op (PqEnqueue cmd) q).2 (cs ++ [cmd])) as He.
  { intros q cs cmd Hq. destruct Hq as (l & Hl & <-).
    destruct (ENQUEUE_cells q l cmd Hl) as (q' & E & Hq'). simpl.
    rewrite (bind_done _ _ _ _ _ E). eexists. split; [exact Hq'|]. by rewrite fmap_app. }
  apply (pendingq_refines _ [10; 20; 30] (PqRemove 30)).
  apply (He _ [10; 20]), (He _ [10]), (He _ []), is_queue_empty.
Defined.
