(* ===== verification/Pmi2Wire.v ===== *)
(** * The PMI-2 wire format (pmi2_api.c)

    A command is a length field of 6 characters and a body
    [cmd=name;key=value;...] in which the semicolons of values are doubled.
    This file has the encoder of [PMIi_WriteSimpleCommand] with its buffer
    bounds, the decoder of [PMIi_ReadCommand], the lookups in a decoded command,
    and the loops that move whole frames over a descriptor. *)

From S2P Require Import Prelude CLib OS.

Local Open Scope Z_scope.

Definition PMI2_SUCCESS : Z := 0.
Definition PMI2_FAIL : Z := -1.
Definition PMI2_ERR_NOMEM : Z := 2.
Definition PMI2_ERR_OTHER : Z := 14.
Definition PMI2_MAX_KEYLEN : Z := 64.
Definition PMI2_MAX_VALLEN : Z := 1024.
Definition PMII_COMMANDLEN_SIZE : Z := 6.
Definition PMII_MAX_COMMAND_LEN : Z := 65536.

Definition semi : char := ";"%char.

(** A key and the [valueLen] bytes of a value. *)
Abbreviation kvpair := (cstr * cstr)%type.

(** ** Encoding *)

(** [remaining_len] when [w] has been written after the length field. *)
Definition remaining (w : cstr) : Z :=
  PMII_MAX_COMMAND_LEN - PMII_COMMANDLEN_SIZE - strlen w.

(** [ret = snprintf (c, remaining_len, ...)] with the check of [ret]: the text
    written so far, [None] when it does not fit. *)
Definition put_text (w t : cstr) : option cstr :=
  if remaining w <=? strlen t then None else Some (w ++ t).

(** [*c = ch; ++c; --remaining_len]: an unchecked store, [None] outside the
    buffer. *)
Definition put_char (w : cstr) (ch : char) : option cstr :=
  if remaining w <=? 0 then None else Some (w ++ [ch]).

(** The loop over a value, doubling semicolons. *)
Fixpoint put_value (v : cstr) (w : cstr) : option cstr :=
  match v with
  | [] => Some w
  | ch :: v =>
      w ← (if ch =c semi then put_char w semi else Some w);
      w ← put_char w ch;
      put_value v w
  end.

(** The loop over the pairs: the text, or an error code. *)
Fixpoint put_pairs (l : list kvpair) (w : cstr) : outcome (Z + cstr) :=
  match l with
  | [] => Done (inr w)
  | (key, value) :: l =>
      if PMI2_MAX_KEYLEN <? strlen key then Done (inl PMI2_ERR_OTHER)
      else match put_text w (key ++ L "=") with
      | None => Done (inl PMI2_ERR_OTHER)
      | Some w =>
          if PMI2_MAX_VALLEN <? strlen value then Done (inl PMI2_ERR_OTHER)
          else match (w ← put_value value w; put_char w semi) with
          | None => Fault OutOfBounds
          | Some w => put_pairs l w
          end
      end
  end.

(** The bytes [PMIi_WriteSimpleCommand] sends: the length of the body in a
    field padded with blanks, and the body. *)
Definition encode (cmd : cstr) (pairs : list kvpair) : outcome (Z + cstr) :=
  if PMI2_MAX_VALLEN <? strlen cmd then Done (inl PMI2_ERR_OTHER)
  else match put_text [] (L "cmd=" ++ cmd ++ L ";") with
  | None => Done (inl PMI2_ERR_OTHER)
  | Some w =>
      match put_pairs pairs w with
      | Done (inr w) =>
          let cmdlen := PMII_MAX_COMMAND_LEN - (remaining w + PMII_COMMANDLEN_SIZE) in
          let cmdlenbuf := show_int cmdlen in
          if PMII_COMMANDLEN_SIZE <=? strlen cmdlenbuf then Done (inl PMI2_ERR_OTHER)
          else if remaining w <=? 0 then Fault OutOfBounds
          else Done (inr (cmdlenbuf ++
                 replicate (Z.to_nat (PMII_COMMANDLEN_SIZE - strlen cmdlenbuf)) " "%char ++ w))
      | r => r
      end
  end.

(** ** Decoding *)

(** The loop that counts the terminators of ["key=val;"]: a doubled semicolon
    is skipped, and running off the end counts once more. *)
Fixpoint count_pairs (s : cstr) : nat :=
  match s with
  | [] => 0
  | c :: s' =>
      if c =c semi then
        match s' with
        | c' :: s'' => if c' =c semi then count_pairs s'' else S (count_pairs s')
        | [] => 1
        end
      else match s' with [] => 1 | _ => count_pairs s' end
  end.

(** The value loop of [parse_keyval]: a single semicolon ends the value;
    [None] when the buffer ends first. *)
Fixpoint unescape (s : cstr) : option (cstr * cstr) :=
  match s with
  | [] => None
  | c :: s' =>
      if c =c semi then
        match s' with
        | c' :: s'' =>
            if c' =c semi then '(v, r) ← unescape s''; Some (semi :: v, r)
            else Some ([], s')
        | [] => Some ([], [])
        end
      else '(v, r) ← unescape s'; Some (c :: v, r)
  end.

(** The key, the value and the rest of the buffer; [None] is the error. *)
Definition parse_keyval (s : cstr) : option (cstr * cstr * cstr) :=
  let '(key, r) := break (λ c, c =c "="%char) s in
  match r with
  | [] => None
  | _ :: r =>
      if PMI2_MAX_KEYLEN <? strlen key then None
      else
        '(val, rest) ← unescape r;
        if PMI2_MAX_VALLEN <? strlen val then None else Some (c_text key, val, rest)
  end.

(** [PMI2_Command]: the bytes of [command], which are followed by an
    uninitialised one and no terminator, and the array of pairs, whose entries
    the parser may have left uninitialised ([None]). *)
Record PMI2_Command := Command {
  command : cstr;
  pairs : list (option kvpair) }.

(** The loop that fills [pairs]: [nPairs] entries were allocated, [l] are
    filled. *)
Fixpoint parse_pairs (fuel nPairs : nat) (l : list kvpair) (s : cstr)
    : outcome (Z + list kvpair) :=
  match fuel with
  | O => Hang
  | S fuel =>
      match s with
      | [] => Done (inr l)
      | _ =>
          match parse_keyval s with
          | None => Done (inl PMI2_ERR_OTHER)
          | Some (key, val, rest) =>
              if (nPairs <=? length l)%nat then Fault OutOfBounds
              else parse_pairs fuel nPairs (l ++ [(key, val)]) rest
          end
      end
  end.

Definition decode (cmd_buf : cstr) : outcome (Z + PMI2_Command) :=
  let num_pairs := count_pairs cmd_buf in
  match parse_keyval cmd_buf with
  | None => Done (inl PMI2_ERR_OTHER)
  | Some (key, val, rest) =>
      if negb (strn_eq key (L "cmd") (Z.to_nat PMI2_MAX_KEYLEN)) then Done (inl PMI2_ERR_OTHER)
      else if (num_pairs =? 0)%nat then Done (inl PMI2_ERR_NOMEM)
      else
        let nPairs := (num_pairs - 1)%nat in
        match parse_pairs (S (length rest)) nPairs [] rest with
        | Done (inr l) =>
            Done (inr (Command val ((Some <$> l) ++ replicate (nPairs - length l) None)))
        | Done (inl e) => Done (inl e)
        | Exited z => Exited z
        | Fault f => Fault f
        | Hang => Hang
        end
  end.

(** ** Lookups *)

(** [getval]: the value of the first pair whose key agrees with [key] on 64
    characters.  Reading an entry that was not filled is a fault. *)
Fixpoint getval (l : list (option kvpair)) (key : cstr) : outcome (option cstr) :=
  match l with
  | [] => Done None
  | None :: _ => Fault Uninitialised
  | Some (k, v) :: l =>
      if strn_eq key k (Z.to_nat PMI2_MAX_KEYLEN) then Done (Some v) else getval l key
  end.

(** The typed lookups: 1 and the value, 0 when there is no key, -1 when the
    value is not of the type. *)
Inductive lookup_res (A : Type) := Found (a : A) | NotFound | Invalid.
Arguments Found {_} _.
Arguments NotFound {_}.
Arguments Invalid {_}.

Definition typed {A} (conv : cstr → option A) (r : outcome (option cstr))
    : outcome (lookup_res A) :=
  match r with
  | Done (Some v) => Done (match conv v with Some a => Found a | None => Invalid end)
  | Done None => Done NotFound
  | Exited z => Exited z
  | Fault f => Fault f
  | Hang => Hang
  end.

Definition int_value (v : cstr) : option Z :=
  if bool_decide (v = []) then None else sscanf_d (c_text v).

(** [sscanf "%p"]: hexadecimal. *)
Definition ptr_value (v : cstr) : option Z :=
  if bool_decide (v = []) then None
  else
    let '(neg, s) := scan_sign (skip_space (c_text v)) in
    let '(z, n, _) := scan_digits 16 (skip_0x s) 0 0 in
    if (n =? 0)%nat then None else Some (wrap_u 64 (if neg then - z else z)).

Definition bool_value (v : cstr) : option Z :=
  if str_eq v (L "TRUE") then Some 1 else if str_eq v (L "FALSE") then Some 0 else None.

Definition getvalint (l : list (option kvpair)) (key : cstr) := typed int_value (getval l key).
Definition getvalptr (l : list (option kvpair)) (key : cstr) := typed ptr_value (getval l key).
Definition getvalbool (l : list (option kvpair)) (key : cstr) := typed bool_value (getval l key).

(** [freepairs] reads [isCopy] of every entry. *)
Definition freepairs (l : list (option kvpair)) : outcome () :=
  if bool_decide (Forall is_Some l) then Done tt else Fault Uninitialised.

(** [strncmp (command, exp, strlen (exp)) == 0] on bytes without a terminator:
    [None] when the comparison runs past the end of [command]. *)
Fixpoint command_is (command exp : cstr) {struct exp} : option bool :=
  match exp, command with
  | [], _ => Some true
  | _ :: _, [] => None
  | e :: exp, c :: command => if c =c e then command_is command exp else Some false
  end.

(** ** Moving frames *)

(** The loop that writes [buf] whole: [false] when a write fails or makes no
    progress. *)
Fixpoint write_all (fuel : nat) (fd : Z) (buf : cstr) : M os bool :=
  match fuel with
  | O => hang_
  | S fuel =>
      r ← write_eintr fd buf;
      match r with
      | None | Some O => mret false
      | Some n => if (n <? length buf)%nat then write_all fuel fd (drop n buf) else mret true
      end
  end.

(** The loop that reads [n] bytes, [acc] being those read so far: [None] on an
    error or at the end of the stream. *)
Fixpoint read_exact (fuel : nat) (fd : Z) (n : nat) (acc : cstr) : M os (option cstr) :=
  match fuel with
  | O => hang_
  | S fuel =>
      r ← read_eintr fd (n - length acc);
      match r with
      | RdOk [] | RdErr | RdIntr => mret None
      | RdOk bs =>
          let acc := acc ++ bs in
          if (length acc <? n)%nat then read_exact fuel fd n acc else mret (Some acc)
      end
  end.

(** The length field and the body of [cmd_len] bytes.  A length below -1 makes
    the allocation fail, -1 gives a buffer of no bytes and a read of
    [SIZE_MAX], 0 a read of no bytes, which looks like the end of the stream. *)
Definition read_frame (fd : Z) : M os (Z + cstr) :=
  r ← read_exact 7 fd 6 [];
  match r with
  | None => mret (inl PMI2_ERR_OTHER)
  | Some cmd_len_str =>
      let cmd_len := atoi (c_text cmd_len_str) in
      if cmd_len <? -1 then mret (inl PMI2_ERR_NOMEM)
      else if cmd_len =? -1 then fault_ OutOfBounds
      else if cmd_len =? 0 then mret (inl PMI2_ERR_OTHER)
      else
        let n := Z.to_nat cmd_len in
        r ← read_exact (S n) fd n [];
        mret (match r with None => inl PMI2_ERR_OTHER | Some cmd_buf => inr cmd_buf end)
  end.

(** ** The format *)

Definition escape (v : cstr) : cstr :=
  v ≫= λ c, if c =c semi then [semi; semi] else [c].

Definition pair_text (p : kvpair) : cstr := p.1 ++ "="%char :: escape p.2 ++ [semi].

(** The body of a command, and the whole frame. *)
Definition body_text (cmd : cstr) (l : list kvpair) : cstr :=
  L "cmd=" ++ cmd ++ [semi] ++ concat (pair_text <$> l).

Definition header_text (n : Z) : cstr :=
  show_int n ++ replicate (6 - length (show_int n)) " "%char.

Definition frame_text (cmd : cstr) (l : list kvpair) : cstr :=
  header_text (strlen (body_text cmd l)) ++ body_text cmd l.

Lemma escape_cons c v :
  escape (c :: v) = (if c =c semi then [semi; semi] else [c]) ++ escape v.
Proof. done. Qed.

Lemma put_char_ok w ch : 0 < remaining w → put_char w ch = Some (w ++ [ch]).
Proof. intros H. unfold put_char. destruct (Z.leb_spec (remaining w) 0); [lia|done]. Qed.

Lemma put_char_full w ch : remaining w ≤ 0 → put_char w ch = None.
Proof. intros H. unfold put_char. destruct (Z.leb_spec (remaining w) 0); [done|lia]. Qed.

Lemma remaining_app w t : remaining (w ++ t) = remaining w - strlen t.
Proof. unfold remaining, strlen. rewrite length_app. lia. Qed.

(** The value loop writes the escaped value when it fits and leaves the buffer
    when it does not. *)
Lemma put_value_eq v w :
  0 ≤ remaining w →
  put_value v w = if strlen (escape v) <=? remaining w then Some (w ++ escape v) else None.
Proof.
  revert w. induction v as [|ch v IH]; intros w Hw; cbn [put_value].
  - destruct (Z.leb_spec (strlen (escape [])) (remaining w)) as [_|H].
    + unfold escape. simpl. by rewrite app_nil_r.
    + unfold escape, strlen in H. simpl in H. lia.
  - rewrite escape_cons. unfold strlen in *. rewrite length_app.
    assert (∀ w', 0 < remaining w' →
      put_char w' ch ≫= (λ w, put_value v w) =
      if Z.of_nat (S (length (escape v))) <=? remaining w'
      then Some (w' ++ ch :: escape v) else None) as Hone.
    { intros w' Hw'. rewrite put_char_ok by done. cbn [mbind option_bind].
      pose proof (remaining_app w' [ch]) as Hr. unfold strlen in Hr. change (Z.of_nat (length _)) with 1 in Hr.
      rewrite IH by lia. rewrite Hr.
      destruct (Z.leb_spec (Z.of_nat (length (escape v))) (remaining w' - 1)),
        (Z.leb_spec (Z.of_nat (S (length (escape v)))) (remaining w')); try lia; [|done].
      by rewrite <-app_assoc. }
    destruct (ch =c semi) eqn:E.
    + apply Ascii.eqb_eq in E as ->. cbn [length app].
      destruct (Z.leb_spec (remaining w) 0) as [H0|H0].
      { rewrite put_char_full by done. cbn [mbind option_bind].
        destruct (Z.leb_spec (Z.of_nat (2 + length (escape v))) (remaining w)); [lia|done]. }
      rewrite put_char_ok by done. cbn [mbind option_bind].
      pose proof (remaining_app w [semi]) as Hr. unfold strlen in Hr. change (Z.of_nat (length _)) with 1 in Hr.
      destruct (Z.leb_spec (remaining w) 1) as [H1|H1].
      { rewrite put_char_full by lia. cbn [mbind option_bind].
        destruct (Z.leb_spec (Z.of_nat (2 + length (escape v))) (remaining w)); [lia|done]. }
      etrans; [apply Hone; lia|]. rewrite Hr.
      destruct (Z.leb_spec (Z.of_nat (S (length (escape v)))) (remaining w - 1)),
        (Z.leb_spec (Z.of_nat (2 + length (escape v))) (remaining w)); try lia; [|done].
      by rewrite <-app_assoc.
    + cbn [mbind option_bind length app].
      destruct (Z.leb_spec (remaining w) 0) as [H0|H0].
      { rewrite put_char_full by done. cbn [mbind option_bind].
        destruct (Z.leb_spec (Z.of_nat (1 + length (escape v))) (remaining w)); [lia|done]. }
      etrans; [apply Hone; lia|]. done.
Qed.

(** Pairs the encoder accepts. *)
Definition pair_fits (p : kvpair) : Prop :=
  strlen p.1 ≤ PMI2_MAX_KEYLEN ∧ strlen p.2 ≤ PMI2_MAX_VALLEN.

#[global] Instance pair_fits_dec p : Decision (pair_fits p).
Proof. unfold pair_fits. apply _. Defined.

Lemma strlen_app a b : strlen (a ++ b) = strlen a + strlen b.
Proof. unfold strlen. rewrite length_app. lia. Qed.

Lemma strlen_nonneg a : 0 ≤ strlen a.
Proof. unfold strlen. lia. Qed.

Lemma strlen_pair_text p :
  strlen (pair_text p) = strlen p.1 + 1 + strlen (escape p.2) + 1.
Proof.
  unfold pair_text. rewrite strlen_app. unfold strlen. simpl. rewrite length_app. simpl. lia.
Qed.

Lemma put_text_ok w t : strlen t < remaining w → put_text w t = Some (w ++ t).
Proof. intros H. unfold put_text. destruct (Z.leb_spec (remaining w) (strlen t)); [lia|done]. Qed.

(** The pairs in closed form, when there is room for all of them. *)
Lemma put_pairs_ok l w :
  Forall pair_fits l → strlen (concat (pair_text <$> l)) < remaining w →
  put_pairs l w = Done (inr (w ++ concat (pair_text <$> l))).
Proof.
  intros Hl. revert w. induction Hl as [|[k v] l [Hk Hv] _ IH]; intros w Hw; cbn [put_pairs].
  - simpl. by rewrite app_nil_r.
  - simpl in Hk, Hv. rewrite fmap_cons in *. cbn [concat] in *.
    rewrite strlen_app, strlen_pair_text in Hw. cbn [fst snd] in Hw.
    pose proof (strlen_nonneg (escape v)). pose proof (strlen_nonneg (concat (pair_text <$> l))).
    destruct (Z.ltb_spec PMI2_MAX_KEYLEN (strlen k)); [lia|].
    assert (strlen (k ++ L "=") = strlen k + 1) as Hke by (rewrite strlen_app; done).
    rewrite put_text_ok by lia. cbv iota beta.
    destruct (Z.ltb_spec PMI2_MAX_VALLEN (strlen v)); [lia|].
    rewrite put_value_eq by (rewrite remaining_app; lia). rewrite remaining_app, Hke.
    destruct (Z.leb_spec (strlen (escape v)) (remaining w - (strlen k + 1))); [|lia].
    cbn [mbind option_bind]. rewrite put_char_ok by (rewrite !remaining_app; lia).
    rewrite IH.
    + unfold pair_text. cbn [fst snd].
      change (k ++ "="%char :: escape v ++ [semi]) with (k ++ L "=" ++ escape v ++ [semi]).
      by rewrite <-!(assoc_L app).
    + rewrite !remaining_app. change (strlen [semi]) with 1. lia.
Qed.

Lemma header_size n : 0 ≤ n < 100000 → (length (show_int n) < 6)%nat.
Proof.
  intros Hn. unfold show_int. destruct (Z.ltb_spec n 0); [lia|].
  pose proof (show_nat_length 10 ltac:(lia) n 5 ltac:(lia) ltac:(lia)). lia.
Qed.

(** The room a frame has. *)
Definition body_fits (cmd : cstr) (l : list kvpair) : Prop :=
  strlen cmd ≤ PMI2_MAX_VALLEN ∧ Forall pair_fits l ∧
  strlen (body_text cmd l) < PMII_MAX_COMMAND_LEN - PMII_COMMANDLEN_SIZE.

#[global] Instance body_fits_dec cmd l : Decision (body_fits cmd l).
Proof. unfold body_fits. apply _. Defined.

Lemma encode_frame cmd l : body_fits cmd l → encode cmd l = Done (inr (frame_text cmd l)).
Proof.
  intros (Hc & Hl & Hb). unfold encode.
  destruct (Z.ltb_spec PMI2_MAX_VALLEN (strlen cmd)); [lia|].
  assert (body_text cmd l = (L "cmd=" ++ cmd ++ L ";") ++ concat (pair_text <$> l)) as Eb.
  { unfold body_text. by rewrite <-!(assoc_L app). }
  pose proof Hb as Hb'. rewrite Eb, strlen_app in Hb'.
  pose proof (strlen_nonneg (concat (pair_text <$> l))).
  rewrite put_text_ok by (unfold remaining; change (strlen []) with 0; lia).
  cbv iota beta. rewrite app_nil_l.
  rewrite put_pairs_ok by (done || unfold remaining; lia). rewrite <-Eb.
  replace (PMII_MAX_COMMAND_LEN - (remaining (body_text cmd l) + PMII_COMMANDLEN_SIZE))
    with (strlen (body_text cmd l)) by (unfold remaining; lia).
  pose proof (strlen_nonneg (body_text cmd l)) as Hp.
  unfold PMII_MAX_COMMAND_LEN, PMII_COMMANDLEN_SIZE in *.
  pose proof (header_size (strlen (body_text cmd l)) ltac:(lia)) as Hh. cbv zeta.
  destruct (Z.leb_spec 6 (strlen (show_int (strlen (body_text cmd l))))) as [H6|_].
  { unfold strlen at 1 in H6. lia. }
  destruct (Z.leb_spec (remaining (body_text cmd l)) 0) as [Hz|_].
  { unfold remaining, PMII_MAX_COMMAND_LEN, PMII_COMMANDLEN_SIZE in Hz. lia. }
  unfold frame_text, header_text. rewrite <-(assoc_L app). do 5 f_equal.
  unfold strlen at 1. lia.
Qed.

(** ** Decoding what was encoded *)

Lemma unescape_escape v r :
  match r with c :: _ => c ≠ semi | [] => True end →
  unescape (escape v ++ semi :: r) = Some (v, r).
Proof.
  intros Hr. induction v as [|c v IH].
  - unfold escape. cbn [mbind list_bind app unescape]. rewrite char_eqb_refl.
    destruct r as [|c r]; [done|]. by rewrite char_eqb_ne.
  - rewrite escape_cons. destruct (c =c semi) eqn:E.
    + apply Ascii.eqb_eq in E as ->. cbn [app unescape]. rewrite char_eqb_refl.
      by rewrite IH.
    + cbn [app unescape]. rewrite E, IH. done.
Qed.

(** Keys that survive: without the separators, and not empty. *)
Definition key_ok (k : cstr) : Prop :=
  k ≠ [] ∧ strlen k ≤ PMI2_MAX_KEYLEN ∧
  Forall (λ c, c ≠ "="%char ∧ c ≠ semi ∧ c ≠ NUL) k.

Definition pair_ok (p : kvpair) : Prop := key_ok p.1 ∧ strlen p.2 ≤ PMI2_MAX_VALLEN.

#[global] Instance key_ok_dec k : Decision (key_ok k).
Proof. unfold key_ok. apply _. Defined.
#[global] Instance pair_ok_dec p : Decision (pair_ok p).
Proof. unfold pair_ok. apply _. Defined.

Lemma parse_keyval_text k v r :
  pair_ok (k, v) → match r with c :: _ => c ≠ semi | [] => True end →
  parse_keyval (pair_text (k, v) ++ r) = Some (k, v, r).
Proof.
  intros ((_ & Hk & Hks) & Hv) Hr. simpl in Hk, Hks, Hv.
  unfold parse_keyval, pair_text. cbn [fst snd].
  rewrite <-(assoc_L app). cbn [app]. rewrite <-(assoc_L app). cbn [app].
  rewrite break_app; [|eapply Forall_impl; [exact Hks|]|done].
  2:{ intros c (? & _). by apply char_eqb_ne. }
  destruct (Z.ltb_spec PMI2_MAX_KEYLEN (strlen k)); [lia|].
  rewrite unescape_escape by done. cbn [mbind option_bind].
  destruct (Z.ltb_spec PMI2_MAX_VALLEN (strlen v)); [lia|].
  rewrite c_text_no_nul; [done|]. eapply Forall_impl; [exact Hks|]. by intros c (_ & _ & ?).
Qed.

Lemma pair_text_head p r :
  pair_ok p → match pair_text p ++ r with c :: _ => c ≠ semi | [] => True end.
Proof.
  destruct p as [k v]. intros ((Hne & _ & Hks) & _). simpl in *.
  destruct k as [|c k]; [done|]. apply Forall_inv in Hks as (_ & ? & _). done.
Qed.

Lemma count_clean k r :
  Forall (λ c, c ≠ semi) k → r ≠ [] → count_pairs (k ++ r) = count_pairs r.
Proof.
  intros Hk Hr. induction Hk as [|c k Hc _ IH]; [done|].
  cbn [app count_pairs]. rewrite char_eqb_ne by done.
  destruct (k ++ r) eqn:E; [|done]. apply app_eq_nil in E as [_ ->]. done.
Qed.

Lemma count_escape v r :
  match r with c :: _ => c ≠ semi | [] => True end →
  count_pairs (escape v ++ semi :: r) = S (count_pairs r).
Proof.
  intros Hr. induction v as [|c v IH].
  - unfold escape. cbn [mbind list_bind app count_pairs]. rewrite char_eqb_refl.
    destruct r as [|c r]; [done|]. by rewrite char_eqb_ne.
  - rewrite escape_cons. destruct (c =c semi) eqn:E.
    + cbn [app count_pairs]. by rewrite char_eqb_refl.
    + cbn [app count_pairs]. rewrite E. destruct (escape v ++ semi :: r) eqn:El; [|done].
      by apply app_eq_nil in El as [_ ?].
Qed.

Lemma count_pair_text p r :
  pair_ok p → match r with c :: _ => c ≠ semi | [] => True end →
  count_pairs (pair_text p ++ r) = S (count_pairs r).
Proof.
  destruct p as [k v]. intros ((_ & _ & Hks) & _) Hr. simpl in Hks.
  unfold pair_text. cbn [fst snd]. rewrite <-(assoc_L app).
  rewrite count_clean; [|eapply Forall_impl; [exact Hks|]; by intros c (_ & ? & _)|done].
  rewrite <-app_comm_cons, <-(assoc_L app). cbn [app count_pairs].
  change ("="%char =c semi) with false. cbv iota.
  destruct (escape v ++ semi :: r) eqn:El; [by apply app_eq_nil in El as [_ ?]|].
  rewrite <-El. by apply count_escape.
Qed.

Lemma concat_head l :
  Forall pair_ok l →
  match concat (pair_text <$> l) with c :: _ => c ≠ semi | [] => True end.
Proof. intros [|p l' Hp _]; simpl; [done|]. by apply pair_text_head. Qed.

Lemma count_concat l :
  Forall pair_ok l → count_pairs (concat (pair_text <$> l)) = length l.
Proof.
  induction 1 as [|p l Hp Hl IH]; [done|]. cbn [fmap list_fmap concat length].
  rewrite count_pair_text; [by rewrite IH|done|by apply concat_head].
Qed.

Lemma pair_text_length p : (0 < length (pair_text p))%nat.
Proof. unfold pair_text. rewrite length_app. simpl. lia. Qed.

Lemma parse_pairs_text l fuel n l0 :
  Forall pair_ok l → (length l0 + length l ≤ n)%nat →
  (length (concat (pair_text <$> l)) < fuel)%nat →
  parse_pairs fuel n l0 (concat (pair_text <$> l)) = Done (inr (l0 ++ l)).
Proof.
  intros Hl. revert fuel l0. induction Hl as [|[k v] l Hp Hl IH]; intros fuel l0 Hn Hf.
  - destruct fuel as [|fuel]; [simpl in Hf; lia|]. simpl. by rewrite app_nil_r.
  - cbn [fmap list_fmap concat length] in *. rewrite length_app in Hf.
    pose proof (pair_text_length (k, v)) as Hpos.
    destruct fuel as [|fuel]; [lia|]. cbn [parse_pairs].
    destruct (pair_text (k, v) ++ concat (pair_text <$> l)) eqn:E.
    { apply app_eq_nil in E as [E _]. rewrite E in Hpos. simpl in Hpos. lia. }
    rewrite <-E, parse_keyval_text by (done || by apply concat_head).
    destruct (Nat.leb_spec n (length l0)); [lia|].
    rewrite IH; [by rewrite <-app_assoc| |lia]. rewrite length_app. simpl. lia.
Qed.

Lemma escape_clean v : Forall (λ c, c ≠ semi) v → escape v = v.
Proof.
  induction 1 as [|c v Hc _ IH]; [done|]. rewrite escape_cons, char_eqb_ne by done. by rewrite IH.
Qed.

(** Command names hold no separator. *)
Definition cmd_ok (cmd : cstr) : Prop :=
  strlen cmd ≤ PMI2_MAX_VALLEN ∧ Forall (λ c, c ≠ semi) cmd.

#[global] Instance cmd_ok_dec cmd : Decision (cmd_ok cmd).
Proof. unfold cmd_ok. apply _. Defined.

Lemma body_text_pairs cmd l :
  cmd_ok cmd → body_text cmd l = concat (pair_text <$> ((L "cmd", cmd) :: l)).
Proof.
  intros [_ Hs]. cbn [fmap list_fmap concat]. unfold pair_text at 1. cbn [fst snd].
  rewrite escape_clean by done. unfold body_text. simpl. by rewrite <-app_assoc.
Qed.

Lemma cmd_pair_ok cmd : cmd_ok cmd → pair_ok (L "cmd", cmd).
Proof.
  intros [Hl _]. split; [|done]. cbn [fst]. by apply (bool_decide_unpack _).
Qed.

(** The decoder inverts the encoder. *)
Lemma decode_body cmd l :
  cmd_ok cmd → Forall pair_ok l →
  decode (body_text cmd l) = Done (inr (Command cmd (Some <$> l))).
Proof.
  intros Hc Hl. pose proof (cmd_pair_ok cmd Hc) as Hp. rewrite body_text_pairs by done.
  unfold decode. rewrite count_concat by (by constructor). cbn [fmap list_fmap concat length].
  rewrite parse_keyval_text by (done || by apply concat_head).
  change (strn_eq (L "cmd") (L "cmd") (Z.to_nat PMI2_MAX_KEYLEN)) with true. cbn [negb].
  cbn [Nat.eqb]. cbv zeta. rewrite Nat.sub_succ, Nat.sub_0_r.
  rewrite parse_pairs_text by (done || simpl; lia). rewrite app_nil_l, Nat.sub_diag.
  cbn [replicate]. by rewrite app_nil_r.
Qed.

(** ** Safety of the decoder *)

Lemma count_drop_aux n k r :
  (length k < n)%nat → r ≠ [] → (count_pairs r ≤ count_pairs (k ++ "="%char :: r))%nat.
Proof.
  intros Hn Hr. revert k Hn. induction n as [|n IH]; intros k Hn; [lia|].
  destruct k as [|c k]; simpl in Hn.
  - cbn [app count_pairs]. change ("="%char =c semi) with false. by destruct r.
  - cbn [app count_pairs]. destruct (c =c semi).
    + destruct k as [|c' k].
      * cbn [app]. change ("="%char =c semi) with false. cbv iota.
        cbn [count_pairs]. change ("="%char =c semi) with false. destruct r; [done|lia].
      * cbn [app]. simpl in Hn. destruct (c' =c semi); [apply IH; lia|].
        etrans; [apply (IH (c' :: k)); simpl; lia|]. cbn [app]. lia.
    + destruct (k ++ "="%char :: r) eqn:E; [by apply app_eq_nil in E as [_ ?]|].
      rewrite <-E. apply IH. lia.
Qed.

Lemma count_unescape_aux n s v rest :
  (length s < n)%nat → unescape s = Some (v, rest) →
  (S (count_pairs rest) ≤ count_pairs s)%nat ∧ (length rest < length s)%nat.
Proof.
  revert s v rest. induction n as [|n IH]; intros s v rest Hn H; [lia|].
  destruct s as [|c s]; simpl in Hn; [done|]. cbn [unescape count_pairs] in *.
  destruct (c =c semi).
  - destruct s as [|c' s]; [injection H as <- <-; simpl; lia|].
    destruct (c' =c semi); [|injection H as <- <-; simpl; lia].
    destruct (unescape s) as [[v' r']|] eqn:E; [|done]. injection H as <- <-.
    simpl in Hn. apply IH in E; [|lia]. simpl. lia.
  - destruct (unescape s) as [[v' r']|] eqn:E; [|done]. injection H as <- <-.
    apply IH in E; [|lia]. destruct s; simpl in *; lia.
Qed.

(** Each pair parsed was counted. *)
Lemma count_parse s key val rest :
  parse_keyval s = Some (key, val, rest) →
  (S (count_pairs rest) ≤ count_pairs s)%nat ∧ (length rest < length s)%nat ∧
  strlen key ≤ PMI2_MAX_KEYLEN ∧ strlen val ≤ PMI2_MAX_VALLEN.
Proof.
  unfold parse_keyval. destruct (break _ s) as [k r] eqn:E. apply break_spec in E as (-> & _ & Hr).
  destruct r as [|c r]; [done|]. apply Ascii.eqb_eq in Hr as ->.
  destruct (Z.ltb_spec PMI2_MAX_KEYLEN (strlen k)); [done|].
  destruct (unescape r) as [[v rest']|] eqn:E; [|done]. cbn [mbind option_bind].
  destruct (Z.ltb_spec PMI2_MAX_VALLEN (strlen v)); [done|]. intros [= <- <- <-].
  assert (r ≠ []) as Hne by (intros ->; done).
  apply (count_unescape_aux (S (length r))) in E as [H1 H2]; [|lia].
  pose proof (count_drop_aux (S (length k)) k r ltac:(lia) Hne).
  rewrite length_app. simpl. split_and!; [lia|lia| |done].
  pose proof (length_c_text k). unfold strlen in *. lia.
Qed.

(** Entries of a decoded command. *)
Definition entry_ok (o : option kvpair) : Prop :=
  match o with
  | Some (k, v) => strlen k ≤ PMI2_MAX_KEYLEN ∧ strlen v ≤ PMI2_MAX_VALLEN
  | None => True
  end.

Lemma parse_pairs_safe fuel n l s :
  (length l + count_pairs s ≤ n)%nat → (length s < fuel)%nat →
  Forall (λ p, entry_ok (Some p)) l →
  ∃ r, parse_pairs fuel n l s = Done r ∧
    match r with
    | inl e => e = PMI2_ERR_OTHER
    | inr l' => (length l' ≤ n)%nat ∧ Forall (λ p, entry_ok (Some p)) l'
    end.
Proof.
  revert l s. induction fuel as [|fuel IH]; intros l s Hn Hf Hl; [lia|].
  cbn [parse_pairs]. destruct s as [|c s].
  - eexists. split; [done|]. simpl in *. split; [lia|done].
  - destruct (parse_keyval (c :: s)) as [[[key val] rest]|] eqn:E; [|by eexists].
    apply count_parse in E as (Hc & Hr & Hk & Hv).
    destruct (Nat.leb_spec n (length l)); [lia|]. apply IH.
    + rewrite length_app. simpl. lia.
    + lia.
    + apply Forall_app_2; [done|]. by constructor.
Qed.

(** ** Bounds of the encoder *)

Lemma escape_length v : strlen (escape v) ≤ 2 * strlen v.
Proof.
  unfold strlen. induction v as [|c v IH]; [done|]. rewrite escape_cons, length_app.
  destruct (c =c semi); simpl length in *; lia.
Qed.

(** The largest text of a pair. *)
Definition pair_max : Z := PMI2_MAX_KEYLEN + 1 + 2 * PMI2_MAX_VALLEN + 1.

Lemma put_pairs_safe l w :
  strlen w + pair_max * Z.of_nat (length l) < PMII_MAX_COMMAND_LEN - PMII_COMMANDLEN_SIZE →
  ∃ r, put_pairs l w = Done r ∧
    match r with
    | inl e => e = PMI2_ERR_OTHER
    | inr w' => strlen w' ≤ strlen w + pair_max * Z.of_nat (length l)
    end.
Proof.
  revert w. induction l as [|[k v] l IH]; intros w Hw; cbn [put_pairs].
  { eexists. split; [done|]. simpl. lia. }
  cbn [length] in Hw. rewrite Nat2Z.inj_succ in *.
  pose proof (escape_length v) as He. pose proof (strlen_nonneg k). pose proof (strlen_nonneg v).
  unfold pair_max, PMI2_MAX_KEYLEN, PMI2_MAX_VALLEN, PMII_MAX_COMMAND_LEN,
    PMII_COMMANDLEN_SIZE in *.
  destruct (Z.ltb_spec 64 (strlen k)) as [|Hk]; [by eexists|].
  assert (strlen (k ++ L "=") = strlen k + 1) as Hke by (rewrite strlen_app; done).
  assert (remaining w = 65530 - strlen w) as Hr by done.
  rewrite put_text_ok by lia. cbv iota beta.
  destruct (Z.ltb_spec 1024 (strlen v)) as [|Hv]; [by eexists|].
  rewrite put_value_eq by (rewrite remaining_app; lia). rewrite remaining_app, Hke.
  destruct (Z.leb_spec (strlen (escape v)) (remaining w - (strlen k + 1))); [|lia].
  cbn [mbind option_bind]. rewrite put_char_ok by (rewrite !remaining_app; lia).
  destruct (IH ((((w ++ k ++ L "=") ++ escape v) ++ [semi]))) as (r & E & Hr').
  { rewrite !strlen_app.
    change (strlen (L "=")) with 1. change (strlen [semi]) with 1. lia. }
  exists r. split; [done|]. destruct r as [e|w']; [done|]. rewrite !strlen_app in Hr'.
  change (strlen (L "=")) with 1 in Hr'. change (strlen [semi]) with 1 in Hr'. cbn [length].
  rewrite Nat2Z.inj_succ. lia.
Qed.

Lemma put_pairs_app l1 l2 w :
  put_pairs (l1 ++ l2) w =
  match put_pairs l1 w with Done (inr w') => put_pairs l2 w' | r => r end.
Proof.
  revert w. induction l1 as [|[k v] l1 IH]; intros w; cbn [app put_pairs]; [done|].
  destruct (_ <? strlen k); [done|]. destruct (put_text _ _); [|done].
  destruct (_ <? strlen v); [done|]. by destruct (_ ≫= _).
Qed.

(** ** Frames over a descriptor *)

(** Reading from [fd] will give [bs], and every write to it is complete. *)
Definition stream (fd : Z) (s : os) (bs : cstr) : Prop :=
  ∃ c, os_fds s !! fd = Some c ∧ c_wr c = [] ∧ data_of (c_in c) = bs.

(** From [s] to [s'] only the connection [fd] changed, and [w] was written. *)
Record sent (fd : Z) (w : cstr) (s s' : os) : Prop := {
  sent_env : os_env s' = os_env s;
  sent_net : os_net s' = os_net s;
  sent_other : ∀ fd', fd' ≠ fd → os_fds s' !! fd' = os_fds s !! fd';
  sent_out : c_out <$> os_fds s' !! fd = (λ c, c_out c ++ w) <$> os_fds s !! fd }.

Lemma sent_trans fd w1 w2 s1 s2 s3 :
  sent fd w1 s1 s2 → sent fd w2 s2 s3 → sent fd (w1 ++ w2) s1 s3.
Proof.
  intros [E1 N1 O1 W1] [E2 N2 O2 W2]. constructor; [congruence..| |].
  - intros fd' Hne. by rewrite O2, O1.
  - rewrite W2. revert W1.
    destruct (os_fds s1 !! fd) as [c1|], (os_fds s2 !! fd) as [c2|]; simpl; intros W; [|done..].
    injection W as ->. by rewrite (assoc_L _).
Qed.

Lemma sent_set fd c evs ws w s :
  os_fds s !! fd = Some c → sent fd w s (set_conn fd (Conn evs ws (c_out c ++ w)) s).
Proof.
  intros Hc. constructor; [done..| |].
  - intros fd' Hne. simpl. by rewrite lookup_insert_ne.
  - simpl. by rewrite lookup_insert_eq, Hc.
Qed.

Lemma write_all_stream fd buf s bs :
  stream fd s bs → buf ≠ [] →
  ∃ s', write_all (S (length buf)) fd buf s = (Done true, s') ∧ stream fd s' bs ∧
    sent fd buf s s'.
Proof.
  intros (c & Hc & Hw & Hb) Hne. cbn [write_all].
  rewrite (bind_done _ _ _ _ _ (write_eintr_all fd buf c s Hc Hw)).
  destruct (length buf) as [|n] eqn:El; [by destruct buf|].
  destruct (Nat.ltb_spec (S n) (S n)) as [|_]; [lia|].
  eexists. split; [reflexivity|]. split; [|by apply sent_set].
  exists (Conn (c_in c) [] (c_out c ++ buf)). split_and!; [apply set_conn_lookup|done|done].
Qed.

Lemma read_exact_stream fuel fd n acc s bs rest :
  stream fd s (bs ++ rest) → (length acc + length bs = n)%nat → bs ≠ [] →
  (length bs < fuel)%nat →
  ∃ s', read_exact fuel fd n acc s = (Done (Some (acc ++ bs)), s') ∧ stream fd s' rest ∧
    sent fd [] s s'.
Proof.
  revert acc s bs. induction fuel as [|fuel IH]; intros acc s bs Hs Hn Hne Hf; [lia|].
  destruct Hs as (c & Hc & Hw & Hb). cbn [read_exact].
  assert (0 < length bs)%nat as Hpos by (destruct bs; simpl; [done|lia]).
  destruct (data_of_pop (n - length acc) _ _ Hb) as (b & evs & Hpop & Hbne & Hrest).
  { intros [? _]%app_eq_nil. done. }
  { lia. }
  pose proof (pop_read_length _ _ _ _ Hpop) as Hbl.
  erewrite bind_done by (apply read_with_done; [exact Hc|exact Hpop]).
  destruct b as [|x b]; [done|]. set (b' := x :: b) in *.
  assert (b' = take (length b') bs ∧ data_of evs = drop (length b') bs ++ rest) as [E1 E2].
  { assert (length b' ≤ length bs)%nat as Hle by lia.
    assert (take (length b') (bs ++ rest) = b') as Ht by (rewrite <-Hrest; apply take_app_length).
    rewrite take_app_le in Ht by done. split; [done|].
    rewrite <-drop_app_le by done. by rewrite <-Hrest, drop_app_length. }
  set (s1 := set_conn fd (set_in evs c) s).
  assert (sent fd [] s s1) as Hsent.
  { unfold s1, set_in. rewrite <-(app_nil_r (c_out c)). by apply sent_set. }
  assert (stream fd s1 (drop (length b') bs ++ rest)) as Hs1.
  { exists (set_in evs c). split_and!; [apply set_conn_lookup|done|done]. }
  rewrite length_app. destruct (Nat.ltb_spec (length acc + length b') n) as [Hlt|Hge].
  - destruct (IH (acc ++ b') s1 (drop (length b') bs) Hs1) as (s2 & E & S2 & T2).
    + rewrite length_app, length_drop. lia.
    + intros Hd%(f_equal length). rewrite length_drop in Hd. simpl in Hd. simpl in Hlt. lia.
    + rewrite length_drop. subst b'. simpl. lia.
    + exists s2. split; [|split; [done|]].
      * rewrite E, <-(assoc_L app). rewrite E1 at 1. by rewrite take_drop.
      * by apply (sent_trans fd [] [] s s1).
  - exists s1. assert (length b' = length bs) as Hlen by lia.
    rewrite Hlen, drop_ge in Hs1 by lia. split; [|done].
    rewrite Hlen, take_ge in E1 by lia. by rewrite <-E1.
Qed.

(** A length field is read back. *)
Lemma header_length n : 0 ≤ n < 100000 → length (header_text n) = 6%nat.
Proof.
  intros Hn. unfold header_text. rewrite length_app, length_replicate.
  pose proof (header_size n Hn). lia.
Qed.

Lemma plain_no_nul c : plain c = true → c ≠ NUL.
Proof. by intros ? ->. Qed.

Lemma header_atoi n : 0 ≤ n < 100000 → atoi (c_text (header_text n)) = n.
Proof.
  intros Hn. unfold header_text. rewrite c_text_no_nul.
  - apply atoi_show_int; [unfold is_int, int_min, int_max; lia|].
    destruct (6 - length (show_int n))%nat; done.
  - apply Forall_app_2; [|by apply Forall_replicate].
    eapply Forall_impl; [apply show_int_plain|]. intros c [H| ->]; [by apply plain_no_nul|done].
Qed.

Lemma read_frame_stream fd s body rest :
  stream fd s (header_text (strlen body) ++ body ++ rest) → body ≠ [] → strlen body < 100000 →
  ∃ s', read_frame fd s = (Done (inr body), s') ∧ stream fd s' rest ∧ sent fd [] s s'.
Proof.
  intros Hs Hne Hlen. pose proof (strlen_nonneg body) as Hpos.
  pose proof (header_length (strlen body) ltac:(lia)) as Hh.
  assert (header_text (strlen body) ≠ []) as Hhne by (intros E; by rewrite E in Hh).
  destruct (read_exact_stream 7 fd 6 [] s _ _ Hs) as (s1 & E1 & S1 & T1);
    [by rewrite Hh|done|rewrite Hh; lia|].
  unfold read_frame. rewrite (bind_done _ _ _ _ _ E1). rewrite app_nil_l.
  rewrite header_atoi by lia. cbv zeta.
  assert (0 < strlen body) as Hpos' by (unfold strlen in *; destruct body; simpl; [done|lia]).
  destruct (Z.ltb_spec (strlen body) (-1)); [lia|].
  destruct (Z.eqb_spec (strlen body) (-1)); [lia|].
  destruct (Z.eqb_spec (strlen body) 0); [lia|].
  assert (Z.to_nat (strlen body) = length body) as -> by (unfold strlen; lia).
  destruct (read_exact_stream (S (length body)) fd (length body) [] s1 _ _ S1)
    as (s2 & E2 & S2 & T2); [done|done|lia|].
  rewrite (bind_done _ _ _ _ _ E2). rewrite app_nil_l. exists s2. split; [done|].
  split; [done|]. by apply (sent_trans fd [] [] s s1).
Qed.

Lemma body_text_nonempty cmd l : body_text cmd l ≠ [].
Proof. done. Qed.

(** ** Properties *)

(** C20: a command survives the wire: what the encoder produces for a command
    name and pairs whose values hold any characters, semicolons and equal signs
    included, is read back as one frame, however the bytes are cut into
    segments and whatever signals interrupt the reads, and decodes to the same
    name and the same pairs, leaving the rest of the stream. *)
Theorem command_roundtrip (fd : Z) (s : os) (cmd : cstr) (l : list kvpair) (frame rest : cstr)
    (Hcmd : cmd_ok cmd) (Hl : Forall pair_ok l)
    (Hfit : body_fits cmd l) (Hframe : encode cmd l = Done (inr frame))
    (Hs : stream fd s (frame ++ rest)) :
  ∃ s' body, read_frame fd s = (Done (inr body), s') ∧
    decode body = Done (inr (Command cmd (Some <$> l))) ∧
    stream fd s' rest ∧ sent fd [] s s'.
Proof.
  rewrite encode_frame in Hframe by done. injection Hframe as <-.
  unfold frame_text in Hs. rewrite <-(assoc_L app) in Hs.
  destruct (read_frame_stream fd s (body_text cmd l) rest Hs) as (s' & E & S' & T').
  - apply body_text_nonempty.
  - destruct Hfit as (_ & _ & H). unfold PMII_MAX_COMMAND_LEN, PMII_COMMANDLEN_SIZE in H. lia.
  - exists s', (body_text cmd l). split; [done|]. split; [by apply decode_body|done].
Qed.

(** The decoder is safe on any bytes: it ends, it never stores outside
    the array it allocated (every pair it parses was counted), and what it
    returns has keys of at most 64 and values of at most 1024 characters. *)
Theorem decode_safe (body : cstr) :
  ∃ r, decode body = Done r ∧
    match r with
    | inl e => e = PMI2_ERR_OTHER ∨ e = PMI2_ERR_NOMEM
    | inr c => strlen (command c) ≤ PMI2_MAX_VALLEN ∧ Forall entry_ok (pairs c)
    end.
Proof.
  unfold decode. destruct (parse_keyval body) as [[[key val] rest]|] eqn:E; [|eexists; split; [reflexivity|]; simpl; auto].
  apply count_parse in E as (Hc & Hr & Hk & Hv).
  destruct (strn_eq _ _ _); cbn [negb]; [|eexists; split; [reflexivity|]; simpl; auto].
  destruct (Nat.eqb_spec (count_pairs body) 0); [eexists; split; [reflexivity|]; simpl; auto|].
  destruct (parse_pairs_safe (S (length rest)) (count_pairs body - 1) [] rest)
    as (r & -> & Hl); [simpl; lia|lia|done|].
  destruct r as [e|l]; [subst; eexists; split; [reflexivity|]; simpl; auto|]. eexists. split; [done|]. simpl. split; [done|].
  apply Forall_app_2; [|by apply Forall_replicate]. apply Forall_fmap. apply Hl.
Qed.

(** Up to thirty pairs the encoder stays inside its buffer of 65536
    bytes whatever the strings: it reports an error for a name, key or value
    that is too long and otherwise produces the frame. *)
Theorem encode_safe (cmd : cstr) (l : list kvpair) (Hn : (length l ≤ 30)%nat) :
  ∃ r, encode cmd l = Done r ∧ (∀ e, r = inl e → e = PMI2_ERR_OTHER).
Proof.
  unfold encode. pose proof (strlen_nonneg cmd).
  destruct (Z.ltb_spec PMI2_MAX_VALLEN (strlen cmd)) as [|Hc].
  { eexists. split; [done|]. by intros e [= <-]. }
  assert (strlen (L "cmd=" ++ cmd ++ L ";") = strlen cmd + 5) as Hw.
  { rewrite !strlen_app. change (strlen (L "cmd=")) with 4. change (strlen (L ";")) with 1. lia. }
  unfold PMI2_MAX_VALLEN in Hc.
  rewrite put_text_ok.
  2:{ rewrite Hw. unfold remaining, PMII_MAX_COMMAND_LEN, PMII_COMMANDLEN_SIZE.
      change (strlen []) with 0. lia. }
  rewrite app_nil_l.
  destruct (put_pairs_safe l (L "cmd=" ++ cmd ++ L ";")) as (r & -> & Hr).
  { rewrite Hw. unfold pair_max, PMI2_MAX_KEYLEN, PMI2_MAX_VALLEN, PMII_MAX_COMMAND_LEN,
      PMII_COMMANDLEN_SIZE. lia. }
  destruct r as [e|w]; [eexists; split; [done|]; intros e' [= <-]; done|].
  cbv zeta. rewrite Hw in Hr. unfold pair_max, PMI2_MAX_KEYLEN, PMI2_MAX_VALLEN in Hr.
  destruct (_ <=? strlen _); [eexists; split; [done|]; by intros e [= <-]|].
  destruct (Z.leb_spec (remaining w) 0) as [Hz|_].
  { unfold remaining, PMII_MAX_COMMAND_LEN, PMII_COMMANDLEN_SIZE in Hz. lia. }
  by eexists.
Qed.

(** With more pairs it does not: when the frame so far fits and the next
    key fits, a value that does not fit is stored past the end of the buffer,
    because the loop over the characters of a value checks nothing. *)
Theorem encode_overflow (cmd k v : cstr) (l : list kvpair)
    (Hfit : body_fits cmd l) (Hkv : pair_fits (k, v))
    (Hk : strlen (body_text cmd l) + strlen k + 1 < PMII_MAX_COMMAND_LEN - PMII_COMMANDLEN_SIZE)
    (Hv : PMII_MAX_COMMAND_LEN - PMII_COMMANDLEN_SIZE
          < strlen (body_text cmd l ++ pair_text (k, v))) :
  encode cmd (l ++ [(k, v)]) = Fault OutOfBounds.
Proof.
  destruct Hfit as (Hc & Hl & Hb), Hkv as [Hkl Hvl]. cbn [fst snd] in Hkl, Hvl.
  unfold encode. destruct (Z.ltb_spec PMI2_MAX_VALLEN (strlen cmd)); [lia|].
  assert (body_text cmd l = (L "cmd=" ++ cmd ++ L ";") ++ concat (pair_text <$> l)) as Eb.
  { unfold body_text. by rewrite <-!(assoc_L app). }
  pose proof Hb as Hb'. rewrite Eb, strlen_app in Hb'.
  pose proof (strlen_nonneg (concat (pair_text <$> l))).
  rewrite put_text_ok by (unfold remaining; change (strlen []) with 0; lia).
  rewrite app_nil_l, put_pairs_app.
  rewrite put_pairs_ok by (done || unfold remaining; lia). rewrite <-Eb.
  rewrite strlen_app, strlen_pair_text in Hv. cbn [fst snd] in Hv.
  set (w := body_text cmd l) in *. cbn [put_pairs].
  destruct (Z.ltb_spec PMI2_MAX_KEYLEN (strlen k)); [lia|].
  assert (strlen (k ++ L "=") = strlen k + 1) as Hke by (rewrite strlen_app; done).
  assert (remaining w = PMII_MAX_COMMAND_LEN - PMII_COMMANDLEN_SIZE - strlen w) as Hr by done.
  rewrite put_text_ok by lia.
  destruct (Z.ltb_spec PMI2_MAX_VALLEN (strlen v)); [lia|].
  rewrite put_value_eq by (rewrite remaining_app; lia). rewrite remaining_app, Hke.
  destruct (Z.leb_spec (strlen (escape v)) (remaining w - (strlen k + 1))); [|done].
  cbn [mbind option_bind]. by rewrite put_char_full by (rewrite !remaining_app; lia).
Qed.

(** ** The properties at concrete inputs *)

Definition demo_stream (evs : list in_event) : os :=
  OS ∅ {[ 5 := Conn evs [] [] ]} (Net [] [] [] 4242 [] false).

Lemma demo_stream_ok evs : stream 5 (demo_stream evs) (data_of evs).
Proof. exists (Conn evs [] []). split_and!; [vm_compute; reflexivity|done|done]. Qed.

Definition demo_kvs : list kvpair := [(L "key", L "a=b;c;;"); (L "value", [])].

Lemma command_roundtrip_witness :
  ∃ s' body,
    read_frame 5 (demo_stream [InData (take 3 (frame_text (L "kvs-put") demo_kvs)); InIntr;
                               InData (drop 3 (frame_text (L "kvs-put") demo_kvs) ++ L "12")])
    = (Done (inr body), s') ∧
    decode body = Done (inr (Command (L "kvs-put") (Some <$> demo_kvs))) ∧
    stream 5 s' (L "12") ∧
    sent 5 [] (demo_stream [InData (take 3 (frame_text (L "kvs-put") demo_kvs)); InIntr;
                InData (drop 3 (frame_text (L "kvs-put") demo_kvs) ++ L "12")]) s'.
Proof.
  apply (command_roundtrip 5 _ (L "kvs-put") demo_kvs (frame_text (L "kvs-put") demo_kvs)).
  - by apply (bool_decide_unpack _).
  - by apply (bool_decide_unpack _).
  - by apply (bool_decide_unpack _).
  - vm_compute. reflexivity.
  - apply demo_stream_ok.
Defined.

Lemma encode_safe_witness :
  ∃ r, encode (L "kvs-put") demo_kvs = Done r ∧ (∀ e, r = inl e → e = PMI2_ERR_OTHER).
Proof. apply (encode_safe (L "kvs-put") demo_kvs). vm_compute. lia. Defined.

(** 64 arguments of 1024 characters. *)
Definition big_value : cstr := replicate 1024 "x"%char.

Lemma encode_overflow_witness :
  encode (L "spawn") (replicate 63 (L "a", big_value) ++ [(L "a", big_value)])
  = Fault OutOfBounds.
Proof.
  apply (encode_overflow (L "spawn") (L "a") big_value (replicate 63 (L "a", big_value))).
  - apply (bool_decide_unpack _). vm_compute. exact I.
  - apply (bool_decide_unpack _). vm_compute. exact I.
  - vm_compute. reflexivity.
  - vm_compute. reflexivity.
Defined.
