(* ===== verification/Pmi2Util.v ===== *)
(** * PMI-2 utilities (modules/pmi/pmi2/client/pmi2_util.c)

    The file has the static variables of the PMI-1 utilities (its reader does
    not keep the last descriptor), so they share the record [pmiu], and the
    loops that are the same text in both files share their definitions. *)

From S2P Require Import Prelude CLib OS SafeStr PmiUtil.

Local Open Scope Z_scope.

Definition PMI2_MAXLINE : Z := 1024.
Definition PMI2_IDSIZE : Z := 32.

Definition PMI2U_Set_rank (PMI_rank : Z) : M pmiu () :=
  modify (set_u_print_id (snprintf_text (L "cli_" ++ show_int PMI_rank) PMI2_IDSIZE)).

Definition PMI2U_SetServer : M pmiu () := modify (set_u_print_id (L "server")).

(** Without the check of the last descriptor. *)
Definition PMI2U_readline (fd maxlen : Z) : M pmiu (Z * cstr) :=
  readline_loop fd (Z.to_nat (maxlen - 1)) [].

(** Without the check of the length. *)
Definition PMI2U_writeline (fd : Z) (buf : cstr) : M pmiu Z :=
  match last buf with
  | None => fault_ OutOfBounds
  | Some c =>
      if c <>c LF then mret 0
      else
        n ← zoom (write_eintr fd buf);
        match n with None => mret (-1) | Some _ => mret 0 end
  end.

(** The parser fills the same table in the same way. *)
Definition PMI2U_parse_keyvals (st : cstr) : M pmiu Z := λ s,
  match parse_loop (S (length st)) [] st with
  | Done (rc, tab) => (Done rc, set_u_tab tab s)
  | Exited z => (Exited z, s)
  | Fault f => (Fault f, s)
  | Hang => (Hang, s)
  end.

(** [value[vallen-1] = '\000'] in the first entry with the key. *)
Fixpoint cut_value (keystr : cstr) (n : nat) (tab : list keyval) : list keyval :=
  match tab with
  | [] => []
  | (k, v) :: tab =>
      if str_eq keystr k then (k, take n v) :: tab else (k, v) :: cut_value keystr n tab
  end.

(** The value is cut in the table too, and a cut is not reported. *)
Definition PMI2U_getval (keystr : cstr) (vallen : Z) : M pmiu (bool * option cstr) :=
  s ← get;
  match tab_find keystr (u_tab s) with
  | Some v =>
      '(_, t) ← strncpy_text v vallen;
      if (vallen <=? 0) || (MAXVALLEN <? vallen) then fault_ OutOfBounds
      else
        modify (set_u_tab (cut_value keystr (Z.to_nat (vallen - 1)) (u_tab s)));;
        mret (true, t)
  | None => mret (false, Some [])
  end.

Definition PMI2U_chgval (keystr valstr : cstr) : M pmiu () :=
  modify (λ s, set_u_tab
    ((λ '(k, v), (k, if str_eq keystr k then take (Z.to_nat (MAXVALLEN - 1)) valstr else v))
     <$> u_tab s) s).
