(* ===== verification/Pmi2Api.v ===== *)
(** * The PMI-2 client (modules/pmi/pmi2/client/pmi2_api.c)

    The static variables of the file, the exchange of commands with the process
    manager, and the PMI-2 calls.  Every call has the shape "send a command,
    read the response, check its return code, look values up, release the
    response", most of them under the file's mutex; [command_call] is that
    shape.  [PMI2U_printf] and the assertions are empty in this build. *)

From S2P Require Import Prelude CLib OS SafeStr PmiUtil ErrCodes Pmi2Util PendingQ Pmi2Wire.

Local Open Scope Z_scope.

Definition PMI2_VERSION : Z := 2.
Definition PMI2_SUBVERSION : Z := 0.
Definition PMI2_ID_NULL : Z := -1.
Definition MAXHOSTNAME : Z := 256.

Inductive PMI2State :=
  | PMI2_UNINITIALIZED
  | SINGLETON_INIT_BUT_NO_PM
  | NORMAL_INIT_WITH_PM
  | SINGLETON_INIT_WITH_PM.

#[global] Instance PMI2State_eq_dec : EqDecision PMI2State.
Proof. solve_decision. Defined.

(** [PMI2_initialized > SINGLETON_INIT_BUT_NO_PM]. *)
Definition with_pm (st : PMI2State) : bool :=
  match st with NORMAL_INIT_WITH_PM | SINGLETON_INIT_WITH_PM => true | _ => false end.

(** The static variables of the file; [pmi2_mutex] tells whether the mutex is
    held, [p2_cmd] is the address of the [PMI2_Command] of the running call. *)
Record pmi2 := Pmi2 {
  p2_u : pmiu;
  PMI2_initialized : PMI2State;
  PMI2_debug : Z;
  PMI2_fd : Z;
  PMI2_size : Z;
  PMI2_rank : Z;
  pmi2_mutex : bool;
  p2_queue : pendingq;
  p2_cmd : Z }.

Definition set_p2_u (v : pmiu) (s : pmi2) : pmi2 :=
  Pmi2 v (PMI2_initialized s) (PMI2_debug s) (PMI2_fd s) (PMI2_size s) (PMI2_rank s)
    (pmi2_mutex s) (p2_queue s) (p2_cmd s).
Definition set_PMI2_initialized (v : PMI2State) (s : pmi2) : pmi2 :=
  Pmi2 (p2_u s) v (PMI2_debug s) (PMI2_fd s) (PMI2_size s) (PMI2_rank s) (pmi2_mutex s)
    (p2_queue s) (p2_cmd s).
Definition set_PMI2_debug (v : Z) (s : pmi2) : pmi2 :=
  Pmi2 (p2_u s) (PMI2_initialized s) v (PMI2_fd s) (PMI2_size s) (PMI2_rank s)
    (pmi2_mutex s) (p2_queue s) (p2_cmd s).
Definition set_PMI2_fd (v : Z) (s : pmi2) : pmi2 :=
  Pmi2 (p2_u s) (PMI2_initialized s) (PMI2_debug s) v (PMI2_size s) (PMI2_rank s)
    (pmi2_mutex s) (p2_queue s) (p2_cmd s).
Definition set_PMI2_size (v : Z) (s : pmi2) : pmi2 :=
  Pmi2 (p2_u s) (PMI2_initialized s) (PMI2_debug s) (PMI2_fd s) v (PMI2_rank s)
    (pmi2_mutex s) (p2_queue s) (p2_cmd s).
Definition set_PMI2_rank (v : Z) (s : pmi2) : pmi2 :=
  Pmi2 (p2_u s) (PMI2_initialized s) (PMI2_debug s) (PMI2_fd s) (PMI2_size s) v
    (pmi2_mutex s) (p2_queue s) (p2_cmd s).
Definition set_pmi2_mutex (v : bool) (s : pmi2) : pmi2 :=
  Pmi2 (p2_u s) (PMI2_initialized s) (PMI2_debug s) (PMI2_fd s) (PMI2_size s) (PMI2_rank s)
    v (p2_queue s) (p2_cmd s).
Definition set_p2_queue (v : pendingq) (s : pmi2) : pmi2 :=
  Pmi2 (p2_u s) (PMI2_initialized s) (PMI2_debug s) (PMI2_fd s) (PMI2_size s) (PMI2_rank s)
    (pmi2_mutex s) v (p2_cmd s).
Definition set_p2_cmd (v : Z) (s : pmi2) : pmi2 :=
  Pmi2 (p2_u s) (PMI2_initialized s) (PMI2_debug s) (PMI2_fd s) (PMI2_size s) (PMI2_rank s)
    (pmi2_mutex s) (p2_queue s) v.

#[global] Program Instance pmi2_pmiu : Lens pmi2 pmiu := {| lget := p2_u; lset := set_p2_u |}.
Next Obligation. done. Qed.
Next Obligation. by intros []. Qed.
Next Obligation. done. Qed.

#[global] Program Instance pmi2_queue : Lens pmi2 pendingq :=
  {| lget := p2_queue; lset := set_p2_queue |}.
Next Obligation. done. Qed.
Next Obligation. by intros []. Qed.
Next Obligation. done. Qed.

Definition util {A} (m : M pmiu A) : M pmi2 A := zoom m.
Definition sys {A} (m : M os A) : M pmi2 A := zoom (S := pmi2) (T := pmiu) (zoom m).
Definition queue {A} (m : M pendingq A) : M pmi2 A := zoom m.

(** ** Commands *)

(** [resp] is the address kept in the pending queue, 0 for NULL. *)
Definition PMIi_WriteSimpleCommand (fd resp : Z) (cmd : cstr) (l : list kvpair) : M pmi2 Z :=
  r ← lift (encode cmd l);
  match r with
  | inl e => mret e
  | inr cmdbuf =>
      s ← get;
      (if PMI2_debug s =? 0 then mret tt else queue (ENQUEUE resp));;
      ok ← sys (write_all (S (length cmdbuf)) fd cmdbuf);
      mret (if ok : bool then PMI2_SUCCESS else PMI2_ERR_OTHER)
  end.

(** The variadic form: [None] is a NULL value, sent as an empty one. *)
Definition PMIi_WriteSimpleCommandStr (fd resp : Z) (cmd : string)
    (args : list (string * option cstr)) : M pmi2 Z :=
  PMIi_WriteSimpleCommand fd resp (L cmd) ((λ '(k, v), (L k, default [] v)) <$> args).

(** A response may name another command's structure in [thrid]: storing through
    an address that is not the caller's is out of bounds. *)
Definition PMIi_ReadCommand (fd : Z) : M pmi2 (Z + PMI2_Command) :=
  r ← sys (read_frame fd);
  match r with
  | inl e => mret (inl e)
  | inr cmd_buf =>
      r ← lift (decode cmd_buf);
      match r with
      | inl e => mret (inl e)
      | inr c =>
          target_cmd ← lift (getvalptr (pairs c) (L "thrid"));
          match target_cmd with
          | NotFound => mret (inr c)
          | Invalid => fault_ Uninitialised
          | Found p =>
              s ← get;
              (if PMI2_debug s =? 0 then mret 0 else queue (SEARCH_REMOVE p));;
              if p =? p2_cmd s then mret (inr c) else fault_ OutOfBounds
          end
      end
  end.

(** The error code, the response if one was read, and its return code. *)
Definition PMIi_ReadCommandExp (fd : Z) (exp : string)
    : M pmi2 (Z * option PMI2_Command * Z) :=
  r ← PMIi_ReadCommand fd;
  match r with
  | inl e => mret (e, None, 0)
  | inr c =>
      same ← or_fault Uninitialised (command_is (command c) (L exp));
      if negb same then mret (PMI2_ERR_OTHER, Some c, 0)
      else
        found ← lift (getvalint (pairs c) (L "rc"));
        match found with
        | Found rc => lift (getval (pairs c) (L "errmsg"));; mret (PMI2_SUCCESS, Some c, rc)
        | _ => mret (PMI2_ERR_OTHER, Some c, 0)
        end
  end.

(** [free (cmd.command); freepairs (cmd.pairs, cmd.nPairs)]. *)
Definition free_command (c : option PMI2_Command) : M pmi2 () :=
  match c with None => mret tt | Some c => lift (freepairs (pairs c)) end.

Definition mutex_lock : M pmi2 () :=
  s ← get; if pmi2_mutex s then hang_ else modify (set_pmi2_mutex true).
Definition mutex_unlock : M pmi2 () := modify (set_pmi2_mutex false).

(** Send [cmd] with [args] and read the response [exp]; when it arrives with
    return code 0, [body] looks values up in it.  The values are what the call
    stores through its arguments, [dflt] when it fails before [body]. *)
Definition exchange {A} (cmd : string) (args : list (string * option cstr)) (exp : string)
    (dflt : A) (body : list (option kvpair) → M pmi2 (Z * A)) : M pmi2 (Z * A) :=
  s ← get;
  e ← PMIi_WriteSimpleCommandStr (PMI2_fd s) (p2_cmd s) cmd args;
  if e <>z 0 then mret (e, dflt)
  else
    '(e, c, rc) ← PMIi_ReadCommandExp (PMI2_fd s) exp;
    r ← (if e <>z 0 then mret (e, dflt)
         else if rc <>z 0 then mret (PMI2_ERR_OTHER, dflt)
         else match c with Some c => body (pairs c) | None => mret (e, dflt) end);
    free_command c;;
    mret r.

Definition command_call {A} (cmd : string) (args : list (string * option cstr)) (exp : string)
    (dflt : A) (body : list (option kvpair) → M pmi2 (Z * A)) : M pmi2 (Z * A) :=
  mutex_lock;;
  r ← exchange cmd args exp dflt body;
  mutex_unlock;;
  mret r.

(** A call with nothing to look up. *)
Definition just_rc (l : list (option kvpair)) : M pmi2 (Z * ()) := mret (PMI2_SUCCESS, tt).

(** ** Key-value space *)

Definition PMI2_KVS_Put (key value : cstr) : M pmi2 Z :=
  '(e, _) ← command_call "kvs-put" [("key", Some key); ("value", Some value)]
              "kvs-put-response" tt just_rc;
  mret e.

Definition PMI2_KVS_Fence : M pmi2 Z :=
  '(e, _) ← command_call "kvs-fence" [] "kvs-fence-response" tt just_rc; mret e.

(** [getval] of [value], copied into a buffer of [n] bytes; also the length. *)
Definition copy_value (l : list (option kvpair)) (key : string) (n : Z)
    : M pmi2 (option (Z * option cstr * Z)) :=
  v ← lift (getval l (L key));
  match v with
  | None => mret None
  | Some v =>
      '(ret, t) ← strncpy_text (c_text v) n;
      mret (Some (ret, t, strlen v))
  end.

(** The text left in the caller's buffer of [maxValue] bytes, and [*valLen]. *)
Definition PMI2_KVS_Get (jobid : option cstr) (src_pmi_id : Z) (key : cstr) (maxValue : Z)
    : M pmi2 (Z * (option cstr * option Z)) :=
  command_call "kvs-get"
    [("jobid", jobid); ("srcid", Some (show_int src_pmi_id)); ("key", Some key)]
    "kvs-get-response" (None, None)
    (λ l,
      keyfound ← lift (getvalbool l (L "found"));
      match keyfound with
      | Found 1 =>
          v ← copy_value l "value" maxValue;
          match v with
          | None => mret (PMI2_ERR_OTHER, (None, None))
          | Some (ret, t, kvsvallen) =>
              mret (PMI2_SUCCESS, (t, Some (if ret <>z 0 then - kvsvallen else kvsvallen)))
          end
      | _ => mret (PMI2_ERR_OTHER, (None, None))
      end).

(** ** Attributes *)

Definition bool_text (b : bool) : cstr := if b then L "TRUE" else L "FALSE".

(** [*flag], and [value] when the flag is set: the two calls differ in the
    command and its arguments. *)
Definition attr_body (valuelen : Z) (l : list (option kvpair))
    : M pmi2 (Z * (option Z * option cstr)) :=
  found ← lift (getvalbool l (L "found"));
  match found with
  | Found flag =>
      if flag =? 0 then mret (PMI2_SUCCESS, (Some flag, None))
      else
        v ← copy_value l "value" valuelen;
        match v with
        | None => mret (PMI2_ERR_OTHER, (Some flag, None))
        | Some (_, t, _) => mret (PMI2_SUCCESS, (Some flag, t))
        end
  | _ => mret (PMI2_ERR_OTHER, (None, None))
  end.

Definition PMI2_Info_GetNodeAttr (name : cstr) (valuelen : Z) (waitfor : bool)
    : M pmi2 (Z * (option Z * option cstr)) :=
  command_call "info-getnodeattr" [("key", Some name); ("wait", Some (bool_text waitfor))]
    "info-getnodeattr-response" (None, None) (attr_body valuelen).

Definition PMI2_Info_GetJobAttr (name : cstr) (valuelen : Z)
    : M pmi2 (Z * (option Z * option cstr)) :=
  command_call "info-getjobattr" [("key", Some name)]
    "info-getjobattr-response" (None, None) (attr_body valuelen).

(** The texts after each comma: the values of [valptr] in the [strchr] loop. *)
Fixpoint after_commas (s : cstr) : list cstr :=
  match s with
  | [] => []
  | c :: s => if c =c ","%char then s :: after_commas s else after_commas s
  end.

(** [while ((valptr = strchr (valptr, ',')) && i < arraylen)]: the array, [i]
    and whether all the numbers were parsed. *)
Fixpoint int_loop (ptrs : list cstr) (i : nat) (arraylen : Z) (array : list Z)
    : option (list Z * nat * bool) :=
  match ptrs with
  | [] => Some (array, i, true)
  | p :: ptrs =>
      if Z.of_nat i <? arraylen then
        match sscanf_d p with
        | None => Some (array, i, false)
        | Some z =>
            if (i <? length array)%nat then int_loop ptrs (S i) arraylen (<[i := z]> array)
            else None
        end
      else Some (array, i, true)
  end.

(** The array, the [outlen] and the flag of the integer-array calls. *)
Definition int_array_body (array : list Z) (arraylen : Z) (l : list (option kvpair))
    : M pmi2 (Z * (list Z * option Z * option Z)) :=
  found ← lift (getvalbool l (L "found"));
  match found with
  | Found flag =>
      if flag =? 0 then mret (PMI2_SUCCESS, (array, None, Some flag))
      else
        v ← lift (getval l (L "value"));
        match v with
        | None => mret (PMI2_ERR_OTHER, (array, None, Some flag))
        | Some v =>
            let kvsvalue := c_text v in
            match sscanf_d kvsvalue with
            | None => mret (PMI2_ERR_OTHER, (array, None, Some flag))
            | Some z =>
                if (0 <? length array)%nat then
                  '(array, i, ok) ← or_fault OutOfBounds
                    (int_loop (after_commas kvsvalue) 1 arraylen (<[0%nat := z]> array));
                  if ok : bool then mret (PMI2_SUCCESS, (array, Some (Z.of_nat i), Some flag))
                  else mret (PMI2_ERR_OTHER, (array, None, Some flag))
                else fault_ OutOfBounds
            end
        end
  | _ => mret (PMI2_ERR_OTHER, (array, None, None))
  end.

Definition PMI2_Info_GetNodeAttrIntArray (name : cstr) (array : list Z) (arraylen : Z)
    : M pmi2 (Z * (list Z * option Z * option Z)) :=
  command_call "info-getnodeattr" [("key", Some name); ("wait", Some (L "FALSE"))]
    "info-getnodeattr-response" (array, None, None) (int_array_body array arraylen).

Definition PMI2_Info_GetJobAttrIntArray (name : cstr) (array : list Z) (arraylen : Z)
    : M pmi2 (Z * (list Z * option Z * option Z)) :=
  command_call "info-getjobattr" [("key", Some name)]
    "info-getjobattr-response" (array, None, None) (int_array_body array arraylen).

Definition PMI2_Info_PutNodeAttr (name value : cstr) : M pmi2 Z :=
  '(e, _) ← command_call "info-putnodeattr" [("key", Some name); ("value", Some value)]
              "info-putnodeattr-response" tt just_rc;
  mret e.

(** ** Name service *)

Definition PMI2_Nameserv_publish (service_name port : cstr) : M pmi2 Z :=
  '(e, _) ← command_call "name-publish"
              [("name", Some service_name); ("port", Some port); ("infokeycount", Some (L "0"))]
              "name-publish-response" tt just_rc;
  mret e.

Definition PMI2_Nameserv_lookup (service_name : cstr) (portLen : Z)
    : M pmi2 (Z * option cstr) :=
  command_call "name-lookup" [("name", Some service_name); ("infokeycount", Some (L "0"))]
    "name-lookup-response" None
    (λ l,
      v ← copy_value l "value" portLen;
      match v with
      | None => mret (PMI2_ERR_OTHER, None)
      | Some (_, t, _) => mret (PMI2_SUCCESS, t)
      end).

Definition PMI2_Nameserv_unpublish (service_name : cstr) : M pmi2 Z :=
  '(e, _) ← command_call "name-unpublish"
              [("name", Some service_name); ("infokeycount", Some (L "0"))]
              "name-unpublish-response" tt just_rc;
  mret e.

(** ** Jobs (without the mutex) *)

Definition PMI2_Job_GetId (jobid_size : Z) : M pmi2 (Z * option cstr) :=
  exchange "job-getid" [] "job-getid-response" None
    (λ l,
      v ← copy_value l "jobid" jobid_size;
      match v with
      | None => mret (PMI2_ERR_OTHER, None)
      | Some (_, t, _) => mret (PMI2_SUCCESS, t)
      end).

Definition PMI2_Job_GetRank : M pmi2 (Z * Z) := s ← get; mret (PMI2_SUCCESS, PMI2_rank s).
Definition PMI2_Info_GetSize : M pmi2 (Z * Z) := s ← get; mret (PMI2_SUCCESS, PMI2_size s).

Definition PMI2_Job_Connect (jobid : cstr) : M pmi2 Z :=
  '(e, _) ← exchange "job-connect" [("jobid", Some jobid)] "job-connect-response" tt
    (λ l,
      kvscopy ← lift (getvalbool l (L "kvscopy"));
      mret (match kvscopy with
            | Found b => if b =? 0 then PMI2_SUCCESS else PMI2_ERR_OTHER
            | _ => PMI2_ERR_OTHER
            end, tt));
  mret e.

Definition PMI2_Job_Disconnect (jobid : cstr) : M pmi2 Z :=
  '(e, _) ← exchange "job-disconnect" [("jobid", Some jobid)] "job-disconnect-response" tt
              just_rc;
  mret e.

(** What [PMIX_Ring] stores: [*rank], [*ranks], [left], [right]. *)
Record ring_out := RingOut {
  r_rank : option Z;
  r_ranks : option Z;
  r_left : option cstr;
  r_right : option cstr }.

Definition ring_body (maxvalue : Z) (l : list (option kvpair)) : M pmi2 (Z * ring_out) :=
  rank ← lift (getvalint l (L "ring-count"));
  match rank with
  | Found rank =>
      s ← get;
      let ranks := PMI2_size s in
      v ← copy_value l "ring-left" maxvalue;
      match v with
      | None => mret (PMI2_ERR_OTHER, RingOut (Some rank) (Some ranks) None None)
      | Some (_, lft, _) =>
          v ← copy_value l "ring-right" maxvalue;
          match v with
          | None => mret (PMI2_ERR_OTHER, RingOut (Some rank) (Some ranks) lft None)
          | Some (_, rgt, _) =>
              mret (PMI2_SUCCESS, RingOut (Some rank) (Some ranks) lft rgt)
          end
      end
  | _ => mret (PMI2_ERR_OTHER, RingOut None None None None)
  end.

Definition PMIX_Ring (value : cstr) (maxvalue : Z) : M pmi2 (Z * ring_out) :=
  s ← get;
  if decide (PMI2_initialized s = SINGLETON_INIT_BUT_NO_PM) then
    '(_, lft) ← strncpy_text value maxvalue;
    '(_, rgt) ← strncpy_text value maxvalue;
    mret (PMI2_SUCCESS, RingOut (Some 0) (Some 1) lft rgt)
  else
    exchange "ring"
      [("ring-count", Some (L "1")); ("ring-left", Some value); ("ring-right", Some value)]
      "ring-response" (RingOut None None None None) (ring_body maxvalue).

(** ** Spawning *)

(** One executable: [cmds[i]], [argvs[i]], [maxprocs[i]] and its info pairs. *)
Record spawn2_cmd := Spawn2Cmd {
  s2_cmd : cstr;
  s2_args : list cstr;
  s2_maxprocs : Z;
  s2_info : list keyval }.

(** [init_kv_strdup_int] and [init_kv_strdup_intsuffix]. *)
Definition kv_int (key : string) (v : Z) : kvpair := (L key, show_int v).
Definition kv_suffix (key_prefix : string) (suffix : nat) (val : cstr) : kvpair :=
  (take 255 (L key_prefix ++ show_int (Z.of_nat suffix)), val).

Definition kv_pairs (keys vals : string) (l : list keyval) : list kvpair :=
  concat (imap (λ i kv, [kv_suffix keys i kv.1; kv_suffix vals i kv.2]) l).

(** The pairs of the command; [with_info] is [info_keyval_sizes != NULL]. *)
Definition spawn_pairs (cs : list spawn2_cmd) (with_info : bool) (preput : list keyval)
    : list kvpair :=
  kv_int "ncmds" (Z.of_nat (length cs)) ::
  kv_int "preputcount" (Z.of_nat (length preput)) :: kv_pairs "ppkey" "ppval" preput ++
  concat ((λ c,
    (L "subcmd", s2_cmd c) :: kv_int "maxprocs" (s2_maxprocs c) ::
    kv_int "argc" (Z.of_nat (length (s2_args c))) :: imap (kv_suffix "argv") (s2_args c) ++
    (if with_info then
       kv_int "infokeycount" (Z.of_nat (length (s2_info c))) ::
       kv_pairs "infokey" "infoval" (s2_info c)
     else [])) <$> cs).

(** The error codes are looked up in the table of the PMI-1 handshake, not in
    the response. *)
Definition spawn_errcodes (total : Z) (errors : list Z) : M pmi2 (list Z) :=
  '(p, tempbuf) ← util (PMI2U_getval (L "errcodes") PMI2_MAXLINE);
  let codes := if p : bool then atoi <$> split_on ","%char (default [] tempbuf)
               else replicate (Z.to_nat total) 0 in
  or_fault OutOfBounds (store_codes 0 codes errors).

(** The job id is copied when [jobId] is not NULL and its size not 0.  The
    result is the code, the job id and the array of error codes. *)
Definition PMI2_Job_Spawn (cs : list spawn2_cmd) (with_info : bool) (preput : list keyval)
    (jobId : bool) (jobIdSize : Z) (errors : list Z) : M pmi2 (Z * option cstr * list Z) :=
  s ← get;
  total ← int_sum 0 (s2_maxprocs <$> cs);
  e ← PMIi_WriteSimpleCommand (PMI2_fd s) (p2_cmd s) (L "spawn") (spawn_pairs cs with_info preput);
  if e <>z 0 then mret (e, None, errors)
  else
    '(rc, c, spawn_rc) ← PMIi_ReadCommandExp (PMI2_fd s) "spawn-response";
    if rc <>z 0 then mret (PMI2_FAIL, None, errors)
    else
      let l := match c with Some c => pairs c | None => [] end in
      r ← (if jobId && (jobIdSize <>z 0) then
             v ← copy_value l "jobid" jobIdSize;
             mret (match v with None => None | Some (_, t, _) => Some t end)
           else mret (Some None));
      match r with
      | None => free_command c;; mret (PMI2_ERR_OTHER, None, errors)
      | Some jid =>
          errors ← spawn_errcodes total errors;
          free_command c;;
          mret (PMI2_SUCCESS, jid, errors)
      end.

(** ** Initialisation *)

Definition getenv_opt (name : string) : M pmi2 (option cstr) := sys (getenv name).

Definition PMII_Connect_to_pm (hostname : cstr) (portnum : Z) : M pmi2 Z :=
  d ← sys (next_dial hostname (wrap_u 16 portnum));
  if negb (d_host d) then mret (-1)
  else if d_fd d <? 0 then mret (-1)
  else
    sys (modify (set_conn (d_fd d) (Conn [InErr] [WrErr] [])));;
    match d_connect d with
    | ConnRefused => sys (shutdown_close (d_fd d));; mret (-1)
    | ConnTimedOut | ConnOther => mret (-1)
    | ConnOk | ConnInProgress | ConnIsConn =>
        sys (modify (set_conn (d_fd d) (d_conn d)));; mret (d_fd d)
    end.

Definition getPMIFD : M pmi2 Z :=
  modify (set_PMI2_fd (-1));;
  p ← getenv_opt "PMI_FD";
  match p with
  | Some p => modify (set_PMI2_fd (atoi p));; mret PMI2_SUCCESS
  | None =>
      p ← getenv_opt "PMI_PORT";
      match p with
      | None => mret PMI2_SUCCESS
      | Some p =>
          let '(host, _) := break (λ c, c =c ":"%char) p in
          let hostname := take (Z.to_nat MAXHOSTNAME) host in
          match drop (length hostname) p with
          | c :: port =>
              if c =c ":"%char then
                fd ← PMII_Connect_to_pm hostname (atoi port);
                modify (set_PMI2_fd fd);;
                mret (if fd <? 0 then PMI2_ERR_OTHER else PMI2_SUCCESS)
              else mret PMI2_ERR_OTHER
          | [] => mret PMI2_ERR_OTHER
          end
      end
  end.

(** What [PMI2_Init] stores through its arguments. *)
Record init2_out := Init2Out {
  i_spawned : option Z;
  i_size : option Z;
  i_rank : option Z;
  i_appnum : option Z }.

Definition no_out : init2_out := Init2Out None None None None.

(** The PMI-1 handshake. *)
Definition init_pmi1 : M pmi2 Z :=
  s ← get;
  let fd := PMI2_fd s in
  ret ← util (PMI2U_writeline fd (snprintf_text (L "cmd=init pmi_version=" ++
           show_int PMI2_VERSION ++ L " pmi_subversion=" ++ show_int PMI2_SUBVERSION ++ [LF])
           PMI2_MAXLINE));
  if ret <? 0 then mret PMI2_ERR_OTHER
  else
    '(ret, buf) ← util (PMI2U_readline fd PMI2_MAXLINE);
    if ret <? 0 then mret PMI2_ERR_OTHER
    else
      util (PMI2U_parse_keyvals buf);;
      '(_, cmdline) ← util (PMI2U_getval (L "cmd") PMI2_MAXLINE);
      if negb (strn_eq (default [] cmdline) (L "response_to_init") (Z.to_nat PMI2_MAXLINE))
      then mret PMI2_ERR_OTHER
      else
        '(_, buf) ← util (PMI2U_getval (L "rc") PMI2_MAXLINE);
        if negb (strn_eq (default [] buf) (L "0") (Z.to_nat PMI2_MAXLINE)) then
          util (PMI2U_getval (L "pmi_version") PMI2_MAXLINE);;
          util (PMI2U_getval (L "pmi_subversion") PMI2_MAXLINE);;
          mret PMI2_ERR_OTHER
        else mret PMI2_SUCCESS.

(** The pairs of the [fullinit] command. *)
Definition fullinit_pairs : M pmi2 (list kvpair) :=
  jobid ← getenv_opt "PMI_JOBID";
  let l1 := match jobid with Some v => [(L "pmijobid", v)] | None => [] end in
  pmiid ← getenv_opt "PMI_ID";
  l2 ← (match pmiid with
        | Some v => mret [(L "srcid", v)]
        | None =>
            pmiid ← getenv_opt "PMI_RANK";
            match pmiid with
            | Some v => modify (set_PMI2_rank (wrap_s 32 (strtol10 v)));; mret [(L "pmirank", v)]
            | None => mret []
            end
        end);
  mret (l1 ++ l2 ++ [(L "threaded", L "FALSE")]).

(** The lookups in the response, each of which must succeed. *)
Definition fullinit_lookups (l : list (option kvpair)) : M pmi2 (Z * init2_out) :=
  version ← lift (getvalint l (L "pmi-version"));
  match version with Found _ =>
  subver ← lift (getvalint l (L "pmi-subversion"));
  match subver with Found _ =>
  rank ← lift (getvalint l (L "rank"));
  match rank with Found rank =>
  size ← lift (getvalint l (L "size"));
  match size with Found size =>
  modify (set_PMI2_size size);;
  appnum ← lift (getvalint l (L "appnum"));
  match appnum with Found appnum =>
  spawner ← lift (getval l (L "spawner-jobid"));
  let spawned := match spawner with Some _ => 1 | None => 0 end in
  let out := Init2Out (Some spawned) (Some size) (Some rank) (Some appnum) in
  debugged ← lift (getvalbool l (L "debugged"));
  match debugged with Invalid => mret (PMI2_ERR_OTHER, out) | _ =>
  modify (λ s, set_PMI2_debug
    (Z.lor (PMI2_debug s) (match debugged with Found d => d | _ => 0 end)) s);;
  verbose ← lift (getvalbool l (L "pmiverbose"));
  match verbose with Invalid => mret (PMI2_ERR_OTHER, out) | _ =>
  mret (PMI2_SUCCESS, out)
  end end
  | _ => mret (PMI2_ERR_OTHER, Init2Out None (Some size) (Some rank) None) end
  | _ => mret (PMI2_ERR_OTHER, Init2Out None None (Some rank) None) end
  | _ => mret (PMI2_ERR_OTHER, no_out) end
  | _ => mret (PMI2_ERR_OTHER, no_out) end
  | _ => mret (PMI2_ERR_OTHER, no_out) end.

Definition init_pmi2 : M pmi2 (Z * init2_out) :=
  s ← get;
  l ← fullinit_pairs;
  e ← PMIi_WriteSimpleCommand (PMI2_fd s) 0 (L "fullinit") l;
  if e <>z 0 then mret (e, no_out)
  else
    '(e, c, rc) ← PMIi_ReadCommandExp (PMI2_fd s) "fullinit-response";
    if e <>z 0 then mret (e, no_out)
    else if rc <>z 0 then mret (PMI2_ERR_OTHER, no_out)
    else
      '(e, out) ← fullinit_lookups (match c with Some c => pairs c | None => [] end);
      if e <>z 0 then mret (e, out)
      else free_command c;; mret (PMI2_SUCCESS, out).

Definition PMI2_Init : M pmi2 (Z * init2_out) :=
  p ← getenv_opt "PMI2_DEBUG";
  (match p with Some p => modify (set_PMI2_debug (atoi p)) | None => mret tt end);;
  e ← getPMIFD;
  if e <>z 0 then mret (e, no_out)
  else
    fd ← gets PMI2_fd;
    if fd =? -1 then
      modify (λ s, set_PMI2_size 1 (set_PMI2_rank 0
                     (set_PMI2_initialized SINGLETON_INIT_BUT_NO_PM s)));;
      mret (PMI2_SUCCESS, Init2Out (Some 0) (Some 1) (Some 0) (Some (-1)))
    else
      e ← init_pmi1;
      if e <>z 0 then mret (e, no_out)
      else
        '(e, out) ← init_pmi2;
        if e <>z 0 then mret (e, out)
        else
          s ← get;
          (if decide (PMI2_initialized s = PMI2_UNINITIALIZED)
           then modify (set_PMI2_initialized NORMAL_INIT_WITH_PM) else mret tt);;
          mret (PMI2_SUCCESS, out).

Definition PMI2_Initialized : M pmi2 Z :=
  s ← get; mret (bool_Z (negb (bool_decide (PMI2_initialized s = PMI2_UNINITIALIZED)))).

(** The descriptor is closed only when the exchange succeeds. *)
Definition PMI2_Finalize : M pmi2 Z :=
  s ← get;
  if with_pm (PMI2_initialized s) then
    e ← PMIi_WriteSimpleCommandStr (PMI2_fd s) (p2_cmd s) "finalize" [];
    if e <>z 0 then mret e
    else
      '(e, c, rc) ← PMIi_ReadCommandExp (PMI2_fd s) "finalize-response";
      if e <>z 0 then mret e
      else if rc <>z 0 then mret PMI2_ERR_OTHER
      else
        free_command c;;
        sys (shutdown_close (PMI2_fd s));;
        mret PMI2_SUCCESS
  else mret PMI2_SUCCESS.

(** It does not return. *)
Definition PMI2_Abort (flag : Z) (msg : option cstr) : M pmi2 Z :=
  s ← get;
  PMIi_WriteSimpleCommandStr (PMI2_fd s) 0 "abort"
    [("isworld", Some (bool_text (flag <>z 0))); ("msg", Some (default [] msg))];;
  exit_ flag.

(** ** The exchange with the process manager *)

(** The operating system's state inside the client's. *)
Definition os_of (s : pmi2) : os := u_os (p2_u s).
Definition with_os (o : os) (s : pmi2) : pmi2 := set_p2_u (set_u_os o (p2_u s)) s.

Lemma sys_done {A} (m : M os A) s a o :
  m (os_of s) = (Done a, o) → sys m s = (Done a, with_os o s).
Proof.
  intros H. refine (zoom_done (S := pmi2) (T := pmiu) (zoom m) s a (set_u_os o (p2_u s)) _).
  exact (zoom_done (S := pmiu) (T := os) m (p2_u s) a o H).
Qed.

Lemma with_os_twice o o' s : with_os o (with_os o' s) = with_os o s.
Proof. done. Qed.

(** The pairs a call sends. *)
Definition arg_pairs (args : list (string * option cstr)) : list kvpair :=
  (λ '(k, v), (L k, default [] v)) <$> args.

(** What the process manager is about to send to the client [s]: the command
    [exp] with the pairs [l], which name no thread, then [rest]. *)
Record answers (s : pmi2) (exp : string) (l : list kvpair) (rest : cstr) : Prop := {
  an_stream : stream (PMI2_fd s) (os_of s) (frame_text (L exp) l ++ rest);
  an_cmd : cmd_ok (L exp);
  an_pairs : Forall pair_ok l;
  an_fits : body_fits (L exp) l;
  an_thrid : getval (Some <$> l) (L "thrid") = Done None }.

(** From [s] to [s'] the client sent the command [cmd] with [args] and consumed
    the answer; nothing else changed. *)
Record exchanged (cmd : string) (args : list (string * option cstr)) (rest : cstr)
    (s s' : pmi2) : Prop := {
  ex_state : s' = with_os (os_of s') s;
  ex_stream : stream (PMI2_fd s) (os_of s') rest;
  ex_sent : sent (PMI2_fd s) (frame_text (L cmd) (arg_pairs args)) (os_of s) (os_of s') }.

Lemma frame_text_nonempty cmd l : frame_text cmd l ≠ [].
Proof.
  unfold frame_text. intros H%app_eq_nil. destruct H as [_ H]. by apply body_text_nonempty in H.
Qed.

Lemma write_ok s resp cmd l bs :
  stream (PMI2_fd s) (os_of s) bs → PMI2_debug s = 0 → body_fits cmd l →
  ∃ o, PMIi_WriteSimpleCommand (PMI2_fd s) resp cmd l s = (Done PMI2_SUCCESS, with_os o s) ∧
    stream (PMI2_fd s) o bs ∧ sent (PMI2_fd s) (frame_text cmd l) (os_of s) o.
Proof.
  intros Hs Hd Hf. unfold PMIi_WriteSimpleCommand. rewrite encode_frame by done.
  erewrite bind_done by reflexivity. cbv beta iota. erewrite bind_done by reflexivity.
  rewrite Hd. change (0 =? 0) with true. cbv iota. erewrite bind_done by reflexivity.
  destruct (write_all_stream _ _ _ _ Hs (frame_text_nonempty cmd l)) as (o & E & S & T).
  rewrite (bind_done _ _ _ _ _ (sys_done _ _ _ _ E)). by exists o.
Qed.

Lemma read_command_ok s exp l rest :
  answers s exp l rest →
  ∃ o, PMIi_ReadCommand (PMI2_fd s) s
      = (Done (inr (Command (L exp) (Some <$> l))), with_os o s) ∧
    stream (PMI2_fd s) o rest ∧ sent (PMI2_fd s) [] (os_of s) o.
Proof.
  intros [Hs Hc Hl Hf Ht]. unfold frame_text in Hs. rewrite <-(assoc_L app) in Hs.
  destruct (read_frame_stream _ _ _ rest Hs) as (o & E & S & T).
  - apply body_text_nonempty.
  - destruct Hf as (_ & _ & H). unfold PMII_MAX_COMMAND_LEN, PMII_COMMANDLEN_SIZE in H. lia.
  - unfold PMIi_ReadCommand. rewrite (bind_done _ _ _ _ _ (sys_done _ _ _ _ E)).
    rewrite decode_body by done. erewrite bind_done by reflexivity.
    unfold getvalptr. cbn [pairs]. rewrite Ht. erewrite bind_done by reflexivity.
    by exists o.
Qed.

Lemma getval_total l key : ∃ v, getval (Some <$> l) key = Done v.
Proof.
  induction l as [|[k v] l IH]; cbn [fmap list_fmap getval]; [by eexists|].
  destruct (strn_eq _ _ _); [by eexists|done].
Qed.

Lemma freepairs_ok l : freepairs (Some <$> l) = Done tt.
Proof.
  unfold freepairs. rewrite bool_decide_true; [done|]. apply Forall_fmap, Forall_true.
  intros x. by eexists.
Qed.

(** The number of a pair. *)
Definition int_field (l : list kvpair) (key : string) : lookup_res Z :=
  match getvalint (Some <$> l) (L key) with Done r => r | _ => NotFound end.

Lemma getvalint_field l key : getvalint (Some <$> l) (L key) = Done (int_field l key).
Proof.
  unfold int_field, getvalint. by destruct (getval_total l (L key)) as (v & ->); destruct v.
Qed.

(** The check of the name compares a prefix; it reads past a name that is
    shorter than the expected one and agrees with it. *)
Definition too_short (name exp : string) : Prop := L name `prefix_of` L exp ∧ name ≠ exp.

Lemma command_is_prefix name exp :
  ¬ (name `prefix_of` exp ∧ name ≠ exp) →
  command_is name exp = Some (bool_decide (exp `prefix_of` name)).
Proof.
  revert name. induction exp as [|e exp IH]; intros name Hn; cbn [command_is].
  - by rewrite bool_decide_true by apply prefix_nil.
  - destruct name as [|c name]; [destruct Hn; split; [apply prefix_nil|done]|].
    destruct (Ascii.eqb_spec c e) as [->|Hne].
    + rewrite IH.
      2:{ intros [Hp Hne]. apply Hn. split; [by apply prefix_cons|congruence]. }
      f_equal. apply bool_decide_ext. split; [apply prefix_cons|apply prefix_cons_inv_2].
    + rewrite bool_decide_false; [done|]. intros ?%prefix_cons_inv_1. congruence.
Qed.

(** The answer [name] with the pairs [l] is the one expected, with return code
    0. *)
Definition accepted (exp name : string) (l : list kvpair) : Prop :=
  L exp `prefix_of` L name ∧ int_field l "rc" = Found 0.

#[global] Instance lookup_res_eq_dec {A} `{EqDecision A} : EqDecision (lookup_res A).
Proof. solve_decision. Defined.
#[global] Instance accepted_dec exp name l : Decision (accepted exp name l).
Proof. unfold accepted. apply _. Defined.

(** Reading an answer, whatever its name and return code. *)
Lemma read_exp_any s exp name l rest :
  answers s name l rest → ¬ too_short name exp →
  ∃ e rc o, PMIi_ReadCommandExp (PMI2_fd s) exp s
      = (Done (e, Some (Command (L name) (Some <$> l)), rc), with_os o s) ∧
    (e = 0 ∧ L exp `prefix_of` L name ∧ int_field l "rc" = Found rc ∨
     e = PMI2_ERR_OTHER ∧ ¬ (L exp `prefix_of` L name ∧ ∃ rc, int_field l "rc" = Found rc)) ∧
    stream (PMI2_fd s) o rest ∧ sent (PMI2_fd s) [] (os_of s) o.
Proof.
  intros Ha Hshort. destruct (read_command_ok s name l rest Ha) as (o & E & S & T).
  unfold PMIi_ReadCommandExp. rewrite (bind_done _ _ _ _ _ E). cbn [command pairs].
  rewrite command_is_prefix.
  2:{ intros [Hp Hne]. apply Hshort. split; [done|]. by intros ->. }
  erewrite bind_done by reflexivity. case_bool_decide as Hp; cbn [negb].
  2:{ eexists _, _, o. split; [done|]. split; [|done]. right. split; [done|]. by intros []. }
  rewrite getvalint_field. erewrite bind_done by reflexivity.
  destruct (int_field l "rc") as [rc| |] eqn:Hrc.
  - destruct (getval_total l (L "errmsg")) as (v & ->). erewrite bind_done by reflexivity.
    eexists _, _, o. split; [done|]. split; [|done]. by left.
  - eexists _, _, o. split; [done|]. split; [|done]. right. split; [done|]. by intros (_ & ? & ?).
  - eexists _, _, o. split; [done|]. split; [|done]. right. split; [done|]. by intros (_ & ? & ?).
Qed.

Lemma not_too_short exp : ¬ too_short exp exp.
Proof. by intros []. Qed.

Lemma read_exp_ok s exp l rest rc :
  answers s exp l rest → int_field l "rc" = Found rc →
  ∃ o, PMIi_ReadCommandExp (PMI2_fd s) exp s
      = (Done (PMI2_SUCCESS, Some (Command (L exp) (Some <$> l)), rc), with_os o s) ∧
    stream (PMI2_fd s) o rest ∧ sent (PMI2_fd s) [] (os_of s) o.
Proof.
  intros Ha Hrc.
  destruct (read_exp_any s exp exp l rest Ha (not_too_short exp)) as (e & rc' & o & E & Hcase & S & T).
  exists o. split; [|done]. destruct Hcase as [(-> & _ & Hrc')|[_ Hno]]; [rewrite E, Hrc in *; injection Hrc' as ->; done|].
  destruct Hno. split; [done|by eexists].
Qed.

(** A call runs its lookups on an answer that is accepted, and only then. *)
Lemma exchange_any {A} s cmd args exp name l rest (dflt : A) body :
  answers s name l rest → ¬ too_short name exp → PMI2_debug s = 0 →
  body_fits (L cmd) (arg_pairs args) →
  ∃ s', (∀ r, (¬ accepted exp name l → r = (PMI2_ERR_OTHER, dflt)) →
           (accepted exp name l → body (Some <$> l) s' = (Done r, s')) →
           exchange cmd args exp dflt body s = (Done r, s')) ∧
    exchanged cmd args rest s s'.
Proof.
  intros Ha Hshort Hd Hf. pose proof (an_stream _ _ _ _ Ha) as Hs.
  destruct (write_ok s (p2_cmd s) (L cmd) (arg_pairs args) _ Hs Hd Hf) as (o1 & E1 & S1 & T1).
  assert (answers (with_os o1 s) name l rest) as Ha1 by (split; [exact S1|apply Ha..]).
  destruct (read_exp_any (with_os o1 s) exp name l rest Ha1 Hshort)
    as (e & rc & o2 & E2 & Hcase & S2 & T2).
  exists (with_os o2 s). split.
  2:{ split; [done|exact S2|]. rewrite <-(app_nil_r (frame_text _ _)).
      by eapply sent_trans. }
  intros r Hr1 Hr2. unfold exchange. erewrite bind_done by reflexivity.
  unfold PMIi_WriteSimpleCommandStr. fold (arg_pairs args).
  rewrite (bind_done _ _ _ _ _ E1). change (PMI2_SUCCESS <>z 0) with false. cbv iota.
  change (PMI2_fd s) with (PMI2_fd (with_os o1 s)).
  rewrite (bind_done _ _ _ _ _ E2). cbv beta iota. rewrite with_os_twice. cbn [pairs].
  assert (free_command (Some (Command (L name) (Some <$> l))) (with_os o2 s)
    = (Done tt, with_os o2 s)) as Hfree.
  { unfold free_command. cbn [pairs]. by rewrite freepairs_ok. }
  destruct Hcase as [(-> & Hp & Hrc)|[-> Hno]].
  - change (0 <>z 0) with false. cbv iota. destruct (Z.eqb_spec rc 0) as [->|Hne]; cbn [negb].
    + rewrite (bind_done _ _ _ _ _ (Hr2 (conj Hp Hrc))).
      by rewrite (bind_done _ _ _ _ _ Hfree).
    + erewrite bind_done by reflexivity. rewrite (bind_done _ _ _ _ _ Hfree).
      rewrite Hr1; [done|]. intros [_ Hrc']. congruence.
  - change (PMI2_ERR_OTHER <>z 0) with true. cbv iota. erewrite bind_done by reflexivity.
    rewrite (bind_done _ _ _ _ _ Hfree). rewrite Hr1; [done|]. intros [Hp Hrc]. apply Hno. eauto.
Qed.

Definition text_field (l : list kvpair) (key : string) : option cstr :=
  match getval (Some <$> l) (L key) with Done v => v | _ => None end.
Definition bool_field (l : list kvpair) (key : string) : lookup_res Z :=
  match getvalbool (Some <$> l) (L key) with Done r => r | _ => NotFound end.

Lemma getval_field l key : getval (Some <$> l) (L key) = Done (text_field l key).
Proof. unfold text_field. by destruct (getval_total l (L key)) as (v & ->). Qed.

Lemma getvalbool_field l key : getvalbool (Some <$> l) (L key) = Done (bool_field l key).
Proof.
  unfold bool_field, getvalbool. by destruct (getval_total l (L key)) as (v & ->); destruct v.
Qed.

Lemma lock_free s : pmi2_mutex s = false → mutex_lock s = (Done tt, set_pmi2_mutex true s).
Proof. intros H. unfold mutex_lock. erewrite bind_done by reflexivity. by rewrite H. Qed.

Lemma answers_lock s b exp l rest : answers s exp l rest → answers (set_pmi2_mutex b s) exp l rest.
Proof. intros []. by split. Qed.

(** The same for the calls under the mutex, which is free again afterwards. *)
Lemma command_call_any {A} s cmd args exp name l rest (dflt : A) body r :
  answers s name l rest → ¬ too_short name exp → PMI2_debug s = 0 → pmi2_mutex s = false →
  body_fits (L cmd) (arg_pairs args) →
  (¬ accepted exp name l → r = (PMI2_ERR_OTHER, dflt)) →
  (accepted exp name l → ∀ s', PMI2_size s' = PMI2_size s → body (Some <$> l) s' = (Done r, s')) →
  ∃ s', command_call cmd args exp dflt body s = (Done r, s') ∧ exchanged cmd args rest s s'.
Proof.
  intros Ha Hshort Hd Hm Hf Hr1 Hr2.
  destruct (exchange_any (set_pmi2_mutex true s) cmd args exp name l rest dflt body)
    as (s1 & E & [X1 X2 X3]); [by apply answers_lock|done..|].
  exists (set_pmi2_mutex false s1). split.
  - unfold command_call. rewrite (bind_done _ _ _ _ _ (lock_free s Hm)).
    erewrite bind_done.
    2:{ apply E; [done|]. intros Hok. apply Hr2; [done|]. by rewrite X1. }
    done.
  - split; [|exact X2|exact X3]. rewrite X1. unfold with_os. simpl. by rewrite <-Hm; destruct s.
Qed.

Lemma accepted_own exp l rc : int_field l "rc" = Found rc → accepted exp exp l ↔ rc = 0.
Proof. intros H. unfold accepted. rewrite H. split; [by intros [_ [= ->]]|by intros ->]. Qed.

Lemma command_call_ok {A} s cmd args exp l rest (dflt : A) body rc r :
  answers s exp l rest → PMI2_debug s = 0 → pmi2_mutex s = false →
  body_fits (L cmd) (arg_pairs args) → int_field l "rc" = Found rc →
  (rc ≠ 0 → r = (PMI2_ERR_OTHER, dflt)) →
  (rc = 0 → ∀ s', PMI2_size s' = PMI2_size s → body (Some <$> l) s' = (Done r, s')) →
  ∃ s', command_call cmd args exp dflt body s = (Done r, s') ∧ exchanged cmd args rest s s'.
Proof.
  intros Ha Hd Hm Hf Hrc Hr1 Hr2. pose proof (accepted_own exp l rc Hrc) as Hok.
  apply (command_call_any s cmd args exp exp l); [done|apply not_too_short|done..| |];
    rewrite Hok; auto.
Qed.

(** ** Properties of the calls *)

Definition get_args (jobid : option cstr) (src_pmi_id : Z) (key : cstr)
    : list (string * option cstr) :=
  [("jobid", jobid); ("srcid", Some (show_int src_pmi_id)); ("key", Some key)].

(** The verdict of [PMI2_KVS_Get] on an answer. *)
Definition get_result (l : list kvpair) (rc n : Z) : Z * (option cstr * option Z) :=
  match rc, bool_field l "found", text_field l "value" with
  | 0, Found 1, Some v =>
      let t := c_text v in
      (PMI2_SUCCESS, (Some (take (Z.to_nat (n - 1)) t),
                      Some (if n <=? strlen t then - strlen v else strlen v)))
  | _, _, _ => (PMI2_ERR_OTHER, (None, None))
  end.

Lemma strncpy_text_pos {S} src n (s : S) :
  0 < n →
  strncpy_text src n s = (Done (bool_Z (n <=? strlen src), Some (take (Z.to_nat (n - 1)) src)), s).
Proof.
  intros Hn. unfold strncpy_text. destruct (Z.ltb_spec n 0); [lia|].
  destruct (Z.eqb_spec n 0); [lia|done].
Qed.

Lemma copy_value_field l key n s :
  0 < n →
  copy_value (Some <$> l) key n s =
  (Done ((λ v, (bool_Z (n <=? strlen (c_text v)),
               Some (take (Z.to_nat (n - 1)) (c_text v)), strlen v)) <$> text_field l key), s).
Proof.
  intros Hn. unfold copy_value. rewrite getval_field. erewrite bind_done by reflexivity.
  destruct (text_field l key) as [v|]; [|done].
  by rewrite (bind_done _ _ _ _ _ (strncpy_text_pos (c_text v) n s Hn)).
Qed.

(** The result of a get on the answer [name] with the pairs [l]. *)
Definition get_verdict (name : string) (l : list kvpair) (n : Z) : Z * (option cstr * option Z) :=
  if decide (accepted "kvs-get-response" name l) then get_result l 0 n
  else (PMI2_ERR_OTHER, (None, None)).

Lemma kvs2_get_any (s : pmi2) (jobid : option cstr) (src : Z) (key : cstr) (n : Z)
    (name : string) (l : list kvpair) (rest : cstr) :
  answers s name l rest → ¬ too_short name "kvs-get-response" → PMI2_debug s = 0 →
  pmi2_mutex s = false → body_fits (L "kvs-get") (arg_pairs (get_args jobid src key)) → 0 < n →
  ∃ s', PMI2_KVS_Get jobid src key n s = (Done (get_verdict name l n), s') ∧
    exchanged "kvs-get" (get_args jobid src key) rest s s'.
Proof.
  intros Ha Hshort Hd Hm Hf Hn. unfold PMI2_KVS_Get, get_verdict.
  eapply (command_call_any s _ _ _ name l); [done..| |].
  - intros Hno. by rewrite decide_False.
  - intros Hok s' _. rewrite decide_True by done. unfold get_result. rewrite getvalbool_field.
    erewrite bind_done by reflexivity.
    destruct (bool_field l "found") as [[|[| |]|]| |]; try done.
    rewrite (bind_done _ _ _ _ _ (copy_value_field l "value" n s' Hn)).
    destruct (text_field l "value") as [v|]; [|done]. cbn.
    by destruct (n <=? strlen (c_text v)).
Qed.

Lemma kvs2_get_ok (s : pmi2) (jobid : option cstr) (src : Z) (key : cstr) (n : Z)
    (l : list kvpair) (rest : cstr) (rc : Z)
    (Ha : answers s "kvs-get-response" l rest) (Hd : PMI2_debug s = 0)
    (Hm : pmi2_mutex s = false)
    (Hf : body_fits (L "kvs-get") (arg_pairs (get_args jobid src key)))
    (Hrc : int_field l "rc" = Found rc) (Hn : 0 < n) :
  ∃ s', PMI2_KVS_Get jobid src key n s = (Done (get_result l rc n), s') ∧
    exchanged "kvs-get" (get_args jobid src key) rest s s'.
Proof.
  destruct (kvs2_get_any s jobid src key n _ l rest Ha (not_too_short _) Hd Hm Hf Hn)
    as (s' & E & H). exists s'. split; [|done]. rewrite E. unfold get_verdict.
  pose proof (accepted_own "kvs-get-response" l rc Hrc) as Hok. destruct (decide _) as [H'|H']; rewrite Hok in H'.
  - by rewrite H'.
  - unfold get_result. by destruct rc.
Qed.

(** *** A process manager that does not answer *)





(** *** Whatever happens *)











Definition put_args (key value : cstr) : list (string * option cstr) :=
  [("key", Some key); ("value", Some value)].

(** A put. *)
Lemma kvs2_put_ok (s : pmi2) (key value : cstr) (l : list kvpair) (rest : cstr) (rc : Z)
    (Ha : answers s "kvs-put-response" l rest) (Hd : PMI2_debug s = 0)
    (Hm : pmi2_mutex s = false) (Hf : body_fits (L "kvs-put") (arg_pairs (put_args key value)))
    (Hrc : int_field l "rc" = Found rc) :
  ∃ s', PMI2_KVS_Put key value s =
      (Done (if rc =? 0 then PMI2_SUCCESS else PMI2_ERR_OTHER), s') ∧
    exchanged "kvs-put" (put_args key value) rest s s'.
Proof.
  destruct (command_call_ok s "kvs-put" (put_args key value) "kvs-put-response" l rest tt
    just_rc rc (if rc =? 0 then PMI2_SUCCESS else PMI2_ERR_OTHER, tt)) as (s' & E & X); try done.
  - intros Hne. by destruct (Z.eqb_spec rc 0).
  - intros -> s' _. done.
  - exists s'. split; [|done]. unfold PMI2_KVS_Put. by rewrite (bind_done _ _ _ _ _ E).
Qed.

(** A put sends the key and the value in one command and returns 0
    exactly when the answer's return code is 0. *)
Theorem PMI2_KVS_Put_spec (s : pmi2) (key value : cstr) (l : list kvpair) (rest : cstr) (rc : Z)
    (Ha : answers s "kvs-put-response" l rest) (Hd : PMI2_debug s = 0)
    (Hm : pmi2_mutex s = false) (Hf : body_fits (L "kvs-put") (arg_pairs (put_args key value)))
    (Hrc : int_field l "rc" = Found rc) :
  ∃ s', PMI2_KVS_Put key value s =
      (Done (if rc =? 0 then PMI2_SUCCESS else PMI2_ERR_OTHER), s') ∧
    exchanged "kvs-put" (put_args key value) rest s s'.
Proof. by apply (kvs2_put_ok s key value l rest rc). Qed.

(** ** The mutex *)

Definition same_mutex (s s' : pmi2) : Prop := pmi2_mutex s' = pmi2_mutex s.

#[global] Instance same_mutex_refl : Reflexive same_mutex.
Proof. done. Qed.
#[global] Instance same_mutex_trans : Transitive same_mutex.
Proof. unfold same_mutex. intros ?????. congruence. Qed.

Lemma util_mutex {A} (m : M pmiu A) : preserves same_mutex (util m).
Proof. by apply (preserves_zoom (S := pmi2)). Qed.
Lemma sys_mutex {A} (m : M os A) : preserves same_mutex (sys m).
Proof. by apply (preserves_zoom (S := pmi2)). Qed.
Lemma queue_mutex {A} (m : M pendingq A) : preserves same_mutex (queue m).
Proof. by apply (preserves_zoom (S := pmi2)). Qed.
#[export] Hint Resolve util_mutex sys_mutex queue_mutex : preserves.

Lemma write_mutex fd resp cmd l : preserves same_mutex (PMIi_WriteSimpleCommand fd resp cmd l).
Proof. unfold PMIi_WriteSimpleCommand. preserve. Qed.
#[export] Hint Resolve write_mutex : preserves.
Lemma write_str_mutex fd resp cmd l :
  preserves same_mutex (PMIi_WriteSimpleCommandStr fd resp cmd l).
Proof. unfold PMIi_WriteSimpleCommandStr. preserve. Qed.
Lemma read_mutex fd : preserves same_mutex (PMIi_ReadCommand fd).
Proof. unfold PMIi_ReadCommand. preserve. Qed.
#[export] Hint Resolve write_str_mutex read_mutex : preserves.
Lemma read_exp_mutex fd exp : preserves same_mutex (PMIi_ReadCommandExp fd exp).
Proof. unfold PMIi_ReadCommandExp. preserve. Qed.
Lemma free_mutex c : preserves same_mutex (free_command c).
Proof. unfold free_command. preserve. Qed.
Lemma copy_value_mutex l key n : preserves same_mutex (copy_value l key n).
Proof. unfold copy_value, strncpy_text. preserve. Qed.
#[export] Hint Resolve read_exp_mutex free_mutex copy_value_mutex : preserves.
Lemma attr_body_mutex n l : preserves same_mutex (attr_body n l).
Proof. unfold attr_body. preserve. Qed.
Lemma int_array_body_mutex array n l : preserves same_mutex (int_array_body array n l).
Proof. unfold int_array_body. preserve. Qed.
Lemma just_rc_mutex l : preserves same_mutex (just_rc l).
Proof. unfold just_rc. preserve. Qed.
#[export] Hint Resolve attr_body_mutex int_array_body_mutex just_rc_mutex : preserves.

Lemma exchange_mutex {A} cmd args exp (dflt : A) body :
  (∀ l, preserves same_mutex (body l)) → preserves same_mutex (exchange cmd args exp dflt body).
Proof. intros Hb. unfold exchange. preserve. Qed.

(** The calls of the interface, with what they return dropped. *)
Inductive pmi2_call :=
  | C2Put (key value : cstr) | C2Fence
  | C2Get (jobid : option cstr) (src : Z) (key : cstr) (n : Z)
  | C2GetNodeAttr (name : cstr) (n : Z) (waitfor : bool)
  | C2GetNodeAttrIntArray (name : cstr) (array : list Z) (n : Z)
  | C2PutNodeAttr (name value : cstr)
  | C2GetJobAttr (name : cstr) (n : Z)
  | C2GetJobAttrIntArray (name : cstr) (array : list Z) (n : Z)
  | C2Publish (name port : cstr) | C2Lookup (name : cstr) (n : Z) | C2Unpublish (name : cstr)
  | C2JobGetId (n : Z) | C2JobConnect (jobid : cstr) | C2JobDisconnect (jobid : cstr)
  | C2Ring (value : cstr) (n : Z)
  | C2Spawn (cs : list spawn2_cmd) (info : bool) (preput : list keyval) (jobId : bool)
      (jobIdSize : Z) (errors : list Z)
  | C2Init | C2Finalize.

Definition drop_out {A} (m : M pmi2 A) : M pmi2 () := m;; mret tt.

Definition run2 (c : pmi2_call) : M pmi2 () :=
  match c with
  | C2Put key value => drop_out (PMI2_KVS_Put key value)
  | C2Fence => drop_out PMI2_KVS_Fence
  | C2Get jobid src key n => drop_out (PMI2_KVS_Get jobid src key n)
  | C2GetNodeAttr name n waitfor => drop_out (PMI2_Info_GetNodeAttr name n waitfor)
  | C2GetNodeAttrIntArray name array n => drop_out (PMI2_Info_GetNodeAttrIntArray name array n)
  | C2PutNodeAttr name value => drop_out (PMI2_Info_PutNodeAttr name value)
  | C2GetJobAttr name n => drop_out (PMI2_Info_GetJobAttr name n)
  | C2GetJobAttrIntArray name array n => drop_out (PMI2_Info_GetJobAttrIntArray name array n)
  | C2Publish name port => drop_out (PMI2_Nameserv_publish name port)
  | C2Lookup name n => drop_out (PMI2_Nameserv_lookup name n)
  | C2Unpublish name => drop_out (PMI2_Nameserv_unpublish name)
  | C2JobGetId n => drop_out (PMI2_Job_GetId n)
  | C2JobConnect jobid => drop_out (PMI2_Job_Connect jobid)
  | C2JobDisconnect jobid => drop_out (PMI2_Job_Disconnect jobid)
  | C2Ring value n => drop_out (PMIX_Ring value n)
  | C2Spawn cs info preput jobId jobIdSize errors =>
      drop_out (PMI2_Job_Spawn cs info preput jobId jobIdSize errors)
  | C2Init => drop_out PMI2_Init
  | C2Finalize => drop_out PMI2_Finalize
  end.

(** Runs that return from a free mutex end with a free mutex. *)
Definition frees {A} (m : M pmi2 A) : Prop :=
  ∀ s, pmi2_mutex s = false → returns m s (λ _ s', pmi2_mutex s' = false).

Lemma frees_same {A} (m : M pmi2 A) : preserves same_mutex m → frees m.
Proof.
  intros H s Hs a s' E. specialize (H s). rewrite E in H.
  unfold same_mutex in H. simpl in H. congruence.
Qed.

Lemma frees_command_call {A} cmd args exp (dflt : A) body :
  frees (command_call cmd args exp dflt body).
Proof.
  intros s Hs. unfold command_call. apply returns_bind. intros _ s1 _.
  apply returns_bind. intros r s2 _. apply returns_bind. intros ? s3 E3.
  injection E3 as <- <-. intros r' s4 E4. injection E4 as <- <-. done.
Qed.

Lemma frees_bind_ret {A B} (m : M pmi2 A) (k : A → M pmi2 B) :
  frees m → (∀ a, preserves same_mutex (k a)) → frees (m ≫= k).
Proof.
  intros Hm Hk s Hs. apply returns_bind. intros a s1 E1. specialize (Hm s Hs _ _ E1). simpl in Hm.
  by apply frees_same.
Qed.

Lemma fullinit_lookups_mutex l : preserves same_mutex (fullinit_lookups l).
Proof. unfold fullinit_lookups. preserve. Qed.
Lemma getPMIFD_mutex : preserves same_mutex getPMIFD.
Proof. unfold getPMIFD, getenv_opt, PMII_Connect_to_pm. preserve. Qed.
Lemma init_pmi1_mutex : preserves same_mutex init_pmi1.
Proof. unfold init_pmi1. preserve. Qed.
Lemma fullinit_pairs_mutex : preserves same_mutex fullinit_pairs.
Proof. unfold fullinit_pairs, getenv_opt. preserve. Qed.
#[export] Hint Resolve fullinit_lookups_mutex getPMIFD_mutex init_pmi1_mutex
  fullinit_pairs_mutex : preserves.
Lemma init_pmi2_mutex : preserves same_mutex init_pmi2.
Proof. unfold init_pmi2. preserve. Qed.
#[export] Hint Resolve init_pmi2_mutex : preserves.
Lemma PMI2_Init_mutex : preserves same_mutex PMI2_Init.
Proof. unfold PMI2_Init, getenv_opt. preserve. Qed.
Lemma PMI2_Finalize_mutex : preserves same_mutex PMI2_Finalize.
Proof. unfold PMI2_Finalize. preserve. Qed.
Lemma spawn_errcodes_mutex total errors : preserves same_mutex (spawn_errcodes total errors).
Proof. unfold spawn_errcodes. preserve. Qed.
#[export] Hint Resolve PMI2_Init_mutex PMI2_Finalize_mutex spawn_errcodes_mutex : preserves.
Lemma PMI2_Job_Spawn_mutex cs info preput jobId n errors :
  preserves same_mutex (PMI2_Job_Spawn cs info preput jobId n errors).
Proof. unfold PMI2_Job_Spawn. preserve. Qed.
Lemma ring_body_mutex n l : preserves same_mutex (ring_body n l).
Proof. unfold ring_body. preserve. Qed.
#[export] Hint Resolve PMI2_Job_Spawn_mutex ring_body_mutex : preserves.
#[export] Hint Extern 2 (preserves same_mutex (exchange _ _ _ _ _)) =>
  (apply exchange_mutex; intros ?; preserve) : preserves.

Lemma run2_frees c : frees (run2 c).
Proof.
  destruct c; cbn [run2]; unfold drop_out;
    (apply frees_bind_ret; [|intros ?; preserve]);
    unfold PMI2_KVS_Put, PMI2_KVS_Fence, PMI2_KVS_Get, PMI2_Info_GetNodeAttr,
      PMI2_Info_GetNodeAttrIntArray, PMI2_Info_PutNodeAttr, PMI2_Info_GetJobAttr,
      PMI2_Info_GetJobAttrIntArray, PMI2_Nameserv_publish, PMI2_Nameserv_lookup,
      PMI2_Nameserv_unpublish, PMI2_Job_GetId, PMI2_Job_Connect, PMI2_Job_Disconnect,
      PMIX_Ring;
    first [ apply frees_command_call
          | apply frees_bind_ret; [apply frees_command_call|intros []; preserve]
          | apply frees_same; unfold strncpy_text; preserve ].
Qed.

(** C24: no call leaves the mutex held: from a state where it is free, any
    sequence of calls that return, with success or with any error, ends with
    the mutex free, so a later call never blocks on it. *)
Theorem pmi2_mutex_free (calls : list pmi2_call) (s : pmi2)
    (Hs : pmi2_mutex s = false) :
  returns (foldr (λ c m, run2 c;; m) (mret tt) calls) s (λ _ s', pmi2_mutex s' = false).
Proof.
  revert s Hs. induction calls as [|c calls IH]; intros s Hs; simpl.
  - by apply returns_ret.
  - apply returns_bind. intros a s1 E1. apply IH. exact (run2_frees c s Hs a s1 E1).
Qed.

(** ** The rank of the process *)

(** The environment, which only [setenv] changes. *)
Definition same_env (s s' : os) : Prop := os_env s' = os_env s.
#[global] Instance same_env_refl : Reflexive same_env.
Proof. done. Qed.
#[global] Instance same_env_trans : Transitive same_env.
Proof. unfold same_env. intros ?????. congruence. Qed.

Definition same_env_u (s s' : pmiu) : Prop := same_env (u_os s) (u_os s').
#[global] Instance same_env_u_refl : Reflexive same_env_u.
Proof. done. Qed.
#[global] Instance same_env_u_trans : Transitive same_env_u.
Proof. intros s1 s2 s3. apply same_env_trans. Qed.

Definition same_rank (s s' : pmi2) : Prop :=
  PMI2_rank s' = PMI2_rank s ∧ same_env (os_of s) (os_of s').
#[global] Instance same_rank_refl : Reflexive same_rank.
Proof. done. Qed.
#[global] Instance same_rank_trans : Transitive same_rank.
Proof. intros s1 s2 s3 [] []. split; [congruence|by etrans]. Qed.

Lemma read_eintr_env fd n : preserves same_env (read_eintr fd n).
Proof.
  intros s. unfold read_eintr, read_with. destruct (os_fds s !! fd); [|done].
  by destruct (pop_read_eintr n (c_in c)) as [[]|].
Qed.
Lemma write_eintr_env fd buf : preserves same_env (write_eintr fd buf).
Proof.
  intros s. unfold write_eintr. destruct (os_fds s !! fd); [|done]. by destruct (pop_write _ _).
Qed.
#[export] Hint Resolve read_eintr_env write_eintr_env : preserves.
Lemma write_all_env fuel fd buf : preserves same_env (write_all fuel fd buf).
Proof. revert buf. induction fuel as [|f IH]; intros buf; cbn [write_all]; preserve. Qed.
Lemma read_exact_env fuel fd n acc : preserves same_env (read_exact fuel fd n acc).
Proof. revert acc. induction fuel as [|f IH]; intros acc; cbn [read_exact]; preserve. Qed.
#[export] Hint Resolve write_all_env read_exact_env : preserves.
Lemma read_frame_env fd : preserves same_env (read_frame fd).
Proof. unfold read_frame. preserve. Qed.
#[export] Hint Resolve read_frame_env : preserves.

Lemma zoom_env_u {A} (m : M os A) :
  preserves same_env m → preserves same_env_u (zoom (S := pmiu) m).
Proof. intros H. eapply (preserves_zoom_rel (S := pmiu)); [exact H|done]. Qed.
#[export] Hint Resolve zoom_env_u : preserves.

Lemma getc_env fd : preserves same_env_u (PMIU_getc fd).
Proof. unfold PMIU_getc. preserve. Qed.
#[export] Hint Resolve getc_env : preserves.
Lemma readline2_env fd n : preserves same_env_u (PMI2U_readline fd n).
Proof.
  unfold PMI2U_readline. generalize (@nil char). induction (Z.to_nat (n - 1)) as [|k IH];
    intros acc; cbn [readline_loop]; preserve.
Qed.
Lemma writeline2_env fd buf : preserves same_env_u (PMI2U_writeline fd buf).
Proof. unfold PMI2U_writeline. preserve. Qed.
Lemma getval2_env k n : preserves same_env_u (PMI2U_getval k n).
Proof. unfold PMI2U_getval, strncpy_text. preserve. Qed.
Lemma parse2_env st : preserves same_env_u (PMI2U_parse_keyvals st).
Proof. intros s. unfold PMI2U_parse_keyvals. by destruct (parse_loop _ _ _) as [[]| | |]. Qed.
#[export] Hint Resolve readline2_env writeline2_env getval2_env parse2_env : preserves.

Lemma util_rank {A} (m : M pmiu A) : preserves same_env_u m → preserves same_rank (util m).
Proof. intros H. eapply (preserves_zoom_rel (S := pmi2)); [exact H|done]. Qed.
Lemma sys_rank {A} (m : M os A) : preserves same_env m → preserves same_rank (sys m).
Proof.
  intros H. eapply (preserves_zoom_rel (S := pmi2)); [by apply zoom_env_u|done].
Qed.
Lemma queue_rank {A} (m : M pendingq A) : preserves same_rank (queue m).
Proof. by apply (preserves_zoom (S := pmi2)). Qed.
Lemma getenv_env name : preserves same_env (getenv name).
Proof. done. Qed.
#[export] Hint Resolve util_rank sys_rank queue_rank getenv_env : preserves.

Lemma write_rank fd resp cmd l : preserves same_rank (PMIi_WriteSimpleCommand fd resp cmd l).
Proof. unfold PMIi_WriteSimpleCommand. preserve. Qed.
Lemma read_rank fd : preserves same_rank (PMIi_ReadCommand fd).
Proof. unfold PMIi_ReadCommand. preserve. Qed.
#[export] Hint Resolve write_rank read_rank : preserves.
Lemma read_exp_rank fd exp : preserves same_rank (PMIi_ReadCommandExp fd exp).
Proof. unfold PMIi_ReadCommandExp. preserve. Qed.
Lemma init_pmi1_rank : preserves same_rank init_pmi1.
Proof. unfold init_pmi1. preserve. Qed.
Lemma fullinit_lookups_rank l : preserves same_rank (fullinit_lookups l).
Proof. unfold fullinit_lookups. preserve. Qed.
Lemma free_rank c : preserves same_rank (free_command c).
Proof. unfold free_command. preserve. Qed.
#[export] Hint Resolve read_exp_rank init_pmi1_rank fullinit_lookups_rank free_rank : preserves.

Lemma getenv_opt_eq s name : getenv_opt name s = (Done (os_env (os_of s) !! name), s).
Proof. by destruct s as [[] ? ? ? ? ? ? ? ?]. Qed.

Lemma returns_preserves2 {A} (R : pmi2 → pmi2 → Prop) (m : M pmi2 A) s Q :
  preserves R m → (∀ a s', R s s' → Q a s') → returns m s Q.
Proof. intros Hm HQ a s' E. apply HQ. specialize (Hm s). by rewrite E in Hm. Qed.

Lemma fullinit_pairs_id s id :
  os_env (os_of s) !! "PMI_ID"%string = Some id → ∃ l, fullinit_pairs s = (Done l, s).
Proof.
  intros H. unfold fullinit_pairs. rewrite (bind_done _ _ _ _ _ (getenv_opt_eq _ _)).
  rewrite (bind_done _ _ _ _ _ (getenv_opt_eq _ _)), H. by eexists.
Qed.

Lemma init_pmi2_rank s id :
  os_env (os_of s) !! "PMI_ID"%string = Some id → same_rank s (init_pmi2 s).2.
Proof.
  intros H. unfold init_pmi2. erewrite bind_done by reflexivity.
  destruct (fullinit_pairs_id s id H) as (l & E). rewrite (bind_done _ _ _ _ _ E).
  clear E H. generalize (PMI2_fd s) as fd. intros fd. revert s.
  change (preserves same_rank (e ← PMIi_WriteSimpleCommand fd 0 (L "fullinit") l;
    if e <>z 0 then mret (e, no_out)
    else
      '(e, c, rc) ← PMIi_ReadCommandExp fd "fullinit-response";
      if e <>z 0 then mret (e, no_out)
      else if rc <>z 0 then mret (PMI2_ERR_OTHER, no_out)
      else
        '(e, out) ← fullinit_lookups (match c with Some c => pairs c | None => [] end);
        if e <>z 0 then mret (e, out)
        else free_command c;; mret (PMI2_SUCCESS, out))).
  preserve.
Qed.

(** The rank the library remembers is not the rank of the job: when the
    launcher identifies the process by [PMI_ID], a run of [PMI2_Init] that
    returns leaves the static rank as it was, whatever rank the process manager
    announced, so [PMI2_Job_GetRank] answers 0 in every process. *)
Theorem PMI2_Init_rank (s : pmi2) (fd id : cstr)
    (Hfd : os_env (os_of s) !! "PMI_FD"%string = Some fd) (Hok : atoi fd ≠ -1)
    (Hid : os_env (os_of s) !! "PMI_ID"%string = Some id) (Hr : PMI2_rank s = 0) :
  returns PMI2_Init s (λ _ s', PMI2_Job_GetRank s' = (Done (PMI2_SUCCESS, 0), s')).
Proof.
  assert (∀ s', PMI2_rank s' = 0 → PMI2_Job_GetRank s' = (Done (PMI2_SUCCESS, 0), s')) as Hget.
  { intros s' H. unfold PMI2_Job_GetRank. erewrite bind_done by reflexivity. by rewrite H. }
  assert (returns PMI2_Init s (λ _ s', PMI2_rank s' = 0)) as Hall.
  2:{ intros r s' E. apply Hget. by apply (Hall r s' E). }
  unfold PMI2_Init. apply returns_bind. intros p s1 E1. rewrite getenv_opt_eq in E1.
  injection E1 as <- <-. apply returns_bind.
  eapply (returns_preserves2 same_rank).
  { destruct (_ !! _); preserve. }
  intros _ s1 [R1 V1]. unfold same_env in V1. apply returns_bind. intros e s2 E2.
  unfold getPMIFD in E2. erewrite bind_done in E2 by reflexivity.
  rewrite (bind_done _ _ _ _ _ (getenv_opt_eq _ _)) in E2.
  change (os_of (set_PMI2_fd (-1) s1)) with (os_of s1) in E2. rewrite V1, Hfd in E2.
  injection E2 as <- <-. change (PMI2_SUCCESS <>z 0) with false. cbv iota.
  apply returns_bind. intros ? ? E3. injection E3 as <- <-. cbn [PMI2_fd set_PMI2_fd].
  destruct (Z.eqb_spec (atoi fd) (-1)); [done|]. apply returns_bind.
  eapply (returns_preserves2 same_rank); [preserve|]. intros e s4 [R4 V4].
  destruct (e <>z 0); [intros ? ? E; injection E as _ <-; rewrite R4; simpl; congruence|].
  apply returns_bind. intros r s5 E5.
  assert (same_rank s4 s5) as [R5 _].
  { pose proof (init_pmi2_rank s4 id) as H. rewrite E5 in H. apply H.
    unfold same_env in V4. rewrite V4.
    change (os_env (os_of s1) !! "PMI_ID"%string = Some id). by rewrite V1. }
  assert (PMI2_rank s5 = 0) as R6 by (rewrite R5, R4; simpl; congruence).
  destruct r as [e' out]. destruct (e' <>z 0); [intros ? ? E; by injection E as _ <-|].
  apply returns_bind. intros ? ? E. injection E as <- <-. apply returns_bind.
  eapply (returns_preserves2 same_rank); [preserve|]. intros ? s6 [R7 _] ? ? E.
  injection E as _ <-. congruence.
Qed.

(** ** Integer arrays *)

Abbreviation int_list zs := (join_on ","%char (show_int <$> zs)).

Lemma after_commas_app x s :
  Forall (λ c, c ≠ ","%char) x → after_commas (x ++ ","%char :: s) = s :: after_commas s.
Proof.
  induction 1 as [|c x Hc _ IH]; simpl; [done|]. by rewrite char_eqb_ne.
Qed.

Lemma after_commas_clean x : Forall (λ c, c ≠ ","%char) x → after_commas x = [].
Proof. induction 1 as [|c x Hc _ IH]; simpl; [done|]. by rewrite char_eqb_ne. Qed.

Lemma int_list_cons z z' zs : int_list (z :: z' :: zs) = show_int z ++ ","%char :: int_list (z' :: zs).
Proof. done. Qed.

Lemma sscanf_int_list z zs : is_int z → sscanf_d (int_list (z :: zs)) = Some z.
Proof.
  intros Hz. destruct zs as [|z' zs].
  - cbn [fmap list_fmap join_on]. rewrite <-(app_nil_r (show_int z)). by apply sscanf_d_show_int.
  - rewrite int_list_cons. by apply sscanf_d_show_int.
Qed.

Lemma int_loop_list zs z i n array :
  Forall is_int zs → (i ≤ length array)%nat → n ≤ Z.of_nat (length array) →
  let k := (length zs `min` (Z.to_nat n - i))%nat in
  int_loop (after_commas (int_list (z :: zs))) i n array =
  Some (take i array ++ take k zs ++ drop (i + k) array, (i + k)%nat, true).
Proof.
  intros Hzs. revert z i array. induction Hzs as [|z' zs Hz' Hzs IH]; intros z i array Hi Hn.
  - cbv zeta. cbn [fmap list_fmap join_on length].
    rewrite after_commas_clean by apply show_int_no_comma. simpl.
    by rewrite Nat.add_0_r, take_drop.
  - cbv zeta. rewrite int_list_cons, after_commas_app by apply show_int_no_comma.
    cbn [int_loop length]. destruct (Z.ltb_spec (Z.of_nat i) n) as [Hlt|Hge].
    + rewrite sscanf_int_list by done. destruct (Nat.ltb_spec i (length array)); [|lia].
      cbv zeta in IH. rewrite IH by (rewrite length_insert; lia).
      replace (S (length zs) `min` (Z.to_nat n - i))%nat
        with (S (length zs `min` (Z.to_nat n - S i))) by lia.
      set (k := (length zs `min` (Z.to_nat n - S i))%nat). cbn [take].
      replace (i + S k)%nat with (S i + k)%nat by lia. do 3 f_equal.
      rewrite insert_take_drop by done.
      rewrite take_app_ge by (rewrite length_take; lia).
      rewrite length_take, Nat.min_l by lia. replace (S i - i)%nat with 1%nat by lia.
      rewrite drop_app_ge by (rewrite length_take; lia).
      rewrite length_take, Nat.min_l by lia.
      replace (S i + k - i)%nat with (S k) by lia. cbn [take drop].
      rewrite drop_drop, <-(assoc_L app). cbn [app]. done.
    + replace (S (length zs) `min` (Z.to_nat n - i))%nat with 0%nat by lia.
      rewrite Nat.add_0_r. cbn [take app]. by rewrite take_drop.
Qed.

Lemma int_list_no_nul zs : no_nul (int_list zs).
Proof.
  assert (∀ z, no_nul (show_int z)) as Hz.
  { intros z. eapply Forall_impl; [apply show_int_plain|].
    intros c [H| ->]; [by apply plain_no_nul|done]. }
  induction zs as [|z zs IH]; [constructor|]. destruct zs as [|z' zs]; [apply Hz|].
  rewrite int_list_cons. apply Forall_app_2; [apply Hz|]. by constructor.
Qed.

(** An integer-array attribute: the decimal numbers of the value, between
    commas, are stored from the start of the caller's array, at least one and
    at most [arraylen] of them; [*outlen] is their number and the rest of the
    array is left alone. *)
Theorem int_array_roundtrip (s : pmi2) (l : list kvpair) (zs array : list Z) (arraylen : Z)
    (Hf : bool_field l "found" = Found 1) (Hv : text_field l "value" = Some (int_list zs))
    (Hne : zs ≠ []) (Hint : Forall is_int zs)
    (Hlen : 0 < Z.of_nat (length array)) (Harr : arraylen ≤ Z.of_nat (length array)) :
  let k := (length zs `min` Z.to_nat (Z.max 1 arraylen))%nat in
  int_array_body array arraylen (Some <$> l) s =
  (Done (PMI2_SUCCESS, (take k zs ++ drop k array, Some (Z.of_nat k), Some 1)), s).
Proof.
  cbv zeta. unfold int_array_body. rewrite getvalbool_field, Hf.
  erewrite bind_done by reflexivity. cbv beta iota. change (1 =? 0) with false. cbv iota.
  rewrite getval_field, Hv. erewrite bind_done by reflexivity. cbv beta iota zeta.
  rewrite c_text_no_nul by apply int_list_no_nul.
  destruct zs as [|z zs]; [done|]. apply Forall_cons in Hint as [Hz Hzs].
  rewrite sscanf_int_list by done. destruct array as [|a array]; [simpl in Hlen; lia|].
  cbn [length Nat.ltb Nat.leb]. rewrite int_loop_list; [|done|simpl; lia|simpl in *; lia].
  erewrite bind_done by reflexivity. cbv beta iota.
  replace (S (length zs) `min` Z.to_nat (Z.max 1 arraylen))%nat
    with (S (length zs `min` (Z.to_nat arraylen - 1))) by lia.
  reflexivity.
Qed.

(** ** Spawning *)

(** The codes a spawn reports do not come from its answer: they are
    looked up in the table of the opening handshake, which has none, so a spawn
    that is answered reports success for every process, whatever return code
    and error codes the answer carries. *)
Theorem PMI2_Job_Spawn_errcodes (s : pmi2) (cs : list spawn2_cmd) (info : bool)
    (preput : list keyval) (errors : list Z) (l : list kvpair) (rest : cstr) (rc : Z)
    (Ha : answers s "spawn-response" l rest) (Hd : PMI2_debug s = 0)
    (Hf : body_fits (L "spawn") (spawn_pairs cs info preput))
    (Hrc : int_field l "rc" = Found rc)
    (Htab : tab_find (L "errcodes") (u_tab (p2_u s)) = None)
    (Hsum : sums_fit 0 (s2_maxprocs <$> cs))
    (Hlen : (Z.to_nat (foldr Z.add 0%Z (s2_maxprocs <$> cs)) ≤ length errors)%nat) :
  let total := Z.to_nat (foldr Z.add 0 (s2_maxprocs <$> cs)) in
  ∃ s', PMI2_Job_Spawn cs info preput false 0 errors s =
    (Done (PMI2_SUCCESS, None, replicate total 0 ++ drop total errors), s').
Proof.
  cbv zeta. destruct (write_ok s (p2_cmd s) (L "spawn") _ _ (an_stream _ _ _ _ Ha) Hd Hf)
    as (o1 & E1 & S1 & T1).
  assert (answers (with_os o1 s) "spawn-response" l rest) as Ha1 by (split; [exact S1|apply Ha..]).
  destruct (read_exp_ok (with_os o1 s) _ l rest rc Ha1 Hrc) as (o2 & E2 & S2 & T2).
  exists (with_os o2 s). unfold PMI2_Job_Spawn. erewrite bind_done by reflexivity.
  rewrite (bind_done _ _ _ _ _ (int_sum_ok 0 _ s Hsum)), Z.add_0_l.
  rewrite (bind_done _ _ _ _ _ E1). change (PMI2_SUCCESS <>z 0) with false. cbv iota.
  change (PMI2_fd s) with (PMI2_fd (with_os o1 s)).
  rewrite (bind_done _ _ _ _ _ E2). cbv beta iota.
  change (PMI2_SUCCESS <>z 0) with false. cbv iota. rewrite with_os_twice. cbn [andb].
  erewrite bind_done by reflexivity. cbv beta iota.
  assert (util (PMI2U_getval (L "errcodes") PMI2_MAXLINE) (with_os o2 s)
          = (Done (false, Some []), with_os o2 s)) as Eg.
  { unfold util, zoom, PMI2U_getval. cbn [lget pmi2_pmiu].
    erewrite bind_done by reflexivity. cbn [u_tab p2_u with_os set_p2_u set_u_os].
    rewrite Htab. by destruct s. }
  unfold spawn_errcodes. rewrite bind_assoc, (bind_done _ _ _ _ _ Eg). cbv beta iota zeta.
  rewrite store_codes_eq, length_replicate, decide_True by (right; simpl; lia).
  erewrite bind_done by reflexivity. cbn [take app Nat.add].
  unfold free_command. cbn [pairs]. rewrite freepairs_ok. by erewrite bind_done by reflexivity.
Qed.

(** ** What a response may look like *)

(** The check of a response's name is a comparison of a prefix, on bytes
    without a terminator: it accepts every name that begins with the expected
    one, and a name that is a proper prefix of the expected one is read past
    its end. *)
Theorem command_is_spec (name exp : cstr) :
  (command_is name exp = Some true ↔ exp `prefix_of` name) ∧
  (command_is name exp = None ↔ name `prefix_of` exp ∧ name ≠ exp).
Proof.
  revert name. induction exp as [|e exp IH]; intros name; simpl.
  - split; [split; [intros _; apply prefix_nil|done]|]. split; [by destruct name|].
    intros [Hp%prefix_nil_inv Hne]. done.
  - destruct name as [|c name].
    + split; split; [done|by intros ?%prefix_nil_not| |done]. intros _.
      split; [apply prefix_nil|done].
    + destruct (Ascii.eqb_spec c e) as [->|Hne].
      * destruct (IH name) as [IH1 IH2]. split.
        { rewrite IH1. split; [apply prefix_cons|apply prefix_cons_inv_2]. }
        rewrite IH2. split.
        { intros [Hp Hne]. split; [by apply prefix_cons|congruence]. }
        intros [Hp%prefix_cons_inv_2 Hne]. split; [done|congruence].
      * split; split; [done| |done|].
        { intros ?%prefix_cons_inv_1. congruence. }
        intros [?%prefix_cons_inv_1 _]. congruence.
Qed.

(** ** The properties at concrete inputs *)

Definition demo_pmi2 (env : gmap string cstr) (evs : list in_event) : pmi2 :=
  Pmi2 (PMIU (OS env {[ 5 := Conn evs [] [] ]} demo_net) [] [] (-1) (L "unset"))
    NORMAL_INIT_WITH_PM 0 5 4 0 false pq_empty 4096.

Definition arrives (exp : string) (l : list kvpair) : list in_event :=
  [InData (take 4 (frame_text (L exp) l)); InIntr; InData (drop 4 (frame_text (L exp) l))].

Lemma demo_answers env exp l :
  cmd_ok (L exp) → Forall pair_ok l → body_fits (L exp) l →
  getval (Some <$> l) (L "thrid") = Done None →
  data_of (arrives exp l) = frame_text (L exp) l →
  answers (demo_pmi2 env (arrives exp l)) exp l [].
Proof.
  intros H1 H2 H3 H4 H5. split; [|done..].
  exists (Conn (arrives exp l) [] []). rewrite app_nil_r.
  split_and!; [unfold os_of; simpl; by rewrite lookup_singleton_eq|done|done].
Qed.

Ltac demo_answer := apply demo_answers;
  [by apply (bool_decide_unpack _)|by apply (bool_decide_unpack _)|
   by apply (bool_decide_unpack _)|vm_compute; reflexivity|vm_compute; reflexivity].



Definition demo_put_answer : list kvpair := [(L "rc", L "17"); (L "errmsg", L "duplicate")].

Lemma PMI2_KVS_Put_spec_witness :
  ∃ s', PMI2_KVS_Put (L "addr") (L "card0;42")
          (demo_pmi2 ∅ (arrives "kvs-put-response" demo_put_answer))
        = (Done 14, s') ∧
    exchanged "kvs-put" (put_args (L "addr") (L "card0;42")) []
      (demo_pmi2 ∅ (arrives "kvs-put-response" demo_put_answer)) s'.
Proof.
  apply (PMI2_KVS_Put_spec (demo_pmi2 ∅ (arrives "kvs-put-response" demo_put_answer))
           (L "addr") (L "card0;42") demo_put_answer [] 17).
  - demo_answer.
  - reflexivity.
  - reflexivity.
  - by apply (bool_decide_unpack _).
  - vm_compute. reflexivity.
Defined.

Lemma pmi2_mutex_free_witness :
  returns (foldr (λ c m, run2 c;; m) (mret tt)
             [C2Put (L "addr") (L "card0"); C2Fence; C2Get None (-1) (L "addr") 255])
    (demo_pmi2 ∅ [InData (L "zz"); InEof]) (λ _ s', pmi2_mutex s' = false).
Proof. apply pmi2_mutex_free. reflexivity. Defined.

Definition demo_init_env : gmap string cstr :=
  <["PMI_FD"%string := L "5"]> {["PMI_ID"%string := L "3"]}.
Definition demo_full_answer : list kvpair :=
  [(L "rc", L "0"); (L "pmi-version", L "2"); (L "pmi-subversion", L "0"); (L "rank", L "3");
   (L "size", L "4"); (L "appnum", L "0")].
Definition demo_init : pmi2 :=
  set_PMI2_initialized PMI2_UNINITIALIZED (demo_pmi2 demo_init_env
    [InData (format_kvs [(L "cmd", L "response_to_init"); (L "rc", L "0")]);
     InData (frame_text (L "fullinit-response") demo_full_answer)]).

(** The run: [*rank] is 3, [PMI2_Job_GetRank] says 0. *)
Lemma PMI2_Init_rank_witness :
  returns PMI2_Init demo_init (λ _ s', PMI2_Job_GetRank s' = (Done (PMI2_SUCCESS, 0), s')) ∧
  (PMI2_Init demo_init).1
  = Done (PMI2_SUCCESS, Init2Out (Some 0) (Some 4) (Some 3) (Some 0)).
Proof.
  split.
  - apply (PMI2_Init_rank demo_init (L "5") (L "3"));
      [vm_compute; reflexivity|vm_compute; lia|vm_compute; reflexivity|reflexivity].
  - vm_compute. reflexivity.
Defined.

Definition demo_array_answer : list kvpair :=
  [(L "rc", L "0"); (L "found", L "TRUE"); (L "value", L "0,-1,25")].

Lemma int_array_roundtrip_witness :
  int_array_body [7; 7; 7; 7] 2 (Some <$> demo_array_answer) (demo_pmi2 ∅ [])
  = (Done (PMI2_SUCCESS, ([0; -1; 7; 7], Some 2, Some 1)), demo_pmi2 ∅ []).
Proof.
  apply (int_array_roundtrip (demo_pmi2 ∅ []) demo_array_answer [0; -1; 25] [7; 7; 7; 7] 2).
  - vm_compute. reflexivity.
  - vm_compute. reflexivity.
  - done.
  - repeat constructor; unfold int_min, int_max; lia.
  - vm_compute. reflexivity.
  - vm_compute. discriminate.
Defined.

Definition demo_spawn_cmds : list spawn2_cmd := [Spawn2Cmd (L "a.out") [L "-v"] 2 []].
Definition demo_spawn_answer : list kvpair :=
  [(L "rc", L "1"); (L "errcodes", L "5,6"); (L "jobid", L "job7")].

Lemma PMI2_Job_Spawn_errcodes_witness :
  ∃ s', PMI2_Job_Spawn demo_spawn_cmds false [] false 0 [9; 9; 9]
          (demo_pmi2 ∅ (arrives "spawn-response" demo_spawn_answer))
        = (Done (PMI2_SUCCESS, None, [0; 0; 9]), s').
Proof.
  apply (PMI2_Job_Spawn_errcodes (demo_pmi2 ∅ (arrives "spawn-response" demo_spawn_answer))
           demo_spawn_cmds false [] [9; 9; 9] demo_spawn_answer [] 1).
  - demo_answer.
  - reflexivity.
  - by apply (bool_decide_unpack _).
  - vm_compute. reflexivity.
  - reflexivity.
  - repeat split; vm_compute; discriminate.
  - vm_compute. lia.
Defined.
