(* ===== verification/Pmi2Mem.v ===== *)
(** * The memory of the commands of PMI-2 (pmi2_api.c)

    [Pmi2Wire] takes the pairs of a command as values.  Here they are what the
    C code makes of them: an array of pointers to structures that point to two
    strings, made one allocation at a time and given back by [freepairs].  A
    block is a cell of the heap; which allocations succeed is a parameter. *)

From Stdlib Require Import ZifyBool.
From S2P Require Import Prelude CLib OS SafeStr PmiUtil ErrCodes Pmi2Wire Pmi2Util Pmi2Api.

Local Open Scope Z_scope.

(** ** The heap *)

(** [PMI2_Keyvalpair], with the addresses of its two strings. *)
Record kv_block := KvBlock { kv_key : Z; kv_value : Z; kv_valueLen : Z; kv_isCopy : bool }.

(** The contents of a block: characters, a pair or an array of pointers; [None]
    is what was never written. *)
Inductive cell :=
  | CStr (t : cstr)
  | CKv (kv : option kv_block)
  | CArr (ptrs : list (option Z)).

(** The blocks by their addresses, and the number of allocations so far. *)
Record pmem := Pmem { m_heap : gmap Z cell; m_time : nat }.

Definition set_m_heap (h : gmap Z cell) (s : pmem) : pmem := Pmem h (m_time s).

Section mem.
Context (allocates : nat → bool).

(** [malloc], with the contents the caller goes on to write: 0 is NULL. *)
Definition mem_malloc (c : cell) : M pmem Z :=
  s ← get;
  let p := Z.of_nat (S (m_time s)) in
  if allocates (m_time s) then modify (λ s, Pmem (<[p := c]> (m_heap s)) (S (m_time s)));; mret p
  else modify (λ s, Pmem (m_heap s) (S (m_time s)));; mret 0.

Definition mem_load (p : Z) : M pmem cell :=
  if p =? 0 then fault_ NullDeref
  else s ← get; or_fault UseAfterFree (m_heap s !! p).

Definition mem_store (p : Z) (c : cell) : M pmem () :=
  mem_load p;; modify (λ s, set_m_heap (<[p := c]> (m_heap s)) s).

(** [free]: of NULL it does nothing. *)
Definition mem_free (p : Z) : M pmem () :=
  if p =? 0 then mret tt
  else mem_load p;; modify (λ s, set_m_heap (delete p (m_heap s)) s).

(** Reading a block as what it is. *)
Definition load_str (p : Z) : M pmem cstr :=
  c ← mem_load p; match c with CStr t => mret t | _ => fault_ OutOfBounds end.
Definition load_kv (p : Z) : M pmem kv_block :=
  c ← mem_load p;
  match c with CKv (Some kv) => mret kv | CKv None => fault_ Uninitialised | _ => fault_ OutOfBounds end.
Definition load_arr (p : Z) : M pmem (list (option Z)) :=
  c ← mem_load p; match c with CArr l => mret l | _ => fault_ OutOfBounds end.

(** [a[i]] and [a[i] = p]. *)
Definition arr_get (a : Z) (i : nat) : M pmem Z :=
  l ← load_arr a;
  e ← or_fault OutOfBounds (l !! i);
  or_fault Uninitialised e.
Definition arr_set (a : Z) (i : nat) (p : Z) : M pmem () :=
  l ← load_arr a;
  if (length l <=? i)%nat then fault_ OutOfBounds else mem_store a (CArr (<[i := Some p]> l)).

(** ** Pairs *)

Definition init_kv_str (kv key val : Z) : M pmem () :=
  t ← load_str val;
  mem_store kv (CKv (Some (KvBlock key val (strlen t) false))).

(** The strings given are those of the caller; [strdup] copies them. *)
Definition init_kv_strdup (kv : Z) (key val : cstr) : M pmem () :=
  k ← mem_malloc (CStr key);
  v ← mem_malloc (CStr val);
  init_kv_str kv k v;;
  b ← load_kv kv;
  mem_store kv (CKv (Some (KvBlock (kv_key b) (kv_value b) (kv_valueLen b) true))).

(** [kv_int] and [kv_suffix] are the texts [snprintf] makes. *)
Definition init_kv_strdup_int (kv : Z) (key : string) (val : Z) : M pmem () :=
  let p := kv_int key val in init_kv_strdup kv p.1 p.2.

Definition init_kv_strdup_intsuffix (kv : Z) (key_prefix : string) (suffix : nat) (val : cstr) : M pmem () :=
  let p := kv_suffix key_prefix suffix val in init_kv_strdup kv p.1 p.2.

(** [create_keyval]: the code, and the pointer it stores.  The macro that tests
    an allocation leaves through [fn_exit], so what was allocated before stays. *)
Definition create_keyval (key val : cstr) : M pmem (Z * Z) :=
  kv ← mem_malloc (CKv None);
  if kv =? 0 then mret (PMI2_ERR_NOMEM, kv)
  else
    key_p ← mem_malloc (CStr key);
    if key_p =? 0 then mret (PMI2_ERR_NOMEM, kv)
    else
      value_p ← mem_malloc (CStr val);
      if value_p =? 0 then mret (PMI2_ERR_NOMEM, kv)
      else mem_store kv (CKv (Some (KvBlock key_p value_p (strlen val) true)));; mret (PMI2_SUCCESS, kv).

(** The loop of [freepairs], [k] entries being left from [i] on. *)
Fixpoint free_loop (ps : Z) (k i : nat) : M pmem () :=
  match k with
  | O => mret tt
  | S k =>
      p ← arr_get ps i;
      b ← load_kv p;
      (if kv_isCopy b then mem_free (kv_key b);; mem_free (kv_value b);; mem_free p else mret tt);;
      free_loop ps k (S i)
  end.

Definition mem_freepairs (ps : Z) (npairs : nat) : M pmem () :=
  if ps =? 0 then mret tt else free_loop ps npairs 0;; mem_free ps.

(** ** The command of [PMI2_Job_Spawn] *)

(** [total_pairs]. *)
Definition total_pairs (cs : list spawn2_cmd) (with_info : bool) (preput : list keyval) : nat :=
  2 + 3 * length cs + 2 * length preput +
  sum_list ((λ c, length (s2_args c) + (if with_info then 1 + 2 * length (s2_info c) else 0)) <$> cs)%nat.

(** [pairs_p[i] = malloc (sizeof (PMI2_Keyvalpair))] for [k] entries from [i] on. *)
Fixpoint alloc_loop (pairs_p : Z) (k i : nat) : M pmem () :=
  match k with
  | O => mret tt
  | S k => p ← mem_malloc (CKv None); arr_set pairs_p i p;; alloc_loop pairs_p k (S i)
  end.

(** The calls [init_kv_strdup... (pairs_p[npairs++], ...)] for the pairs [l], the
    first of them being number [npairs]; all three make copies of the two texts
    of a pair. *)
Fixpoint init_loop (pairs_p : Z) (l : list kvpair) (npairs : nat) : M pmem nat :=
  match l with
  | [] => mret npairs
  | (key, val) :: l =>
      kv ← arr_get pairs_p npairs;
      init_kv_strdup kv key val;;
      init_loop pairs_p l (S npairs)
  end.

(** The pairs of the command in memory: [pairs_p] and [npairs]. *)
Definition spawn_memory (cs : list spawn2_cmd) (with_info : bool) (preput : list keyval)
    : M pmem (Z * nat) :=
  let total := total_pairs cs with_info preput in
  pairs_p ← mem_malloc (CArr (replicate total None));
  alloc_loop pairs_p total 0;;
  npairs ← init_loop pairs_p (spawn_pairs cs with_info preput) 0;
  mret (pairs_p, npairs).

(** ** Reading a command *)

(** The loop that fills [pairs], as [parse_pairs]: the entries from [pair_index] on. *)
Fixpoint fill_pairs (fuel : nat) (ps : Z) (pair_index : nat) (s : cstr) : M pmem Z :=
  match fuel with
  | O => hang_
  | S fuel =>
      match s with
      | [] => mret PMI2_SUCCESS
      | _ =>
          match parse_keyval s with
          | None => mret PMI2_ERR_OTHER
          | Some (key, val, rest) =>
              '(pmi2_errno, pair_p) ← create_keyval key val;
              if pmi2_errno <>z 0 then mret pmi2_errno
              else arr_set ps pair_index pair_p;; fill_pairs fuel ps (S pair_index) rest
          end
      end
  end.

(** The body of a command, read into [cmd_buf]: the code, or [command], [pairs]
    and [nPairs].  The label [fn_fail] frees [cmd_buf]; a failed allocation
    leaves through [fn_exit], which frees nothing. *)
Definition mem_decode (body : cstr) : M pmem (Z + (Z * Z * nat)) :=
  cmd_buf ← mem_malloc (CStr body);
  if cmd_buf =? 0 then mret (inl PMI2_ERR_NOMEM)
  else
    let fn_fail e := mem_free cmd_buf;; mret (inl e) in
    let num_pairs := count_pairs body in
    match parse_keyval body with
    | None => fn_fail PMI2_ERR_OTHER
    | Some (key, val, rest) =>
        if negb (strn_eq key (L "cmd") (Z.to_nat PMI2_MAX_KEYLEN)) then fn_fail PMI2_ERR_OTHER
        else
          command ← mem_malloc (CStr val);
          if command =? 0 then mret (inl PMI2_ERR_NOMEM)
          else if (num_pairs =? 0)%nat then mret (inl PMI2_ERR_NOMEM)
          else
            let nPairs := (num_pairs - 1)%nat in
            ps ← mem_malloc (CArr (replicate nPairs None));
            if ps =? 0 then mret (inl PMI2_ERR_NOMEM)
            else
              e ← fill_pairs (S (length rest)) ps 0 rest;
              if e <>z 0 then fn_fail e
              else mem_free cmd_buf;; mret (inr (command, ps, nPairs))
    end.

(** [free (cmd.command); freepairs (cmd.pairs, cmd.nPairs)]. *)
Definition mem_free_command (command ps : Z) (nPairs : nat) : M pmem () :=
  mem_free command;; mem_freepairs ps nPairs.
End mem.

(** ** Ownership

    Since the heap was [h0] the blocks [L] have been allocated and not freed. *)
Record owns (h0 : gmap Z cell) (s : pmem) (L : list Z) : Prop := {
  ow_nodup : NoDup L;
  ow_new : ∀ p, p ∈ L → h0 !! p = None;
  ow_live : ∀ p, p ∈ L → is_Some (m_heap s !! p);
  ow_frame : ∀ p, p ∉ L → m_heap s !! p = h0 !! p;
  ow_range : ∀ p, is_Some (m_heap s !! p) → 0 < p ≤ Z.of_nat (m_time s) }.

(** The addresses of a heap are those of earlier allocations. *)
Definition mem_ok (s : pmem) : Prop := ∀ p, is_Some (m_heap s !! p) → 0 < p ≤ Z.of_nat (m_time s).

Lemma owns_start s : mem_ok s → owns (m_heap s) s [].
Proof. intros H. constructor; [constructor|by intros p Hp%elem_of_nil..|done|exact H]. Qed.

Lemma owns_end h0 s : owns h0 s [] → m_heap s = h0.
Proof. intros H. apply map_eq. intros p. apply (ow_frame _ _ _ H), not_elem_of_nil. Qed.

#[global] Instance owns_perm h0 s : Proper ((≡ₚ) ==> iff) (owns h0 s).
Proof.
  intros L L' HL. split; intros [H1 H2 H3 H4 H5]; constructor; try done.
  - by rewrite <-HL.
  - intros p. rewrite <-HL. apply H2.
  - intros p. rewrite <-HL. apply H3.
  - intros p. rewrite <-HL. apply H4.
  - by rewrite HL.
  - intros p. rewrite HL. apply H2.
  - intros p. rewrite HL. apply H3.
  - intros p. rewrite HL. apply H4.
Qed.

Lemma owns_ne h0 s L p : owns h0 s L → p ∈ L → p ≠ 0.
Proof. intros H Hp. pose proof (ow_range _ _ _ H p (ow_live _ _ _ H p Hp)). lia. Qed.

(** How an operation changes the heap: only at the blocks [P]. *)
Definition touches (P : list Z) (s s' : pmem) : Prop := ∀ p, p ∉ P → m_heap s' !! p = m_heap s !! p.

Lemma mem_load_ok h0 s L p c (Q : cell → pmem → Prop) :
  owns h0 s L → p ∈ L → m_heap s !! p = Some c → Q c s → total (mem_load p) s Q.
Proof.
  intros H Hp E HQ. unfold mem_load. pose proof (owns_ne _ _ _ _ H Hp). destruct (Z.eqb_spec p 0); [done|].
  apply total_bind, total_get. rewrite E. by apply total_ret.
Qed.

Lemma mem_store_ok h0 s L p c (Q : () → pmem → Prop) :
  owns h0 s L → p ∈ L →
  (∀ s', owns h0 s' L → m_heap s' !! p = Some c → touches [p] s s' → Q tt s') → total (mem_store p c) s Q.
Proof.
  intros H Hp HQ. unfold mem_store. apply total_bind.
  destruct (ow_live _ _ _ H p Hp) as [c0 E]. eapply mem_load_ok; [done..|]. apply total_modify, HQ.
  - destruct H as [H1 H2 H3 H4 H5]. constructor; [done|done|..]; cbn [m_heap m_time set_m_heap].
    + intros q Hq. destruct (decide (q = p)) as [->|]; [by rewrite lookup_insert_eq|].
      rewrite lookup_insert_ne by done. by apply H3.
    + intros q Hq. rewrite lookup_insert_ne by (by intros ->). by apply H4.
    + intros q. destruct (decide (q = p)) as [->|]; [intros _; apply H5, H3, Hp|].
      rewrite lookup_insert_ne by done. apply H5.
  - cbn. apply lookup_insert_eq.
  - intros q Hq. cbn. apply lookup_insert_ne. intros ->. apply Hq. by left.
Qed.

Lemma mem_free_ok h0 s L p (Q : () → pmem → Prop) :
  owns h0 s (p :: L) → (∀ s', owns h0 s' L → touches [p] s s' → Q tt s') → total (mem_free p) s Q.
Proof.
  intros H HQ. unfold mem_free. assert (p ∈ p :: L) as Hp by by left.
  pose proof (owns_ne _ _ _ _ H Hp). destruct (Z.eqb_spec p 0); [done|]. apply total_bind.
  destruct (ow_live _ _ _ H p Hp) as [c0 E]. eapply mem_load_ok; [done..|]. apply total_modify, HQ.
  - destruct H as [[Hpn H1]%NoDup_cons H2 H3 H4 H5].
    constructor; [done|intros q Hq; apply H2; by right|..]; cbn [m_heap m_time set_m_heap].
    + intros q Hq. rewrite lookup_delete_ne by (by intros ->). apply H3. by right.
    + intros q Hq. destruct (decide (q = p)) as [->|Hne].
      * rewrite lookup_delete_eq. symmetry. by apply H2.
      * rewrite lookup_delete_ne by done. apply H4. by intros [?|?]%elem_of_cons.
    + intros q [c Hc]. apply lookup_delete_Some in Hc as [_ Hc]. by apply H5.
  - intros q Hq. cbn. apply lookup_delete_ne. intros ->. apply Hq. by left.
Qed.

(** *** Arrays and pairs *)

Lemma arr_get_ok h0 s L a l i p (Q : Z → pmem → Prop) :
  owns h0 s L → a ∈ L → m_heap s !! a = Some (CArr l) → l !! i = Some (Some p) → Q p s →
  total (arr_get a i) s Q.
Proof.
  intros H Ha E El HQ. unfold arr_get, load_arr. apply total_bind, total_bind. eapply mem_load_ok; [done..|].
  apply total_ret. apply total_bind. rewrite El. apply total_ret. by apply total_ret.
Qed.

Lemma load_kv_ok h0 s L p kv (Q : kv_block → pmem → Prop) :
  owns h0 s L → p ∈ L → m_heap s !! p = Some (CKv (Some kv)) → Q kv s → total (load_kv p) s Q.
Proof.
  intros H Hp E HQ. unfold load_kv. apply total_bind. eapply mem_load_ok; [done..|]. by apply total_ret.
Qed.

Lemma arr_set_ok h0 s L a l i p (Q : () → pmem → Prop) :
  owns h0 s L → a ∈ L → m_heap s !! a = Some (CArr l) → (i < length l)%nat →
  (∀ s', owns h0 s' L → m_heap s' !! a = Some (CArr (<[i := Some p]> l)) → touches [a] s s' → Q tt s') →
  total (arr_set a i p) s Q.
Proof.
  intros H Ha E Hi HQ. unfold arr_set, load_arr. apply total_bind, total_bind. eapply mem_load_ok; [done..|].
  apply total_ret. destruct (Nat.leb_spec (length l) i); [lia|]. by eapply mem_store_ok.
Qed.

(** The three blocks of a pair. *)
Record triple := Triple { t_kv : Z; t_key : Z; t_val : Z }.
Definition blocks (t : triple) : list Z := [t_kv t; t_key t; t_val t].
Definition ptrs (T : list triple) : list Z := T ≫= blocks.

Definition kv_at (h : gmap Z cell) (t : triple) (kv : kvpair) : Prop :=
  h !! t_kv t = Some (CKv (Some (KvBlock (t_key t) (t_val t) (strlen kv.2) true))) ∧
  h !! t_key t = Some (CStr kv.1) ∧ h !! t_val t = Some (CStr kv.2).
Abbreviation kvs_at h := (Forall2 (kv_at h)).

Lemma kvs_frame s s' P T l :
  kvs_at (m_heap s) T l → touches P s s' → (∀ p, p ∈ P → p ∉ ptrs T) → kvs_at (m_heap s') T l.
Proof.
  intros H Ht HP. assert (∀ p, p ∈ ptrs T → m_heap s' !! p = m_heap s !! p) as Hs.
  { intros p Hp. apply Ht. intros HpP. by apply (HP p). }
  clear Ht HP. induction H as [|t kv T l (H1 & H2 & H3) _ IH]; [done|].
  constructor; [|by apply IH; intros p Hp; apply Hs, elem_of_app; right].
  unfold kv_at. rewrite !Hs; [done|..]; apply elem_of_app; left; set_solver.
Qed.

Lemma touches_trans P P' s s' s'' : touches P s s' → touches P' s' s'' → touches (P ++ P') s s''.
Proof.
  intros H H' p Hp. apply not_elem_of_app in Hp as [Hp Hp']. by rewrite H', H.
Qed.
Lemma touches_weaken P P' s s' : touches P s s' → P ⊆ P' → touches P' s s'.
Proof. intros H HP p Hp. apply H. set_solver. Qed.

Section allocates.
Context (allocates : nat → bool) (Hall : ∀ n, allocates n = true).

Lemma mem_malloc_ok h0 s L c (Q : Z → pmem → Prop) :
  owns h0 s L →
  (∀ p s', p ≠ 0 → owns h0 s' (p :: L) → m_heap s' !! p = Some c → touches [p] s s' → Q p s') →
  total (mem_malloc allocates c) s Q.
Proof using Hall.
  intros [H1 H2 H3 H4 H5] HQ. unfold mem_malloc. apply total_bind, total_get. rewrite Hall.
  set (p := Z.of_nat (S (m_time s))). assert (m_heap s !! p = None) as Hp.
  { destruct (m_heap s !! p) eqn:E; [|done]. pose proof (H5 p ltac:(by eexists)). lia. }
  assert (p ∉ L) as HpL by (intros Hin; destruct (H3 p Hin) as [? E]; congruence).
  apply total_bind, total_modify, total_ret, HQ; [lia| |cbn; apply lookup_insert_eq|].
  - constructor; cbn [m_heap m_time].
    + by constructor.
    + intros q [->|Hq]%elem_of_cons; [|by apply H2]. by rewrite <-H4.
    + intros q [->|Hq]%elem_of_cons; [by rewrite lookup_insert_eq|].
      rewrite lookup_insert_ne by (by intros ->). by apply H3.
    + intros q Hq. apply not_elem_of_cons in Hq as [Hne Hq]. rewrite lookup_insert_ne by done. by apply H4.
    + intros q. destruct (decide (q = p)) as [->|]; [lia|]. rewrite lookup_insert_ne by done.
      intros Hq. pose proof (H5 q Hq). lia.
  - intros q Hq. cbn. apply lookup_insert_ne. intros ->. apply Hq. by left.
Qed.

Lemma create_keyval_ok h0 s L key val (Q : Z * Z → pmem → Prop) :
  owns h0 s L →
  (∀ t s', owns h0 s' (blocks t ++ L) → kv_at (m_heap s') t (key, val) → touches (blocks t) s s' →
     Q (PMI2_SUCCESS, t_kv t) s') →
  total (create_keyval allocates key val) s Q.
Proof using Hall.
  intros H HQ. unfold create_keyval. apply total_bind.
  eapply mem_malloc_ok; [exact H|]. intros kv s1 Hkv H1 _ F1. destruct (Z.eqb_spec kv 0); [done|].
  apply total_bind. eapply mem_malloc_ok; [exact H1|]. intros k s2 Hk H2 E2 F2. destruct (Z.eqb_spec k 0); [done|].
  apply total_bind. eapply mem_malloc_ok; [exact H2|]. intros v s3 Hv H3 E3 F3. destruct (Z.eqb_spec v 0); [done|].
  pose proof (ow_nodup _ _ _ H3) as Hnd. apply NoDup_cons in Hnd as [Hv1 [Hk1 _]%NoDup_cons].
  apply total_bind. eapply mem_store_ok; [exact H3|set_solver|]. intros s4 H4 E4 F4. apply total_ret.
  apply (HQ (Triple kv k v)).
  - rewrite (Permutation_app_comm (blocks _) L). cbn [blocks t_kv t_key t_val].
    eapply owns_perm; [|exact H4]. rewrite Permutation_app_comm. cbn [app].
    rewrite (Permutation_swap k v), (Permutation_swap kv v). by rewrite (Permutation_swap kv k).
  - unfold kv_at. cbn [t_kv t_key t_val fst snd]. split; [done|]. rewrite !F4 by set_solver.
    split; [|done]. rewrite F3 by set_solver. done.
  - intros p Hp. cbn [blocks t_kv t_key t_val] in Hp. rewrite F4, F3, F2, F1 by set_solver. done.
Qed.
End allocates.

(** ** Giving pairs back *)

Lemma free_loop_ok h0 ps T l ps0 s L (Q : () → pmem → Prop) :
  owns h0 s (ptrs T ++ ps :: L) → kvs_at (m_heap s) T l →
  m_heap s !! ps = Some (CArr (ps0 ++ (Some ∘ t_kv <$> T))) →
  (∀ s', owns h0 s' (ps :: L) → Q tt s') →
  total (free_loop ps (length T) (length ps0)) s Q.
Proof.
  revert l ps0 s. induction T as [|t T IH]; intros l ps0 s H Hl E HQ; cbn [length free_loop].
  { apply total_ret, HQ, H. }
  destruct l as [|kv l]; [by inversion Hl|]. apply Forall2_cons in Hl as [(K1 & K2 & K3) Hl].
  cbn [ptrs mbind list_bind] in H. rewrite <-(assoc_L app) in H.
  pose proof (ow_nodup _ _ _ H) as (_ & N & _)%NoDup_app.
  apply total_bind. eapply arr_get_ok; [exact H|clear; set_solver|exact E| |].
  { cbn [fmap list_fmap]. by apply list_lookup_middle. }
  apply total_bind. eapply load_kv_ok; [exact H|by left|exact K1|]. cbn [kv_isCopy kv_key kv_value].
  apply total_bind, total_bind.
  eapply mem_free_ok; [rewrite Permutation_swap; exact H|]. intros s1 H1 F1. apply total_bind.
  eapply mem_free_ok; [rewrite Permutation_swap; exact H1|]. intros s2 H2 F2.
  eapply mem_free_ok; [exact H2|]. intros s3 H3 F3.
  assert (touches (blocks t) s s3) as F.
  { eapply touches_weaken; [exact (touches_trans _ _ _ _ _ F1 (touches_trans _ _ _ _ _ F2 F3))|].
    clear. set_solver. }
  rewrite <-(Nat.add_1_r (length ps0)). change 1%nat with (length [Some (t_kv t)]). rewrite <-length_app.
  eapply (IH l); [exact H3| | |exact HQ].
  - eapply kvs_frame; [exact Hl|exact F|]. intros p Hp Hp'. apply (N p Hp), elem_of_app. by left.
  - rewrite F; [by rewrite E, <-(assoc_L app)|]. intros Hp. apply (N ps Hp), elem_of_app. right. by left.
Qed.

(** [freepairs] gives back the array and the three blocks of each of its pairs. *)
Lemma mem_freepairs_ok h0 ps T l s L (Q : () → pmem → Prop) :
  owns h0 s (ptrs T ++ ps :: L) → kvs_at (m_heap s) T l →
  m_heap s !! ps = Some (CArr (Some ∘ t_kv <$> T)) →
  (∀ s', owns h0 s' L → Q tt s') → total (mem_freepairs ps (length T)) s Q.
Proof.
  intros H Hl E HQ. unfold mem_freepairs. assert (ps ∈ ptrs T ++ ps :: L) as Hin by (clear; set_solver).
  pose proof (owns_ne _ _ _ _ H Hin). destruct (Z.eqb_spec ps 0); [done|]. apply total_bind.
  apply (free_loop_ok h0 ps T l [] s L); [done..|]. intros s1 H1.
  eapply mem_free_ok; [exact H1|]. intros s2 H2 _. by apply HQ.
Qed.

(** ** Reading a command *)

(** The entries of an array of [n], the first ones of which are filled. *)
Definition slots (T : list triple) (n : nat) : list (option Z) :=
  (Some ∘ t_kv <$> T) ++ replicate (n - length T) None.

Lemma slots_insert T n t :
  (length T < n)%nat → <[length T := Some (t_kv t)]> (slots T n) = slots (T ++ [t]) n.
Proof.
  intros Hn. unfold slots. replace (n - length T)%nat with (S (n - length (T ++ [t])))
    by (rewrite length_app; cbn; lia).
  rewrite fmap_app, insert_app_r_alt by (by rewrite length_fmap). rewrite length_fmap, Nat.sub_diag.
  cbn. by rewrite <-(assoc_L app).
Qed.

Lemma slots_length T n : (length T ≤ n)%nat → length (slots T n) = n.
Proof. intros H. unfold slots. rewrite length_app, length_fmap, length_replicate. lia. Qed.

Lemma ptrs_snoc T t : ptrs (T ++ [t]) = ptrs T ++ blocks t.
Proof. unfold ptrs. by rewrite bind_app. Qed.

Lemma ptrs_length T : length (ptrs T) = (3 * length T)%nat.
Proof. induction T as [|t T IH]; [done|]. unfold ptrs in *. cbn [mbind list_bind]. rewrite length_app, IH. cbn. lia. Qed.

(** The number of pairs that can be parsed. *)
Fixpoint parsed (fuel : nat) (s : cstr) : nat :=
  match fuel, s with
  | S fuel, _ :: _ => match parse_keyval s with Some (_, _, rest) => S (parsed fuel rest) | None => O end
  | _, _ => O
  end.

(** The blocks a command that cannot be decoded leaves behind: the name, the
    array and the pairs made before the first one in error. *)
Definition leaked (body : cstr) : nat :=
  match parse_keyval body with
  | None => 0
  | Some (key, _, rest) =>
      if negb (strn_eq key (L "cmd") (Z.to_nat PMI2_MAX_KEYLEN)) then 0
      else if (count_pairs body =? 0)%nat then 2
      else 2 + 3 * parsed (S (length rest)) rest
  end.

Section reading.
Context (allocates : nat → bool) (Hall : ∀ n, allocates n = true).

(** The pairs in memory while they are read: those of [l] are made, out of [n]. *)
Record reading h0 ps n L l T s : Prop := {
  rd_owns : owns h0 s (ptrs T ++ ps :: L);
  rd_arr : m_heap s !! ps = Some (CArr (slots T n));
  rd_kvs : kvs_at (m_heap s) T l }.

Lemma fill_pairs_ok fuel h0 ps n L l T str s :
  reading h0 ps n L l T s →
  match parse_pairs fuel n l str with
  | Done r => total (fill_pairs allocates fuel ps (length T) str) s (λ e s', ∃ l' T',
      reading h0 ps n L l' T' s' ∧ (∀ p, p ∈ L → m_heap s' !! p = m_heap s !! p) ∧ e = match r with inl e => e | inr _ => PMI2_SUCCESS end ∧
      length T' = (length T + parsed fuel str)%nat ∧
      match r with inl _ => True | inr l'' => l' = l'' end)
  | _ => True
  end.
Proof using Hall.
  revert l T str s. induction fuel as [|fuel IH]; intros l T str s R; cbn [parse_pairs fill_pairs parsed]; [done|].
  destruct str as [|c str]; [apply total_ret; by exists l, T|].
  destruct (parse_keyval (c :: str)) as [[[key val] rest]|]; [|apply total_ret; exists l, T; by rewrite Nat.add_0_r].
  destruct R as [Ro Ra Rk]. pose proof (Forall2_length _ _ _ Rk) as Hlen.
  destruct (Nat.leb_spec n (length l)); [done|].
  specialize (IH (l ++ [(key, val)])).
  destruct (parse_pairs fuel n (l ++ [(key, val)]) rest) as [r| | |] eqn:E; try done.
  apply total_bind. eapply create_keyval_ok; [exact Hall|exact Ro|]. intros t s1 O1 K1 F1.
  change (PMI2_SUCCESS <>z 0) with false. cbv iota.
  pose proof (ow_nodup _ _ _ O1) as (_ & N & _)%NoDup_app. apply total_bind.
  eapply arr_set_ok; [exact O1|clear; set_solver| | |].
  { rewrite F1; [exact Ra|]. intros Hp. apply (N ps Hp). clear; set_solver. }
  { rewrite slots_length; lia. }
  intros s2 O2 E2 F2. specialize (IH (T ++ [t]) rest s2). rewrite E, length_app, Nat.add_1_r in IH.
  eapply total_mono; [apply IH|].
  - constructor.
    + rewrite ptrs_snoc. eapply owns_perm; [|exact O2]. by rewrite (Permutation_app_comm (ptrs T)), <-(assoc_L app).
    + by rewrite E2, slots_insert by lia.
    + apply Forall2_app; [|constructor; [|done]].
      * eapply kvs_frame; [|exact F2|].
        -- eapply kvs_frame; [exact Rk|exact F1|]. intros p Hp Hp'. apply (N p Hp), elem_of_app. by left.
        -- intros p ->%list_elem_of_singleton Hp. pose proof (ow_nodup _ _ _ Ro) as (_ & N' & _)%NoDup_app.
           apply (N' _ Hp). by left.
      * destruct K1 as (K1 & K2 & K3). unfold kv_at.
        assert (∀ p, p ∈ blocks t → m_heap s2 !! p = m_heap s1 !! p) as Hs.
        { intros p Hp. apply F2. intros ->%list_elem_of_singleton. apply (N ps Hp). clear; set_solver. }
        by rewrite !Hs by (clear; cbn [blocks]; set_solver).
  - intros e s' (l' & T' & R' & F' & -> & Hn & Hr). exists l', T'. split; [done|]. split; [|split_and!; [done|lia|done]].
    intros p Hp. rewrite F' by done. rewrite F2, F1; [done|..].
    + intros Hp'. apply (N p Hp'), elem_of_app. right. by right.
    + intros ->%list_elem_of_singleton. pose proof (ow_nodup _ _ _ Ro) as (_ & _ & [Hps _]%NoDup_cons)%NoDup_app.
      done.
Qed.

(** A decoded command in memory. *)
Record in_memory (h0 : gmap Z cell) (s : pmem) (cmd : PMI2_Command) (c ps : Z) (nPairs : nat) : Prop := {
  im_count : nPairs = length (pairs cmd);
  im_blocks : ∃ T l, pairs cmd = (Some <$> l) ++ replicate (nPairs - length l) None ∧
    owns h0 s (c :: ps :: ptrs T) ∧ m_heap s !! c = Some (CStr (command cmd)) ∧
    m_heap s !! ps = Some (CArr (slots T nPairs)) ∧ kvs_at (m_heap s) T l }.

Lemma parse_pairs_bound fuel n l s l' :
  (length l ≤ n)%nat → parse_pairs fuel n l s = Done (inr l') → (length l' ≤ n)%nat.
Proof.
  revert l s. induction fuel as [|fuel IH]; intros l s Hl; cbn [parse_pairs]; [done|].
  destruct s as [|ch s]; [by intros [= <-]|]. destruct (parse_keyval _) as [[[key val] rest]|]; [|done].
  destruct (Nat.leb_spec n (length l)); [done|]. apply IH. rewrite length_app. cbn. lia.
Qed.

Lemma parse_pairs_error fuel n l s e : parse_pairs fuel n l s = Done (inl e) → e = PMI2_ERR_OTHER.
Proof.
  revert l s. induction fuel as [|fuel IH]; intros l s; cbn [parse_pairs]; [done|].
  destruct s as [|ch s]; [done|]. destruct (parse_keyval _) as [[[key val] rest]|]; [|by intros [= <-]].
  destruct (_ <=? _)%nat; [done|]. apply IH.
Qed.

(** What [mem_decode] has done when the decoder has ended with [d]. *)
Definition decoded (h0 : gmap Z cell) (k : nat) (d : Z + PMI2_Command) (r : Z + (Z * Z * nat)) (s' : pmem) : Prop :=
  match d, r with
  | inr cmd, inr (c, ps, nPairs) => in_memory h0 s' cmd c ps nPairs
  | inl e, inl e' => e' = e ∧ ∃ L, length L = k ∧ owns h0 s' L
  | _, _ => False
  end.

Lemma fn_fail_ok h0 s cb L e k :
  owns h0 s (cb :: L) → length L = k →
  total (mem_free cb;; mret (inl e)) s (decoded h0 k (inl e)).
Proof using.
  intros O Hk. apply total_bind. eapply mem_free_ok; [exact O|]. intros s' O' _. apply total_ret. cbn. eauto.
Qed.

(** The part of [mem_decode] behind the first pair, the command name being in [c]. *)
Lemma mem_pairs_ok h0 s cb c val rest n k :
  owns h0 s [c; cb] → m_heap s !! c = Some (CStr val) → k = (2 + 3 * parsed (S (length rest)) rest)%nat →
  match parse_pairs (S (length rest)) n [] rest with
  | Done r => total (
      ps ← mem_malloc allocates (CArr (replicate n None));
      if ps =? 0 then mret (inl PMI2_ERR_NOMEM)
      else
        e ← fill_pairs allocates (S (length rest)) ps 0 rest;
        if e <>z 0 then mem_free cb;; mret (inl e) else mem_free cb;; mret (inr (c, ps, n))) s
      (decoded h0 k (match r with
                     | inl e => inl e
                     | inr l => inr (Command val ((Some <$> l) ++ replicate (n - length l) None))
                     end))
  | _ => True
  end.
Proof using Hall.
  intros O Ec ->. destruct (parse_pairs _ n [] rest) as [r| | |] eqn:Er; try done.
  apply total_bind. eapply mem_malloc_ok; [exact Hall|exact O|]. intros ps s3 Hps O3 Eps F3.
  destruct (Z.eqb_spec ps 0); [done|].
  assert (reading h0 ps n [c; cb] [] [] s3) as R.
  { constructor; [exact O3| |done]. rewrite Eps. unfold slots. by rewrite Nat.sub_0_r. }
  pose proof (fill_pairs_ok (S (length rest)) h0 ps n [c; cb] [] [] rest s3 R) as Hfill.
  rewrite Er in Hfill. apply total_bind. eapply total_mono; [exact Hfill|].
  intros e s4 (l' & T' & [R1 R2 R3] & F4 & -> & Hn & Hr). 
  assert (ptrs T' ++ [ps; c; cb] ≡ₚ cb :: c :: ps :: ptrs T') as HP.
  { rewrite Permutation_app_comm. change (cb :: c :: ps :: ptrs T') with (rev [ps; c; cb] ++ ptrs T').
    apply Permutation_app_tail, Permutation_rev. }
  rewrite HP in R1. destruct r as [e|l].
  - rewrite (parse_pairs_error _ _ _ _ _ Er). change (PMI2_ERR_OTHER <>z 0) with true. cbv iota.
    eapply fn_fail_ok; [exact R1|]. cbn [length]. rewrite ptrs_length, Hn. done.
  - subst l'. change (PMI2_SUCCESS <>z 0) with false. cbv iota. apply total_bind.
    eapply mem_free_ok; [exact R1|]. intros s5 O5 F5. apply total_ret. cbn [decoded].
    assert (length l ≤ n)%nat as Hb by (eapply parse_pairs_bound; [|exact Er]; cbn; lia).
    pose proof (ow_nodup _ _ _ R1) as [Hcb Hnd]%NoDup_cons.
    constructor; [cbn [pairs]; rewrite length_app, length_fmap, length_replicate; lia|].
    exists T', l. split; [done|]. split; [exact O5|].
    assert (∀ p, p ∈ c :: ps :: ptrs T' → m_heap s5 !! p = m_heap s4 !! p) as Hsame.
    { intros p Hp. apply F5. by intros ->%list_elem_of_singleton. }
    split; [|split].
    + rewrite Hsame by by left. rewrite F4 by by left. rewrite F3; [exact Ec|].
      intros ->%list_elem_of_singleton. apply NoDup_cons in Hnd as [Hnd _]. apply Hnd. by left.
    + rewrite Hsame by (right; by left). done.
    + eapply kvs_frame; [exact R3|exact F5|]. intros p ->%list_elem_of_singleton Hp. apply Hcb. right. by right.
Qed.

Lemma mem_decode_ok body s :
  mem_ok s →
  match decode body with
  | Done r => total (mem_decode allocates body) s (decoded (m_heap s) (leaked body) r)
  | _ => True
  end.
Proof using Hall.
  intros Hs. pose proof (owns_start s Hs) as O. unfold decode, mem_decode, leaked.
  destruct (parse_keyval body) as [[[key val] rest]|] eqn:Ep.
  2:{ apply total_bind. eapply mem_malloc_ok; [exact Hall|exact O|].
      intros cb s1 Hcb O1 _ _. destruct (Z.eqb_spec cb 0); [done|]. by apply (fn_fail_ok _ _ _ []). }
  destruct (negb (strn_eq key _ _)) eqn:Ek.
  { apply total_bind. eapply mem_malloc_ok; [exact Hall|exact O|].
    intros cb s1 Hcb O1 _ _. destruct (Z.eqb_spec cb 0); [done|]. by apply (fn_fail_ok _ _ _ []). }
  destruct (count_pairs body =? 0)%nat eqn:En.
  { apply total_bind. eapply mem_malloc_ok; [exact Hall|exact O|].
    intros cb s1 Hcb O1 _ _. destruct (Z.eqb_spec cb 0); [done|]. apply total_bind.
    eapply mem_malloc_ok; [exact Hall|exact O1|]. intros c s2 Hc O2 _ _. destruct (Z.eqb_spec c 0); [done|].
    apply total_ret. split; [done|]. by exists [c; cb]. }
  destruct (parse_pairs _ _ [] rest) as [r| | |] eqn:Er; try done.
  assert (∀ cb c s2, owns (m_heap s) s2 [c; cb] → m_heap s2 !! c = Some (CStr val) → _) as Hp
    by exact (λ cb c s2 O2 E2, mem_pairs_ok (m_heap s) s2 cb c val rest (count_pairs body - 1) _ O2 E2 eq_refl).
  destruct r as [e|l]; apply total_bind; (eapply mem_malloc_ok; [exact Hall|exact O|]);
    intros cb s1 Hcb O1 _ _; (destruct (Z.eqb_spec cb 0); [done|]); apply total_bind;
    (eapply mem_malloc_ok; [exact Hall|exact O1|]); intros c s2 Hc O2 Ec _; (destruct (Z.eqb_spec c 0); [done|]);
    specialize (Hp cb c s2 O2 Ec); rewrite Er in Hp; exact Hp.
Qed.
End reading.

Lemma all_filled {A} (l : list A) n :
  Forall is_Some ((Some <$> l) ++ replicate (n - length l) None) → (n - length l = 0)%nat.
Proof.
  intros H%Forall_app. destruct H as [_ H]. destruct (n - length l)%nat; [done|].
  apply Forall_cons in H as [[? H] _]. done.
Qed.

Lemma in_memory_free h0 s cmd c ps nPairs :
  in_memory h0 s cmd c ps nPairs → Forall is_Some (pairs cmd) →
  total (mem_free_command c ps nPairs) s (λ _ s', m_heap s' = h0).
Proof.
  intros [Hn (T & l & Hp & O & _ & Ea & Hk)] Hf. rewrite Hp in Hf. apply all_filled in Hf.
  pose proof (Forall2_length _ _ _ Hk) as Hlen.
  assert (nPairs = length T) as HT.
  { rewrite Hp, length_app, length_fmap, length_replicate in Hn. lia. }
  unfold mem_free_command. apply total_bind. pose proof (ow_nodup _ _ _ O) as [Hc _]%NoDup_cons.
  eapply mem_free_ok; [exact O|]. intros s1 O1 F1. rewrite HT in *.
  eapply (mem_freepairs_ok h0 ps T l s1 []).
  - eapply owns_perm; [|exact O1]. by rewrite Permutation_app_comm.
  - eapply kvs_frame; [exact Hk|exact F1|]. intros p ->%list_elem_of_singleton Hin. apply Hc. by right.
  - rewrite F1; [|intros ->%list_elem_of_singleton; apply Hc; by left]. rewrite Ea. unfold slots.
    by rewrite Nat.sub_diag, app_nil_r.
  - intros s2 O2. by apply owns_end.
Qed.

(** C21: With memory, the decoder does in the heap what [decode] says of the text:
    it ends with the same result; a decoded command is in memory, an array of
    pointers to the pairs in their order and the name, nothing else having been
    added to the heap, and when every entry of the array was filled freeing the
    command leaves the heap as it was; a command in error leaves behind the name,
    the array and three blocks for each pair before the error. *)
Theorem mem_decode_refines (allocates : nat → bool) (body : cstr) (s : pmem)
    (Hall : ∀ n, allocates n = true) (Hs : mem_ok s) :
  ∃ r s', mem_decode allocates body s = (Done r, s') ∧
    match decode body, r with
    | Done (inr cmd), inr (c, ps, nPairs) =>
        in_memory (m_heap s) s' cmd c ps nPairs ∧
        (Forall is_Some (pairs cmd) →
         ∃ s'', mem_free_command c ps nPairs s' = (Done tt, s'') ∧ m_heap s'' = m_heap s)
    | Done (inl e), inl e' => e' = e ∧ ∃ L, length L = leaked body ∧ owns (m_heap s) s' L
    | _, _ => False
    end.
Proof.
  destruct (decode_safe body) as (d & Ed & _). pose proof (mem_decode_ok allocates Hall body s Hs) as H.
  rewrite Ed in *. destruct (total_done _ _ _ H) as (r & s' & E & Hd). exists r, s'. split; [exact E|].
  destruct d as [e|cmd], r as [e'|[[c ps] nPairs]]; try done. split; [exact Hd|]. intros Hf.
  destruct (total_done _ _ _ (in_memory_free _ _ _ _ _ _ Hd Hf)) as ([] & s'' & E' & Hh). by exists s''.
Qed.

(** ** The command of [PMI2_Job_Spawn] *)

Lemma length_concat_imap {A B} (f : nat → A → list B) k l :
  (∀ i x, length (f i x) = k) → length (concat (imap f l)) = (k * length l)%nat.
Proof.
  intros Hf. revert f Hf. induction l as [|x l IH]; intros f Hf; [cbn; lia|].
  cbn [imap concat length]. rewrite length_app, Hf. rewrite (IH (f ∘ S)) by (intros; apply Hf). lia.
Qed.

Lemma kv_pairs_length keys vals l : length (kv_pairs keys vals l) = (2 * length l)%nat.
Proof. by apply length_concat_imap. Qed.

(** The count made in advance is the number of pairs. *)
Lemma spawn_pairs_length cs with_info preput :
  length (spawn_pairs cs with_info preput) = total_pairs cs with_info preput.
Proof.
  unfold spawn_pairs, total_pairs. cbn [length]. rewrite length_app, kv_pairs_length.
  assert (length (concat ((λ c,
    (L "subcmd", s2_cmd c) :: kv_int "maxprocs" (s2_maxprocs c) ::
    kv_int "argc" (Z.of_nat (length (s2_args c))) :: imap (kv_suffix "argv") (s2_args c) ++
    (if with_info then kv_int "infokeycount" (Z.of_nat (length (s2_info c))) ::
       kv_pairs "infokey" "infoval" (s2_info c) else [])) <$> cs)) =
    3 * length cs + sum_list ((λ c, length (s2_args c) +
       (if with_info then 1 + 2 * length (s2_info c) else 0)) <$> cs))%nat as ->; [|lia].
  induction cs as [|c cs IH]; [done|]. cbn [fmap list_fmap concat length sum_list_with]. 
  rewrite length_app. cbn [length]. rewrite length_app, length_imap, IH.
  destruct with_info; cbn [length]; rewrite ?kv_pairs_length; unfold sum_list; cbn; lia.
Qed.

Section spawning.
Context (allocates : nat → bool) (Hall : ∀ n, allocates n = true).

Lemma alloc_loop_ok h0 ps n R s (Q : () → pmem → Prop) :
  owns h0 s (R ++ [ps]) → m_heap s !! ps = Some (CArr ((Some <$> R) ++ replicate n None)) →
  (∀ R' s', owns h0 s' (R' ++ [ps]) → m_heap s' !! ps = Some (CArr (Some <$> R')) →
     length R' = (length R + n)%nat → Q tt s') →
  total (alloc_loop allocates ps n (length R)) s Q.
Proof using Hall.
  revert R s. induction n as [|n IH]; intros R s O E HQ; cbn [alloc_loop].
  { apply total_ret, (HQ R); [done| |lia]. rewrite E. cbn. by rewrite app_nil_r. }
  apply total_bind. eapply mem_malloc_ok; [exact Hall|exact O|]. intros p s1 Hp O1 _ F1.
  pose proof (ow_nodup _ _ _ O1) as [Hnp _]%NoDup_cons. apply total_bind.
  eapply arr_set_ok; [exact O1|clear; set_solver| | |].
  { rewrite F1; [exact E|]. intros ->%list_elem_of_singleton. apply Hnp. clear; set_solver. }
  { rewrite length_app, length_fmap, length_replicate. lia. }
  intros s2 O2 E2 F2. rewrite <-(Nat.add_1_r (length R)). change 1%nat with (length [p]).
  rewrite <-length_app. apply IH.
  - eapply owns_perm; [|exact O2]. by rewrite (Permutation_app_comm R [p]), <-(assoc_L app).
  - rewrite E2. cbn [replicate]. rewrite insert_app_r_alt by (by rewrite length_fmap).
    rewrite length_fmap, Nat.sub_diag. cbn. by rewrite fmap_app, <-(assoc_L app).
  - intros R' s' O' E' HR. apply (HQ R'); [done..|]. rewrite HR, length_app. cbn. lia.
Qed.

Lemma init_kv_strdup_ok h0 s L kv key val (Q : () → pmem → Prop) :
  owns h0 s L → kv ∈ L →
  (∀ k v s', owns h0 s' (k :: v :: L) → kv_at (m_heap s') (Triple kv k v) (key, val) →
     touches [kv; k; v] s s' → Q tt s') →
  total (init_kv_strdup allocates kv key val) s Q.
Proof using Hall.
  intros O Hkv HQ. unfold init_kv_strdup. apply total_bind.
  eapply mem_malloc_ok; [exact Hall|exact O|]. intros k s1 _ O1 E1 F1. apply total_bind.
  eapply mem_malloc_ok; [exact Hall|exact O1|]. intros v s2 _ O2 E2 F2.
  pose proof (ow_nodup _ _ _ O2) as [Hv [Hk _]%NoDup_cons]%NoDup_cons.
  assert (k ≠ v) as Hkv1 by (intros ->; apply Hv; by left).
  assert (kv ≠ k) as Hkv2 by (by intros ->).
  assert (kv ≠ v) as Hkv3 by (intros ->; apply Hv; by right).
  unfold init_kv_str, load_str. apply total_bind, total_bind, total_bind.
  eapply mem_load_ok; [exact O2|by left|exact E2|]. apply total_ret.
  eapply mem_store_ok; [exact O2|by right; right|]. intros s3 O3 E3 F3. apply total_bind.
  eapply load_kv_ok; [exact O3|by right; right|exact E3|]. cbn [kv_key kv_value kv_valueLen].
  eapply mem_store_ok; [exact O3|by right; right|]. intros s4 O4 E4 F4. apply (HQ k v).
  - by rewrite Permutation_swap.
  - unfold kv_at. cbn [t_kv t_key t_val fst snd]. split; [done|].
    rewrite !F4, !F3 by (by intros ?%list_elem_of_singleton). split; [|done].
    rewrite F2 by (by intros ?%list_elem_of_singleton). done.
  - intros p Hp. rewrite F4, F3, F2, F1; [done|..]; intros ->%list_elem_of_singleton; apply Hp; clear; set_solver.
Qed.

Lemma init_loop_ok h0 ps l T R l0 s (Q : nat → pmem → Prop) :
  owns h0 s (ptrs T ++ R ++ [ps]) → m_heap s !! ps = Some (CArr ((Some ∘ t_kv <$> T) ++ (Some <$> R))) →
  kvs_at (m_heap s) T l0 → length R = length l →
  (∀ T' s', owns h0 s' (ptrs T' ++ [ps]) → m_heap s' !! ps = Some (CArr (Some ∘ t_kv <$> T')) →
     kvs_at (m_heap s') T' (l0 ++ l) → Q (length T') s') →
  total (init_loop allocates ps l (length T)) s Q.
Proof using Hall.
  revert T R l0 s. induction l as [|[key val] l IH]; intros T [|p R] l0 s O E Hk Hlen HQ; try done;
    cbn [init_loop].
  { apply total_ret, HQ; [done| |by rewrite app_nil_r]. rewrite E. cbn. by rewrite app_nil_r. }
  injection Hlen as Hlen. apply total_bind.
  eapply arr_get_ok; [exact O|clear; set_solver|exact E| |].
  { cbn [fmap list_fmap]. rewrite lookup_app_r by (by rewrite length_fmap). by rewrite length_fmap, Nat.sub_diag. }
  apply total_bind. eapply init_kv_strdup_ok; [exact O|clear; set_solver|]. intros k v s1 O1 K1 F1.
  assert (k :: v :: ptrs T ++ (p :: R) ++ [ps] ≡ₚ [p; k; v] ++ ptrs T ++ R ++ [ps]) as HP.
  { cbn [app]. rewrite <-(Permutation_middle (ptrs T)). by rewrite (Permutation_swap p v), (Permutation_swap p k). }
  rewrite HP in O1. pose proof (ow_nodup _ _ _ O1) as (_ & N & _)%NoDup_app.
  rewrite <-(Nat.add_1_r (length T)). change 1%nat with (length [Triple p k v]). rewrite <-length_app.
  apply (IH _ R (l0 ++ [(key, val)])).
  - rewrite ptrs_snoc. eapply owns_perm; [|exact O1]. cbn [blocks t_kv t_key t_val].
    by rewrite (Permutation_app_comm (ptrs T)), <-(assoc_L app).
  - rewrite F1; [rewrite E, fmap_app; cbn; by rewrite <-(assoc_L app)|]. intros Hps. apply (N ps Hps). clear; set_solver.
  - apply Forall2_app; [|by constructor]. eapply kvs_frame; [exact Hk|exact F1|].
    intros q Hq Hq'. apply (N q Hq), elem_of_app. by left.
  - done.
  - intros T' s' O' E' K'. apply HQ; [done..|]. by rewrite <-(assoc_L app) in K'.
Qed.
End spawning.

(** C22: The memory of the command of [PMI2_Job_Spawn]: as many pairs are made as
    were counted in advance, so every entry of the array is filled and none is
    stored outside; the array then leads to the pairs of the command in their
    order, and [freepairs] gives all of it back. *)
Theorem spawn_memory_freed (allocates : nat → bool) (cs : list spawn2_cmd) (with_info : bool)
    (preput : list keyval) (s : pmem) (Hall : ∀ n, allocates n = true) (Hs : mem_ok s) :
  let n := total_pairs cs with_info preput in
  ∃ ps T s', spawn_memory allocates cs with_info preput s = (Done (ps, n), s') ∧
    m_heap s' !! ps = Some (CArr (Some ∘ t_kv <$> T)) ∧
    kvs_at (m_heap s') T (spawn_pairs cs with_info preput) ∧
    ∃ s'', mem_freepairs ps n s' = (Done tt, s'') ∧ m_heap s'' = m_heap s.
Proof.
  intros n. pose proof (owns_start s Hs) as O. pose proof (spawn_pairs_length cs with_info preput) as Hl. fold n in Hl.
  destruct (total_done (spawn_memory allocates cs with_info preput) s (λ r s', ∃ T,
      r.2 = length T ∧ owns (m_heap s) s' (ptrs T ++ [r.1]) ∧ m_heap s' !! r.1 = Some (CArr (Some ∘ t_kv <$> T)) ∧
      kvs_at (m_heap s') T (spawn_pairs cs with_info preput))) as ([ps k] & s' & E & T & Hk & O' & Ea & K).
  { unfold spawn_memory. fold n. apply total_bind. eapply mem_malloc_ok; [exact Hall|exact O|].
    intros ps s1 Hps O1 E1 _. apply total_bind. apply (alloc_loop_ok allocates Hall (m_heap s) ps n [] s1); [done..|].
    intros R s2 O2 E2 HR. apply total_bind.
    apply (init_loop_ok allocates Hall (m_heap s) ps (spawn_pairs cs with_info preput) [] R [] s2);
      [done|done|done|by rewrite HR, Hl|]. intros T s3 O3 E3 K3. apply total_ret. by exists T. }
  cbn [fst snd] in *. assert (k = n) as -> by (by rewrite Hk, (Forall2_length _ _ _ K)). exists ps, T, s'.
  split; [exact E|]. split; [exact Ea|]. split; [exact K|].
  destruct (total_done (mem_freepairs ps n) s' (λ _ s'', m_heap s'' = m_heap s)) as ([] & s'' & E'' & Hh); [|by exists s''].
  rewrite Hk. eapply (mem_freepairs_ok (m_heap s) ps T _ s' []); [exact O'|exact K|exact Ea|].
  intros s2 O2. by apply owns_end.
Qed.

(** ** Allocations that fail *)

(** The allocations of [create_keyval] that succeed before one fails. *)
Definition made (allocates : nat → bool) (t : nat) : nat :=
  if negb (allocates t) then 0
  else if negb (allocates (S t)) then 1
  else if negb (allocates (S (S t))) then 2 else 3.

(** An allocation that succeeds, and one that does not. *)
Definition grown (c : cell) (s : pmem) : pmem :=
  Pmem (<[Z.of_nat (S (m_time s)) := c]> (m_heap s)) (S (m_time s)).
Definition ticked (s : pmem) : pmem := Pmem (m_heap s) (S (m_time s)).

Lemma mem_malloc_run allocates c s :
  mem_malloc allocates c s =
    if allocates (m_time s) then (Done (Z.of_nat (S (m_time s))), grown c s) else (Done 0, ticked s).
Proof. unfold mem_malloc. rewrite bind_get. by destruct (allocates (m_time s)). Qed.

Lemma grown_ok c s :
  mem_ok s → mem_ok (grown c s) ∧ size (m_heap (grown c s)) = S (size (m_heap s)).
Proof.
  intros Hs. split.
  - intros p. cbn [m_heap m_time grown]. destruct (decide (p = Z.of_nat (S (m_time s)))) as [->|]; [lia|].
    rewrite lookup_insert_ne by done. intros Hp. specialize (Hs p Hp). lia.
  - apply map_size_insert_None. destruct (m_heap s !! _) eqn:E; [|done]. pose proof (Hs _ (mk_is_Some _ _ E)). lia.
Qed.

Lemma mem_store_run p c c0 s :
  p ≠ 0 → m_heap s !! p = Some c0 →
  mem_store p c s = (Done tt, set_m_heap (<[p := c]> (m_heap s)) s) ∧
  size (<[p := c]> (m_heap s)) = size (m_heap s).
Proof.
  intros Hp E. split; [|by eapply map_size_insert_Some].
  unfold mem_store, mem_load. destruct (Z.eqb_spec p 0); [done|]. rewrite bind_assoc, bind_get. by rewrite E.
Qed.

(** What [create_keyval] has allocated when a later allocation fails is never
    given back: [PMI2U_CHKMEM_SETERR] jumps to [fn_exit], not to the label that
    would free it. *)
Theorem create_keyval_nomem (allocates : nat → bool) (key val : cstr) (s : pmem) (Hs : mem_ok s) :
  ∃ kv s', create_keyval allocates key val s =
      (Done (if (made allocates (m_time s) =? 3)%nat then PMI2_SUCCESS else PMI2_ERR_NOMEM, kv), s') ∧
    size (m_heap s') = (size (m_heap s) + made allocates (m_time s))%nat.
Proof.
  unfold create_keyval, made. destruct (grown_ok (CKv None) s Hs) as [Hs1 N1].
  destruct (grown_ok (CStr key) _ Hs1) as [Hs2 N2]. destruct (grown_ok (CStr val) _ Hs2) as [Hs3 N3].
  destruct (allocates (m_time s)) eqn:E0; cbn [negb].
  2:{ erewrite bind_done by (rewrite mem_malloc_run, E0; reflexivity). eexists _, _. split; [reflexivity|cbn; lia]. }
  erewrite bind_done by (rewrite mem_malloc_run, E0; reflexivity).
  destruct (Z.eqb_spec (Z.of_nat (S (m_time s))) 0) as [|_]; [lia|].
  destruct (allocates (S (m_time s))) eqn:E1; cbn [negb].
  2:{ erewrite bind_done by (rewrite mem_malloc_run; cbn [m_time grown]; rewrite E1; reflexivity).
      eexists _, _. split; [reflexivity|]. change (size (m_heap (grown (CKv None) s)) = (size (m_heap s) + 1)%nat). lia. }
  erewrite bind_done by (rewrite mem_malloc_run; cbn [m_time grown]; rewrite E1; reflexivity).
  destruct (Z.eqb_spec (Z.of_nat (S (S (m_time s)))) 0) as [|_]; [lia|].
  destruct (allocates (S (S (m_time s)))) eqn:E2; cbn [negb].
  2:{ erewrite bind_done by (rewrite mem_malloc_run; cbn [m_time grown]; rewrite E2; reflexivity).
      eexists _, _. split; [reflexivity|].
      change (size (m_heap (grown (CStr key) (grown (CKv None) s))) = (size (m_heap s) + 2)%nat). lia. }
  erewrite bind_done by (rewrite mem_malloc_run; cbn [m_time grown]; rewrite E2; reflexivity).
  destruct (Z.eqb_spec (Z.of_nat (S (S (S (m_time s))))) 0) as [|_]; [lia|].
  set (s3 := grown (CStr val) (grown (CStr key) (grown (CKv None) s))) in *. set (kv := Z.of_nat (S (m_time s))).
  assert (m_heap s3 !! kv = Some (CKv None)) as Ekv.
  { unfold s3, kv. cbn [m_heap grown m_time].
    rewrite lookup_insert_ne by lia. rewrite lookup_insert_ne by lia. apply lookup_insert_eq. }
  edestruct (mem_store_run kv) as [Est Hsz]; [|exact Ekv|]; [unfold kv; lia|].
  erewrite bind_done by exact Est. eexists kv, _. split; [reflexivity|].
  cbn [m_heap set_m_heap]. rewrite Hsz. lia.
Qed.

(** ** Examples *)

Definition mem_start : pmem := Pmem ∅ 0.
Lemma mem_start_ok : mem_ok mem_start.
Proof. intros p [? H]. discriminate H. Qed.

Lemma mem_decode_refines_witness :
  ∃ c ps n s', mem_decode (λ _, true) (L "cmd=kvs-get-response;rc=0;found=TRUE;value=a;;b;") mem_start
      = (Done (inr (c, ps, n)), s') ∧ n = 3%nat ∧
    ∃ s'', mem_free_command c ps n s' = (Done tt, s'') ∧ m_heap s'' = ∅.
Proof.
  destruct (mem_decode_refines (λ _, true) (L "cmd=kvs-get-response;rc=0;found=TRUE;value=a;;b;") mem_start
    (λ _, eq_refl) mem_start_ok) as (r & s' & E & H).
  destruct (decode _) as [[e|cmd]| | |] eqn:Ed; vm_compute in Ed; try discriminate Ed.
  injection Ed as <-. destruct r as [e|[[c ps] n]]; [destruct H|]. exists c, ps, n, s'. split; [exact E|].
  destruct H as [[Hn _] Hf]. split; [exact Hn|]. apply Hf. repeat constructor; by eexists.
Defined.

Definition demo_spawn : list spawn2_cmd := [Spawn2Cmd (L "./a.out") [L "-n"; L "3"] 2 [(L "wdir", L "/tmp")]].

Lemma spawn_memory_freed_witness :
  ∃ ps T s', spawn_memory (λ _, true) demo_spawn true [] mem_start = (Done (ps, 10%nat), s') ∧
    m_heap s' !! ps = Some (CArr (Some ∘ t_kv <$> T)) ∧
    kvs_at (m_heap s') T (spawn_pairs demo_spawn true []) ∧
    ∃ s'', mem_freepairs ps 10 s' = (Done tt, s'') ∧ m_heap s'' = ∅.
Proof. apply (spawn_memory_freed (λ _, true) demo_spawn true [] mem_start (λ _, eq_refl) mem_start_ok). Defined.

Lemma create_keyval_nomem_witness :
  ∃ kv s', create_keyval (λ n, (n <? 2)%nat) (L "rc") (L "0") mem_start = (Done (PMI2_ERR_NOMEM, kv), s') ∧
    size (m_heap s') = 2%nat.
Proof. apply (create_keyval_nomem (λ n, (n <? 2)%nat) (L "rc") (L "0") mem_start mem_start_ok). Defined.
