(* ===== verification/Gid.v ===== *)
(** * Shared parts of the verbs examples (rdma-core/pingpong.c) and the
    address message

    The MTU table, the text form of a GID, and the message in which the two
    ends of a pingpong tell each other their LID, queue pair number, packet
    sequence number and GID ([sprintf] and [sscanf] of the exchange functions,
    the same text in every example).  The host is little-endian. *)

From S2P Require Import Prelude CLib.

Local Open Scope Z_scope.

(** ** [pp_mtu_to_enum] *)

Definition IBV_MTU_256 : Z := 1.
Definition IBV_MTU_512 : Z := 2.
Definition IBV_MTU_1024 : Z := 3.
Definition IBV_MTU_2048 : Z := 4.
Definition IBV_MTU_4096 : Z := 5.

Definition pp_mtu_to_enum (mtu : Z) : Z :=
  if mtu =? 256 then IBV_MTU_256
  else if mtu =? 512 then IBV_MTU_512
  else if mtu =? 1024 then IBV_MTU_1024
  else if mtu =? 2048 then IBV_MTU_2048
  else if mtu =? 4096 then IBV_MTU_4096
  else 0.

(** ** Byte order *)

(** The four bytes of a 32-bit word in memory, and the word they make. *)
Definition bytes_of (w : Z) : list Z :=
  [Z.land w 255; Z.land (Z.shiftr w 8) 255; Z.land (Z.shiftr w 16) 255;
   Z.land (Z.shiftr w 24) 255].

Definition word_of (b0 b1 b2 b3 : Z) : Z :=
  Z.lor b0 (Z.lor (Z.shiftl b1 8) (Z.lor (Z.shiftl b2 16) (Z.shiftl b3 24))).

Definition htobe32 (w : Z) : Z :=
  match bytes_of w with
  | [b0; b1; b2; b3] => word_of b3 b2 b1 b0
  | _ => 0
  end.
Definition be32toh : Z → Z := htobe32.

(** [memcpy] of a GID to an array of words, and back. *)
Fixpoint words (l : list Z) : list Z :=
  match l with
  | b0 :: b1 :: b2 :: b3 :: l => word_of b0 b1 b2 b3 :: words l
  | _ => []
  end.
Definition of_words (l : list Z) : list Z := l ≫= bytes_of.

(** ** The text form of a GID *)

(** The 32 characters written into [wgid], before the terminator. *)
Definition gid_to_wire_gid (gid : list Z) : cstr :=
  words gid ≫= λ w, show_hex 8 (htobe32 w).

(** A memory region some bytes of which may not have been written. *)
Abbreviation region := (list (option char)).

(** The C string at the start of a region; [None] when an unwritten byte is
    met before the terminator. *)
Fixpoint region_text (r : region) : option cstr :=
  match r with
  | Some c :: r => if c =c NUL then Some [] else cons c <$> region_text r
  | None :: _ | [] => None
  end.

(** The loop: [n] words are left, [r] starts at [wgid + i * 8], [v32] is the
    variable of that name, which [sscanf] leaves alone when there is no
    number. *)
Fixpoint wire_words (n : nat) (r : region) (v32 : option Z) : option (list Z) :=
  match n with
  | O => Some []
  | S n =>
      tmp ← region_text (take 8 r ++ [Some NUL]);
      let v32 := match scan_hex tmp with Some (v, _) => Some v | None => v32 end in
      v ← v32;
      ws ← wire_words n (drop 8 r) (Some v);
      Some (be32toh v :: ws)
  end.

(** [None]: the result depends on bytes that were never written. *)
Definition wire_gid_to_gid (wgid : region) : option (list Z) :=
  of_words <$> wire_words 4 wgid None.

(** ** The address message *)

Record pingpong_dest := Dest {
  lid : Z;
  qpn : Z;
  psn : Z;
  gid : list Z }.

#[global] Instance pingpong_dest_eq_dec : EqDecision pingpong_dest.
Proof. solve_decision. Defined.

(** [sizeof "0000:000000:000000:00000000000000000000000000000000"]. *)
Definition MSG_SIZE : Z := 52.
Definition GID_SIZE : Z := 33.

Definition dest_text (d : pingpong_dest) : cstr :=
  show_hex 4 (lid d) ++ L ":" ++ show_hex 6 (qpn d) ++ L ":" ++ show_hex 6 (psn d) ++
  L ":" ++ gid_to_wire_gid (gid d).

(** [sprintf] into [msg]: the bytes of [msg], [None] when they do not fit. *)
Definition dest_msg (d : pingpong_dest) : option (list char) :=
  if MSG_SIZE <=? strlen (dest_text d) then None else Some (dest_text d ++ [NUL]).

Definition skip_colon (s : cstr) : option cstr :=
  match s with
  | c :: s => if c =c ":"%char then Some s else None
  | [] => None
  end.

(** ["%s"] into the local [gid]: nothing is stored when there is no text. *)
Definition store_gid (t : cstr) (buf : region) : region :=
  match t with
  | [] => buf
  | _ => (Some <$> t) ++ Some NUL :: drop (S (length t)) buf
  end.

(** [sscanf (msg, "%x:%x:%x:%s", ...)] followed by [wire_gid_to_gid]; [buf] is
    the content of the local [gid], returned as it is afterwards.  A conversion
    that fails leaves a field of the fresh structure without a value, and the
    caller reads it. *)
Definition scan_dest_gid (msg : list char) (buf : region) : outcome (pingpong_dest * region) :=
  match cstr_at msg with
  | None => Fault OutOfBounds
  | Some s =>
      match ('(l, s) ← scan_hex s; s ← skip_colon s;
             '(q, s) ← scan_hex s; s ← skip_colon s;
             '(p, s) ← scan_hex s; s ← skip_colon s;
             Some (l, q, p, s)) with
      | None => Fault Uninitialised
      | Some (l, q, p, s) =>
          let '(t, _) := break is_space (skip_space s) in
          if GID_SIZE <=? strlen t then Fault OutOfBounds
          else
            let buf := store_gid t buf in
            match wire_gid_to_gid buf with
            | None => Fault Uninitialised
            | Some g => Done (Dest (wrap_s 32 l) (wrap_s 32 q) (wrap_s 32 p) g, buf)
            end
      end
  end.

Definition scan_dest (msg : list char) (buf : region) : outcome pingpong_dest :=
  match scan_dest_gid msg buf with
  | Done (d, _) => Done d
  | Exited z => Exited z
  | Fault f => Fault f
  | Hang => Hang
  end.

(** The local [gid] before the exchange: the client's holds its own GID, the
    server's nothing. *)
Definition client_gid (d : pingpong_dest) : region :=
  Some <$> gid_to_wire_gid (gid d) ++ [NUL].
Definition server_gid : region := replicate (Z.to_nat GID_SIZE) None.

(** ** Laws *)

Lemma pp_mtu_to_enum_cases mtu :
  pp_mtu_to_enum mtu ≠ 0 ↔ mtu ∈ [256; 512; 1024; 2048; 4096].
Proof.
  unfold pp_mtu_to_enum. rewrite !elem_of_cons, elem_of_nil.
  repeat (case (Z.eqb_spec _ _); [intros ->; split; [by auto 10|done]|intros ?]).
  split; [done|tauto].
Qed.

Definition is_byte (b : Z) : Prop := 0 ≤ b < 256.

Lemma land_255 z : Z.land z 255 = z mod 256.
Proof. apply (Z.land_ones z 8). lia. Qed.

(** Disjoint bit fields: [Z.lor] is the sum. *)
Lemma lor_shift b x k :
  0 ≤ k → 0 ≤ b < 2 ^ k → Z.lor b (Z.shiftl x k) = b + x * 2 ^ k.
Proof.
  intros Hk Hb. rewrite <-Z.shiftl_mul_pow2 by done. symmetry. apply Z.add_nocarry_lor.
  apply Z.bits_inj'. intros n Hn. rewrite Z.land_spec, Z.bits_0.
  destruct (Z.lt_ge_cases n k).
  - by rewrite Z.shiftl_spec_low, andb_false_r.
  - rewrite <-(Z.mod_small b (2 ^ k)) by done. by rewrite Z.mod_pow2_bits_high.
Qed.

Lemma word_of_sum b0 b1 b2 b3 :
  is_byte b0 → is_byte b1 → is_byte b2 → is_byte b3 →
  word_of b0 b1 b2 b3 = b0 + b1 * 2 ^ 8 + b2 * 2 ^ 16 + b3 * 2 ^ 24.
Proof.
  unfold is_byte, word_of. intros H0 H1 H2 H3.
  assert (Z.lor (Z.shiftl b2 16) (Z.shiftl b3 24) = Z.shiftl (b2 + b3 * 2 ^ 8) 16) as ->.
  { rewrite <-(lor_shift b2 b3 8) by lia. rewrite Z.shiftl_lor, Z.shiftl_shiftl by lia. done. }
  assert (Z.lor (Z.shiftl b1 8) (Z.shiftl (b2 + b3 * 2 ^ 8) 16)
          = Z.shiftl (b1 + (b2 + b3 * 2 ^ 8) * 2 ^ 8) 8) as ->.
  { rewrite <-(lor_shift b1 (b2 + b3 * 2 ^ 8) 8) by lia.
    rewrite Z.shiftl_lor, Z.shiftl_shiftl by lia. done. }
  rewrite lor_shift by lia. lia.
Qed.

Lemma bytes_of_word b0 b1 b2 b3 :
  is_byte b0 → is_byte b1 → is_byte b2 → is_byte b3 →
  bytes_of (word_of b0 b1 b2 b3) = [b0; b1; b2; b3].
Proof.
  intros H0 H1 H2 H3. rewrite word_of_sum by done. unfold bytes_of, is_byte in *.
  rewrite !land_255, !Z.shiftr_div_pow2 by lia.
  change (2 ^ 8) with 256. change (2 ^ 16) with 65536. change (2 ^ 24) with 16777216.
  assert (∀ a a' b b' c c' d d' : Z, a = a' → b = b' → c = c' → d = d' →
    [a; b; c; d] = [a'; b'; c'; d']) as Heq by congruence.
  apply Heq; Z.to_euclidean_division_equations; lia.
Qed.

Lemma word_of_range b0 b1 b2 b3 :
  is_byte b0 → is_byte b1 → is_byte b2 → is_byte b3 → 0 ≤ word_of b0 b1 b2 b3 < 2 ^ 32.
Proof. intros. rewrite word_of_sum by done. unfold is_byte in *. lia. Qed.

Lemma htobe32_word b0 b1 b2 b3 :
  is_byte b0 → is_byte b1 → is_byte b2 → is_byte b3 →
  htobe32 (word_of b0 b1 b2 b3) = word_of b3 b2 b1 b0.
Proof. intros. unfold htobe32. by rewrite bytes_of_word. Qed.

(** A GID is 16 bytes. *)
Definition gid_ok (g : list Z) : Prop := length g = 16%nat ∧ Forall is_byte g.

(** The words of a GID, one at a time. *)
Lemma gid_words g :
  Forall is_byte g →
  ∀ n rest v, length g = (4 * n)%nat →
    wire_words n ((Some <$> gid_to_wire_gid g) ++ rest) v = Some (words g).
Proof.
  intros Hg n. revert g Hg. induction n as [|n IH]; intros g Hg rest v Hl.
  { by destruct g. }
  destruct g as [|b0 [|b1 [|b2 [|b3 g]]]]; [simpl in Hl; lia..|].
  rewrite !Forall_cons in Hg. destruct Hg as (H0 & H1 & H2 & H3 & Hg).
  unfold gid_to_wire_gid. cbn [words]. change (?w :: words g) with ([w] ++ words g).
  rewrite bind_app. cbn [mbind list_bind]. rewrite app_nil_r, fmap_app, <-(assoc_L app).
  set (w := word_of b0 b1 b2 b3).
  assert (0 ≤ htobe32 w < 2 ^ 32) as Hw.
  { unfold w. rewrite htobe32_word by done. by apply word_of_range. }
  assert (length (show_hex 8 (htobe32 w)) = 8%nat) as H8.
  { apply show_hex_length; [lia| |lia]. exact Hw. }
  cbn [wire_words]. rewrite (take_app_length' _ _ 8), (drop_app_length' _ _ 8)
    by (by rewrite length_fmap).
  assert (∀ t, no_nul t → region_text ((Some <$> t) ++ [Some NUL]) = Some t) as Htext.
  { induction 1 as [|c t Hc _ IHt]; simpl; [done|]. rewrite char_eqb_ne by done.
    unfold fmap in IHt. by rewrite IHt. }
  rewrite Htext.
  2:{ eapply Forall_impl; [apply show_hex_digits|]. intros c Hc ->. vm_compute in Hc. done. }
  cbn [mbind option_bind].
  rewrite <-(app_nil_r (show_hex 8 (htobe32 w))), scan_hex_show by (done || lia || by apply Hw).
  cbn [mbind option_bind]. fold (gid_to_wire_gid g). rewrite IH; [|done|simpl in Hl; lia].
  cbn [mbind option_bind]. do 2 f_equal. unfold be32toh, w. by rewrite !htobe32_word.
Qed.

Lemma of_words_words g n :
  length g = (4 * n)%nat → Forall is_byte g → of_words (words g) = g.
Proof.
  revert g. induction n as [|n IH]; intros g Hl Hg; [by destruct g|].
  destruct g as [|b0 [|b1 [|b2 [|b3 g]]]]; [simpl in Hl; lia..|].
  rewrite !Forall_cons in Hg. destruct Hg as (H0 & H1 & H2 & H3 & Hg).
  cbn [words]. unfold of_words. cbn [mbind list_bind]. rewrite bytes_of_word by done.
  simpl. do 4 f_equal. apply IH; [simpl in Hl; lia|done].
Qed.

(** The text of a GID: 32 hexadecimal digits. *)
Lemma gid_wire_digits g : Forall (λ c, is_digit 16 c = true) (gid_to_wire_gid g).
Proof.
  unfold gid_to_wire_gid. apply Forall_bind, Forall_true. intros w. apply show_hex_digits.
Qed.

Lemma gid_wire_length g n :
  length g = (4 * n)%nat → Forall is_byte g → length (gid_to_wire_gid g) = (8 * n)%nat.
Proof.
  revert g. induction n as [|n IH]; intros g Hl Hg; [by destruct g|].
  destruct g as [|b0 [|b1 [|b2 [|b3 g]]]]; [simpl in Hl; lia..|].
  rewrite !Forall_cons in Hg. destruct Hg as (H0 & H1 & H2 & H3 & Hg).
  unfold gid_to_wire_gid. cbn [words]. cbn [mbind list_bind]. rewrite length_app.
  rewrite show_hex_length.
  - fold (gid_to_wire_gid g). rewrite (IH g); [lia|simpl in Hl; lia|done].
  - lia.
  - rewrite htobe32_word by done. by apply word_of_range.
  - lia.
Qed.

Lemma digits_no_space s : Forall (λ c, is_digit 16 c = true) s → Forall (λ c, is_space c = false) s.
Proof. intros H. eapply Forall_impl; [exact H|]. intros c. apply is_digit_no_space. Qed.

Lemma digits_no_nul s : Forall (λ c, is_digit 16 c = true) s → no_nul s.
Proof. intros H. eapply Forall_impl; [exact H|]. intros c Hc ->. by vm_compute in Hc. Qed.

Lemma skip_space_digits s : Forall (λ c, is_space c = false) s → skip_space s = s.
Proof. destruct 1 as [|c s Hc _]; simpl; [done|]. by rewrite Hc. Qed.

(** What the fields of an address are in range of. *)
Record dest_ok (d : pingpong_dest) : Prop := {
  lid_ok : 0 ≤ lid d < 2 ^ 16;
  qpn_ok : 0 ≤ qpn d < 2 ^ 24;
  psn_ok : 0 ≤ psn d < 2 ^ 24;
  dgid_ok : gid_ok (gid d) }.

Lemma gid_wire_32 g : gid_ok g → length (gid_to_wire_gid g) = 32%nat.
Proof. intros [Hl Hb]. by apply (gid_wire_length g 4). Qed.

Lemma dest_text_length d : dest_ok d → length (dest_text d) = 51%nat.
Proof.
  intros [Hl Hq Hp Hg]. unfold dest_text. rewrite !length_app, gid_wire_32 by done.
  rewrite !show_hex_length; (done || lia).
Qed.

Lemma dest_msg_ok d : dest_ok d → dest_msg d = Some (dest_text d ++ [NUL]).
Proof. intros H. unfold dest_msg, strlen. by rewrite dest_text_length. Qed.

Lemma dest_text_no_nul d : no_nul (dest_text d).
Proof.
  unfold dest_text, no_nul. rewrite !Forall_app.
  repeat split; try (by apply digits_no_nul, show_hex_digits);
    try (by apply digits_no_nul, gid_wire_digits); by repeat constructor.
Qed.

Lemma wire_gid_roundtrip g rest :
  gid_ok g → wire_gid_to_gid ((Some <$> gid_to_wire_gid g) ++ rest) = Some g.
Proof.
  intros [Hl Hb]. unfold wire_gid_to_gid. rewrite (gid_words g Hb 4) by done.
  simpl. f_equal. by apply (of_words_words g 4).
Qed.

Lemma scan_colon w z r :
  (2 ≤ w)%nat → 0 ≤ z < 2 ^ 32 →
  scan_hex (show_hex w z ++ L ":" ++ r) = Some (z, L ":" ++ r).
Proof. intros. by apply scan_hex_show. Qed.

Lemma scan_dest_gid_text d buf :
  dest_ok d → ∃ buf', scan_dest_gid (dest_text d ++ [NUL]) buf = Done (d, buf').
Proof.
  intros Hd. pose proof Hd as [Hl Hq Hp Hg]. unfold scan_dest_gid.
  rewrite (cstr_at_app (dest_text d) []) by apply dest_text_no_nul. unfold dest_text.
  rewrite scan_colon by lia. cbn [mbind option_bind].
  change (skip_colon (L ":" ++ ?r)) with (Some r). cbn [mbind option_bind].
  rewrite scan_colon by lia. cbn [mbind option_bind].
  change (skip_colon (L ":" ++ ?r)) with (Some r). cbn [mbind option_bind].
  rewrite scan_colon by lia. cbn [mbind option_bind].
  change (skip_colon (L ":" ++ ?r)) with (Some r). cbn [mbind option_bind].
  pose proof (digits_no_space _ (gid_wire_digits (gid d))) as Hsp.
  rewrite skip_space_digits by done.
  rewrite <-(app_nil_r (gid_to_wire_gid (gid d))), break_app by done.
  unfold strlen. rewrite (gid_wire_32 _ Hg). cbn [Z.leb].
  change (GID_SIZE <=? Z.of_nat 32) with false. cbv iota. unfold store_gid.
  destruct (gid_to_wire_gid (gid d)) as [|c t] eqn:E.
  { by apply (f_equal length) in E; rewrite gid_wire_32 in E. }
  rewrite <-E, wire_gid_roundtrip by done. eexists.
  rewrite !wrap_s_int by (unfold is_int, int_min, int_max; lia). by destruct d.
Qed.

Lemma scan_dest_text d buf : dest_ok d → scan_dest (dest_text d ++ [NUL]) buf = Done d.
Proof.
  intros Hd. unfold scan_dest. by destruct (scan_dest_gid_text d buf Hd) as [buf' ->].
Qed.

(** C34: the address message: any LID, 24-bit queue pair number, 24-bit packet
    sequence number and GID fit the message buffer exactly, and the other end
    reads back the same address, whatever its buffer held before. *)
Theorem dest_roundtrip (d : pingpong_dest) (buf : region) (Hd : dest_ok d) :
  ∃ msg, dest_msg d = Some msg ∧ strlen msg = MSG_SIZE ∧ scan_dest msg buf = Done d.
Proof.
  eexists. split; [by apply dest_msg_ok|]. split; [|by apply scan_dest_text].
  unfold strlen. by rewrite length_app, dest_text_length.
Qed.

Definition demo_dest : pingpong_dest :=
  Dest 17 0x00abcd 0xfedcba [254; 128; 0; 0; 0; 0; 0; 0; 0; 2; 201; 3; 0; 16; 250; 61].

Lemma demo_dest_ok : dest_ok demo_dest.
Proof.
  constructor; simpl; [lia..|]. split; [done|]. unfold is_byte.
  repeat (apply Forall_cons; split; [lia|]). apply Forall_nil_2.
Qed.

Lemma dest_roundtrip_witness :
  ∃ msg, dest_msg demo_dest = Some msg ∧ strlen msg = MSG_SIZE ∧
    scan_dest msg server_gid = Done demo_dest.
Proof. apply dest_roundtrip. exact demo_dest_ok. Defined.
