(* ===== verification/Verbs.v ===== *)
(** * The verbs library and the hardware, as the examples see them

    The programs call libibverbs and the C library's allocator; neither is part
    of the repository.  Their answers are arbitrary: streams of results indexed
    by the number of the call, and a script of completions.  What is modelled
    is the bookkeeping the documented interface prescribes: which objects
    exist, which of them depend on which, that an object with dependents cannot
    be destroyed, and that using an object that does not exist is undefined.
    The calls made are kept in order, and so are the objects given back. *)

From S2P Require Import Prelude CLib OS Gid.

Local Open Scope Z_scope.

(** ** Objects *)

Inductive kind :=
  | KMem | KStr | KAddrs | KDevList
  | KContext | KChannel | KPd | KDm | KMr | KCq | KQp | KAh | KSrq | KXrcd.

#[global] Instance kind_eq_dec : EqDecision kind.
Proof. solve_decision. Defined.

(** An object: its kind and its address, 0 being NULL. *)
Abbreviation obj := (kind * Z)%type.

(** [enum ibv_qp_state] and the attributes the programs set. *)
Inductive qp_state := QPS_RESET | QPS_INIT | QPS_RTR | QPS_RTS.

#[global] Instance qp_state_eq_dec : EqDecision qp_state.
Proof. solve_decision. Defined.

Record ah_attr := AhAttr {
  av_is_global : Z;
  av_dlid : Z;
  av_sl : Z;
  av_src_path_bits : Z;
  av_port_num : Z;
  av_hop_limit : Z;
  av_dgid : list Z;
  av_sgid_index : Z }.

(** The bits of an attribute mask with the values of their attributes. *)
Inductive qp_attr :=
  | QP_STATE (v : qp_state)
  | QP_PKEY_INDEX (v : Z)
  | QP_PORT (v : Z)
  | QP_ACCESS_FLAGS (v : Z)
  | QP_QKEY (v : Z)
  | QP_AV (v : ah_attr)
  | QP_PATH_MTU (v : Z)
  | QP_DEST_QPN (v : Z)
  | QP_RQ_PSN (v : Z)
  | QP_MAX_DEST_RD_ATOMIC (v : Z)
  | QP_MIN_RNR_TIMER (v : Z)
  | QP_TIMEOUT (v : Z)
  | QP_RETRY_CNT (v : Z)
  | QP_RNR_RETRY (v : Z)
  | QP_SQ_PSN (v : Z)
  | QP_MAX_QP_RD_ATOMIC (v : Z).

(** [enum ibv_qp_type]. *)
Inductive qp_type := QPT_RC | QPT_UC | QPT_UD | QPT_XRC_SEND | QPT_XRC_RECV.

(** The arguments of a call that makes an object. *)
Inductive newobj :=
  | NewMem (size : Z)
  | NewStruct
  | NewStr
  | NewAddrs
  | NewDevList
  | NewContext (dev : Z)
  | NewChannel
  | NewPd
  | NewDm (len : Z)
  | NewMr (whole : bool) (len access : Z)
  | NewCq (extended : bool) (cqe : Z)
  | NewQp (extended : bool) (t : qp_type) (max_send_wr max_recv_wr : Z)
  | NewAh (attr : ah_attr)
  | NewSrq (max_wr : Z)
  | NewXrcd (fd : Z).

Definition kind_of (n : newobj) : kind :=
  match n with
  | NewMem _ | NewStruct => KMem
  | NewStr => KStr
  | NewAddrs => KAddrs
  | NewDevList => KDevList
  | NewContext _ => KContext
  | NewChannel => KChannel
  | NewPd => KPd
  | NewDm _ => KDm
  | NewMr _ _ _ => KMr
  | NewCq _ _ => KCq
  | NewQp _ _ _ _ => KQp
  | NewAh _ => KAh
  | NewSrq _ => KSrq
  | NewXrcd _ => KXrcd
  end.

(** A scatter/gather entry, and the calls that neither make nor destroy an
    object ([Wrote]: bytes written to a socket). *)
Record sge := Sge { sge_addr : Z; sge_length : Z; sge_lkey : Z }.

Inductive hwcall :=
  | QueryDevice (context : Z)
  | AdviseMr (pd : Z) (s : sge)
  | QueryQp (qp : Z)
  | ModifyQp (qp : Z) (attrs : list qp_attr)
  | PostRecv (qp wr_id : Z) (s : sge)
  | PostSend (qp wr_id flags : Z) (s : sge)
  | WrSend (qp wr_id flags : Z) (s : sge)
  | PostSendUd (qp wr_id flags : Z) (s : sge) (ah remote_qpn remote_qkey : Z)
  | PostSendXrc (qp wr_id flags : Z) (s : sge) (remote_srqn : Z)
  | PostSrqRecv (srq wr_id : Z) (s : sge)
  | GetSrqNum (srq : Z)
  | ReqNotifyCq (cq : Z)
  | AckCqEvents (cq n : Z)
  | QueryPort (context port : Z)
  | QueryGid (context port index : Z)
  | QueryGidType (context port index : Z)
  | MemcpyToDm (dm size : Z)
  | MemcpyFromDm (dm size : Z)
  | GetAddrInfo (host : option cstr) (service : cstr)
  | Wrote (fd : Z) (bs : list char)
  | GetTimeOfDay.

(** ** Completions *)

(** A work completion: [wr_id], [status] (0 is success), the timestamp and the
    number of the queue pair. *)
Record wc := Wc { wc_wr_id : Z; wc_status : Z; wc_timestamp : Z; wc_qp_num : Z }.

(** What a poll of the completion queue meets: completions (possibly more than
    the call asks for) or an error. *)
Inductive poll_event := PollWcs (l : list wc) | PollErr (e : positive).

(** ** The state *)

(** What the device says of itself ([ibv_query_device_ex], [ibv_query_qp],
    [ibv_query_port], [ibv_query_gid], [ibv_get_srq_num], fields of a memory
    region and a queue pair). *)
Record device := Device {
  odp_general : Z;
  odp_rc : Z;
  odp_xrc : Z;
  ts_mask : Z;
  max_dm_size : Z;
  max_inline : Z;
  port_lid : Z;
  port_ethernet : bool;
  port_active_mtu : Z;
  port_gid : Z → list Z;
  mr_lkey : Z → Z;
  qp_num : Z → Z;
  srq_num : Z → Z }.

(** One of the addresses [getaddrinfo] found: what [socket] returns for it,
    whether [connect] or [bind] succeeds, and the connection made. *)
Record address := Address { a_fd : Z; a_ok : bool; a_conn : conn }.

(** [h_new n], [h_del n] and [h_int n] are the answers should call number [n]
    make an object (is it made?), destroy one, or be another call; [h_gai] is
    the result of [getaddrinfo]. *)
Record world := World {
  h_new : nat → bool;
  h_del : nat → Z;
  h_int : nat → Z;
  h_dev : device;
  h_gai : Z;
  h_addrs : list address }.

Record hw := Hw {
  h_world : world;
  h_os : os;
  h_time : nat;
  h_live : list (obj * list obj);
  h_calls : list hwcall;
  h_events : list Z;
  h_polls : list poll_event;
  h_gone : list obj }.

Definition set_h_os (o : os) (s : hw) : hw :=
  Hw (h_world s) o (h_time s) (h_live s) (h_calls s) (h_events s) (h_polls s) (h_gone s).
Definition set_h_live (l : list (obj * list obj)) (s : hw) : hw :=
  Hw (h_world s) (h_os s) (h_time s) l (h_calls s) (h_events s) (h_polls s) (h_gone s).
Definition set_h_polls (l : list poll_event) (s : hw) : hw :=
  Hw (h_world s) (h_os s) (h_time s) (h_live s) (h_calls s) (h_events s) l (h_gone s).
Definition set_h_events (l : list Z) (s : hw) : hw :=
  Hw (h_world s) (h_os s) (h_time s) (h_live s) (h_calls s) l (h_polls s) (h_gone s).
Definition tick (s : hw) : hw :=
  Hw (h_world s) (h_os s) (S (h_time s)) (h_live s) (h_calls s) (h_events s) (h_polls s) (h_gone s).
Definition log (c : hwcall) (s : hw) : hw :=
  Hw (h_world s) (h_os s) (h_time s) (h_live s) (h_calls s ++ [c]) (h_events s) (h_polls s) (h_gone s).

#[global] Program Instance hw_os : Lens hw os := {| lget := h_os; lset := set_h_os |}.
Next Obligation. done. Qed.
Next Obligation. by intros []. Qed.
Next Obligation. done. Qed.

(** ** Calls *)

Definition is_live (o : obj) (l : list (obj * list obj)) : bool := bool_decide (o ∈ l.*1).
Definition in_use (o : obj) (l : list (obj * list obj)) : bool :=
  existsb (λ e, bool_decide (o ∈ e.2)) l.

(** The call uses the objects [os]. *)
Definition uses (os : list obj) : M hw () := λ s,
  if forallb (λ o, is_live o (h_live s)) os then (Done tt, s) else (Fault UseAfterFree, s).

(** A new object depending on [deps], at an address not used before. *)
Definition make (n : newobj) (deps : list obj) : M hw Z :=
  s ← get;
  let p := Z.of_nat (S (h_time s)) in
  modify (λ s, set_h_live (((kind_of n, p), deps) :: h_live s) (tick s));;
  mret p.

(** A call that makes an object: its address, or 0. *)
Definition new (n : newobj) (deps : list obj) : M hw Z :=
  uses deps;;
  s ← get;
  if h_new (h_world s) (h_time s) then make n deps else modify tick;; mret 0.

(** The object goes; [h_gone] keeps the order in which objects go. *)
Definition drop_obj (o : obj) (s : hw) : hw :=
  Hw (h_world s) (h_os s) (h_time s) (filter (λ e, e.1 ≠ o) (h_live s)) (h_calls s) (h_events s)
    (h_polls s) (h_gone s ++ [o]).

Definition EBUSY : Z := 16.

(** A call that destroys an object, and its result. *)
Definition del (o : obj) : M hw Z :=
  uses [o];;
  s ← get;
  modify tick;;
  if in_use o (h_live s) then mret EBUSY
  else
    let r := h_del (h_world s) (h_time s) in
    if r =? 0 then modify (drop_obj o);; mret 0 else mret r.

(** [free], [freeaddrinfo], [ibv_free_device_list] do not fail. *)
Definition release (o : obj) : M hw () :=
  uses [o];;
  modify (λ s, drop_obj o (tick s)).

(** Any other call, on the objects [os]; it is logged with its result when
    that is success. *)
Definition call (os : list obj) (c : hwcall) : M hw Z :=
  uses os;;
  s ← get;
  modify tick;;
  let r := h_int (h_world s) (h_time s) in
  (if r =? 0 then modify (log c) else mret tt);;
  mret r.

(** [ibv_poll_cq (cq, n, wc)]: at most [n] completions ([inr]), or a negative
    result ([inl]). *)
Definition poll_cq (cq : Z) (n : nat) : M hw (Z + list wc) :=
  uses [(KCq, cq)];;
  s ← get;
  match h_polls s with
  | [] => mret (inr [])
  | PollErr e :: l => modify (set_h_polls l);; mret (inl (Z.neg e))
  | PollWcs w :: l =>
      modify (set_h_polls (match drop n w with [] => l | r => PollWcs r :: l end));;
      mret (inr (take n w))
  end.

Definition ENOENT : Z := 2.

(** [ibv_start_poll] and [ibv_next_poll]: the next completion, or a result
    other than 0, [ENOENT] when there is none. *)
Definition next_wc (cq : Z) : M hw (Z + wc) :=
  uses [(KCq, cq)];;
  s ← get;
  match h_polls s with
  | [] => mret (inl ENOENT)
  | PollErr e :: l => modify (set_h_polls l);; mret (inl (Z.pos e))
  | PollWcs [] :: l => modify (set_h_polls l);; mret (inl ENOENT)
  | PollWcs [w] :: l => modify (set_h_polls l);; mret (inr w)
  | PollWcs (w :: ws) :: l => modify (set_h_polls (PollWcs ws :: l));; mret (inr w)
  end.

(** [ibv_get_cq_event]: the completion queue the event is for, 0 for an error;
    it blocks when no event is left. *)
Definition get_cq_event (channel : Z) : M hw Z :=
  uses [(KChannel, channel)];;
  s ← get;
  match h_events s with
  | [] => hang_
  | e :: l => modify (set_h_events l);; mret e
  end.

(** ** Laws: objects are made and destroyed like a stack

    The addresses of the objects made later are larger, so an object is never
    needed by one that is older. *)
Fixpoint stacked (t : Z) (l : list (obj * list obj)) : Prop :=
  match l with
  | [] => True
  | (o, deps) :: l => 0 < o.2 ≤ t ∧ Forall (λ d, d.2 < o.2) deps ∧ stacked (o.2 - 1) l
  end.

Lemma stacked_mono t t' l : stacked t l → t ≤ t' → stacked t' l.
Proof. destruct l as [|[o deps] l]; simpl; [done|]. intros (? & ? & ?) ?. split_and!; [lia|lia|done..]. Qed.

Lemma stacked_bound t l o : stacked t l → o ∈ l.*1 → 0 < o.2 ≤ t.
Proof.
  revert t. induction l as [|[o' deps] l IH]; intros t; simpl; [by intros _ ?%elem_of_nil|].
  intros (H1 & _ & H2) [->|Ho]%elem_of_cons; [done|]. specialize (IH _ H2 Ho). lia.
Qed.

Lemma stacked_dep_bound t l o deps d : stacked t l → (o, deps) ∈ l → d ∈ deps → d.2 < t.
Proof.
  revert t. induction l as [|[o' deps'] l IH]; intros t; simpl; [by intros _ ?%elem_of_nil|].
  intros (H1 & Hd & H2) [[= -> ->]|Ho]%elem_of_cons Hdd.
  - rewrite Forall_forall in Hd. specialize (Hd _ Hdd). lia.
  - specialize (IH _ H2 Ho Hdd). lia.
Qed.

Lemma stacked_app t l l' : stacked t (l ++ l') → stacked t l'.
Proof.
  revert t. induction l as [|[o deps] l IH]; intros t; simpl; [done|].
  intros (H1 & _ & H2). eapply stacked_mono; [by apply IH|lia].
Qed.

Lemma stacked_app_l t l l' : stacked t (l ++ l') → stacked t l.
Proof.
  revert t. induction l as [|[o deps] l IH]; intros t; simpl; [done|].
  intros (? & ? & ?). split_and!; [lia|lia|done|auto].
Qed.

Lemma stacked_nodup t l : stacked t l → NoDup l.*1.
Proof.
  revert t. induction l as [|[o deps] l IH]; intros t; simpl; [constructor|].
  intros (H1 & _ & H2). constructor; [|by eapply IH].
  intros Ho. pose proof (stacked_bound _ _ _ H2 Ho). lia.
Qed.

Lemma filter_all {A} (P : A → Prop) `{∀ x, Decision (P x)} (l : list A) :
  Forall P l → filter P l = l.
Proof. induction 1 as [|x l Hx _ IH]; [done|]. rewrite filter_cons_True by done. by rewrite IH. Qed.

(** Objects that do not depend on it may lie above an object that is given up:
    nothing that is left uses it. *)
Definition free_of (o : obj) (R : list (obj * list obj)) : Prop := Forall (λ e, o ∉ e.2) R.

(** Memory blocks depend on nothing. *)
Definition memory_only (R : list (obj * list obj)) : Prop := Forall (λ e, e.2 = []) R.

Lemma memory_only_free o R : memory_only R → free_of o R.
Proof.
  intros H. eapply Forall_impl; [exact H|]. intros [x d]; simpl. intros ->. by apply not_elem_of_nil.
Qed.

Lemma stacked_unused t o deps l :
  stacked t ((o, deps) :: l) → in_use o ((o, deps) :: l) = false ∧ o ∉ l.*1.
Proof.
  simpl. intros (H1 & Hd & Hl). split.
  - rewrite bool_decide_false.
    2:{ intros Hin. rewrite Forall_forall in Hd. specialize (Hd _ Hin). lia. }
    apply not_true_iff_false. cbn [orb]. fold (in_use o l). unfold in_use. intros H.
    apply existsb_exists in H. destruct H as ([o' deps'] & Hin & Ho).
    apply bool_decide_eq_true in Ho. apply list_elem_of_In in Hin.
    pose proof (stacked_dep_bound _ _ _ _ _ Hl Hin Ho). lia.
  - intros Ho. pose proof (stacked_bound _ _ _ Hl Ho). lia.
Qed.

Lemma stacked_middle t R o deps l :
  free_of o R → stacked t (R ++ (o, deps) :: l) →
  in_use o (R ++ (o, deps) :: l) = false ∧
  filter (λ e, e.1 ≠ o) (R ++ (o, deps) :: l) = R ++ l ∧ stacked t (R ++ l).
Proof.
  intros HR. revert t. induction HR as [|[o' d'] R Hd HR IH]; intros t; cbn [app].
  - intros Hs. destruct (stacked_unused _ _ _ _ Hs) as [Hu Ho]. split; [done|].
    rewrite filter_cons_False by (simpl; tauto). split.
    + apply filter_all, Forall_forall. intros [x d] Hin. simpl. intros ->. apply Ho.
      apply list_elem_of_fmap. by exists (o, d).
    + simpl in Hs. destruct Hs as (H1 & _ & H2). eapply stacked_mono; [exact H2|lia].
  - intros (H1 & H2 & H3). simpl in Hd. destruct (IH _ H3) as (Hu & Hf & Hst).
    split_and!; [by cbn; rewrite bool_decide_false| |simpl; split_and!; [lia|lia|done|done]].
    rewrite filter_cons_True.
    + by rewrite Hf.
    + simpl. intros ->. pose proof (stacked_bound _ _ o H3) as Hb.
      rewrite fmap_app, elem_of_app in Hb. specialize (Hb ltac:(right; by constructor)). lia.
Qed.

(** [hwst s0 s S]: since [s0] the program has made the objects [S], the last
    one first; what the world will answer is the same. *)
Record hwst (s0 s : hw) (S : list (obj * list obj)) : Prop := {
  hs_world : h_world s = h_world s0;
  hs_live : h_live s = S ++ h_live s0;
  hs_stack : stacked (Z.of_nat (h_time s)) (h_live s) }.

Lemma hwst_refl s : stacked (Z.of_nat (h_time s)) (h_live s) → hwst s s [].
Proof. by constructor. Qed.

Lemma hwst_tick s0 s S : hwst s0 s S → hwst s0 (tick s) S.
Proof. intros [H1 H2 H3]. constructor; [done..|]. eapply stacked_mono; [done|simpl; lia]. Qed.

Lemma hwst_log s0 s S c : hwst s0 s S → hwst s0 (log c s) S.
Proof. by intros [H1 H2 H3]. Qed.

Lemma is_live_in o S L : o ∈ S.*1 → is_live o (S ++ L) = true.
Proof. intros H. apply bool_decide_eq_true. rewrite fmap_app, elem_of_app. by left. Qed.

Lemma uses_total os s0 s S (Q : () → hw → Prop) :
  hwst s0 s S → Forall (λ o, o ∈ S.*1) os → Q tt s → total (uses os) s Q.
Proof.
  intros [_ Hl _] Hos HQ. unfold total, uses.
  assert (forallb (λ o, is_live o (h_live s)) os = true) as ->; [|done].
  apply forallb_forall. intros o Ho. rewrite Hl. apply is_live_in.
  rewrite Forall_forall in Hos. apply Hos. by apply list_elem_of_In.
Qed.

Lemma make_total n deps s0 s S (Q : Z → hw → Prop) :
  hwst s0 s S → Forall (λ o, o ∈ S.*1) deps →
  (∀ p s', 0 < p → hwst s0 s' (((kind_of n, p), deps) :: S) → Q p s') →
  total (make n deps) s Q.
Proof.
  intros [Hw Hl Hs] Hd HQ. unfold total, make. cbn. apply HQ; [lia|].
  constructor; cbn; [done|by rewrite Hl|].
  split_and!; [lia|lia| |eapply stacked_mono; [done|lia]].
  eapply Forall_impl; [exact Hd|]. intros d Hin. simpl.
  assert (d ∈ (h_live s).*1) as Hin' by (rewrite Hl, fmap_app, elem_of_app; by left).
  pose proof (stacked_bound _ _ _ Hs Hin'). lia.
Qed.

Lemma new_total n deps s0 s S (Q : Z → hw → Prop) :
  hwst s0 s S → Forall (λ o, o ∈ S.*1) deps →
  (∀ s', h_new (h_world s0) (h_time s) = false → hwst s0 s' S → Q 0 s') →
  (∀ p s', 0 < p → hwst s0 s' (((kind_of n, p), deps) :: S) → Q p s') →
  total (new n deps) s Q.
Proof.
  intros Hs Hd H0 H1. unfold new. apply total_bind. eapply uses_total; [exact Hs|done|].
  apply total_bind, total_get. destruct (h_new (h_world s) (h_time s)) eqn:E.
  - by eapply make_total.
  - apply total_bind, total_modify, total_ret, H0; [|by apply hwst_tick].
    by rewrite <-(hs_world _ _ _ Hs).
Qed.

Lemma call_total os c s0 s S (Q : Z → hw → Prop) :
  hwst s0 s S → Forall (λ o, o ∈ S.*1) os →
  (∀ s', hwst s0 s' S → Q (h_int (h_world s0) (h_time s)) s') → total (call os c) s Q.
Proof.
  intros Hs Ho HQ. unfold call. apply total_bind. eapply uses_total; [exact Hs|done|].
  apply total_bind, total_get, total_bind, total_modify.
  rewrite (hs_world _ _ _ Hs).
  apply total_bind. destruct (_ =? 0); apply total_modify || apply total_ret; apply total_ret, HQ.
  - by apply hwst_log, hwst_tick.
  - by apply hwst_tick.
Qed.

(** [made s0 s S]: since [s0] the program has made the objects [S] and given
    nothing back yet. *)
Record made (s0 s : hw) (S : list (obj * list obj)) : Prop := {
  md_hwst :> hwst s0 s S;
  md_gone : h_gone s = h_gone s0 }.

Lemma made_refl s : stacked (Z.of_nat (h_time s)) (h_live s) → made s s [].
Proof. intros H. split; [by apply hwst_refl|done]. Qed.

Definition same_gone (s s' : hw) : Prop := h_gone s' = h_gone s.

#[global] Instance same_gone_refl : Reflexive same_gone.
Proof. by intros s. Qed.
#[global] Instance same_gone_trans : Transitive same_gone.
Proof. unfold same_gone. intros ?? ?. congruence. Qed.

Lemma uses_same_gone os : preserves same_gone (uses os).
Proof. intros s. unfold uses. by destruct (forallb _ _). Qed.
#[export] Hint Resolve uses_same_gone : preserves.
Lemma make_same_gone n deps : preserves same_gone (make n deps).
Proof. by intros s. Qed.
#[export] Hint Resolve make_same_gone : preserves.
Lemma new_same_gone n deps : preserves same_gone (new n deps).
Proof. unfold new. preserve. Qed.
Lemma call_same_gone os c : preserves same_gone (call os c).
Proof. unfold call. preserve. Qed.

Lemma new_made n deps s0 s S (Q : Z → hw → Prop) :
  made s0 s S → Forall (λ o, o ∈ S.*1) deps →
  (∀ s', h_new (h_world s0) (h_time s) = false → made s0 s' S → Q 0 s') →
  (∀ p s', 0 < p → made s0 s' (((kind_of n, p), deps) :: S) → Q p s') →
  total (new n deps) s Q.
Proof.
  intros [Hs Hg] Hd H0 H1. eapply total_preserves; [apply new_same_gone|].
  eapply new_total; [exact Hs|done|..]; unfold same_gone.
  - intros s' E H Hg'. apply H0; [done|]. split; [done|congruence].
  - intros p s' Hp H Hg'. apply H1; [done|]. split; [done|congruence].
Qed.

Lemma call_made os c s0 s S (Q : Z → hw → Prop) :
  made s0 s S → Forall (λ o, o ∈ S.*1) os →
  (∀ s', made s0 s' S → Q (h_int (h_world s0) (h_time s)) s') → total (call os c) s Q.
Proof.
  intros [Hs Hg] Ho HQ. eapply total_preserves; [apply call_same_gone|].
  eapply call_total; [exact Hs|done|]. unfold same_gone. intros s' H Hg'. apply HQ. split; [done|congruence].
Qed.

(** Giving up an object under objects [R] that do not need it: it goes, or a destructor's
    answer is not 0. *)
Lemma drop_hwst o deps R s0 s S :
  free_of o R → hwst s0 s (R ++ (o, deps) :: S) → hwst s0 (drop_obj o (tick s)) (R ++ S).
Proof.
  intros HR [Hw Hl Hst]. rewrite Hl, <-(assoc_L app) in Hst. cbn [app] in Hst.
  destruct (stacked_middle _ _ _ _ _ HR Hst) as (_ & Hf & Hst').
  constructor; [done|..]; unfold drop_obj; cbn [h_live tick set_h_live h_time].
  - by rewrite Hl, <-!(assoc_L app).
  - rewrite Hl, <-(assoc_L app). cbn [app]. rewrite Hf. eapply stacked_mono; [exact Hst'|lia].
Qed.

Lemma del_total o deps R s0 s S (Q : Z → hw → Prop) :
  free_of o R → hwst s0 s (R ++ (o, deps) :: S) →
  (∀ s', hwst s0 s' (R ++ S) → Q 0 s') →
  (∀ r s', r ≠ 0 → h_del (h_world s0) (h_time s) = r → hwst s0 s' (R ++ (o, deps) :: S) → Q r s') →
  total (del o) s Q.
Proof.
  intros HR Hs HQ HQ'. unfold del. apply total_bind. eapply uses_total; [exact Hs| |].
  { apply Forall_singleton. rewrite fmap_app, elem_of_app. right. by constructor. }
  apply total_bind, total_get, total_bind, total_modify.
  pose proof Hs as [Hw Hl Hst]. rewrite Hl, <-(assoc_L app) in Hst. cbn [app] in Hst.
  destruct (stacked_middle _ _ _ _ _ HR Hst) as (Hu & _ & _).
  rewrite Hl, <-(assoc_L app). cbn [app]. rewrite Hu.
  destruct (Z.eqb_spec (h_del (h_world s) (h_time s)) 0) as [E|E].
  - apply total_bind, total_modify, total_ret, HQ. by apply (drop_hwst _ deps).
  - apply total_ret, HQ'; [done|by rewrite Hw|by apply hwst_tick].
Qed.

Lemma release_total o deps R s0 s S (Q : () → hw → Prop) :
  free_of o R → hwst s0 s (R ++ (o, deps) :: S) →
  (∀ s', hwst s0 s' (R ++ S) → Q tt s') → total (release o) s Q.
Proof.
  intros HR Hs HQ. unfold release. apply total_bind. eapply uses_total; [exact Hs| |].
  { apply Forall_singleton. rewrite fmap_app, elem_of_app. right. by constructor. }
  apply total_modify, HQ. by apply (drop_hwst _ deps).
Qed.

Lemma hwst_trans s0 s1 s2 S1 S2 : hwst s0 s1 S1 → hwst s1 s2 S2 → hwst s0 s2 (S2 ++ S1).
Proof.
  intros [W1 L1 _] [W2 L2 K2]. constructor; [congruence| |done].
  by rewrite L2, L1, (assoc_L app).
Qed.

(** A sequence of objects to give up, whatever the answers. *)
Definition is_memory (o : obj) : bool :=
  match o.1 with KMem | KStr | KAddrs | KDevList => true | _ => false end.

Fixpoint destroys (l : list obj) : M hw () :=
  match l with
  | [] => mret tt
  | o :: l => if is_memory o then release o;; destroys l else del o;; destroys l
  end.

Lemma live_drop o o' s : o' ∈ (h_live s).*1 → o' ≠ o → o' ∈ (h_live (drop_obj o s)).*1.
Proof.
  rewrite !list_elem_of_fmap. intros ([x d] & -> & Hin) Hne. exists (x, d). split; [done|].
  apply list_elem_of_filter. auto.
Qed.

(** However the calls end, no object is used after it is gone. *)
Lemma destroys_total l s :
  NoDup l → Forall (λ o, o ∈ (h_live s).*1) l → total (destroys l) s (λ _ _, True).
Proof.
  revert s. induction l as [|o l IH]; intros s Hnd Hl; [done|]. cbn [destroys].
  apply NoDup_cons in Hnd as [Ho Hnd]. apply Forall_cons in Hl as [Hlive Hl].
  assert (∀ Q : () → hw → Prop, Q tt s → total (uses [o]) s Q) as Huse.
  { intros Q HQ. unfold total, uses, is_live. simpl. by rewrite bool_decide_true. }
  assert (∀ s', (∀ o', o' ∈ (h_live s).*1 → o' ≠ o → o' ∈ (h_live s').*1) →
    total (destroys l) s' (λ _ _, True)) as Hrest.
  { intros s' Hs'. apply IH; [done|]. rewrite Forall_forall in Hl |- *.
    intros o' Hin. apply Hs'; [by apply Hl|]. by intros ->. }
  destruct (is_memory o); apply total_bind; unfold release, del; apply total_bind, Huse.
  - apply total_modify, Hrest. intros. by apply live_drop.
  - apply total_bind, total_get, total_bind, total_modify. destruct (in_use _ _).
    { by apply total_ret, Hrest. }
    destruct (_ =? 0); [|by apply total_ret, Hrest].
    apply total_bind, total_modify, total_ret, Hrest. intros. by apply live_drop.
Qed.

(** When no answer is a refusal, the objects on top of the stack all go. *)
Lemma destroys_stack T s0 s S :
  (∀ n, h_del (h_world s0) n = 0) → hwst s0 s (T ++ S) →
  total (destroys T.*1) s (λ _ s', hwst s0 s' S).
Proof.
  intros Hdel. revert s. induction T as [|[o deps] T IH]; intros s Hs; [done|].
  cbn [app fmap list_fmap fst destroys]. cbn [app] in Hs. destruct (is_memory o); apply total_bind.
  - eapply (release_total _ _ []); [constructor|exact Hs|]. exact IH.
  - eapply (del_total _ _ []); [constructor|exact Hs|exact IH|]. intros r s' Hr E. by rewrite Hdel in E.
Qed.

(** Everything made since [s0] has been given up, each object once and the
    youngest first, whatever the destructors answered. *)
Definition undone (s0 s' : hw) : Prop :=
  ∃ T s1, made s0 s1 T ∧ destroys T.*1 s1 = (Done tt, s').

Lemma release_gone o s s' : release o s = (Done tt, s') → h_gone s' = h_gone s ++ [o].
Proof. unfold release. intros ([] & s1 & E & [= <-])%bind_done_inv. revert E. unfold uses. by destruct (forallb _ _); intros [= <-]. Qed.

Lemma del_gone o s s' : del o s = (Done 0, s') → h_gone s' = h_gone s ++ [o].
Proof.
  unfold del. intros ([] & s1 & E & H)%bind_done_inv.
  assert (s1 = s) as ->. { revert E. unfold uses. by destruct (forallb _ _); intros [= <-]. }
  revert H. unfold mbind, M_bind, get, modify. destruct (in_use _ _); [by intros [=]|].
  destruct (Z.eqb_spec (h_del (h_world s) (h_time s)) 0); intros [= E']; [|done].
  by subst.
Qed.

(** When no destructor refuses, the objects on top of the stack go one after
    the other. *)
Lemma destroys_gone T s0 s S s' :
  (∀ n, h_del (h_world s0) n = 0) → hwst s0 s (T ++ S) → destroys T.*1 s = (Done tt, s') →
  hwst s0 s' S ∧ h_gone s' = h_gone s ++ T.*1.
Proof.
  intros Hdel. revert s. induction T as [|[o deps] T IH]; intros s Hs E.
  { injection E as <-. by rewrite app_nil_r. }
  cbn [app fmap list_fmap fst destroys] in *. destruct (is_memory o).
  - apply bind_done_inv in E as ([] & s1 & E1 & E).
    assert (total (release o) s (λ _ s', hwst s0 s' (T ++ S))) as Ht
      by (eapply (release_total _ _ []); [constructor|exact Hs|done]).
    unfold total in Ht. rewrite E1 in Ht. destruct (IH s1 Ht E) as [H1 H2]. split; [done|].
    by rewrite H2, (release_gone _ _ _ E1), <-(assoc_L app).
  - apply bind_done_inv in E as (r & s1 & E1 & E).
    assert (total (del o) s (λ r s', r = 0 ∧ hwst s0 s' (T ++ S))) as Ht.
    { eapply (del_total _ _ []); [constructor|exact Hs|done|]. intros r' s2 Hr E'. by rewrite Hdel in E'. }
    unfold total in Ht. rewrite E1 in Ht. destruct Ht as [-> Ht].
    destruct (IH s1 Ht E) as [H1 H2]. split; [done|].
    by rewrite H2, (del_gone _ _ _ E1), <-(assoc_L app).
Qed.

Lemma undone_hwst s0 s' :
  (∀ n, h_del (h_world s0) n = 0) → undone s0 s' →
  hwst s0 s' [] ∧ ∃ T, stacked T.1 T.2 ∧ h_gone s' = h_gone s0 ++ T.2.*1.
Proof.
  intros Hd (T & s1 & [H1 Hg] & E).
  destruct (destroys_gone T s0 s1 [] s' Hd ltac:(by rewrite app_nil_r) E) as [H2 H3].
  split; [done|]. exists (Z.of_nat (h_time s1), T). split; [|by rewrite H3, Hg].
  apply (stacked_app_l _ _ (h_live s0)). cbn [fst snd]. rewrite <-(hs_live _ _ _ H1). apply H1.
Qed.

(** ** A device that accepts every call *)

Definition accepts (s : hw) : Prop := ∀ n, h_int (h_world s) n = 0.

Definition logged (c : hwcall) (s : hw) : hw := log c (tick s).

Lemma call_accepted os c s :
  accepts s → forallb (λ o, is_live o (h_live s)) os = true → call os c s = (Done 0, logged c s).
Proof.
  intros Ha Ho. unfold call. unfold uses at 1. unfold mbind, M_bind. rewrite Ho.
  unfold get, modify. cbn -[h_int]. by rewrite Ha.
Qed.

