(* ===== verification/Exch.v ===== *)
(** * The address exchange over TCP

    [pp_client_exch_dest] and [pp_server_exch_dest] of the examples: finding an
    address, connecting or accepting, and the three messages.  The server sets
    up its queue pair between the messages; that step is a parameter. *)

From S2P Require Import Prelude CLib OS Gid Verbs.

Local Open Scope Z_scope.

Definition sys {A} (m : M os A) : M hw A := zoom m.

(** The loop over the addresses: the descriptor of the first one that can be
    connected (or bound), [sockfd] being the one left by the rounds before. *)
Fixpoint try_addrs (l : list address) (sockfd : Z) : M hw Z :=
  match l with
  | [] => mret sockfd
  | t :: l =>
      let sockfd := a_fd t in
      if 0 <=? sockfd then
        sys (modify (set_conn sockfd (Conn [] [] [])));;
        if a_ok t then sys (modify (set_conn sockfd (a_conn t)));; mret sockfd
        else sys (shutdown_close sockfd);; try_addrs l (-1)
      else try_addrs l sockfd
  end.

(** [asprintf], [getaddrinfo], the loop and the two [free]s: a descriptor, or a
    negative number. *)
Definition open_socket (host : option cstr) (port : Z) : M hw Z :=
  service ← new NewStr [];
  if service =? 0 then mret (-1)
  else
    s ← get;
    modify (log (GetAddrInfo host (show_int (wrap_s 32 port))));;
    if h_gai (h_world s) <? 0 then release (KStr, service);; mret (-1)
    else
      res ← make NewAddrs [];
      sockfd ← try_addrs (h_addrs (h_world s)) (-1);
      release (KAddrs, res);;
      release (KStr, service);;
      mret sockfd.

(** [read (fd, msg, sizeof msg)]: the bytes read when there are [n] of them. *)
Definition read_msg (fd n : Z) : M hw (option (list char)) :=
  r ← sys (sys_read fd (Z.to_nat MSG_SIZE));
  mret (match r with
        | RdOk bs => if strlen bs =? n then Some bs else None
        | RdErr | RdIntr => None
        end).

(** [write (fd, buf, size) == size]. *)
Definition write_msg (fd : Z) (bs : list char) : M hw bool :=
  n ← sys (sys_write fd bs);
  match n with
  | Some n => modify (log (Wrote fd (take n bs)));; mret (n =? length bs)%nat
  | None => mret false
  end.

(** [while (n < size) { r = read (fd, msg + n, size - n); ... }]: the message, or
    [None] for an error.  At the end of the stream [read] returns 0 for ever. *)
Fixpoint read_rest (size : Z) (fuel : nat) (fd : Z) (msg : list char)
    : M hw (option (list char)) :=
  if strlen msg <? size then
    match fuel with
    | O => hang_
    | S fuel =>
        r ← sys (sys_read fd (Z.to_nat (size - strlen msg)));
        match r with
        | RdOk bs => read_rest size fuel fd (msg ++ bs)
        | RdErr | RdIntr => mret None
        end
    end
  else mret (Some msg).

(** A read that brings something takes an event of the script, or fills the
    message. *)
Definition read_all (size fd : Z) : M hw (option (list char)) :=
  s ← get;
  read_rest size (S (length (default [] (c_in <$> os_fds (h_os s) !! fd)))) fd [].

(** ["done"] with its terminator. *)
Definition done_msg : list char := L "done" ++ [NUL].

Definition rem_obj (p : Z) : obj := (KMem, p).

(** The address of the structure made for the peer's answer, with the answer. *)
Abbreviation remote := (Z * pingpong_dest)%type.

(** [rem_dest = malloc (...)], [sscanf] and [wire_gid_to_gid]. *)
Definition rem_dest (msg : list char) (gid : region) : M hw (option remote) :=
  p ← new NewStruct [];
  if p =? 0 then mret None
  else d ← lift (scan_dest msg gid); mret (Some (p, d)).

Definition pp_client_exch_dest (servername : cstr) (port : Z) (my_dest : pingpong_dest)
    : M hw (option remote) :=
  sockfd ← open_socket (Some servername) port;
  if sockfd <? 0 then mret None
  else
    msg ← or_fault OutOfBounds (dest_msg my_dest);
    ok ← write_msg sockfd msg;
    r ← (if negb ok then mret None
         else
           m ← read_msg sockfd MSG_SIZE;
           match m with
           | None => mret None
           | Some m =>
               ok ← write_msg sockfd done_msg;
               if negb ok then mret None else rem_dest m (client_gid my_dest)
           end);
    sys (shutdown_close sockfd);;
    mret r.

(** The server's side, the same text in the RC, UC and UD programs; [connect] is
    their [pp_connect_ctx] on the peer's address, [None] when it fails. *)
Definition server_exch {A} (connect : pingpong_dest → M hw (option A)) (port : Z)
    (my_dest : pingpong_dest) : M hw (option (Z * A)) :=
  sockfd ← open_socket None port;
  if sockfd <? 0 then mret None
  else
    connfd ← sys sys_accept;
    sys (shutdown_close sockfd);;
    match connfd with
    | None => mret None
    | Some connfd =>
        m ← read_msg connfd MSG_SIZE;
        r ← match m with
            | None => mret None
            | Some m =>
                r ← rem_dest m server_gid;
                match r with
                | None => mret None
                | Some (p, d) =>
                    e ← connect d;
                    match e with
                    | None => release (rem_obj p);; mret None
                    | Some a =>
                        msg ← or_fault OutOfBounds (dest_msg my_dest);
                        ok ← write_msg connfd msg;
                        m ← (if negb ok then mret None
                             else read_msg connfd (strlen done_msg));
                        match m with
                        | None => release (rem_obj p);; mret None
                        | Some _ => mret (Some (p, a))
                        end
                    end
                end
            end;
        sys (shutdown_close connfd);;
        mret r
    end.

(** With a [connect] that returns 0 for success. *)
Definition pp_server_exch_dest (connect : pingpong_dest → M hw Z) (port : Z)
    (my_dest : pingpong_dest) : M hw (option remote) :=
  server_exch (λ d, e ← connect d; mret (if e <>z 0 then None else Some d)) port my_dest.

(** ** Laws *)

(** What a call leaves alone when it only makes or gives up objects. *)
Definition same_io (s s' : hw) : Prop :=
  h_os s' = h_os s ∧ h_calls s' = h_calls s ∧ h_events s' = h_events s ∧ h_polls s' = h_polls s.

#[global] Instance same_io_refl : Reflexive same_io.
Proof. by intros s. Qed.
#[global] Instance same_io_trans : Transitive same_io.
Proof. intros s1 s2 s3 (?&?&?&?) (?&?&?&?). unfold same_io. split_and!; congruence. Qed.

Lemma uses_same_io os : preserves same_io (uses os).
Proof. intros s. unfold uses. by destruct (forallb _ _). Qed.
#[export] Hint Resolve uses_same_io : preserves.

Lemma make_same_io n deps : preserves same_io (make n deps).
Proof. intros s. done. Qed.
#[export] Hint Resolve make_same_io : preserves.

Lemma new_same_io n deps : preserves same_io (new n deps).
Proof. unfold new. preserve. Qed.
Lemma del_same_io o : preserves same_io (del o).
Proof. unfold del. preserve. Qed.
Lemma release_same_io o : preserves same_io (release o).
Proof. unfold release. preserve. Qed.
#[export] Hint Resolve new_same_io del_same_io release_same_io : preserves.

Lemma hwst_os s0 s S o : hwst s0 s S → hwst s0 (set_h_os o s) S.
Proof. by intros [H1 H2 H3]. Qed.

(** The first address that can be used. *)
Definition usable (a : address) : bool := (0 <=? a_fd a) && a_ok a.

Definition fresh_addrs (s : hw) : Prop :=
  Forall (λ a, os_fds (h_os s) !! a_fd a = None) (h_addrs (h_world s)).

Lemma close_open fd c o : os_fds o !! fd = None → shutdown_close fd (set_conn fd c o) = (Done tt, o).
Proof.
  intros H. unfold shutdown_close, modify, set_conn. simpl.
  rewrite delete_insert_id by done. by destruct o.
Qed.

Lemma set_h_os_id s : set_h_os (h_os s) s = s.
Proof. by destruct s. Qed.

Lemma try_addrs_eq l fd s :
  fd < 0 → Forall (λ a, os_fds (h_os s) !! a_fd a = None) l →
  match find usable l with
  | Some a => try_addrs l fd s =
      (Done (a_fd a), set_h_os (set_conn (a_fd a) (a_conn a) (h_os s)) s) ∧ 0 ≤ a_fd a
  | None => ∃ fd', try_addrs l fd s = (Done fd', s) ∧ fd' < 0
  end.
Proof.
  intros Hfd Hl. revert fd Hfd. induction Hl as [|a l Ha _ IH]; intros fd Hfd; cbn [find try_addrs].
  { by exists fd. }
  unfold usable at 1. destruct (Z.leb_spec 0 (a_fd a)) as [H0|H0]; cbn [andb]; [|by apply IH].
  erewrite bind_done by reflexivity. cbn [lset hw_os]. destruct (a_ok a).
  - erewrite bind_done by reflexivity. split; [|done]. unfold mret, M_ret. cbn [lset lget hw_os].
    unfold set_h_os. cbn. by rewrite set_conn_set_conn.
  - erewrite bind_done.
    2:{ apply zoom_done. cbn [lget hw_os set_h_os h_os]. by apply close_open. }
    cbn [lset lget hw_os].
    replace (set_h_os (h_os s) (set_h_os (set_conn (a_fd a) (Conn [] [] []) (h_os s)) s)) with s
      by (by destruct s).
    by apply IH.
Qed.

(** [open_socket]: whatever the answers, the service string and the address
    list are given back, and either nothing was opened or the connection of the
    first usable address is. *)
Definition socket_post (s : hw) (host : option cstr) (port fd : Z) (s' : hw) : Prop :=
  (fd < 0 ∧ h_os s' = h_os s) ∨
  (0 ≤ fd ∧ ∃ a, find usable (h_addrs (h_world s)) = Some a ∧ fd = a_fd a ∧
     h_os s' = set_conn fd (a_conn a) (h_os s) ∧
     h_calls s' = h_calls s ++ [GetAddrInfo host (show_int (wrap_s 32 port))]).

(** A frame may be used in proving the specification of a call. *)
Lemma total_using {S A} (R : S → S → Prop) (m : M S A) s (Q : A → S → Prop) :
  preserves R m → total m s (λ a s', R s s' → Q a s') → total m s Q.
Proof. intros HR. specialize (HR s). unfold total. destruct (m s) as [[] ?]; auto. Qed.

Lemma open_socket_total s0 s S host port :
  hwst s0 s S → fresh_addrs s →
  total (open_socket host port) s (λ fd s', hwst s0 s' S ∧ socket_post s host port fd s' ∧
    (h_new (h_world s0) (h_time s) = true → 0 ≤ h_gai (h_world s0) →
     is_Some (find usable (h_addrs (h_world s0))) → 0 ≤ fd)).
Proof.
  intros Hs Hf. pose proof (hs_world _ _ _ Hs) as Hw. unfold open_socket.
  apply total_bind, (total_using same_io); [apply new_same_io|].
  eapply new_total; [exact Hs|constructor|..].
  { intros s1 E H1 (Ho & _). change (0 =? 0) with true. cbv iota. apply total_ret.
    split; [done|]. split; [left; by split|].
    intros Hn. by rewrite Hn in E. }
  intros p s1 Hp H1 (Ho1 & Hc1 & _). destruct (Z.eqb_spec p 0); [lia|].
  apply total_bind, total_get, total_bind, total_modify. rewrite (hs_world _ _ _ H1).
  set (g := GetAddrInfo _ _). pose proof (hwst_log _ _ _ g H1) as H2.
  destruct (Z.ltb_spec (h_gai (h_world s0)) 0) as [Hg|Hg].
  { apply total_bind, (total_using same_io); [apply release_same_io|].
    eapply (release_total _ _ []); [constructor|exact H2|]. intros s3 H3 (Ho3 & _).
    apply total_ret. split; [done|]. split; [left; split; [done|rewrite Ho3; exact Ho1]|lia]. }
  apply total_bind, (total_using same_io); [apply make_same_io|].
  eapply make_total; [exact H2|constructor|]. intros q s3 Hq H3 (Ho3 & Hc3 & _).
  assert (Forall (λ a, os_fds (h_os s3) !! a_fd a = None) (h_addrs (h_world s0))) as Hf3.
  { rewrite Ho3. cbn [h_os log]. rewrite Ho1, <-Hw. exact Hf. }
  pose proof (try_addrs_eq _ (-1) s3 ltac:(lia) Hf3) as Ht.
  destruct (find usable (h_addrs (h_world s0))) as [a|] eqn:Efind.
  - destruct Ht as [Ht H0]. eapply total_bind_eq; [exact Ht|].
    set (s4 := set_h_os _ s3). pose proof (hwst_os _ _ _ (h_os s4) H3 : hwst s0 s4 _) as H4.
    apply total_bind, (total_using same_io); [apply release_same_io|].
    eapply (release_total _ _ []); [constructor|exact H4|]. intros s5 H5 (Ho5 & Hc5 & _).
    apply total_bind, (total_using same_io); [apply release_same_io|].
    eapply (release_total _ _ []); [constructor|exact H5|]. intros s6 H6 (Ho6 & Hc6 & _).
    apply total_ret. split; [done|]. split; [|done]. right. split; [done|].
    exists a. split_and!; [by rewrite Hw|done| |].
    + rewrite Ho6, Ho5. unfold s4. cbn [h_os set_h_os]. rewrite Ho3. cbn [h_os log]. by rewrite Ho1.
    + rewrite Hc6, Hc5. unfold s4. cbn [h_calls set_h_os]. rewrite Hc3. cbn [h_calls log].
      by rewrite Hc1.
  - destruct Ht as (fd & Ht & Hfd). eapply total_bind_eq; [exact Ht|].
    apply total_bind, (total_using same_io); [apply release_same_io|].
    eapply (release_total _ _ []); [constructor|exact H3|]. intros s5 H5 (Ho5 & _).
    apply total_bind, (total_using same_io); [apply release_same_io|].
    eapply (release_total _ _ []); [constructor|exact H5|]. intros s6 H6 (Ho6 & _).
    apply total_ret. split; [done|]. split; [left; split; [done|]|by intros _ _ [? ?]].
    rewrite Ho6, Ho5, Ho3. exact Ho1.
Qed.

(** ** An exchange that goes through *)

(** The message on the wire. *)
Definition dest_bytes (d : pingpong_dest) : list char := dest_text d ++ [NUL].

Lemma dest_bytes_length d : dest_ok d → strlen (dest_bytes d) = MSG_SIZE.
Proof. intros H. unfold strlen, dest_bytes. by rewrite length_app, dest_text_length. Qed.

(** While talking on [fd], the rest of the system is [o]. *)
Lemma write_msg_ok fd bs evs out o s :
  h_os s = set_conn fd (Conn evs [] out) o →
  ∃ s', write_msg fd bs s = (Done true, s') ∧ h_os s' = set_conn fd (Conn evs [] (out ++ bs)) o ∧
    h_calls s' = h_calls s ++ [Wrote fd bs] ∧ h_world s' = h_world s ∧ h_live s' = h_live s ∧
    h_time s' = h_time s.
Proof.
  intros Ho. unfold write_msg, sys. erewrite bind_done.
  2:{ apply zoom_done. cbn [lget hw_os]. rewrite Ho. apply sys_write_all. }
  cbv beta iota. erewrite bind_done by reflexivity. rewrite Nat.eqb_refl.
  eexists. split; [reflexivity|]. cbn. by rewrite firstn_all.
Qed.

Lemma read_msg_ok fd n bs evs out o s :
  h_os s = set_conn fd (Conn (InData bs :: evs) [] out) o → strlen bs = n → n ≤ MSG_SIZE →
  ∃ s', read_msg fd n s = (Done (Some bs), s') ∧ h_os s' = set_conn fd (Conn evs [] out) o ∧
    h_calls s' = h_calls s ∧ h_world s' = h_world s ∧ h_live s' = h_live s ∧
    h_time s' = h_time s.
Proof.
  intros Ho Hn Hm. unfold read_msg, sys. erewrite bind_done.
  2:{ apply zoom_done. cbn [lget hw_os]. rewrite Ho. apply sys_read_data. unfold strlen in Hn. lia. }
  cbv beta iota. rewrite Hn, Z.eqb_refl. by eexists.
Qed.

(** The part of [hwst] talking on a socket keeps. *)
Lemma hwst_same s0 s s' S :
  hwst s0 s S → h_world s' = h_world s → h_live s' = h_live s → h_time s' = h_time s → hwst s0 s' S.
Proof. intros [H1 H2 H3] E1 E2 E3. constructor; [congruence..|]. by rewrite E2, E3. Qed.

Lemma rem_dest_ok s0 s S d buf :
  hwst s0 s S → (∀ n, h_new (h_world s0) n = true) → dest_ok d →
  total (rem_dest (dest_bytes d) buf) s (λ r s', ∃ p, r = Some (p, d) ∧
    hwst s0 s' ((rem_obj p, []) :: S) ∧ same_io s s').
Proof.
  intros Hs Hn Hd. unfold rem_dest. apply total_bind, (total_using same_io); [apply new_same_io|].
  eapply new_total; [exact Hs|constructor|..].
  { intros s1 E. by rewrite Hn in E. }
  intros p s1 Hp H1 Hio. destruct (Z.eqb_spec p 0); [lia|].
  unfold dest_bytes. rewrite scan_dest_text by done. by exists p.
Qed.

Lemma found_fresh s a :
  fresh_addrs s → find usable (h_addrs (h_world s)) = Some a → os_fds (h_os s) !! a_fd a = None.
Proof.
  unfold fresh_addrs. rewrite Forall_forall. intros Hf [Ha _]%find_some.
  apply Hf. by apply list_elem_of_In.
Qed.

Definition client_calls (host : cstr) (port : Z) (fd : Z) (d : pingpong_dest) : list hwcall :=
  [GetAddrInfo (Some host) (show_int (wrap_s 32 port)); Wrote fd (dest_bytes d);
   Wrote fd done_msg].

Lemma client_exch_ok s0 s S host port my d fd :
  hwst s0 s S → (∀ n, h_new (h_world s0) n = true) → 0 ≤ h_gai (h_world s0) →
  fresh_addrs s → dest_ok my → dest_ok d →
  find usable (h_addrs (h_world s0)) = Some (Address fd true (Conn [InData (dest_bytes d)] [] [])) →
  total (pp_client_exch_dest host port my) s (λ r s', ∃ p, r = Some (p, d) ∧
    hwst s0 s' ((rem_obj p, []) :: S) ∧ h_os s' = h_os s ∧
    h_calls s' = h_calls s ++ client_calls host port fd my).
Proof.
  intros Hs Hn Hg Hf Hmy Hd Ha. unfold pp_client_exch_dest. apply total_bind.
  eapply total_mono; [by apply (open_socket_total s0 s S (Some host) port)|].
  intros fd' s1 (H1 & Hsock & Hok). rewrite Ha in Hok. specialize (Hok (Hn _) Hg (ltac:(by eexists))).
  destruct (Z.ltb_spec fd' 0) as [|_]; [lia|].
  destruct Hsock as [[? _]|(_ & a & Ea & -> & Ho1 & Hc1)]; [lia|].
  rewrite (hs_world _ _ _ Hs), Ha in Ea. injection Ea as <-. cbn [a_fd a_conn] in *.
  rewrite dest_msg_ok by done. cbn [or_fault]. apply total_bind, total_ret.
  destruct (write_msg_ok fd (dest_bytes my) _ _ _ s1 Ho1) as (s2 & E2 & Ho2 & Hc2 & W2 & L2 & T2).
  eapply total_bind_eq; [exact E2|]. cbn [negb]. cbv iota.
  destruct (read_msg_ok fd MSG_SIZE (dest_bytes d) _ _ _ s2 Ho2 (dest_bytes_length d Hd) ltac:(done))
    as (s3 & E3 & Ho3 & Hc3 & W3 & L3 & T3).
  apply total_bind. eapply total_bind_eq; [exact E3|].
  destruct (write_msg_ok fd done_msg _ _ _ s3 Ho3) as (s4 & E4 & Ho4 & Hc4 & W4 & L4 & T4).
  eapply total_bind_eq; [exact E4|]. cbn [negb]. cbv iota.
  assert (hwst s0 s4 S) as H4 by (eapply hwst_same; [exact H1|congruence..]).
  eapply total_mono; [by apply (rem_dest_ok s0 s4 S d)|]. intros r s5 (p & -> & H5 & (Ho5 & Hc5 & _)).
  eapply total_bind_eq.
  { apply zoom_done. cbn [lget hw_os]. rewrite Ho5, Ho4. apply close_open.
    rewrite <-(hs_world _ _ _ Hs) in Ha. exact (found_fresh _ _ Hf Ha). }
  apply total_ret. exists p. split; [done|]. split; [by apply hwst_os|]. split; [done|].
  cbn [h_calls lset hw_os set_h_os]. rewrite Hc5, Hc4, Hc3, Hc2, Hc1, <-!(assoc_L app). done.
Qed.

(** ** The server's side *)

(** What accepting leaves of the system: one connection fewer to come. *)
Definition accepted (o : os) : os :=
  let n := os_net o in
  set_net (Net (n_dial n) (n_dialed n) (tail (n_accept n)) (n_pid n) (n_fork n) (n_exec n)) o.

Lemma sys_accept_ok fd c l o lfd lc :
  n_accept (os_net o) = AccOk fd c :: l →
  sys_accept (set_conn lfd lc o) = (Done (Some fd), set_conn fd c (set_conn lfd lc (accepted o))).
Proof. intros H. unfold sys_accept, accepted. cbn [os_net set_conn]. by rewrite H. Qed.

Lemma accepted_fds o : os_fds (accepted o) = os_fds o.
Proof. done. Qed.

Lemma set_conn_comm fd fd' c c' o :
  fd ≠ fd' → set_conn fd c (set_conn fd' c' o) = set_conn fd' c' (set_conn fd c o).
Proof. intros H. unfold set_conn. simpl. by rewrite insert_insert_ne. Qed.

Lemma close_other lfd fd lc c o :
  fd ≠ lfd → os_fds o !! lfd = None →
  shutdown_close lfd (set_conn fd c (set_conn lfd lc o)) = (Done tt, set_conn fd c o).
Proof.
  intros Hne Ho. rewrite set_conn_comm by done. apply close_open. simpl.
  by rewrite lookup_insert_ne.
Qed.

Definition server_calls (port fd : Z) (connect_calls : list hwcall) (d : pingpong_dest)
    : list hwcall :=
  GetAddrInfo None (show_int (wrap_s 32 port)) :: connect_calls ++ [Wrote fd (dest_bytes d)].

Lemma server_exch_ok s0 s S connect cc port my d lst fd l :
  hwst s0 s S → (∀ n, h_new (h_world s0) n = true) → 0 ≤ h_gai (h_world s0) →
  fresh_addrs s → dest_ok my → dest_ok d →
  find usable (h_addrs (h_world s0)) = Some lst →
  n_accept (os_net (h_os s)) =
    AccOk fd (Conn [InData (dest_bytes d); InData done_msg] [] []) :: l →
  os_fds (h_os s) !! fd = None → fd ≠ a_fd lst →
  (∀ s T, hwst s0 s (T ++ S) → total (connect d) s (λ r s', r = 0 ∧ hwst s0 s' (T ++ S) ∧
     h_os s' = h_os s ∧ h_calls s' = h_calls s ++ cc)) →
  total (pp_server_exch_dest connect port my) s (λ r s', ∃ p, r = Some (p, d) ∧
    hwst s0 s' ((rem_obj p, []) :: S) ∧ h_os s' = accepted (h_os s) ∧
    h_calls s' = h_calls s ++ server_calls port fd cc my).
Proof.
  intros Hs Hn Hg Hf Hmy Hd Ha Hacc Hfd Hne Hconn. unfold pp_server_exch_dest, server_exch.
  apply total_bind.
  eapply total_mono; [by apply (open_socket_total s0 s S None port)|].
  intros fd' s1 (H1 & Hsock & Hok). rewrite Ha in Hok. specialize (Hok (Hn _) Hg (ltac:(by eexists))).
  destruct (Z.ltb_spec fd' 0) as [|_]; [lia|].
  destruct Hsock as [[? _]|(_ & a & Ea & -> & Ho1 & Hc1)]; [lia|].
  rewrite (hs_world _ _ _ Hs), Ha in Ea. injection Ea as <-.
  assert (os_fds (h_os s) !! a_fd lst = None) as Hlst.
  { apply found_fresh; [done|]. by rewrite (hs_world _ _ _ Hs). }
  set (cn := Conn _ [] []) in Hacc.
  eapply total_bind_eq.
  { apply zoom_done. cbn [lget hw_os]. rewrite Ho1. exact (sys_accept_ok fd cn l _ _ _ Hacc). }
  eapply total_bind_eq.
  { apply zoom_done. cbn [lget hw_os lset set_h_os h_os]. by apply close_other. }
  set (s2 := lset _ (lset _ s1)).
  assert (h_os s2 = set_conn fd cn (accepted (h_os s))) as Ho2 by done.
  assert (hwst s0 s2 S) as H2 by by apply hwst_os, hwst_os.
  destruct (read_msg_ok fd MSG_SIZE (dest_bytes d) _ _ _ s2 Ho2 (dest_bytes_length d Hd) ltac:(done))
    as (s3 & E3 & Ho3 & Hc3 & W3 & L3 & T3).
  eapply total_bind_eq; [exact E3|]. cbv iota.
  assert (hwst s0 s3 S) as H3 by (eapply hwst_same; [exact H2|congruence..]).
  apply total_bind, total_bind. eapply total_mono; [by apply (rem_dest_ok s0 s3 S d)|].
  intros r s4 (p & -> & H4 & (Ho4 & Hc4 & _)). cbv iota.
  apply total_bind, total_bind. eapply total_mono; [by apply (Hconn s4 [(rem_obj p, [])])|].
  intros r s5 (-> & H5 & Ho5 & Hc5). apply total_ret. change (0 <>z 0) with false. cbv iota.
  rewrite dest_msg_ok by done. cbn [or_fault]. apply total_bind, total_ret.
  rewrite Ho4, Ho3 in Ho5.
  destruct (write_msg_ok fd (dest_bytes my) _ _ _ s5 Ho5) as (s6 & E6 & Ho6 & Hc6 & W6 & L6 & T6).
  eapply total_bind_eq; [exact E6|]. cbn [negb]. cbv iota.
  destruct (read_msg_ok fd (strlen done_msg) done_msg _ _ _ s6 Ho6 eq_refl ltac:(done))
    as (s7 & E7 & Ho7 & Hc7 & W7 & L7 & T7).
  eapply total_bind_eq; [exact E7|]. cbv iota. apply total_ret.
  assert (hwst s0 s7 ((rem_obj p, []) :: S)) as H7 by (eapply hwst_same; [exact H5|congruence..]).
  eapply total_bind_eq.
  { apply zoom_done. cbn [lget hw_os]. rewrite Ho7. by apply close_open. }
  apply total_ret. exists p. split; [done|]. split; [by apply hwst_os|]. split; [done|].
  cbn [h_calls lset hw_os set_h_os].
  rewrite Hc7, Hc6, Hc5, Hc4, Hc3. change (h_calls s2) with (h_calls s1).
  by rewrite Hc1, <-!(assoc_L app).
Qed.
