(* ===== verification/Keeps.v ===== *)
(** * Calls that leave the objects alone

    Most calls of a pingpong neither make nor give up an object.  This file has
    the relation [keeps] they preserve, and the exchange of addresses, which
    leaves at most the structure with the peer's address behind. *)

From S2P Require Import Prelude CLib OS Gid Verbs Exch.

Local Open Scope Z_scope.

Lemma hwst_later s0 s s' S :
  hwst s0 s S → h_world s' = h_world s → h_live s' = h_live s → (h_time s ≤ h_time s')%nat →
  hwst s0 s' S.
Proof.
  intros [H1 H2 H3] E1 E2 E3. constructor; [congruence..|]. rewrite E2.
  eapply stacked_mono; [exact H3|lia].
Qed.

(** Calls that neither make nor give up objects. *)
Definition keeps (s s' : hw) : Prop :=
  h_world s' = h_world s ∧ h_live s' = h_live s ∧ (h_time s ≤ h_time s')%nat.

#[global] Instance keeps_refl : Reflexive keeps.
Proof. by intros s. Qed.
#[global] Instance keeps_trans : Transitive keeps.
Proof. intros s1 s2 s3 (?&?&?) (?&?&?). unfold keeps. split_and!; [congruence..|lia]. Qed.

Lemma uses_keeps os : preserves keeps (uses os).
Proof. intros s. unfold uses. by destruct (forallb _ _). Qed.
#[export] Hint Resolve uses_keeps : preserves.

Lemma modify_keeps f : (∀ s, keeps s (f s)) → preserves keeps (modify f).
Proof. intros H s. apply H. Qed.

Lemma keeps_tick s : keeps s (tick s).
Proof. unfold keeps. simpl. split_and!; [done..|lia]. Qed.
Lemma keeps_log c s : keeps s (log c s).
Proof. done. Qed.
Lemma keeps_polls l s : keeps s (set_h_polls l s).
Proof. done. Qed.
Lemma keeps_events l s : keeps s (set_h_events l s).
Proof. done. Qed.

Lemma sys_keeps {A} (m : M os A) : preserves keeps (sys m).
Proof. apply preserves_zoom. done. Qed.
#[export] Hint Resolve sys_keeps : preserves.

(** Walk through a program of such calls. *)
Ltac keep := repeat first
  [ apply modify_keeps; intros ?; first [apply keeps_tick | done] | preserve_step; cbv beta iota ].

Lemma call_keeps os c : preserves keeps (call os c).
Proof. unfold call. keep. Qed.
#[export] Hint Resolve call_keeps : preserves.

Lemma int_add_keeps x y : preserves keeps (int_add x y).
Proof. unfold int_add. keep. Qed.
#[export] Hint Resolve int_add_keeps : preserves.

Lemma poll_cq_keeps cq n : preserves keeps (poll_cq cq n).
Proof. unfold poll_cq. keep. Qed.
Lemma next_wc_keeps cq : preserves keeps (next_wc cq).
Proof. unfold next_wc. keep. Qed.
Lemma get_cq_event_keeps ch : preserves keeps (get_cq_event ch).
Proof. unfold get_cq_event. keep. Qed.
#[export] Hint Resolve poll_cq_keeps next_wc_keeps get_cq_event_keeps : preserves.

Lemma try_addrs_keeps l fd : preserves keeps (try_addrs l fd).
Proof. revert fd. induction l as [|a l IH]; intros fd; cbn [try_addrs]; keep. Qed.
Lemma read_msg_keeps fd n : preserves keeps (read_msg fd n).
Proof. unfold read_msg. keep. Qed.
Lemma write_msg_keeps fd bs : preserves keeps (write_msg fd bs).
Proof. unfold write_msg. keep. Qed.
Lemma read_rest_keeps size fuel fd msg : preserves keeps (read_rest size fuel fd msg).
Proof. revert msg. induction fuel as [|fuel IH]; intros msg; cbn [read_rest]; keep. Qed.
#[export] Hint Resolve read_rest_keeps : preserves.
Lemma read_all_keeps size fd : preserves keeps (read_all size fd).
Proof. unfold read_all. keep. Qed.
#[export] Hint Resolve read_all_keeps : preserves.
#[export] Hint Resolve try_addrs_keeps read_msg_keeps write_msg_keeps : preserves.

(** ** Runs over a stack of objects *)

Lemma hwst_keeps s0 s s' S : hwst s0 s S → keeps s s' → hwst s0 s' S.
Proof. intros H (E1 & E2 & E3). by eapply hwst_later. Qed.

Section run.
Context {A B : Type} (m : M hw A) (k : A → M hw B).

Lemma returns_keeps s0 s S Q :
  preserves keeps m → hwst s0 s S → (∀ a s', hwst s0 s' S → returns (k a) s' Q) →
  returns (m ≫= k) s Q.
Proof using.
  intros Hm Hs HQ. apply returns_bind. intros a s' E. apply HQ.
  eapply hwst_keeps; [exact Hs|]. specialize (Hm s). by rewrite E in Hm.
Qed.

Lemma returns_total s Q1 Q :
  total m s Q1 → (∀ a s', Q1 a s' → returns (k a) s' Q) → returns (m ≫= k) s Q.
Proof using.
  intros Hm HQ. apply returns_bind. intros a s' E. apply HQ. unfold total in Hm. by rewrite E in Hm.
Qed.
End run.

Lemma release_hwst s0 s S o deps :
  hwst s0 s ((o, deps) :: S) → total (release o) s (λ _ s', hwst s0 s' S).
Proof. intros Hs. by eapply (release_total o deps []); [apply Forall_nil_2|exact Hs|]. Qed.

Lemma make_hwst s0 s S n :
  hwst s0 s S → total (make n []) s (λ p s', hwst s0 s' (((kind_of n, p), []) :: S)).
Proof. intros Hs. by eapply make_total; [exact Hs|apply Forall_nil_2|]. Qed.

Lemma new_hwst s0 s S n :
  hwst s0 s S → total (new n []) s (λ p s', (p = 0 ∧ hwst s0 s' S) ∨
    (p ≠ 0 ∧ hwst s0 s' (((kind_of n, p), []) :: S))).
Proof.
  intros Hs. eapply new_total; [exact Hs|apply Forall_nil_2|by left|].
  intros p s' Hp H. right. split; [lia|done].
Qed.

Lemma open_socket_returns s0 s S host port :
  hwst s0 s S → returns (open_socket host port) s (λ _ s', hwst s0 s' S).
Proof.
  intros Hs. unfold open_socket. eapply returns_total.
  { by apply (new_hwst s0 s S). }
  intros p s1 [[-> H1]|[Hp H1]]; [by apply returns_ret|]. destruct (Z.eqb_spec p 0); [done|].
  eapply returns_keeps; [keep|exact H1|]. intros s2' s2 H2.
  eapply returns_keeps; [apply modify_keeps, keeps_log|exact H2|]. intros ? s3 H3.
  destruct (h_gai _ <? 0).
  { eapply returns_total; [eapply release_hwst; exact H3|].
    intros ? s4 H4. by apply returns_ret. }
  eapply returns_total; [by eapply make_hwst|].
  intros q s4 H4. eapply returns_keeps; [keep|exact H4|]. intros fd s5 H5.
  eapply returns_total; [eapply release_hwst; exact H5|].
  intros ? s6 H6.
  eapply returns_total; [eapply release_hwst; exact H6|].
  intros ? s7 H7. by apply returns_ret.
Qed.

(** What an exchange leaves: the structure with the peer's address, or nothing. *)
Definition exch_post (s0 : hw) (S : list (obj * list obj)) (r : option remote) (s' : hw) : Prop :=
  match r with
  | Some (p, _) => hwst s0 s' ((rem_obj p, []) :: S)
  | None => hwst s0 s' S
  end.

Lemma rem_dest_returns s0 s S msg g :
  hwst s0 s S → returns (rem_dest msg g) s (exch_post s0 S).
Proof.
  intros Hs. unfold rem_dest. eapply returns_total.
  { by apply (new_hwst s0 s S). }
  intros p s1 [[-> H1]|[Hp H1]]; [by apply returns_ret|]. destruct (Z.eqb_spec p 0); [done|].
  eapply returns_keeps; [keep|exact H1|]. intros d s2 H2. by apply returns_ret.
Qed.

Lemma exch_close s0 S fd r s :
  exch_post s0 S r s → returns (sys (shutdown_close fd);; mret r) s (exch_post s0 S).
Proof.
  intros H. apply returns_bind. intros [] s' E. apply returns_ret.
  pose proof (sys_keeps (shutdown_close fd) s) as Hk. rewrite E in Hk.
  destruct r as [[p d]|]; simpl in *; by eapply hwst_keeps.
Qed.

Lemma client_exch_returns s0 s S h port my :
  hwst s0 s S → returns (pp_client_exch_dest h port my) s (exch_post s0 S).
Proof.
  intros Hs. unfold pp_client_exch_dest. apply returns_bind.
  eapply returns_mono; [by eapply open_socket_returns|]. intros fd s1 H1.
  destruct (fd <? 0); [by apply returns_ret|].
  eapply returns_keeps; [keep|exact H1|]. intros msg s2 H2.
  eapply returns_keeps; [keep|exact H2|]. intros ok s3 H3. apply returns_bind.
  apply (returns_mono _ _ (exch_post s0 S)); [|by intros r s' H; apply exch_close].
  destruct (negb ok); [by apply returns_ret|].
  eapply returns_keeps; [keep|exact H3|]. intros [m|] s4 H4; [|by apply returns_ret].
  eapply returns_keeps; [keep|exact H4|]. intros ok' s5 H5.
  destruct (negb ok'); [by apply returns_ret|]. by apply rem_dest_returns.
Qed.

(** [F a] are the objects the connection has added, which may need [os], and [P]
    what else is known of its result. *)
Lemma server_exch_returns {B} (P : B → Prop) (F : B → list (obj * list obj)) os s0 s S connect port my :
  (∀ d s T, hwst s0 s T → Forall (λ o, o ∈ T.*1) os → returns (connect d) s (λ r s',
     match r with Some a => P a ∧ hwst s0 s' (F a ++ T) | None => hwst s0 s' T end)) →
  hwst s0 s S → Forall (λ o, o ∈ S.*1) os →
  returns (server_exch connect port my) s (λ r s',
    match r with Some (p, a) => P a ∧ hwst s0 s' (F a ++ (rem_obj p, []) :: S) | None => True end).
Proof.
  intros Hconn Hs Hin. unfold server_exch. apply returns_bind.
  eapply returns_mono; [by eapply open_socket_returns|]. intros fd s1 H1.
  destruct (fd <? 0); [by apply returns_ret|].
  eapply returns_keeps; [keep|exact H1|]. intros cfd s2 H2.
  eapply returns_keeps; [keep|exact H2|]. intros ? s3 H3.
  destruct cfd as [cfd|]; [|by apply returns_ret].
  eapply returns_keeps; [keep|exact H3|]. intros m s4 H4. apply returns_bind.
  apply (returns_mono _ _ (λ r s',
    match r with Some (p, a) => P a ∧ hwst s0 s' (F a ++ (rem_obj p, []) :: S) | None => True end)).
  2:{ intros [[p b]|] s5 H5; apply returns_bind; intros ? s6 E6; apply returns_ret; [|done].
      pose proof (sys_keeps (shutdown_close cfd) s5) as Hk. rewrite E6 in Hk.
      destruct H5 as [HP H5]. split; [done|]. by eapply hwst_keeps. }
  destruct m as [m|]; [|by apply returns_ret]. apply returns_bind.
  eapply returns_mono; [by apply rem_dest_returns|]. intros [[p d]|] s5 H5; [|by apply returns_ret].
  simpl in H5. apply returns_bind. eapply returns_mono; [apply Hconn; [exact H5|]|].
  { eapply Forall_impl; [exact Hin|]. intros x Hx. by right. }
  intros [b|] s6 H6; [destruct H6 as [HP H6]|].
  2:{ apply returns_bind. intros ? s7 _. by apply returns_ret. }
  eapply returns_keeps; [keep|exact H6|]. intros msg s7 H7.
  eapply returns_keeps; [keep|exact H7|]. intros ok s8 H8.
  eapply returns_keeps; [keep|exact H8|]. intros [m'|] s9 H9; [by apply returns_ret|].
  apply returns_bind. intros ? s10 _. by apply returns_ret.
Qed.

Lemma pp_server_exch_returns s0 s S connect port my :
  (∀ d, preserves keeps (connect d)) → hwst s0 s S →
  returns (pp_server_exch_dest connect port my) s (λ r s',
    match r with Some (p, _) => hwst s0 s' ((rem_obj p, []) :: S) | None => True end).
Proof.
  intros Hconn Hs. eapply returns_mono.
  - apply (server_exch_returns (λ _, True) (λ _, []) []); [|done|apply Forall_nil_2].
    intros d s1 T H1 _. eapply returns_keeps; [apply Hconn|exact H1|]. intros e s2 H2.
    apply returns_ret. by destruct (e <>z 0).
  - by intros [[p d]|] s' H; [destruct H|].
Qed.
