(* ===== verification/RcPingpong.v ===== *)
(** * The reliable-connection pingpong (rdma-core/rc_pingpong.c)

    The program's context and its life cycle (set up, connect, tear down), the
    posting of work requests, the treatment of completions, and [main] with its
    options, its event loop and its final check of the buffer.  Diagnostics and
    the report of the timings are left out. *)

From S2P Require Import Prelude CLib OS Gid Verbs Exch.

Local Open Scope Z_scope.

Definition PINGPONG_RECV_WRID : Z := 1.
Definition PINGPONG_SEND_WRID : Z := 2.

(** Constants of the verbs interface. *)
Definition IBV_ACCESS_LOCAL_WRITE : Z := 1.
Definition IBV_ACCESS_ZERO_BASED : Z := 32.
Definition IBV_ACCESS_ON_DEMAND : Z := 64.
Definition IBV_SEND_SIGNALED : Z := 2.
Definition IBV_SEND_INLINE : Z := 8.
Definition IBV_ODP_SUPPORT : Z := 1.
Definition IBV_ODP_SUPPORT_IMPLICIT : Z := 2.
Definition IBV_ODP_SUPPORT_SEND : Z := 1.
Definition IBV_ODP_SUPPORT_RECV : Z := 2.
Definition IBV_WC_SUCCESS : Z := 0.

(** The static variables of the file, set by the options. *)
Record globals := Globals {
  use_odp : bool;
  implicit_odp : bool;
  prefetch_mr : bool;
  use_ts : bool;
  validate_buf : bool;
  use_dm : bool;
  use_new_send : bool }.

(** [struct pingpong_context]: its own address, then its fields, with 0 for a
    NULL pointer; [qpx] is the same object as [qp], and [contents] are the
    bytes the program has written where [buf] points.  The port's attributes
    are read from the device ([local_dest]). *)
Record pingpong_context := Context {
  self : Z;
  context : Z;
  channel : Z;
  pd : Z;
  mr : Z;
  dm : Z;
  cq : Z;
  qp : Z;
  buf : Z;
  contents : list Z;
  size : Z;
  send_flags : Z;
  rx_depth : Z;
  pending : Z;
  completion_timestamp_mask : Z }.

Definition set_context (v : Z) (c : pingpong_context) : pingpong_context :=
  Context (self c) v (channel c) (pd c) (mr c) (dm c) (cq c) (qp c) (buf c) (contents c)
    (size c) (send_flags c) (rx_depth c) (pending c)
    (completion_timestamp_mask c).
Definition set_channel (v : Z) (c : pingpong_context) : pingpong_context :=
  Context (self c) (context c) v (pd c) (mr c) (dm c) (cq c) (qp c) (buf c) (contents c)
    (size c) (send_flags c) (rx_depth c) (pending c)
    (completion_timestamp_mask c).
Definition set_pd (v : Z) (c : pingpong_context) : pingpong_context :=
  Context (self c) (context c) (channel c) v (mr c) (dm c) (cq c) (qp c) (buf c)
    (contents c) (size c) (send_flags c) (rx_depth c) (pending c)
    (completion_timestamp_mask c).
Definition set_mr (v : Z) (c : pingpong_context) : pingpong_context :=
  Context (self c) (context c) (channel c) (pd c) v (dm c) (cq c) (qp c) (buf c)
    (contents c) (size c) (send_flags c) (rx_depth c) (pending c)
    (completion_timestamp_mask c).
Definition set_dm (v : Z) (c : pingpong_context) : pingpong_context :=
  Context (self c) (context c) (channel c) (pd c) (mr c) v (cq c) (qp c) (buf c)
    (contents c) (size c) (send_flags c) (rx_depth c) (pending c)
    (completion_timestamp_mask c).
Definition set_cq (v : Z) (c : pingpong_context) : pingpong_context :=
  Context (self c) (context c) (channel c) (pd c) (mr c) (dm c) v (qp c) (buf c)
    (contents c) (size c) (send_flags c) (rx_depth c) (pending c)
    (completion_timestamp_mask c).
Definition set_qp (v : Z) (c : pingpong_context) : pingpong_context :=
  Context (self c) (context c) (channel c) (pd c) (mr c) (dm c) (cq c) v (buf c)
    (contents c) (size c) (send_flags c) (rx_depth c) (pending c)
    (completion_timestamp_mask c).
Definition set_buf (v : Z) (c : pingpong_context) : pingpong_context :=
  Context (self c) (context c) (channel c) (pd c) (mr c) (dm c) (cq c) (qp c) v (contents c)
    (size c) (send_flags c) (rx_depth c) (pending c)
    (completion_timestamp_mask c).
Definition set_contents (v : list Z) (c : pingpong_context) : pingpong_context :=
  Context (self c) (context c) (channel c) (pd c) (mr c) (dm c) (cq c) (qp c) (buf c) v
    (size c) (send_flags c) (rx_depth c) (pending c)
    (completion_timestamp_mask c).
Definition set_send_flags (v : Z) (c : pingpong_context) : pingpong_context :=
  Context (self c) (context c) (channel c) (pd c) (mr c) (dm c) (cq c) (qp c) (buf c)
    (contents c) (size c) v (rx_depth c) (pending c)
    (completion_timestamp_mask c).
Definition set_pending (v : Z) (c : pingpong_context) : pingpong_context :=
  Context (self c) (context c) (channel c) (pd c) (mr c) (dm c) (cq c) (qp c) (buf c)
    (contents c) (size c) (send_flags c) (rx_depth c) v
    (completion_timestamp_mask c).
Definition set_completion_timestamp_mask (v : Z) (c : pingpong_context) : pingpong_context :=
  Context (self c) (context c) (channel c) (pd c) (mr c) (dm c) (cq c) (qp c) (buf c)
    (contents c) (size c) (send_flags c) (rx_depth c) (pending c) v.

(** ** Connecting *)

(** The GID of the peer is given when its interface id is not zero. *)
Definition has_interface_id (g : list Z) : bool := existsb (λ b, b <>z 0) (drop 8 g).

Definition rc_ah (d : pingpong_dest) (port sl sgid_idx : Z) : ah_attr :=
  if has_interface_id (gid d)
  then AhAttr 1 (wrap_u 16 (lid d)) (wrap_u 8 sl) 0 (wrap_u 8 port) 1 (gid d) (wrap_u 8 sgid_idx)
  else AhAttr 0 (wrap_u 16 (lid d)) (wrap_u 8 sl) 0 (wrap_u 8 port) 0 (replicate 16 0) 0.

Definition rtr_attrs (port mtu sl : Z) (dest : pingpong_dest) (sgid_idx : Z) : list qp_attr :=
  [QP_STATE QPS_RTR; QP_AV (rc_ah dest port sl sgid_idx); QP_PATH_MTU mtu;
   QP_DEST_QPN (wrap_u 32 (qpn dest)); QP_RQ_PSN (wrap_u 32 (psn dest));
   QP_MAX_DEST_RD_ATOMIC 1; QP_MIN_RNR_TIMER 12].
Definition rts_attrs (my_psn : Z) : list qp_attr :=
  [QP_STATE QPS_RTS; QP_TIMEOUT 14; QP_RETRY_CNT 7; QP_RNR_RETRY 7;
   QP_SQ_PSN (wrap_u 32 my_psn); QP_MAX_QP_RD_ATOMIC 1].

Definition pp_connect_ctx (ctx : pingpong_context) (port my_psn mtu sl : Z)
    (dest : pingpong_dest) (sgid_idx : Z) : M hw Z :=
  r ← call [(KQp, qp ctx)] (ModifyQp (qp ctx) (rtr_attrs port mtu sl dest sgid_idx));
  if r <>z 0 then mret 1
  else
    r ← call [(KQp, qp ctx)] (ModifyQp (qp ctx) (rts_attrs my_psn));
    if r <>z 0 then mret 1 else mret 0.

(** ** Setting up

    The labels of [pp_init_ctx], each one falling into the next. *)
Definition clean_ctx (ctx : pingpong_context) : M hw () := release (KMem, self ctx).
Definition clean_buffer (ctx : pingpong_context) : M hw () :=
  release (KMem, buf ctx);; clean_ctx ctx.
Definition clean_device (ctx : pingpong_context) : M hw () :=
  del (KContext, context ctx);; clean_buffer ctx.
Definition clean_comp_channel (ctx : pingpong_context) : M hw () :=
  (if channel ctx =? 0 then mret 0 else del (KChannel, channel ctx));; clean_device ctx.
Definition clean_pd (ctx : pingpong_context) : M hw () :=
  del (KPd, pd ctx);; clean_comp_channel ctx.
Definition clean_dm (ctx : pingpong_context) : M hw () :=
  (if dm ctx =? 0 then mret 0 else del (KDm, dm ctx));; clean_pd ctx.
Definition clean_mr (ctx : pingpong_context) : M hw () := del (KMr, mr ctx);; clean_dm ctx.
Definition clean_cq (ctx : pingpong_context) : M hw () := del (KCq, cq ctx);; clean_mr ctx.
Definition clean_qp (ctx : pingpong_context) : M hw () := del (KQp, qp ctx);; clean_cq ctx.

(** [NULL] after the clean-up [c]. *)
Definition fail_with {A} (c : M hw ()) : M hw (option A) := c;; mret None.

(** The objects an optional handle stands for. *)
Definition opt_obj (k : kind) (p : Z) : list obj := if p =? 0 then [] else [(k, p)].

(** The features asked for, against what the device can do; the context and
    the access flags. *)
Definition init_features (G : globals) (ctx : pingpong_context) (access_flags : Z)
    : M hw (option (pingpong_context * Z)) :=
  if use_odp G || use_ts G || use_dm G then
    r ← call [(KContext, context ctx)] (QueryDevice (context ctx));
    if r <>z 0 then fail_with (clean_pd ctx)
    else
      s ← get;
      let d := h_dev (h_world s) in
      let rc_caps_mask := Z.lor IBV_ODP_SUPPORT_SEND IBV_ODP_SUPPORT_RECV in
      if use_odp G && ((Z.land (odp_general d) IBV_ODP_SUPPORT =? 0) ||
                       (Z.land (odp_rc d) rc_caps_mask <>z rc_caps_mask))
      then fail_with (clean_pd ctx)
      else if use_odp G && implicit_odp G && (Z.land (odp_general d) IBV_ODP_SUPPORT_IMPLICIT =? 0)
      then fail_with (clean_pd ctx)
      else
        let access_flags := if use_odp G then Z.lor access_flags IBV_ACCESS_ON_DEMAND
                            else access_flags in
        if use_ts G && (ts_mask d =? 0) then fail_with (clean_pd ctx)
        else
          let ctx := if use_ts G then set_completion_timestamp_mask (ts_mask d) ctx else ctx in
          if use_dm G then
            if max_dm_size d =? 0 then fail_with (clean_pd ctx)
            else if max_dm_size d <? wrap_u 64 (size ctx) then fail_with (clean_pd ctx)
            else
              p ← new (NewDm (wrap_u 64 (size ctx))) [(KContext, context ctx)];
              let ctx := set_dm p ctx in
              if p =? 0 then fail_with (clean_pd ctx)
              else mret (Some (ctx, Z.lor access_flags IBV_ACCESS_ZERO_BASED))
          else mret (Some (ctx, access_flags))
  else mret (Some (ctx, access_flags)).

(** [ibv_reg_mr] of everything, [ibv_reg_dm_mr] or [ibv_reg_mr] of the buffer. *)
Definition register (G : globals) (ctx : pingpong_context) (access_flags : Z) : M hw Z :=
  if implicit_odp G then new (NewMr true 0 access_flags) [(KPd, pd ctx)]
  else if use_dm G then
    new (NewMr false (wrap_u 64 (size ctx)) access_flags) [(KPd, pd ctx); (KDm, dm ctx)]
  else new (NewMr false (wrap_u 64 (size ctx)) access_flags) [(KPd, pd ctx); (KMem, buf ctx)].

Definition work_sge (s : hw) (G : globals) (ctx : pingpong_context) : sge :=
  Sge (if use_dm G then 0 else buf ctx) (wrap_u 32 (size ctx)) (mr_lkey (h_dev (h_world s)) (mr ctx)).

(** From the registration on: the prefetch, whose failure is ignored, the
    completion queue, the queue pair and its first transition. *)
Definition init_queues (G : globals) (ctx : pingpong_context) (port access_flags : Z)
    : M hw (option pingpong_context) :=
  p ← register G ctx access_flags;
  let ctx := set_mr p ctx in
  if p =? 0 then fail_with (clean_dm ctx)
  else
    s ← get;
    (if prefetch_mr G then
       call [(KPd, pd ctx); (KMr, mr ctx)]
         (AdviseMr (pd ctx)
            (Sge (buf ctx) (wrap_u 32 (size ctx)) (mr_lkey (h_dev (h_world s)) (mr ctx))))
     else mret 0);;
    cqe ← int_add (rx_depth ctx) 1;
    p ← new (NewCq (use_ts G) cqe)
          ((KContext, context ctx) :: opt_obj KChannel (channel ctx));
    let ctx := set_cq p ctx in
    if p =? 0 then fail_with (clean_mr ctx)
    else
      p ← new (NewQp (use_new_send G) QPT_RC 1 (wrap_u 32 (rx_depth ctx)))
            [(KPd, pd ctx); (KCq, cq ctx)];
      let ctx := set_qp p ctx in
      if p =? 0 then fail_with (clean_cq ctx)
      else
        r ← call [(KQp, qp ctx)] (QueryQp (qp ctx));
        s ← get;
        let max_inline_data :=
          if (r =? 0) || negb (use_new_send G) then max_inline (h_dev (h_world s)) else 0 in
        let ctx := if (wrap_u 32 (size ctx) <=? max_inline_data) && negb (use_dm G)
                   then set_send_flags (Z.lor (send_flags ctx) IBV_SEND_INLINE) ctx else ctx in
        r ← call [(KQp, qp ctx)] (ModifyQp (qp ctx)
              [QP_STATE QPS_INIT; QP_PKEY_INDEX 0; QP_PORT (wrap_u 8 port); QP_ACCESS_FLAGS 0]);
        if r <>z 0 then fail_with (clean_qp ctx) else mret (Some ctx).

(** [calloc]: everything not set is zero. *)
Definition new_context (p size rx_depth : Z) : pingpong_context :=
  Context p 0 0 0 0 0 0 0 0 [] size IBV_SEND_SIGNALED rx_depth 0 0.

Definition pp_init_ctx (G : globals) (ib_dev size rx_depth port : Z) (use_event : bool)
    : M hw (option pingpong_context) :=
  p ← new NewStruct [];
  if p =? 0 then mret None
  else
    let ctx := new_context p size rx_depth in
    p ← new (NewMem (wrap_u 64 size)) [];
    let ctx := set_buf p ctx in
    if p =? 0 then fail_with (clean_ctx ctx)
    else
      let ctx := set_contents (replicate (Z.to_nat size) 0x7b) ctx in
      p ← new (NewContext ib_dev) [];
      let ctx := set_context p ctx in
      if p =? 0 then fail_with (clean_buffer ctx)
      else
        p ← (if use_event then new NewChannel [(KContext, context ctx)] else mret 0);
        let ctx := set_channel p ctx in
        if use_event && (p =? 0) then fail_with (clean_device ctx)
        else
          p ← new NewPd [(KContext, context ctx)];
          let ctx := set_pd p ctx in
          if p =? 0 then fail_with (clean_comp_channel ctx)
          else
            r ← init_features G ctx IBV_ACCESS_LOCAL_WRITE;
            match r with
            | None => mret None
            | Some (ctx, access_flags) => init_queues G ctx port access_flags
            end.

(** ** Tearing down *)

(** One step of [pp_close_ctx]: the object must go, or the call returns 1. *)
Definition close_step (o : obj) (k : M hw Z) : M hw Z :=
  r ← del o; if r <>z 0 then mret 1 else k.

Definition pp_close_ctx (ctx : pingpong_context) : M hw Z :=
  close_step (KQp, qp ctx) (
  close_step (KCq, cq ctx) (
  close_step (KMr, mr ctx) (
  let k :=
    close_step (KPd, pd ctx) (
    let k :=
      close_step (KContext, context ctx) (
      release (KMem, buf ctx);;
      release (KMem, self ctx);;
      mret 0) in
    if channel ctx =? 0 then k else close_step (KChannel, channel ctx) k) in
  if dm ctx =? 0 then k else close_step (KDm, dm ctx) k))).

(** ** Posting work *)

(** The loop of [pp_post_recv]: [k] receives are left to post, [i] are posted. *)
Fixpoint post_recvs (c : M hw Z) (k : nat) (i : Z) : M hw Z :=
  match k with
  | O => mret i
  | S k => r ← c; if r <>z 0 then mret i else post_recvs c k (i + 1)
  end.

Definition pp_post_recv (G : globals) (ctx : pingpong_context) (n : Z) : M hw Z :=
  s ← get;
  post_recvs (call [(KQp, qp ctx); (KMr, mr ctx)]
                (PostRecv (qp ctx) PINGPONG_RECV_WRID (work_sge s G ctx)))
    (Z.to_nat n) 0.

Definition pp_post_send (G : globals) (ctx : pingpong_context) : M hw Z :=
  s ← get;
  let list := work_sge s G ctx in
  call [(KQp, qp ctx); (KMr, mr ctx)]
    (if use_new_send G
     then WrSend (qp ctx) PINGPONG_SEND_WRID (send_flags ctx) list
     else PostSend (qp ctx) PINGPONG_SEND_WRID (send_flags ctx) list).

(** ** Completions *)

(** [struct ts_params]. *)
Record ts_params := TsParams {
  comp_recv_max_time_delta : Z;
  comp_recv_min_time_delta : Z;
  comp_recv_total_time_delta : Z;
  comp_recv_prev_time : Z;
  last_comp_with_ts : Z;
  comp_with_time_iters : Z }.

(** The variables of [main] a completion changes, over the hardware. *)
Record rc_state := RcState {
  rc_hw : hw;
  ctx : pingpong_context;
  scnt : Z;
  rcnt : Z;
  routs : Z;
  ts : ts_params;
  num_cq_events : Z }.

Definition set_rc_hw (v : hw) (s : rc_state) : rc_state :=
  RcState v (ctx s) (scnt s) (rcnt s) (routs s) (ts s) (num_cq_events s).
Definition set_ctx (v : pingpong_context) (s : rc_state) : rc_state :=
  RcState (rc_hw s) v (scnt s) (rcnt s) (routs s) (ts s) (num_cq_events s).
Definition set_scnt (v : Z) (s : rc_state) : rc_state :=
  RcState (rc_hw s) (ctx s) v (rcnt s) (routs s) (ts s) (num_cq_events s).
Definition set_rcnt (v : Z) (s : rc_state) : rc_state :=
  RcState (rc_hw s) (ctx s) (scnt s) v (routs s) (ts s) (num_cq_events s).
Definition set_routs (v : Z) (s : rc_state) : rc_state :=
  RcState (rc_hw s) (ctx s) (scnt s) (rcnt s) v (ts s) (num_cq_events s).
Definition set_ts (v : ts_params) (s : rc_state) : rc_state :=
  RcState (rc_hw s) (ctx s) (scnt s) (rcnt s) (routs s) v (num_cq_events s).
Definition set_num_cq_events (v : Z) (s : rc_state) : rc_state :=
  RcState (rc_hw s) (ctx s) (scnt s) (rcnt s) (routs s) (ts s) v.

#[global] Program Instance rc_state_hw : Lens rc_state hw := {| lget := rc_hw; lset := set_rc_hw |}.
Next Obligation. done. Qed.
Next Obligation. by intros []. Qed.
Next Obligation. done. Qed.

Definition dev {A} (m : M hw A) : M rc_state A := zoom m.

(** [++x] on an [int]. *)
Definition incr (x : Z) : M rc_state Z :=
  if x =? int_max then fault_ Overflow else mret (x + 1).

(** The time between two completions, over the wrap-around of the device's
    clock. *)
Definition ts_delta (mask prev t : Z) : Z :=
  if prev <=? t then t - prev else wrap_u 64 (mask - prev + t + 1).

Definition record_ts (mask t : Z) (p : ts_params) : ts_params :=
  let p := if last_comp_with_ts p =? 0 then p
           else
             let delta := ts_delta mask (comp_recv_prev_time p) t in
             TsParams (Z.max (comp_recv_max_time_delta p) delta)
               (Z.min (comp_recv_min_time_delta p) delta)
               (wrap_u 64 (comp_recv_total_time_delta p + delta))
               (comp_recv_prev_time p) (last_comp_with_ts p)
               (wrap_u 32 (comp_with_time_iters p + 1)) in
  TsParams (comp_recv_max_time_delta p) (comp_recv_min_time_delta p)
    (comp_recv_total_time_delta p) t 1 (comp_with_time_iters p).

Definition no_ts (p : ts_params) : ts_params :=
  TsParams (comp_recv_max_time_delta p) (comp_recv_min_time_delta p)
    (comp_recv_total_time_delta p) (comp_recv_prev_time p) 0 (comp_with_time_iters p).

(** The [case PINGPONG_RECV_WRID] of the switch: whether to go on. *)
Definition recv_done (G : globals) (t : Z) : M rc_state bool :=
  s ← get;
  let r := routs s - 1 in
  modify (set_routs r);;
  ok ← (if r <=? 1 then
          n ← dev (pp_post_recv G (ctx s) (rx_depth (ctx s) - r));
          modify (set_routs (r + n));;
          mret (rx_depth (ctx s) <=? r + n)
        else mret true);
  if negb ok then mret false
  else
    n ← incr (rcnt s);
    modify (set_rcnt n);;
    modify (λ s', set_ts (if use_ts G
                          then record_ts (completion_timestamp_mask (ctx s)) t (ts s')
                          else no_ts (ts s')) s');;
    mret true.

Definition parse_single_wc (G : globals) (iters : Z) (w : wc) : M rc_state Z :=
  if wc_status w <>z IBV_WC_SUCCESS then mret 1
  else
    let wr_id := wrap_s 32 (wc_wr_id w) in
    ok ← (if wr_id =? PINGPONG_SEND_WRID then
            s ← get; n ← incr (scnt s); modify (set_scnt n);; mret true
          else if wr_id =? PINGPONG_RECV_WRID then recv_done G (wc_timestamp w)
          else mret false);
    if negb ok then mret 1
    else
      modify (λ s, set_ctx (set_pending (Z.land (pending (ctx s)) (Z.lnot wr_id)) (ctx s)) s);;
      s ← get;
      if (scnt s <? iters) && (pending (ctx s) =? 0) then
        r ← dev (pp_post_send G (ctx s));
        if r <>z 0 then mret 1
        else
          modify (λ s, set_ctx (set_pending (Z.lor PINGPONG_RECV_WRID PINGPONG_SEND_WRID)
                                  (ctx s)) s);;
          mret 0
      else mret 0.

(** ** The event loop

    What one round of the loop gives: the return code of [main], or [None] to
    go on. *)
Definition wait_event (use_event : bool) : M rc_state (option Z) :=
  if use_event then
    s ← get;
    let c := ctx s in
    ev_cq ← dev (get_cq_event (channel c));
    if ev_cq =? 0 then mret (Some 1)
    else
      n ← incr (num_cq_events s);
      modify (set_num_cq_events n);;
      if ev_cq <>z cq c then mret (Some 1)
      else
        r ← dev (call [(KCq, cq c)] (ReqNotifyCq (cq c)));
        mret (if r <>z 0 then Some 1 else None)
  else mret None.

(** [do { ... } while (!use_event && nothing)]: polling with no event left
    goes on for ever. *)
Fixpoint spin {A} (fuel : nat) (poll : M rc_state A) (again : A → bool) : M rc_state A :=
  match fuel with
  | O => hang_
  | S fuel => r ← poll; if again r then spin fuel poll again else mret r
  end.

(** The round with timestamps. *)
Definition poll_ts (G : globals) (iters : Z) (use_event : bool) : M rc_state (option Z) :=
  s ← get;
  r ← spin (S (length (h_polls (rc_hw s)))) (dev (next_wc (cq (ctx s))))
        (λ r, negb use_event && match r with inl e => e =? ENOENT | inr _ => false end);
  match r with
  | inl ret => mret (Some ret)
  | inr w =>
      ret ← parse_single_wc G iters w;
      if ret <>z 0 then mret (Some ret)
      else
        r ← dev (next_wc (cq (ctx s)));
        ret ← (match r with
               | inl ret => mret ret
               | inr w => parse_single_wc G iters w
               end);
        mret (if (ret <>z 0) && (ret <>z ENOENT) then Some ret else None)
  end.

(** The loop over the completions of a poll. *)
Fixpoint parse_all (G : globals) (iters : Z) (l : list wc) : M rc_state (option Z) :=
  match l with
  | [] => mret None
  | w :: l =>
      ret ← parse_single_wc G iters w;
      if ret <>z 0 then mret (Some 1) else parse_all G iters l
  end.

(** The round without timestamps: up to two completions. *)
Definition poll_plain (G : globals) (iters : Z) (use_event : bool) : M rc_state (option Z) :=
  s ← get;
  r ← spin (S (length (h_polls (rc_hw s)))) (dev (poll_cq (cq (ctx s)) 2))
        (λ r, negb use_event && match r with inr [] => true | _ => false end);
  match r with
  | inl _ => mret (Some 1)
  | inr l => parse_all G iters l
  end.

Definition round (G : globals) (iters : Z) (use_event : bool) : M rc_state (option Z) :=
  r ← wait_event use_event;
  match r with
  | Some rc => mret (Some rc)
  | None => (if use_ts G then poll_ts else poll_plain) G (wrap_s 32 iters) use_event
  end.

(** [while (rcnt < iters || scnt < iters)], [iters] being unsigned. *)
Fixpoint main_loop (fuel : nat) (G : globals) (iters : Z) (use_event : bool)
    : M rc_state (option Z) :=
  match fuel with
  | O => hang_
  | S fuel =>
      s ← get;
      if (wrap_u 32 (rcnt s) <? iters) || (wrap_u 32 (scnt s) <? iters) then
        r ← round G iters use_event;
        match r with
        | Some rc => mret (Some rc)
        | None => main_loop fuel G iters use_event
        end
      else mret None
  end.

(** Every round consumes an event or a completion. *)
Definition poll_size (l : list poll_event) : nat :=
  foldr (λ e n, match e with PollWcs w => S (length w) + n | PollErr _ => S n end)%nat 0%nat l.
Definition loop_fuel (s : hw) : nat := S (length (h_events s) + poll_size (h_polls s)).

(** ** Options *)

Record rc_opts := RcOpts {
  o_port : Z;
  o_ib_devname : option cstr;
  o_servername : option cstr;
  o_ib_port : Z;
  o_size : Z;
  o_mtu : Z;
  o_rx_depth : Z;
  o_iters : Z;
  o_use_event : Z;
  o_sl : Z;
  o_gidx : Z;
  o_globals : globals }.

Definition default_opts : rc_opts :=
  RcOpts 18515 None None 1 4096 IBV_MTU_1024 500 1000 0 0 (-1)
    (Globals false false false false false false false).

Definition set_o_globals (f : globals → globals) (o : rc_opts) : rc_opts :=
  RcOpts (o_port o) (o_ib_devname o) (o_servername o) (o_ib_port o) (o_size o) (o_mtu o)
    (o_rx_depth o) (o_iters o) (o_use_event o) (o_sl o) (o_gidx o) (f (o_globals o)).

(** One option as [getopt_long] returns it, with [optarg]; [None] is the usage
    error. *)
Definition parse_opt (c : char) (optarg : cstr) (o : rc_opts) : option rc_opts :=
  let '(RcOpts port ib_devname servername ib_port size mtu rx_depth iters use_event sl gidx g) := o in
  let '(Globals odp iodp pre ts chk dmem new_send) := g in
  match c with
  | "p"%char =>
      let port := wrap_u 32 (strtoul0 optarg) in
      if 65535 <? port then None
      else Some (RcOpts port ib_devname servername ib_port size mtu rx_depth iters use_event sl gidx g)
  | "d"%char =>
      Some (RcOpts port (Some optarg) servername ib_port size mtu rx_depth iters use_event sl gidx g)
  | "i"%char =>
      let ib_port := wrap_s 32 (strtol0 optarg) in
      if ib_port <? 1 then None
      else Some (RcOpts port ib_devname servername ib_port size mtu rx_depth iters use_event sl gidx g)
  | "s"%char =>
      Some (RcOpts port ib_devname servername ib_port (wrap_u 32 (strtoul0 optarg)) mtu rx_depth
              iters use_event sl gidx g)
  | "m"%char =>
      let mtu := pp_mtu_to_enum (wrap_s 32 (strtol0 optarg)) in
      if mtu =? 0 then None
      else Some (RcOpts port ib_devname servername ib_port size mtu rx_depth iters use_event sl gidx g)
  | "r"%char =>
      Some (RcOpts port ib_devname servername ib_port size mtu (wrap_u 32 (strtoul0 optarg)) iters
              use_event sl gidx g)
  | "n"%char =>
      Some (RcOpts port ib_devname servername ib_port size mtu rx_depth (wrap_u 32 (strtoul0 optarg))
              use_event sl gidx g)
  | "l"%char =>
      Some (RcOpts port ib_devname servername ib_port size mtu rx_depth iters use_event
              (wrap_s 32 (strtol0 optarg)) gidx g)
  | "e"%char =>
      Some (RcOpts port ib_devname servername ib_port size mtu rx_depth iters (use_event + 1) sl gidx g)
  | "g"%char =>
      Some (RcOpts port ib_devname servername ib_port size mtu rx_depth iters use_event sl
              (wrap_s 32 (strtol0 optarg)) g)
  | "o"%char => Some (set_o_globals (λ _, Globals true iodp pre ts chk dmem new_send) o)
  | "P"%char => Some (set_o_globals (λ _, Globals odp iodp true ts chk dmem new_send) o)
  | "O"%char => Some (set_o_globals (λ _, Globals true true pre ts chk dmem new_send) o)
  | "t"%char => Some (set_o_globals (λ _, Globals odp iodp pre true chk dmem new_send) o)
  | "c"%char => Some (set_o_globals (λ _, Globals odp iodp pre ts true dmem new_send) o)
  | "j"%char => Some (set_o_globals (λ _, Globals odp iodp pre ts chk true new_send) o)
  | "N"%char => Some (set_o_globals (λ _, Globals odp iodp pre ts chk dmem true) o)
  | _ => None
  end.

Fixpoint parse_opts (l : list (char * cstr)) (o : rc_opts) : option rc_opts :=
  match l with
  | [] => Some o
  | (c, optarg) :: l => o ← parse_opt c optarg o; parse_opts l o
  end.

(** The arguments left after the options. *)
Definition parse_rest (rest : list cstr) (o : rc_opts) : option rc_opts :=
  match rest with
  | [] => Some o
  | [h] => Some (RcOpts (o_port o) (o_ib_devname o) (Some h) (o_ib_port o) (o_size o) (o_mtu o)
                   (o_rx_depth o) (o_iters o) (o_use_event o) (o_sl o) (o_gidx o) (o_globals o))
  | _ => None
  end.

(** The options of a run, or [None] when [main] returns 1 at once. *)
Definition rc_options (args : list (char * cstr)) (rest : list cstr) : option rc_opts :=
  o ← parse_opts args default_opts;
  o ← parse_rest rest o;
  let g := o_globals o in
  if use_odp g && use_dm g then None
  else if negb (use_odp g) && prefetch_mr g then None
  else Some o.

(** ** The contents of the buffer *)

(** The offsets [0, page, 2 * page, ...] below [size]; [fuel] rounds. *)
Fixpoint page_starts (fuel : nat) (i size page : Z) : list Z :=
  match fuel with
  | O => []
  | S fuel => if i <? size then i :: page_starts fuel (i + page) size page else []
  end.

(** [i / page_size % sizeof (char)]. *)
Definition page_mark (page i : Z) : Z := Z.rem (Z.quot i page) 1.

(** The client's loop over its buffer. *)
Definition fill_pages (size page : Z) (b : list Z) : list Z :=
  foldl (λ b i, <[Z.to_nat i := page_mark page i]> b) b
    (page_starts (Z.to_nat size) 0 size page).

(** The pages the server reports as invalid. *)
Definition invalid_pages (size page : Z) (b : list Z) : list Z :=
  (λ i, Z.quot i page) <$>
  filter (λ i, b !! Z.to_nat i ≠ Some (page_mark page i))
    (page_starts (Z.to_nat size) 0 size page).

(** ** [main] *)

(** What a run of [main] meets besides the hardware: the options found by
    [getopt_long] and the remaining arguments, the devices (names and
    addresses; [None] when the list cannot be had), the page size, a random
    number, and what the buffer holds at the end. *)
Record run_env := RunEnv {
  e_args : list (char * cstr);
  e_rest : list cstr;
  e_devs : option (list (cstr * Z));
  e_page_size : Z;
  e_rand : Z;
  e_buf : list Z }.

(** The device asked for, or the first one. *)
Definition pick_device (name : option cstr) (l : list (cstr * Z)) : option Z :=
  match name with
  | None => snd <$> head l
  | Some n => snd <$> find (λ d, str_eq d.1 n) l
  end.

(** The port's attributes and this end's address. *)
Definition local_dest (G : globals) (o : rc_opts) (c : pingpong_context) (rand : Z)
    : M hw (option pingpong_dest) :=
  r ← call [(KContext, context c)] (QueryPort (context c) (wrap_u 8 (o_ib_port o)));
  if r <>z 0 then mret None
  else
    s ← get;
    let d := h_dev (h_world s) in
    if negb (port_ethernet d) && (port_lid d =? 0) then mret None
    else
      g ← (if 0 <=? o_gidx o then
             r ← call [(KContext, context c)]
                   (QueryGid (context c) (wrap_u 8 (o_ib_port o)) (o_gidx o));
             mret (if r <>z 0 then None else Some (port_gid d (o_gidx o)))
           else mret (Some (replicate 16 0)));
      mret (g ← g; Some (Dest (port_lid d) (qp_num d (qp c)) (Z.land rand 0xffffff) g)).

Definition exch_dest (o : rc_opts) (c : pingpong_context) (my_dest : pingpong_dest)
    : M hw (option remote) :=
  let connect := λ d,
    pp_connect_ctx c (o_ib_port o) (psn my_dest) (o_mtu o) (o_sl o) d (o_gidx o) in
  match o_servername o with
  | Some h =>
      r ← pp_client_exch_dest h (o_port o) my_dest;
      match r with
      | None => mret None
      | Some (p, d) => e ← connect d; mret (if e <>z 0 then None else Some (p, d))
      end
  | None => pp_server_exch_dest connect (o_port o) my_dest
  end.

(** Up to the exchange of the addresses: the context and the address of the
    peer's structure, with [routs]. *)
Definition setup (o : rc_opts) (ib_dev rand : Z) : M hw (option (pingpong_context * Z * Z)) :=
  let G := o_globals o in
  c ← pp_init_ctx G ib_dev (wrap_s 32 (o_size o)) (wrap_s 32 (o_rx_depth o)) (o_ib_port o)
        (o_use_event o <>z 0);
  match c with
  | None => mret None
  | Some c =>
      routs ← pp_post_recv G c (rx_depth c);
      if routs <? rx_depth c then mret None
      else
        r ← (if o_use_event o <>z 0 then call [(KCq, cq c)] (ReqNotifyCq (cq c)) else mret 0);
        if r <>z 0 then mret None
        else
          my_dest ← local_dest G o c rand;
          match my_dest with
          | None => mret None
          | Some my_dest =>
              r ← exch_dest o c my_dest;
              mret ('(p, _) ← r; Some (c, p, routs))
          end
  end.

(** The client's first message. *)
Definition first_send (o : rc_opts) (page : Z) (c : pingpong_context)
    : M hw (option pingpong_context) :=
  let G := o_globals o in
  let c := set_pending PINGPONG_RECV_WRID c in
  match o_servername o with
  | None => mret (Some c)
  | Some _ =>
      let c := if validate_buf G then set_contents (fill_pages (o_size o) page (contents c)) c
               else c in
      r ← (if use_dm G then call [(KDm, dm c); (KMem, buf c)] (MemcpyToDm (dm c) (size c))
           else mret 0);
      if r <>z 0 then mret None
      else
        r ← pp_post_send G c;
        if r <>z 0 then mret None
        else mret (Some (set_pending (Z.lor (pending c) PINGPONG_SEND_WRID) c))
  end.

Definition ts_start : ts_params := TsParams 0 0xffffffff 0 0 0 0.

(** The loop's run on the hardware, and what it leaves. *)
Definition run_loop (o : rc_opts) (c : pingpong_context) (routs : Z)
    : M hw (option Z * rc_state) := λ s,
  let st := RcState s c 0 0 routs ts_start 0 in
  match main_loop (loop_fuel s) (o_globals o) (o_iters o) (o_use_event o <>z 0) st with
  | (Done r, st) => (Done (r, st), rc_hw st)
  | (Exited z, st) => (Exited z, rc_hw st)
  | (Fault f, st) => (Fault f, rc_hw st)
  | (Hang, st) => (Hang, rc_hw st)
  end.

(** The server's check of the buffer: the pages reported. *)
Definition final_check (o : rc_opts) (e : run_env) (c : pingpong_context)
    : M hw (option (list Z)) :=
  let G := o_globals o in
  match o_servername o with
  | Some _ => mret (Some [])
  | None =>
      if validate_buf G then
        r ← (if use_dm G then call [(KDm, dm c); (KMem, buf c)] (MemcpyFromDm (dm c) (size c))
             else mret 0);
        mret (if r <>z 0 then None
              else Some (invalid_pages (o_size o) (e_page_size e) (e_buf e)))
      else mret (Some [])
  end.

(** From the first time stamp to the end. *)
Definition measure (o : rc_opts) (e : run_env) (c : pingpong_context) (dev_list rem routs : Z)
    : M hw (Z * list Z) :=
  r ← call [] GetTimeOfDay;
  if r <>z 0 then mret (1, [])
  else
    '(r, st) ← run_loop o c routs;
    match r with
    | Some rc => mret (rc, [])
    | None =>
        r ← call [] GetTimeOfDay;
        if r <>z 0 then mret (1, [])
        else
          p ← final_check o e c;
          match p with
          | None => mret (1, [])
          | Some p =>
              call [(KCq, cq c)] (AckCqEvents (cq c) (num_cq_events st));;
              r ← pp_close_ctx c;
              if r <>z 0 then mret (1, p)
              else
                release (KDevList, dev_list);;
                release (rem_obj rem);;
                mret (0, p)
          end
    end.

(** The return code and the invalid pages reported. *)
Definition main (e : run_env) : M hw (Z * list Z) :=
  match rc_options (e_args e) (e_rest e) with
  | None => mret (1, [])
  | Some o =>
      match e_devs e with
      | None => mret (1, [])
      | Some devs =>
          dev_list ← make NewDevList [];
          match pick_device (o_ib_devname o) devs with
          | None => mret (1, [])
          | Some ib_dev =>
              r ← setup o ib_dev (e_rand e);
              match r with
              | None => mret (1, [])
              | Some (c, rem, routs) =>
                  c ← first_send o (e_page_size e) c;
                  match c with
                  | None => mret (1, [])
                  | Some c => measure o e c dev_list rem routs
                  end
              end
          end
      end
  end.
