(* ===== verification/RcLife.v ===== *)
(** * Life cycle of the reliable-connection pingpong

    Setting up either gives a context whose objects all exist or gives
    everything back; tearing down gives back exactly those objects. *)

From Stdlib Require Import ZifyBool Sorted.
From S2P Require Import Prelude CLib OS Gid Verbs Exch RcPingpong.

Local Open Scope Z_scope.

(** The objects of a context, the youngest first, with what they depend on. *)
Definition opt_entry (k : kind) (p : Z) (deps : list obj) : list (obj * list obj) :=
  if p =? 0 then [] else [((k, p), deps)].

Definition mr_deps (G : globals) (c : pingpong_context) : list obj :=
  (KPd, pd c) ::
  if implicit_odp G then [] else if use_dm G then [(KDm, dm c)] else [(KMem, buf c)].

Definition stack_ctx (c : pingpong_context) : list (obj * list obj) := [((KMem, self c), [])].
Definition stack_buf (c : pingpong_context) := ((KMem, buf c), []) :: stack_ctx c.
Definition stack_device (c : pingpong_context) := ((KContext, context c), []) :: stack_buf c.
Definition stack_channel (c : pingpong_context) :=
  opt_entry KChannel (channel c) [(KContext, context c)] ++ stack_device c.
Definition stack_pd (c : pingpong_context) :=
  ((KPd, pd c), [(KContext, context c)]) :: stack_channel c.
Definition stack_dm (c : pingpong_context) :=
  opt_entry KDm (dm c) [(KContext, context c)] ++ stack_pd c.
Definition stack_mr (G : globals) (c : pingpong_context) :=
  ((KMr, mr c), mr_deps G c) :: stack_dm c.
Definition stack_cq (G : globals) (c : pingpong_context) :=
  ((KCq, cq c), (KContext, context c) :: opt_obj KChannel (channel c)) :: stack_mr G c.
Definition ctx_stack (G : globals) (c : pingpong_context) :=
  ((KQp, qp c), [(KPd, pd c); (KCq, cq c)]) :: stack_cq G c.

(** The labels give up their part of the stack. *)
Lemma opt_entry_objs k p deps : (opt_entry k p deps).*1 = opt_obj k p.
Proof. unfold opt_entry, opt_obj. by destruct (p =? 0). Qed.

Lemma destroys_opt k p l (f : M hw ()) s :
  is_memory (k, p) = false → (∀ s, f s = destroys l s) →
  ((if p =? 0 then mret 0 else del (k, p));; f) s = destroys (opt_obj k p ++ l) s.
Proof.
  intros Hk Hf. unfold opt_obj. destruct (p =? 0); [apply Hf|].
  cbn [app destroys]. rewrite Hk. apply bind_ext. intros _ s'. apply Hf.
Qed.

Lemma destroys_one k p l (f : M hw ()) s :
  is_memory (k, p) = false → (∀ s, f s = destroys l s) →
  (del (k, p);; f) s = destroys ((k, p) :: l) s.
Proof. intros Hk Hf. cbn [destroys]. rewrite Hk. apply bind_ext. intros _ s'. apply Hf. Qed.

Lemma clean_ctx_destroys c s : clean_ctx c s = destroys (stack_ctx c).*1 s.
Proof.
  cbn. unfold clean_ctx, mbind, M_bind. by destruct (release _ s) as [[[]| | |] ?].
Qed.
Lemma clean_buffer_destroys c s : clean_buffer c s = destroys (stack_buf c).*1 s.
Proof. cbn. apply bind_ext. intros _ s'. apply clean_ctx_destroys. Qed.
Lemma clean_device_destroys c s : clean_device c s = destroys (stack_device c).*1 s.
Proof. by apply destroys_one; [|apply clean_buffer_destroys]. Qed.
Lemma clean_channel_destroys c s : clean_comp_channel c s = destroys (stack_channel c).*1 s.
Proof.
  unfold stack_channel. rewrite fmap_app, opt_entry_objs.
  by apply destroys_opt; [|apply clean_device_destroys].
Qed.
Lemma clean_pd_destroys c s : clean_pd c s = destroys (stack_pd c).*1 s.
Proof. by apply destroys_one; [|apply clean_channel_destroys]. Qed.
Lemma clean_dm_destroys c s : clean_dm c s = destroys (stack_dm c).*1 s.
Proof.
  unfold stack_dm. rewrite fmap_app, opt_entry_objs.
  by apply destroys_opt; [|apply clean_pd_destroys].
Qed.
Lemma clean_mr_destroys G c s : clean_mr c s = destroys (stack_mr G c).*1 s.
Proof. by apply destroys_one; [|apply clean_dm_destroys]. Qed.
Lemma clean_cq_destroys G c s : clean_cq c s = destroys (stack_cq G c).*1 s.
Proof. apply destroys_one; [done|]. apply (clean_mr_destroys G). Qed.
Lemma clean_qp_destroys G c s : clean_qp c s = destroys (ctx_stack G c).*1 s.
Proof. apply destroys_one; [done|]. apply (clean_cq_destroys G). Qed.

(** ** Setting up *)

(** What the device must be able to do for the options. *)
Definition supported (G : globals) (d : device) (size : Z) : bool :=
  let rc_caps_mask := Z.lor IBV_ODP_SUPPORT_SEND IBV_ODP_SUPPORT_RECV in
  (negb (use_odp G) ||
   ((Z.land (odp_general d) IBV_ODP_SUPPORT <>z 0) &&
    (Z.land (odp_rc d) rc_caps_mask =? rc_caps_mask) &&
    (negb (implicit_odp G) || (Z.land (odp_general d) IBV_ODP_SUPPORT_IMPLICIT <>z 0)))) &&
  (negb (use_ts G) || (ts_mask d <>z 0)) &&
  (negb (use_dm G) || ((max_dm_size d <>z 0) && (wrap_u 64 size <=? max_dm_size d))).

(** A world in which every object can be made and every other call succeeds. *)
Definition cooperative (w : world) : Prop := (∀ n, h_new w n = true) ∧ (∀ n, h_int w n = 0).
Definition never_refuses (w : world) : Prop := ∀ n, h_del w n = 0.

(** What the program wants of a context: the objects on the stack and the
    parameters. *)
Record ctx_for (size depth : Z) (use_event : bool) (c : pingpong_context) : Prop := {
  cf_size : RcPingpong.size c = size;
  cf_depth : rx_depth c = depth;
  cf_channel : channel c ≠ 0 ↔ use_event = true }.

(** The depths for which the size of the completion queue is an [int]. *)
Definition depth_ok (depth : Z) : Prop := int_min ≤ depth + 1 ≤ int_max.

Section init.
Context (G : globals) (s0 : hw) (sz depth : Z) (use_event : bool).

(** The reasons a set-up may fail. *)
Definition good : Prop :=
  cooperative (h_world s0) ∧ supported G (h_dev (h_world s0)) sz = true.

Definition init_post (r : option pingpong_context) (s' : hw) : Prop :=
  match r with
  | Some c => made s0 s' (ctx_stack G c) ∧ ctx_for sz depth use_event c
  | None => ¬ good ∧ undone s0 s'
  end.

Lemma clean_total (clean : M hw ()) T s :
  (∀ s, clean s = destroys T.*1 s) → hwst s0 s T →
  total clean s (λ _ s', never_refuses (h_world s0) → hwst s0 s' []).
Proof using.
  intros Hc Hs.
  assert (total clean s (λ _ _, True)) as H1.
  { unfold total. rewrite Hc. apply destroys_total.
    - apply (stacked_nodup (Z.of_nat (h_time s))), (stacked_app_l _ _ (h_live s0)).
      rewrite <-(hs_live _ _ _ Hs). apply Hs.
    - apply Forall_forall. intros o Ho. rewrite (hs_live _ _ _ Hs), fmap_app, elem_of_app. by left. }
  assert (never_refuses (h_world s0) → total clean s (λ _ s', hwst s0 s' [])) as H2.
  { intros Hd. unfold total. rewrite Hc. apply (destroys_stack T _ _ []); [done|].
    by rewrite app_nil_r. }
  unfold total in *. by destruct (clean s) as [[] ?].
Qed.

Lemma fail_total {A} (clean : M hw ()) T s (Q : option A → hw → Prop) :
  (∀ s, clean s = destroys T.*1 s) → hwst s0 s T →
  (∀ s', (never_refuses (h_world s0) → hwst s0 s' []) → Q None s') →
  total (fail_with clean) s Q.
Proof using.
  intros Hc Hs HQ. unfold fail_with. apply total_bind.
  eapply total_mono; [by eapply clean_total|]. intros ? s' H. by apply total_ret, HQ.
Qed.

Lemma fail_made {A} (clean : M hw ()) T s (Q : option A → hw → Prop) :
  (∀ s, clean s = destroys T.*1 s) → made s0 s T → (∀ s', undone s0 s' → Q None s') →
  total (fail_with clean) s Q.
Proof using.
  intros Hc Hs HQ. pose proof (clean_total clean T s Hc Hs) as Ht. unfold fail_with. apply total_bind.
  unfold total in *. destruct (clean s) as [[[]| | |] s'] eqn:E; [|done..].
  apply HQ. exists T, s. split; [done|]. by rewrite <-Hc.
Qed.
End init.

(** The context after the features are settled. *)
Record featured (G : globals) (c c' : pingpong_context) : Prop := {
  fe_size : size c' = size c;
  fe_depth : rx_depth c' = rx_depth c;
  fe_channel : channel c' = channel c;
  fe_dm : use_dm G = true → dm c' ≠ 0 }.

Definition features_post (G : globals) (s0 : hw) (c : pingpong_context)
    (r : option (pingpong_context * Z)) (s' : hw) : Prop :=
  match r with
  | Some (c', _) => made s0 s' (stack_dm c') ∧ featured G c c'
  | None => ¬ good G s0 (size c) ∧ undone s0 s'
  end.

Lemma stack_pd_dm c : dm c = 0 → stack_pd c = stack_dm c.
Proof. intros H. unfold stack_dm, opt_entry. by rewrite H. Qed.

(** Solve that the dependencies of a call are on the stack. *)
Ltac in_stack :=
  repeat first [apply Forall_nil_2 | apply Forall_cons_2];
  unfold ctx_stack, stack_cq, stack_mr, stack_dm, stack_pd, stack_channel, stack_device,
    stack_buf, stack_ctx;
  repeat first [rewrite fmap_app | rewrite elem_of_app | rewrite elem_of_cons
               | progress cbn [fmap list_fmap fst app]];
  tauto.

Lemma init_features_total G s0 c a s :
  made s0 s (stack_pd c) → dm c = 0 →
  total (init_features G c a) s (features_post G s0 c).
Proof.
  intros Hs Hdm. unfold init_features.
  assert (∀ s, made s0 s (stack_pd c) → ¬ good G s0 (size c) →
    total (fail_with (clean_pd c)) s (features_post G s0 c)) as Hfail.
  { intros s1 Hs1 Hg. eapply fail_made; [apply clean_pd_destroys|exact Hs1|].
    intros s' Hs'. by split. }
  destruct (use_odp G || use_ts G || use_dm G) eqn:Euse.
  2:{ apply total_ret. rewrite stack_pd_dm in Hs by done. split; [done|].
      constructor; [done..|]. intros E. by rewrite E, orb_true_r in Euse. }
  apply total_bind. eapply call_made; [exact Hs|in_stack|].
  intros s1 H1. destruct (Z.eqb_spec (h_int (h_world s0) (h_time s)) 0) as [_|Er]; simpl.
  2:{ apply Hfail; [done|]. intros [[_ Hi] _]. by rewrite Hi in Er. }
  apply total_bind, total_get. rewrite (hs_world _ _ _ H1).
  set (d := h_dev (h_world s0)).
  assert (∀ s, made s0 s (stack_pd c) → supported G d (size c) ≠ true →
    total (fail_with (clean_pd c)) s (features_post G s0 c)) as Hunsup.
  { intros s2 H2 Hg. apply Hfail; [done|]. by intros [_ ?]. }
  unfold supported in Hunsup. cbv zeta in Hunsup |- *.
  destruct (use_odp G && (_ || _)) eqn:E1; [apply Hunsup; [done|lia]|].
  destruct (use_odp G && implicit_odp G && _) eqn:E2; [apply Hunsup; [done|lia]|].
  destruct (use_ts G && _) eqn:E3; [apply Hunsup; [done|lia]|].
  set (c' := if use_ts G then _ else c).
  assert (∀ s, made s0 s (stack_pd c) → made s0 s (stack_pd c')) as Hc'.
  { unfold c'. by destruct (use_ts G). }
  assert (size c' = size c ∧ rx_depth c' = rx_depth c ∧ channel c' = channel c ∧ dm c' = dm c)
    as (Hz & Hr & Hch & Hd') by (unfold c'; by destruct (use_ts G)).
  destruct (use_dm G) eqn:Edm.
  2:{ apply total_ret. split; [|by constructor; rewrite ?Edm].
      rewrite <-stack_pd_dm by congruence. apply Hc'. exact H1. }
  assert (∀ s, made s0 s (stack_pd c) → total (fail_with (clean_pd c)) s (features_post G s0 c) →
    total (fail_with (clean_pd c')) s (features_post G s0 c)) as Hsame.
  { unfold c'. by destruct (use_ts G). }
  destruct (max_dm_size d =? 0) eqn:E4; [apply Hsame, Hunsup; (done || lia)|].
  rewrite Hz. destruct (max_dm_size d <? _) eqn:E5; [apply Hsame, Hunsup; (done || lia)|].
  apply total_bind. eapply (new_made _ _ s0 s1 (stack_pd c')); [by apply Hc'|in_stack|..].
  - intros s2 Hnew H2. cbv iota. change (0 =? 0) with true. cbv iota.
    change (clean_pd (set_dm 0 c')) with (clean_pd c').
    assert (made s0 s2 (stack_pd c)) as H2'.
    { revert H2. unfold c'. by destruct (use_ts G). }
    apply Hsame, Hfail; [done..|]. intros [[Hn _] _]. by rewrite Hn in Hnew.
  - intros p s2 Hp H2. destruct (Z.eqb_spec p 0) as [->|Hp0]; [lia|].
    apply total_ret. split; [|by constructor].
    unfold stack_dm, opt_entry. cbn [dm set_dm]. destruct (Z.eqb_spec p 0); [done|]. exact H2.
Qed.

Lemma in_opt k p deps : p ≠ 0 → (k, p) ∈ (opt_entry k p deps).*1.
Proof.
  intros Hp. unfold opt_entry. destruct (Z.eqb_spec p 0); [done|]. simpl. by constructor.
Qed.

Lemma register_total G s0 c a s (Q : Z → hw → Prop) :
  made s0 s (stack_dm c) → (use_dm G = true → dm c ≠ 0) →
  (∀ s', h_new (h_world s0) (h_time s) = false → made s0 s' (stack_dm c) → Q 0 s') →
  (∀ p s', 0 < p → made s0 s' (((KMr, p), mr_deps G c) :: stack_dm c) → Q p s') →
  total (register G c a) s Q.
Proof.
  intros Hs Hdm Q0 Q1. unfold register, mr_deps in *. destruct (implicit_odp G).
  { eapply new_made; [exact Hs|in_stack|exact Q0|exact Q1]. }
  destruct (use_dm G); (eapply new_made; [exact Hs| |exact Q0|exact Q1]); [|in_stack].
  pose proof (in_opt KDm (dm c) [(KContext, context c)] (Hdm eq_refl)). in_stack.
Qed.

Lemma prefetch_total G s0 c s (Q : Z → hw → Prop) :
  made s0 s (stack_mr G c) → (∀ r s', made s0 s' (stack_mr G c) → Q r s') →
  total (if prefetch_mr G then
       call [(KPd, pd c); (KMr, mr c)]
         (AdviseMr (pd c)
            (Sge (buf c) (wrap_u 32 (size c)) (mr_lkey (h_dev (h_world s)) (mr c))))
     else mret 0) s Q.
Proof.
  intros Hs HQ. destruct (prefetch_mr G); [|by apply total_ret, HQ].
  eapply call_made; [exact Hs|in_stack|]. intros s' Hs'. by apply HQ.
Qed.

Lemma cq_deps G c :
  Forall (λ o, o ∈ (stack_mr G c).*1)
    ((KContext, context c) :: opt_obj KChannel (channel c)).
Proof.
  apply Forall_cons_2; [in_stack|]. unfold opt_obj.
  destruct (Z.eqb_spec (channel c) 0) as [|Hch]; [by apply Forall_nil_2|].
  pose proof (in_opt KChannel (channel c) [(KContext, context c)] Hch). in_stack.
Qed.

Lemma init_queues_total G s0 sz depth ev c port a s :
  made s0 s (stack_dm c) → (use_dm G = true → dm c ≠ 0) → ctx_for sz depth ev c → depth_ok depth →
  total (init_queues G c port a) s (init_post G s0 sz depth ev).
Proof.
  intros Hs Hdm Hc Hdepth. unfold init_queues.
  assert (∀ clean T s, (∀ s, clean s = destroys T.*1 s) → made s0 s T →
    ¬ cooperative (h_world s0) →
    total (fail_with clean) s (init_post G s0 sz depth ev)) as Hfail.
  { intros clean T s1 Hcl Hs1 Hg. eapply fail_made; [exact Hcl|exact Hs1|].
    intros s' Hs'. split; [|done]. by intros [? _]. }
  assert (∀ s, h_new (h_world s0) (h_time s) = false → ¬ cooperative (h_world s0)) as Hnew.
  { intros s1 E [Hn _]. by rewrite Hn in E. }
  apply total_bind. eapply register_total; [exact Hs|exact Hdm|..].
  { intros s1 E H1. change (0 =? 0) with true. cbv iota.
    change (clean_dm (set_mr 0 c)) with (clean_dm c).
    eapply (Hfail _ (stack_dm c)); [apply clean_dm_destroys|done|by eapply Hnew]. }
  intros p1 s1 Hp1 H1. destruct (Z.eqb_spec p1 0) as [->|_]; [lia|].
  set (c1 := set_mr p1 c). change (made s0 s1 (stack_mr G c1)) in H1.
  apply total_bind, total_get, total_bind.
  apply (prefetch_total G s0 c1 s1 _ H1). intros r2 s2 H2.
  eapply total_bind_eq; [apply int_add_ok; change (rx_depth c1) with (rx_depth c); by rewrite (cf_depth _ _ _ _ Hc)|].
  apply total_bind. eapply new_made; [exact H2|apply cq_deps|..].
  { intros s3 E H3. change (0 =? 0) with true. cbv iota.
    change (clean_mr (set_cq 0 c1)) with (clean_mr c1).
    eapply (Hfail _ (stack_mr G c1)); [apply (clean_mr_destroys G)|done|by eapply Hnew]. }
  intros p3 s3 Hp3 H3. destruct (Z.eqb_spec p3 0) as [->|_]; [lia|].
  set (c3 := set_cq p3 c1). change (made s0 s3 (stack_cq G c3)) in H3.
  apply total_bind. eapply new_made; [exact H3|in_stack|..].
  { intros s4 E H4. change (0 =? 0) with true. cbv iota.
    change (clean_cq (set_qp 0 c3)) with (clean_cq c3).
    eapply (Hfail _ (stack_cq G c3)); [apply (clean_cq_destroys G)|done|by eapply Hnew]. }
  intros p4 s4 Hp4 H4. destruct (Z.eqb_spec p4 0) as [->|_]; [lia|].
  set (c4 := set_qp p4 c3). change (made s0 s4 (ctx_stack G c4)) in H4.
  apply total_bind. eapply call_made; [exact H4|in_stack|]. intros s5 H5.
  apply total_bind, total_get.
  set (c5 := if _ && _ then _ else c4).
  assert (made s0 s5 (ctx_stack G c5) ∧ ctx_for sz depth ev c5 ∧ qp c5 = qp c4) as (H5' & Hc5 & Hq).
  { unfold c5. destruct (_ && _); (split; [exact H5|split; [|done]]);
      destruct Hc; by constructor. }
  apply total_bind. eapply call_made; [exact H5'|in_stack|]. intros s6 H6.
  destruct (Z.eqb_spec (h_int (h_world s0) (h_time s5)) 0) as [_|Er]; simpl.
  - apply total_ret. by split.
  - eapply (Hfail _ (ctx_stack G c5)); [apply clean_qp_destroys|done|].
    intros [_ Hi]. by rewrite Hi in Er.
Qed.

Lemma init_channel_total s0 c (ev : bool) s (Q : Z → hw → Prop) :
  made s0 s (stack_device c) →
  (∀ s', h_new (h_world s0) (h_time s) = false → made s0 s' (stack_device c) → ev = true → Q 0 s') →
  (∀ p s', made s0 s' (opt_entry KChannel p [(KContext, context c)] ++ stack_device c) →
     (p ≠ 0 ↔ ev = true) → Q p s') →
  total (if ev then new NewChannel [(KContext, context c)] else mret 0) s Q.
Proof.
  intros Hs Q0 Q1. destruct ev; [|by apply total_ret, Q1].
  eapply new_made; [exact Hs|in_stack|by auto|]. intros p s' Hp H. apply Q1.
  - unfold opt_entry. destruct (Z.eqb_spec p 0); [lia|done].
  - split; [done|lia].
Qed.

Lemma pp_init_ctx_total G ib_dev sz depth port ev s :
  stacked (Z.of_nat (h_time s)) (h_live s) → depth_ok depth →
  total (pp_init_ctx G ib_dev sz depth port ev) s (init_post G s sz depth ev).
Proof.
  intros Hst Hdepth. pose proof (made_refl s Hst) as Hs. unfold pp_init_ctx.
  assert (∀ clean T s1 s2, (∀ s, clean s = destroys T.*1 s) → made s s2 T →
    h_new (h_world s) (h_time s1) = false →
    total (fail_with clean) s2 (init_post G s sz depth ev)) as Hfail.
  { intros clean T s1 s2 Hcl Hs1 Hg. eapply fail_made; [exact Hcl|exact Hs1|].
    intros s' Hs'. split; [|done]. intros [[Hn _] _]. by rewrite Hn in Hg. }
  apply total_bind. eapply new_made; [exact Hs|in_stack|..].
  { intros s1 E H1. apply total_ret. split; [|by exists [], s1]. intros [[Hn _] _]. by rewrite Hn in E. }
  intros p1 s1 Hp1 H1. destruct (Z.eqb_spec p1 0) as [->|_]; [lia|].
  set (c1 := new_context p1 sz depth). change (made s s1 (stack_ctx c1)) in H1.
  apply total_bind. eapply new_made; [exact H1|in_stack|..].
  { intros s2 E H2. change (0 =? 0) with true. cbv iota.
    by eapply (Hfail _ (stack_ctx c1)); [apply clean_ctx_destroys|..]. }
  intros p2 s2 Hp2 H2. destruct (Z.eqb_spec p2 0) as [->|_]; [lia|]. cbv zeta.
  set (c2 := set_contents _ (set_buf p2 c1)). change (made s s2 (stack_buf c2)) in H2.
  apply total_bind. eapply new_made; [exact H2|in_stack|..].
  { intros s3 E H3. change (0 =? 0) with true. cbv iota.
    by eapply (Hfail _ (stack_buf c2)); [apply clean_buffer_destroys|..]. }
  intros p3 s3 Hp3 H3. destruct (Z.eqb_spec p3 0) as [->|_]; [lia|].
  set (c3 := set_context p3 c2). change (made s s3 (stack_device c3)) in H3.
  apply total_bind. eapply (init_channel_total s c3 ev s3 _ H3).
  { intros s4 E H4 ->. change (true && (0 =? 0)) with true. cbv iota.
    by eapply (Hfail _ (stack_device c3)); [apply clean_device_destroys|..]. }
  intros p4 s4 H4 Hp4. replace (ev && (p4 =? 0)) with false by (destruct ev; lia).
  set (c4 := set_channel p4 c3). change (made s s4 (stack_channel c4)) in H4.
  apply total_bind. eapply new_made; [exact H4|in_stack|..].
  { intros s5 E H5. change (0 =? 0) with true. cbv iota.
    by eapply (Hfail _ (stack_channel c4)); [apply clean_channel_destroys|..]. }
  intros p5 s5 Hp5 H5. destruct (Z.eqb_spec p5 0) as [->|_]; [lia|].
  set (c5 := set_pd p5 c4). change (made s s5 (stack_pd c5)) in H5.
  total_step (init_features_total G s c5 IBV_ACCESS_LOCAL_WRITE s5 H5 eq_refl).
  intros [[c6 fl]|] s6 H6; [|by apply total_ret].
  destruct H6 as [H6 [E1 E2 E3 E4]]. apply init_queues_total; [exact H6|exact E4| |done].
  constructor; [by rewrite E1|by rewrite E2|]. by rewrite E3.
Qed.

(** The objects [l] in the order of their making, the youngest first: an
    address is larger than those given before. *)
Definition youngest_first (l : list obj) : Prop := Sorted.StronglySorted (λ o o', o'.2 < o.2) l.

Lemma stacked_youngest t l : stacked t l → youngest_first l.*1.
Proof.
  revert t. induction l as [|[o deps] l IH]; intros t; [constructor|]. intros (H1 & _ & H2).
  constructor; [by eapply IH|]. apply Forall_forall. intros o' Ho'.
  pose proof (stacked_bound _ _ _ H2 Ho'). cbn. lia.
Qed.

(** A deeper receive queue than that gives no context. *)
Lemma fail_none {A} (m : M hw ()) s (P : A → Prop) :
  returns (fail_with m) s (λ r _, match r with Some a => P a | None => True end).
Proof. apply returns_bind. intros ? s1 _. by apply returns_ret. Qed.

Definition no_context {A} (r : option A) (_ : hw) : Prop := match r with Some _ => False | None => True end.

Lemma init_features_depth G c a s :
  returns (init_features G c a) s
    (λ r _, match r with Some r => rx_depth r.1 = rx_depth c | None => True end).
Proof.
  unfold init_features. destruct (_ || _); [|by apply returns_ret].
  apply returns_bind. intros r s1 _. destruct (r <>z 0); [apply fail_none|].
  apply returns_bind. intros s2 s2' _. cbv zeta.
  repeat match goal with
  | |- returns (fail_with _) _ _ => apply fail_none
  | |- returns (mret _) _ _ => apply returns_ret
  | |- returns (_ ≫= _) _ _ => apply returns_bind; intros ? ? _
  | |- returns (if ?b then _ else _) _ _ => destruct b
  end; by destruct (use_ts G).
Qed.

Lemma init_queues_deep G c port a s :
  ¬ depth_ok (rx_depth c) → returns (init_queues G c port a) s no_context.
Proof.
  intros Hd. unfold init_queues. apply returns_bind. intros p s1 _. cbv zeta.
  destruct (p =? 0); [apply fail_none|]. apply returns_bind. intros ? s2 _.
  apply returns_bind. intros _ s3 _. apply returns_bind. intros cqe s4 E. exfalso. apply Hd.
  revert E. unfold int_add, depth_ok. cbn [rx_depth set_mr]. destruct (_ && _) eqn:Eb; [lia|done].
Qed.

Lemma pp_init_ctx_deep G ib_dev sz depth port ev s :
  ¬ depth_ok depth → returns (pp_init_ctx G ib_dev sz depth port ev) s no_context.
Proof.
  intros Hd. unfold pp_init_ctx. apply returns_bind. intros p s1 _. destruct (p =? 0); [by apply returns_ret|].
  cbv zeta. apply returns_bind. intros p2 s2 _. destruct (p2 =? 0); [apply fail_none|].
  apply returns_bind. intros p3 s3 _. destruct (p3 =? 0); [apply fail_none|].
  apply returns_bind. intros p4 s4 _. destruct (ev && (p4 =? 0)); [apply fail_none|].
  apply returns_bind. intros p5 s5 _. destruct (p5 =? 0); [apply fail_none|].
  apply returns_bind. eapply returns_mono; [apply init_features_depth|].
  intros [[c fl]|] s6 H; [|by apply returns_ret]. apply init_queues_deep. cbn [fst] in H. by rewrite H.
Qed.

(** C16: setting up, with a depth of the receive queue whose successor is an
    [int], never uses an object that does not exist or releases one twice,
    whatever the device and the allocator answer.  When it succeeds, the objects
    that exist are those of the new context, on top of those there were, with
    the size and depth asked for, and nothing has been given back; when it
    fails, the destructor of everything made on the way has been called, of each
    object once and of the youngest first, whatever the destructors answer, and
    when none of them refuses only the objects there were before are left, those
    made on the way having gone in that order; and it does not fail when every
    object can be made, every call succeeds and the device supports the
    options. *)
Theorem pp_init_ctx_no_leak (G : globals) (ib_dev sz depth port : Z) (ev : bool) (s : hw)
    (Hst : stacked (Z.of_nat (h_time s)) (h_live s)) (Hdepth : depth_ok depth) :
  ∃ r s', pp_init_ctx G ib_dev sz depth port ev s = (Done r, s') ∧
    match r with
    | Some c => h_live s' = ctx_stack G c ++ h_live s ∧ ctx_for sz depth ev c ∧ h_gone s' = h_gone s
    | None =>
        (∃ T s1, h_live s1 = T ++ h_live s ∧ h_gone s1 = h_gone s ∧ youngest_first T.*1 ∧
                 destroys T.*1 s1 = (Done tt, s')) ∧
        (never_refuses (h_world s) →
         h_live s' = h_live s ∧ ∃ l, youngest_first l ∧ h_gone s' = h_gone s ++ l) ∧
        ¬ (cooperative (h_world s) ∧ supported G (h_dev (h_world s)) sz = true)
    end.
Proof.
  destruct (total_done _ _ _ (pp_init_ctx_total G ib_dev sz depth port ev s Hst Hdepth))
    as (r & s' & E & H). exists r, s'. split; [done|].
  destruct r as [c|].
  - destruct H as [[H Hg] Hc]. split; [apply H|done].
  - destruct H as [H1 H2]. split_and!; [| |done].
    + destruct H2 as (T & s1 & [H2 Hg] & E'). exists T, s1. split_and!; [apply H2|done| |done].
      eapply stacked_youngest, (stacked_app_l _ _ (h_live s)). rewrite <-(hs_live _ _ _ H2). apply H2.
    + intros Hr. destruct (undone_hwst _ _ Hr H2) as (H & [t T] & Ht & E').
      split; [apply (hs_live _ _ _ H)|]. exists T.*1. split; [by eapply stacked_youngest|done].
Qed.

(** ** Tearing down *)

(** What [pp_close_ctx] leaves of the objects [T] below the memory blocks [R]:
    nothing, or, when one of them is refused, that one and those below it. *)
Definition close_post (s0 : hw) (R T U : list (obj * list obj)) (r : Z) (s' : hw) : Prop :=
  (r = 0 ∧ hwst s0 s' (R ++ U)) ∨
  (r = 1 ∧ ¬ never_refuses (h_world s0) ∧
   ∃ k, (k < length T)%nat ∧ hwst s0 s' (R ++ drop k T ++ U)).

Section close.
Context (s0 : hw) (R U : list (obj * list obj)).

Lemma close_step_total o deps T (k : M hw Z) s :
  free_of o R → hwst s0 s (R ++ ((o, deps) :: T) ++ U) →
  (∀ s, hwst s0 s (R ++ T ++ U) → total k s (close_post s0 R T U)) →
  total (close_step o k) s (close_post s0 R ((o, deps) :: T) U).
Proof using.
  intros HR Hs Hk. unfold close_step. apply total_bind.
  eapply (del_total _ deps R); [exact HR|exact Hs|..].
  - intros s' H'. change (0 <>z 0) with false. cbv iota. eapply total_mono; [by apply Hk|].
    intros r s'' [H|(-> & Hr & n & Hn & H)]; [by left|right].
    split_and!; [done..|]. exists (S n). split; [simpl; lia|done].
  - intros r s' Hr E H'. destruct (Z.eqb_spec r 0); [done|]. simpl. apply total_ret. right.
    split_and!; [done| |exists 0%nat; split; [simpl; lia|done]].
    intros H. by rewrite H in E.
Qed.

Lemma close_opt_total k p deps T (f : M hw Z) s :
  free_of (k, p) R → hwst s0 s (R ++ (opt_entry k p deps ++ T) ++ U) →
  (∀ s, hwst s0 s (R ++ T ++ U) → total f s (close_post s0 R T U)) →
  total (if p =? 0 then f else close_step (k, p) f) s
    (close_post s0 R (opt_entry k p deps ++ T) U).
Proof using.
  unfold opt_entry. destruct (p =? 0); intros HR Hs Hf; [by apply Hf|].
  by apply (close_step_total _ _ T).
Qed.

Lemma pp_close_ctx_total G c s :
  memory_only R → hwst s0 s (R ++ ctx_stack G c ++ U) →
  total (pp_close_ctx c) s (close_post s0 R (ctx_stack G c) U).
Proof using.
  intros HR Hs. pose proof (λ o, memory_only_free o _ HR) as HF. unfold pp_close_ctx. apply close_step_total; [apply HF|exact Hs|]. clear s Hs. intros s Hs.
  apply close_step_total; [apply HF|exact Hs|]. clear s Hs. intros s Hs.
  apply close_step_total; [apply HF|exact Hs|]. clear s Hs. intros s Hs. cbv zeta.
  apply close_opt_total; [apply HF|exact Hs|]. clear s Hs. intros s Hs.
  apply close_step_total; [apply HF|exact Hs|]. clear s Hs. intros s Hs.
  apply close_opt_total; [apply HF|exact Hs|]. clear s Hs. intros s Hs.
  apply close_step_total; [apply HF|exact Hs|]. clear s Hs. intros s Hs.
  apply total_bind. eapply (release_total _ [] R); [apply HF|exact Hs|]. intros s1 H1.
  apply total_bind. eapply (release_total _ [] R); [apply HF|exact H1|]. intros s2 H2.
  apply total_ret. by left.
Qed.
End close.

(** Tearing down a context destroys its objects in the reverse order of
    their making, so that none of them is still needed by another; it returns 0
    with all of them gone, or 1 with the refused object and everything older
    left as they were; it returns 0 when no destructor refuses. *)
Theorem pp_close_ctx_spec (G : globals) (c : pingpong_context)
    (L : list (obj * list obj)) (s : hw)
    (Hl : h_live s = ctx_stack G c ++ L)
    (Hst : stacked (Z.of_nat (h_time s)) (h_live s)) :
  ∃ r s', pp_close_ctx c s = (Done r, s') ∧
    ((r = 0 ∧ h_live s' = L) ∨
     (r = 1 ∧ ¬ never_refuses (h_world s) ∧
      ∃ k, (k < length (ctx_stack G c))%nat ∧ h_live s' = drop k (ctx_stack G c) ++ L)).
Proof.
  set (s0 := set_h_live L s).
  assert (hwst s0 s ([] ++ ctx_stack G c ++ [])) as Hs.
  { constructor; [done| |done]. by rewrite app_nil_r. }
  destruct (total_done _ _ _ (pp_close_ctx_total s0 [] [] G c s (Forall_nil_2 _) Hs))
    as (r & s' & E & H).
  exists r, s'. split; [done|].
  destruct H as [[-> H]|(-> & Hr & k & Hk & H)]; [left|right].
  - split; [done|]. apply (hs_live _ _ _ H).
  - split_and!; [done..|]. exists k. split; [done|].
    pose proof (hs_live _ _ _ H) as Hl'. by rewrite app_nil_r in Hl'.
Qed.

(** ** A concrete set-up *)

Definition demo_device : device :=
  Device 3 3 3 0 0 64 17 false 3 (λ _, replicate 16 0) (λ p, 100 + p) (λ p, 200 + p)
    (λ p, 300 + p).
Definition demo_world : world := World (λ _, true) (λ _, 0) (λ _, 0) demo_device 0 [].
Definition demo_os : os := OS ∅ ∅ (Net [] [] [] 1 [] true).
Definition demo_hw : hw := Hw demo_world demo_os 0 [] [] [] [] [].

Definition demo_opts (server : option cstr) : rc_opts :=
  RcOpts 18515 None server 1 64 IBV_MTU_1024 2 3 0 0 (-1)
    (Globals false false false false false false false).

(** A context made by [pp_init_ctx], and the hardware after it. *)
Definition demo_init : outcome (option pingpong_context) * hw :=
  Eval vm_compute in pp_init_ctx (o_globals (demo_opts None)) 1 64 2 1 false demo_hw.
Definition demo_ctx : pingpong_context :=
  match demo_init.1 with Done (Some c) => c | _ => new_context 0 0 0 end.

Lemma demo_live : h_live demo_init.2 = ctx_stack (o_globals (demo_opts None)) demo_ctx ++ [].
Proof. vm_compute. reflexivity. Qed.

Lemma demo_stacked : stacked (Z.of_nat (h_time demo_init.2)) (h_live demo_init.2).
Proof. vm_compute. repeat first [discriminate | split | constructor]. Qed.

Lemma pp_init_ctx_no_leak_witness :
  ∃ r s', pp_init_ctx (o_globals (demo_opts None)) 1 64 2 1 true demo_hw = (Done r, s') ∧
    match r with
    | Some c => h_live s' = ctx_stack (o_globals (demo_opts None)) c ++ [] ∧ ctx_for 64 2 true c ∧
                h_gone s' = []
    | None =>
        (∃ T s1, h_live s1 = T ++ [] ∧ h_gone s1 = [] ∧ youngest_first T.*1 ∧
                 destroys T.*1 s1 = (Done tt, s')) ∧
        (never_refuses (h_world demo_hw) →
         h_live s' = [] ∧ ∃ l, youngest_first l ∧ h_gone s' = [] ++ l) ∧
        ¬ (cooperative (h_world demo_hw) ∧
           supported (o_globals (demo_opts None)) (h_dev (h_world demo_hw)) 64 = true)
    end.
Proof. apply (pp_init_ctx_no_leak _ 1 64 2 1 true demo_hw); [exact I|split; vm_compute; discriminate]. Defined.

Lemma pp_close_ctx_spec_witness :
  let T := ctx_stack (o_globals (demo_opts None)) demo_ctx in
  ∃ r s', pp_close_ctx demo_ctx demo_init.2 = (Done r, s') ∧
    ((r = 0 ∧ h_live s' = []) ∨
     (r = 1 ∧ ¬ never_refuses (h_world demo_init.2) ∧
      ∃ k, (k < length T)%nat ∧ h_live s' = drop k T ++ [])).
Proof. apply (pp_close_ctx_spec _ demo_ctx [] demo_init.2); [exact demo_live|exact demo_stacked]. Defined.
