(* ===== verification/RcProto.v ===== *)
(** * The pingpong between two ends

    Two processes, each of them [main] after its set-up, joined by a reliable
    connection: a step is the treatment of one completion by [parse_single_wc],
    of a send this end has posted or of a message the other end has posted, for
    which a receive is posted here.  The completions of an end come in any
    order, and the ends run in any interleaving. *)

From S2P Require Import Prelude CLib OS Gid Verbs Exch RcPingpong RcLife.

Local Open Scope Z_scope.

(** ** Counting the work posted *)

Definition is_send (c : hwcall) : Prop :=
  match c with PostSend _ _ _ _ | WrSend _ _ _ _ => True | _ => False end.
Definition is_recv (c : hwcall) : Prop :=
  match c with PostRecv _ _ _ => True | _ => False end.

#[global] Instance is_send_dec c : Decision (is_send c).
Proof. destruct c; apply _. Defined.
#[global] Instance is_recv_dec c : Decision (is_recv c).
Proof. destruct c; apply _. Defined.

(** The work requests posted (successfully) so far. *)
Definition sends (s : hw) : Z := Z.of_nat (length (filter is_send (h_calls s))).
Definition recvs (s : hw) : Z := Z.of_nat (length (filter is_recv (h_calls s))).

(** ** Steps *)

(** This end treats a completion, and goes on. *)
Definition handles (G : globals) (iters wr_id : Z) (a a' : rc_state) : Prop :=
  ∃ t q, parse_single_wc G iters (Wc wr_id IBV_WC_SUCCESS t q) a = (Done 0, a').

Abbreviation ends := (rc_state * rc_state)%type.

(** [a] takes a step while the other end is [b]. *)
Inductive end_step (G : globals) (iters : Z) (b : rc_state) : rc_state → rc_state → Prop :=
  | send_completes a a' :
      scnt a < sends (rc_hw a) →
      handles G iters PINGPONG_SEND_WRID a a' → end_step G iters b a a'
  | message_arrives a a' :
      rcnt a < sends (rc_hw b) → rcnt a < recvs (rc_hw a) →
      handles G iters PINGPONG_RECV_WRID a a' → end_step G iters b a a'.

Inductive step (Gc Gv : globals) (iters : Z) : ends → ends → Prop :=
  | client_step c c' v : end_step Gc iters v c c' → step Gc Gv iters (c, v) (c', v)
  | server_step c v v' : end_step Gv iters c v v' → step Gc Gv iters (c, v) (c, v').

(** An end after its set-up: the receives posted, the client's first message
    sent, the counters at zero. *)
Definition launch (o : rc_opts) (page : Z) (c : pingpong_context) : M hw (option rc_state) :=
  let G := o_globals o in
  routs ← pp_post_recv G c (rx_depth c);
  if routs <? rx_depth c then mret None
  else
    c ← first_send o page c;
    match c with
    | None => mret None
    | Some c => s ← get; mret (Some (RcState s c 0 0 routs ts_start 0))
    end.

(** ** Posting when the device accepts *)

Lemma post_recvs_accepted os c k i s :
  accepts s → forallb (λ o, is_live o (h_live s)) os = true →
  post_recvs (call os c) k i s = (Done (i + Z.of_nat k), Nat.iter k (logged c) s).
Proof.
  revert i s. induction k as [|k IH]; intros i s Ha Ho; cbn [post_recvs].
  { by rewrite Z.add_0_r. }
  rewrite (bind_done _ _ _ _ _ (call_accepted _ _ _ Ha Ho)). change (0 <>z 0) with false. cbv iota.
  rewrite IH by done. rewrite Nat.iter_succ_r, Nat2Z.inj_succ. by replace (i + 1 + Z.of_nat k) with (i + Z.succ (Z.of_nat k)) by lia.
Qed.

Lemma iter_logged c k s :
  let s' := Nat.iter k (logged c) s in
  h_world s' = h_world s ∧ h_live s' = h_live s ∧ h_polls s' = h_polls s ∧
  h_calls s' = h_calls s ++ replicate k c.
Proof.
  induction k as [|k IH]; simpl; [by rewrite app_nil_r|].
  destruct IH as (IH1 & IH2 & IH3 & IH4). split_and!; [done..|].
  rewrite IH4, <-(assoc_L app). f_equal. by rewrite <-replicate_S_end.
Qed.

Lemma sends_logged s s' l :
  h_calls s' = h_calls s ++ l →
  sends s' = sends s + Z.of_nat (length (filter is_send l)) ∧
  recvs s' = recvs s + Z.of_nat (length (filter is_recv l)).
Proof. intros E. unfold sends, recvs. rewrite E, !filter_app, !length_app. lia. Qed.

Lemma filter_recvs k qp w e :
  filter is_recv (replicate k (PostRecv qp w e)) = replicate k (PostRecv qp w e) ∧
  filter is_send (replicate k (PostRecv qp w e)) = [].
Proof.
  induction k as [|k [IH1 IH2]]; [done|]. cbn [replicate].
  rewrite filter_cons_True, filter_cons_False by (simpl; tauto). by rewrite IH1, IH2.
Qed.

(** The queue pair and the memory region exist and the device accepts. *)
Definition can_post (c : pingpong_context) (s : hw) : Prop :=
  accepts s ∧ is_live (KQp, qp c) (h_live s) = true ∧ is_live (KMr, mr c) (h_live s) = true.

Lemma can_post_objs c s :
  can_post c s → forallb (λ o, is_live o (h_live s)) [(KQp, qp c); (KMr, mr c)] = true.
Proof. intros (_ & H1 & H2). simpl. by rewrite H1, H2. Qed.

Lemma post_recv_accepted G c n s :
  can_post c s → 0 ≤ n →
  ∃ s', pp_post_recv G c n s = (Done n, s') ∧ can_post c s' ∧
    sends s' = sends s ∧ recvs s' = recvs s + n ∧ h_live s' = h_live s ∧ h_world s' = h_world s.
Proof.
  intros Hc Hn. unfold pp_post_recv. erewrite bind_done by reflexivity.
  rewrite post_recvs_accepted by first [exact (proj1 Hc) | by apply can_post_objs].
  set (cl := PostRecv _ _ _). destruct (iter_logged cl (Z.to_nat n) s) as (E1 & E2 & E3 & E4).
  eexists. split; [by rewrite Z.add_0_l, Z2Nat.id|].
  destruct (sends_logged _ _ _ E4) as [H1 H2].
  destruct (filter_recvs (Z.to_nat n) (qp c) PINGPONG_RECV_WRID (work_sge s G c)) as [F1 F2].
  unfold cl in *. rewrite F2 in H1. rewrite F1, length_replicate in H2.
  split_and!; [|simpl in H1; lia|lia|done|done].
  unfold can_post, accepts. rewrite E1, E2. exact Hc.
Qed.

Lemma post_send_accepted G c s :
  can_post c s →
  ∃ s', pp_post_send G c s = (Done 0, s') ∧ can_post c s' ∧
    sends s' = sends s + 1 ∧ recvs s' = recvs s ∧ h_live s' = h_live s.
Proof.
  intros Hc. unfold pp_post_send. erewrite bind_done by reflexivity. cbv zeta.
  rewrite call_accepted by (apply Hc || by apply can_post_objs).
  eexists. split; [done|]. split; [exact Hc|].
  set (cl := if use_new_send G then _ else _).
  destruct (sends_logged s (logged cl s) [cl] eq_refl) as [H1 H2].
  rewrite H1, H2. unfold cl.
  destruct (use_new_send G); (split_and!; [done|apply Z.add_0_r|done]).
Qed.

(** ** The invariant of one end

    [ahead] is 0 for the client, which has to send first, and 1 for the
    server: the number of messages an end may have received beyond those it has
    sent. *)
Record node_inv (ahead iters depth : Z) (s : rc_state) : Prop := {
  ni_post : can_post (ctx s) (rc_hw s);
  ni_depth : rx_depth (ctx s) = depth;
  ni_scnt : 0 ≤ scnt s ≤ sends (rc_hw s);
  ni_one : sends (rc_hw s) ≤ scnt s + 1;
  ni_iters : sends (rc_hw s) ≤ iters;
  ni_rcnt : 0 ≤ rcnt s;
  ni_turn : sends (rc_hw s) + ahead - 1 ≤ rcnt s ≤ sends (rc_hw s) + ahead;
  ni_routs : routs s = recvs (rc_hw s) - rcnt s;
  ni_window : 1 ≤ routs s ≤ depth;
  ni_pending : pending (ctx s) =
    (if rcnt s <? sends (rc_hw s) + ahead then PINGPONG_RECV_WRID else 0) +
    (if scnt s <? sends (rc_hw s) then PINGPONG_SEND_WRID else 0);
  ni_idle : pending (ctx s) = 0 → scnt s = iters }.

Section node.
Context (G : globals) (ahead iters depth : Z).
Context (Hiters : 1 ≤ iters ≤ int_max) (Hahead : 0 ≤ ahead ≤ 1).

(** Both kinds of completion end the same way: the bit of the work request is
    cleared, and the next message is sent when none is set. *)
Definition finish (w : Z) (s : rc_state) : rc_state :=
  set_ctx (set_pending (Z.land (pending (ctx s)) (Z.lnot w)) (ctx s)) s.

Definition after (G : globals) (iters wr_id : Z) : M rc_state Z :=
  modify (λ s, set_ctx (set_pending (Z.land (pending (ctx s)) (Z.lnot wr_id)) (ctx s)) s);;
  s ← get;
  if (scnt s <? iters) && (pending (ctx s) =? 0) then
    r ← dev (pp_post_send G (ctx s));
    if r <>z 0 then mret 1
    else
      modify (λ s, set_ctx (set_pending (Z.lor PINGPONG_RECV_WRID PINGPONG_SEND_WRID)
                              (ctx s)) s);;
      mret 0
  else mret 0.

(** The state before [after]: the counter of the completion has been increased. *)
Record before_after (w : Z) (s : rc_state) : Prop := {
  ba_post : can_post (ctx s) (rc_hw s);
  ba_depth : rx_depth (ctx s) = depth;
  ba_scnt : 0 ≤ scnt s ≤ sends (rc_hw s);
  ba_one : sends (rc_hw s) ≤ scnt s + 1;
  ba_iters : sends (rc_hw s) ≤ iters;
  ba_rcnt : 0 ≤ rcnt s;
  ba_turn : sends (rc_hw s) + ahead - 1 ≤ rcnt s ≤ sends (rc_hw s) + ahead;
  ba_routs : routs s = recvs (rc_hw s) - rcnt s;
  ba_window : 1 ≤ routs s ≤ depth;
  ba_pending : Z.land (pending (ctx s)) (Z.lnot w) =
    (if rcnt s <? sends (rc_hw s) + ahead then PINGPONG_RECV_WRID else 0) +
    (if scnt s <? sends (rc_hw s) then PINGPONG_SEND_WRID else 0) }.

Lemma after_inv w s :
  before_after w s →
  ∃ s', after G iters w s = (Done 0, s') ∧ node_inv ahead iters depth s' ∧
    scnt s' = scnt s ∧ rcnt s' = rcnt s ∧ sends (rc_hw s) ≤ sends (rc_hw s').
Proof using Hiters Hahead.
  intros [H1 H2 H3 H4 H5 H6 H7 H8 H9 H10]. unfold after.
  erewrite bind_done by reflexivity. erewrite bind_done by reflexivity.
  cbn [scnt ctx set_ctx pending set_pending]. rewrite H10.
  destruct (Z.ltb_spec (scnt s) iters) as [Hlt|Hge]; cbn [andb].
  2:{ eexists. split; [reflexivity|]. split; [|split_and!; (done || (cbn; lia))].
      constructor; cbn [scnt ctx set_ctx pending set_pending rcnt routs rx_depth rc_hw];
        try done; lia. }
  destruct (Z.eqb_spec ((if rcnt s <? sends (rc_hw s) + ahead then PINGPONG_RECV_WRID else 0) +
    (if scnt s <? sends (rc_hw s) then PINGPONG_SEND_WRID else 0)) 0) as [Hz|Hz].
  2:{ eexists. split; [reflexivity|]. split; [|split_and!; (done || (cbn; lia))].
      constructor; cbn [scnt ctx set_ctx pending set_pending rcnt routs rx_depth rc_hw];
        try done; lia. }
  unfold PINGPONG_RECV_WRID, PINGPONG_SEND_WRID in *.
  assert (rcnt s = sends (rc_hw s) + ahead ∧ scnt s = sends (rc_hw s)) as [Hr Hs].
  { destruct (Z.ltb_spec (rcnt s) (sends (rc_hw s) + ahead)),
      (Z.ltb_spec (scnt s) (sends (rc_hw s))); lia. }
  destruct (post_send_accepted G (set_pending 0 (ctx s)) (rc_hw s) H1)
    as (hw' & E & Hc' & Hsd & Hrv & Hl).
  erewrite bind_done.
  2:{ apply zoom_done. cbn [rc_hw lget rc_state_hw set_ctx ctx]. rewrite Hz. exact E. }
  change (0 <>z 0) with false. cbv iota.
  eexists. split; [reflexivity|]. split; [|split_and!; [done..|]; cbn [rc_hw lset rc_state_hw set_ctx set_rc_hw]; lia].
  constructor; cbn [scnt ctx set_ctx pending set_pending rcnt routs rx_depth rc_hw lset
    rc_state_hw set_rc_hw]; try done; rewrite ?Hsd, ?Hrv; try lia.
  - rewrite !(proj2 (Z.ltb_lt _ _)) by lia. done.
Qed.

Lemma set_rc_hw_id s : set_rc_hw (rc_hw s) s = s.
Proof using. by destruct s. Qed.

Lemma send_handled t q s :
  node_inv ahead iters depth s → scnt s < sends (rc_hw s) →
  ∃ s', parse_single_wc G iters (Wc PINGPONG_SEND_WRID IBV_WC_SUCCESS t q) s = (Done 0, s') ∧
    node_inv ahead iters depth s' ∧ scnt s' = scnt s + 1 ∧ rcnt s' = rcnt s ∧
    sends (rc_hw s) ≤ sends (rc_hw s').
Proof using Hiters Hahead.
  intros [H1 H2 H3 H4 H5 H6 H7 H8 H9 H10 H11] Hlt.
  unfold parse_single_wc. change (wc_status _ <>z IBV_WC_SUCCESS) with false. cbv iota.
  change (wrap_s 32 (wc_wr_id _)) with PINGPONG_SEND_WRID.
  change (PINGPONG_SEND_WRID =? PINGPONG_SEND_WRID) with true. cbv iota zeta.
  rewrite bind_assoc. erewrite bind_done by reflexivity. rewrite bind_assoc.
  erewrite bind_done.
  2:{ unfold incr. destruct (Z.eqb_spec (scnt s) int_max) as [E|_]; [lia|]. reflexivity. }
  rewrite bind_assoc. erewrite bind_done by reflexivity.
  erewrite bind_done by reflexivity. cbv beta iota. change (negb true) with false. cbv iota.
  apply (after_inv PINGPONG_SEND_WRID (set_scnt (scnt s + 1) s)).
  constructor; cbn [scnt ctx set_scnt pending rcnt routs rx_depth rc_hw]; try done; try lia.
  rewrite H10. unfold PINGPONG_RECV_WRID, PINGPONG_SEND_WRID.
  destruct (Z.ltb_spec (scnt s + 1) (sends (rc_hw s))), (Z.ltb_spec (scnt s) (sends (rc_hw s)));
    try lia. by destruct (_ <? _).
Qed.

(** The receives are posted again when at most one is left. *)
Lemma recv_refilled t s :
  node_inv ahead iters depth s → rcnt s < iters → 1 ≤ routs s →
  ∃ s', recv_done G t s = (Done true, s') ∧
    can_post (ctx s') (rc_hw s') ∧ ctx s' = ctx s ∧ scnt s' = scnt s ∧ rcnt s' = rcnt s + 1 ∧
    sends (rc_hw s') = sends (rc_hw s) ∧ routs s' = recvs (rc_hw s') - rcnt s' ∧
    1 ≤ routs s' ≤ depth.
Proof using Hiters.
  intros [H1 H2 H3 H4 H5 H6 H7 H8 H9 H10 H11] Hlt Hr. unfold recv_done.
  erewrite bind_done by reflexivity. cbv zeta. erewrite bind_done by reflexivity.
  assert (incr (rcnt s) = mret (rcnt s + 1)) as Hincr.
  { unfold incr. destruct (Z.eqb_spec (rcnt s) int_max) as [E|_]; [lia|done]. }
  destruct (Z.leb_spec (routs s - 1) 1) as [Hle|Hgt].
  - destruct (post_recv_accepted G (ctx s) (rx_depth (ctx s) - (routs s - 1)) (rc_hw s) H1)
      as (hw' & E & Hc' & Hsd & Hrv & _ & _); [lia|].
    rewrite bind_assoc. erewrite bind_done.
    2:{ apply zoom_done. exact E. }
    rewrite bind_assoc. erewrite bind_done by reflexivity. erewrite bind_done by reflexivity.
    rewrite (proj2 (Z.leb_le _ _)) by lia. cbn [negb]. cbv iota.
    rewrite Hincr. erewrite bind_done by reflexivity. erewrite bind_done by reflexivity.
    erewrite bind_done by reflexivity. eexists. split; [reflexivity|].
    cbn [scnt ctx set_routs rcnt routs rc_hw set_rc_hw lset rc_state_hw set_rcnt set_ts].
    rewrite Hsd, Hrv. split_and!; (done || lia).
  - erewrite bind_done by reflexivity. cbn [negb]. cbv iota. rewrite Hincr.
    erewrite bind_done by reflexivity. erewrite bind_done by reflexivity.
    erewrite bind_done by reflexivity. eexists. split; [reflexivity|].
    cbn [scnt ctx set_routs rcnt routs rc_hw set_rc_hw lset rc_state_hw set_rcnt set_ts].
    split_and!; (done || lia).
Qed.

Lemma message_handled t q s :
  node_inv ahead iters depth s → rcnt s < sends (rc_hw s) + ahead → rcnt s < iters →
  ∃ s', parse_single_wc G iters (Wc PINGPONG_RECV_WRID IBV_WC_SUCCESS t q) s = (Done 0, s') ∧
    node_inv ahead iters depth s' ∧ scnt s' = scnt s ∧ rcnt s' = rcnt s + 1 ∧
    sends (rc_hw s) ≤ sends (rc_hw s').
Proof using Hiters Hahead.
  intros Hinv Hlt Hlt'. pose proof Hinv as [H1 H2 H3 H4 H5 H6 H7 H8 H9 H10 H11].
  unfold parse_single_wc. change (wc_status _ <>z IBV_WC_SUCCESS) with false. cbv iota.
  change (wrap_s 32 (wc_wr_id _)) with PINGPONG_RECV_WRID.
  change (PINGPONG_RECV_WRID =? PINGPONG_SEND_WRID) with false.
  change (PINGPONG_RECV_WRID =? PINGPONG_RECV_WRID) with true. cbv iota zeta.
  destruct (recv_refilled t s Hinv Hlt' (proj1 H9)) as (s1 & E & Hc & Ec & Es & Er & Esd & Ero & Hw).
  erewrite bind_done by (exact E). cbv beta iota. change (negb true) with false. cbv iota.
  rewrite Ec in Hc.
  destruct (after_inv PINGPONG_RECV_WRID s1) as (s' & E' & Hinv' & Es' & Er' & Hs').
  - constructor; rewrite ?Ec, ?Es, ?Er, ?Esd; try done; try lia.
    rewrite H10. unfold PINGPONG_RECV_WRID, PINGPONG_SEND_WRID.
    destruct (Z.ltb_spec (rcnt s + 1) (sends (rc_hw s) + ahead)),
      (Z.ltb_spec (rcnt s) (sends (rc_hw s) + ahead)); try lia. by destruct (_ <? _).
  - exists s'. split; [exact E'|]. split; [done|]. split_and!; [congruence..|lia].
Qed.
End node.

(** ** Both ends *)

Definition pair_inv (iters dc dv : Z) (x : ends) : Prop :=
  node_inv 0 iters dc x.1 ∧ node_inv 1 iters dv x.2 ∧
  rcnt x.1 ≤ sends (rc_hw x.2) ∧ rcnt x.2 ≤ sends (rc_hw x.1).

(** The completions treated so far. *)
Definition progress (x : ends) : Z := scnt x.1 + rcnt x.1 + scnt x.2 + rcnt x.2.

Section ends.
Context (Gc Gv : globals) (iters dc dv : Z) (Hiters : 1 ≤ iters ≤ int_max).

(** In either role it is an end's turn when a message is there for it. *)
Lemma turn c v :
  pair_inv iters dc dv (c, v) →
  (rcnt c < sends (rc_hw v) → rcnt c < sends (rc_hw c) + 0 ∧ rcnt c < iters) ∧
  (rcnt v < sends (rc_hw c) → rcnt v < sends (rc_hw v) + 1 ∧ rcnt v < iters).
Proof using. intros ([] & [] & H1 & H2). simpl in *. lia. Qed.

Lemma step_inv x y :
  pair_inv iters dc dv x → step Gc Gv iters x y →
  pair_inv iters dc dv y ∧ progress y = progress x + 1.
Proof using Hiters.
  intros Hinv Hstep. destruct Hstep as [c c' v Hs|c v v' Hs];
    pose proof (turn _ _ Hinv) as [Htc Htv]; destruct Hinv as (Hc & Hv & H1 & H2); cbn [fst snd] in *.
  - destruct Hs as [c c' Hlt (t & q & E)|c c' Hlt _ (t & q & E)].
    + destruct (send_handled Gc 0 iters dc Hiters ltac:(lia) t q c Hc Hlt)
        as (s' & E' & Hinv' & Es & Er & Hs).
      rewrite E in E'. injection E' as <-. unfold pair_inv, progress. cbn [fst snd].
      split_and!; (done || lia).
    + destruct (Htc Hlt) as [Ht1 Ht2].
      destruct (message_handled Gc 0 iters dc Hiters ltac:(lia) t q c Hc Ht1 Ht2)
        as (s' & E' & Hinv' & Es & Er & Hs).
      rewrite E in E'. injection E' as <-. unfold pair_inv, progress. cbn [fst snd].
      split_and!; (done || lia).
  - destruct Hs as [v v' Hlt (t & q & E)|v v' Hlt _ (t & q & E)].
    + destruct (send_handled Gv 1 iters dv Hiters ltac:(lia) t q v Hv Hlt)
        as (s' & E' & Hinv' & Es & Er & Hs).
      rewrite E in E'. injection E' as <-. unfold pair_inv, progress. cbn [fst snd].
      split_and!; (done || lia).
    + destruct (Htv Hlt) as [Ht1 Ht2].
      destruct (message_handled Gv 1 iters dv Hiters ltac:(lia) t q v Hv Ht1 Ht2)
        as (s' & E' & Hinv' & Es & Er & Hs).
      rewrite E in E'. injection E' as <-. unfold pair_inv, progress. cbn [fst snd].
      split_and!; (done || lia).
Qed.

Lemma run_inv n x y :
  pair_inv iters dc dv x → nsteps (step Gc Gv iters) n x y →
  pair_inv iters dc dv y ∧ progress y = progress x + Z.of_nat n.
Proof using Hiters.
  intros Hx Hn. induction Hn as [x|n x y z Hs _ IH]; [split; [done|lia]|].
  destruct (step_inv _ _ Hx Hs) as [Hy E]. destruct (IH Hy) as [Hz E']. split; [done|lia].
Qed.

(** Everything has been exchanged and both loops are over. *)
Record finished (x : ends) : Prop := {
  fin_client : scnt x.1 = iters ∧ rcnt x.1 = iters ∧ sends (rc_hw x.1) = iters;
  fin_server : scnt x.2 = iters ∧ rcnt x.2 = iters ∧ sends (rc_hw x.2) = iters }.

Lemma progress_bound x : pair_inv iters dc dv x → progress x ≤ 4 * iters.
Proof using. destruct x. intros ([] & [] & H1 & H2). unfold progress. simpl in *. lia. Qed.

(** An end that cannot move has nothing outstanding and has taken every
    message. *)
Lemma end_stuck G ahead depth (a b : rc_state) :
  0 ≤ ahead ≤ 1 → node_inv ahead iters depth a →
  (rcnt a < sends (rc_hw b) → rcnt a < sends (rc_hw a) + ahead ∧ rcnt a < iters) →
  (∃ a', end_step G iters b a a') ∨
  (scnt a = sends (rc_hw a) ∧ sends (rc_hw b) ≤ rcnt a).
Proof using Hiters.
  intros Ha Hinv Ht. pose proof Hinv as [H1 H2 H3 H4 H5 H6 H7 H8 H9 H10 H11].
  destruct (Z.lt_ge_cases (scnt a) (sends (rc_hw a))) as [Hlt|Hge].
  { left. destruct (send_handled G ahead iters depth Hiters Ha 0 0 a Hinv Hlt) as (s' & E & _).
    exists s'. apply send_completes; [done|]. by exists 0, 0. }
  destruct (Z.lt_ge_cases (rcnt a) (sends (rc_hw b))) as [Hlt|Hge'].
  { left. destruct (Ht Hlt) as [Ht1 Ht2].
    destruct (message_handled G ahead iters depth Hiters Ha 0 0 a Hinv Ht1 Ht2) as (s' & E & _).
    exists s'. apply message_arrives; [done|lia|]. by exists 0, 0. }
  right. lia.
Qed.

Lemma idle_end ahead depth (a : rc_state) :
  node_inv ahead iters depth a → scnt a = sends (rc_hw a) →
  rcnt a = sends (rc_hw a) + ahead → scnt a = iters.
Proof using.
  intros [H1 H2 H3 H4 H5 H6 H7 H8 H9 H10 H11] Hs Hr. apply H11. rewrite H10.
  destruct (Z.ltb_spec (rcnt a) (sends (rc_hw a) + ahead)), (Z.ltb_spec (scnt a) (sends (rc_hw a)));
    lia.
Qed.

Lemma live_or_finished x :
  pair_inv iters dc dv x → (∃ y, step Gc Gv iters x y) ∨ finished x.
Proof using Hiters.
  destruct x as [c v]. intros Hinv. pose proof (turn _ _ Hinv) as [Htc Htv].
  destruct Hinv as (Hc & Hv & H1 & H2). cbn [fst snd] in *.
  destruct (end_stuck Gc 0 dc c v ltac:(lia) Hc Htc) as [[c' Hs]|[Hc1 Hc2]].
  { left. exists (c', v). by apply client_step. }
  destruct (end_stuck Gv 1 dv v c ltac:(lia) Hv Htv) as [[v' Hs]|[Hv1 Hv2]].
  { left. exists (c, v'). by apply server_step. }
  right. pose proof Hc as [_ _ C1 C2 C3 C4 C5 _ _ _ _]. pose proof Hv as [_ _ V1 V2 V3 V4 V5 _ _ _ _].
  assert (rcnt c = sends (rc_hw c) + 0) as Hrc.
  { destruct (Z.eq_dec (rcnt v) (sends (rc_hw v) + 1)) as [E|E]; [|lia].
    pose proof (idle_end _ _ _ Hv Hv1 E). lia. }
  pose proof (idle_end _ _ _ Hc Hc1 Hrc). constructor; cbn [fst snd]; lia.
Qed.
End ends.

(** ** Launching *)

(** The context after set-up: its objects exist, the device accepts work, no
    work has been posted yet. *)
Definition ready (o : rc_opts) (c : pingpong_context) (s : hw) : Prop :=
  can_post c s ∧
  (use_dm (o_globals o) = true →
     is_live (KDm, dm c) (h_live s) = true ∧ is_live (KMem, buf c) (h_live s) = true) ∧
  sends s = 0 ∧ recvs s = 0 ∧ 1 ≤ rx_depth c.

Definition ahead_of (o : rc_opts) : Z := match o_servername o with Some _ => 0 | None => 1 end.

Lemma memcpy_accepted o c s :
  accepts s →
  (use_dm (o_globals o) = true →
     is_live (KDm, dm c) (h_live s) = true ∧ is_live (KMem, buf c) (h_live s) = true) →
  ∃ s', (if use_dm (o_globals o)
         then call [(KDm, dm c); (KMem, buf c)] (MemcpyToDm (dm c) (size c)) else mret 0) s
        = (Done 0, s') ∧ h_world s' = h_world s ∧ h_live s' = h_live s ∧
    sends s' = sends s ∧ recvs s' = recvs s.
Proof.
  intros Ha Hd. destruct (use_dm (o_globals o)).
  - destruct (Hd eq_refl) as [H1 H2]. rewrite call_accepted by (done || (simpl; by rewrite H1, H2)).
    eexists. split; [done|]. split; [done|]. split; [done|].
    destruct (sends_logged s (logged (MemcpyToDm (dm c) (size c)) s) _ eq_refl) as [E1 E2].
    rewrite E1, E2. split; apply Z.add_0_r.
  - by eexists.
Qed.

Lemma launch_inv o page iters c s :
  1 ≤ iters → ready o c s →
  ∃ n s', launch o page c s = (Done (Some n), s') ∧
    node_inv (ahead_of o) iters (rx_depth c) n ∧ scnt n = 0 ∧ rcnt n = 0.
Proof.
  intros Hi (Hp & Hd & Hs & Hr & Hdep). unfold launch.
  destruct (post_recv_accepted (o_globals o) c (rx_depth c) s Hp) as (s1 & E1 & Hp1 & Hs1 & Hr1 & Hl1 & Hw1);
    [lia|].
  rewrite (bind_done _ _ _ _ _ E1). rewrite Z.ltb_irrefl.
  unfold first_send, ahead_of. destruct (o_servername o) as [h|].
  - set (c1 := if validate_buf _ then _ else _).
    assert (can_post c1 s1 ∧ rx_depth c1 = rx_depth c ∧ pending c1 = PINGPONG_RECV_WRID ∧
      dm c1 = dm c ∧ buf c1 = buf c) as (Hp1' & Hdep1 & Hpe & Hdm & Hbuf)
      by (unfold c1; by destruct (validate_buf _)).
    destruct (memcpy_accepted o c1 s1) as (s2 & E2 & Hw2 & Hl2 & Hs2 & Hr2).
    { apply Hp1'. } { intros Hu. rewrite Hdm, Hbuf, Hl1. by apply Hd. }
    rewrite bind_assoc, (bind_done _ _ _ _ _ E2). change (0 <>z 0) with false. cbv iota.
    assert (can_post c1 s2) as Hp2.
    { unfold can_post, accepts. rewrite Hw2, Hl2. exact Hp1'. }
    destruct (post_send_accepted (o_globals o) c1 s2 Hp2) as (s3 & E3 & Hp3 & Hs3 & Hr3 & Hl3).
    rewrite bind_assoc, (bind_done _ _ _ _ _ E3). change (0 <>z 0) with false. cbv iota.
    erewrite bind_done by reflexivity. cbv beta iota. erewrite bind_done by reflexivity.
    eexists _, _. split; [reflexivity|]. split; [|done].
    constructor; cbn [ctx rc_hw scnt rcnt routs rx_depth pending set_pending]; try done; try lia.
    + rewrite Hpe, !(proj2 (Z.ltb_lt _ _)) by lia. done.
    + by rewrite Hpe.
  - erewrite bind_done by reflexivity. cbv beta iota. erewrite bind_done by reflexivity.
    eexists _, _. split; [reflexivity|]. split; [|done].
    constructor; cbn [ctx rc_hw scnt rcnt routs rx_depth pending set_pending]; try done; try lia.
    rewrite (proj2 (Z.ltb_lt _ _)), (proj2 (Z.ltb_ge _ _)) by lia. done.
Qed.

Definition is_client (o : rc_opts) : Prop := o_servername o ≠ None.

Lemma launch_pair oc ov pc pv cc cv sc sv iters :
  1 ≤ iters → is_client oc → ¬ is_client ov → ready oc cc sc → ready ov cv sv →
  ∃ c v sc' sv', launch oc pc cc sc = (Done (Some c), sc') ∧
    launch ov pv cv sv = (Done (Some v), sv') ∧
    pair_inv iters (rx_depth cc) (rx_depth cv) (c, v) ∧ progress (c, v) = 0.
Proof.
  intros Hi Hoc Hov Hc Hv.
  destruct (launch_inv oc pc iters cc sc Hi Hc) as (c & sc' & Ec & Ic & C1 & C2).
  destruct (launch_inv ov pv iters cv sv Hi Hv) as (v & sv' & Ev & Iv & V1 & V2).
  exists c, v, sc', sv'. split; [done|]. split; [done|].
  assert (ahead_of oc = 0) as Ac by (unfold ahead_of; unfold is_client in Hoc; by destruct (o_servername oc)).
  assert (ahead_of ov = 1) as Av by (unfold ahead_of; unfold is_client in Hov; destruct (o_servername ov); [exfalso; by apply Hov|done]).
  rewrite Ac in Ic. rewrite Av in Iv. unfold pair_inv, progress. cbn [fst snd].
  pose proof (ni_scnt _ _ _ _ Ic). pose proof (ni_scnt _ _ _ _ Iv).
  split_and!; (done || lia).
Qed.

(** C4: the pingpong completes: a client and a server, launched on devices
    that accept their work, can always go on until each has sent and received
    exactly [iters] messages, both event loops are over and nothing is in
    flight; this takes at most [4 * iters] completions, in whatever order they
    come. *)
Theorem rc_pingpong_completes (oc ov : rc_opts) (pc pv iters : Z)
    (cc cv : pingpong_context) (sc sv : hw)
    (Hi : 1 ≤ iters ≤ int_max) (Hoc : is_client oc) (Hov : ¬ is_client ov)
    (Hc : ready oc cc sc) (Hv : ready ov cv sv) :
  ∃ c v sc' sv', launch oc pc cc sc = (Done (Some c), sc') ∧
    launch ov pv cv sv = (Done (Some v), sv') ∧
    ∀ n x, nsteps (step (o_globals oc) (o_globals ov) iters) n (c, v) x →
      Z.of_nat n ≤ 4 * iters ∧
      ((∃ y, step (o_globals oc) (o_globals ov) iters x y) ∨ finished iters x).
Proof.
  destruct (launch_pair oc ov pc pv cc cv sc sv iters ltac:(lia) Hoc Hov Hc Hv)
    as (c & v & sc' & sv' & Ec & Ev & Hinv & Hp0).
  exists c, v, sc', sv'. split; [done|]. split; [done|]. intros n x Hn.
  destruct (run_inv _ _ iters _ _ Hi _ _ _ Hinv Hn) as [Hx Hp].
  split; [|by eapply live_or_finished].
  pose proof (progress_bound _ _ _ _ Hx). lia.
Qed.

(** The capacities given to the device are enough: at every moment of a
    pingpong each end has at most one send outstanding ([max_send_wr] is 1) and
    at least one and at most [rx_depth] receives posted ([max_recv_wr]), so that
    the completion queue of [rx_depth + 1] entries cannot overflow and no
    message meets an end without a receive. *)
Theorem rc_queues_bounded (oc ov : rc_opts) (pc pv iters : Z)
    (cc cv : pingpong_context) (sc sv : hw) (c v : rc_state) (sc' sv' : hw) (x : ends)
    (Hi : 1 ≤ iters ≤ int_max) (Hoc : is_client oc) (Hov : ¬ is_client ov)
    (Hc : ready oc cc sc) (Hv : ready ov cv sv)
    (Ec : launch oc pc cc sc = (Done (Some c), sc'))
    (Ev : launch ov pv cv sv = (Done (Some v), sv'))
    (Hx : rtc (step (o_globals oc) (o_globals ov) iters) (c, v) x) :
  (0 ≤ sends (rc_hw x.1) - scnt x.1 ≤ 1 ∧
   1 ≤ recvs (rc_hw x.1) - rcnt x.1 ≤ rx_depth cc) ∧
  (0 ≤ sends (rc_hw x.2) - scnt x.2 ≤ 1 ∧
   1 ≤ recvs (rc_hw x.2) - rcnt x.2 ≤ rx_depth cv).
Proof.
  destruct (launch_pair oc ov pc pv cc cv sc sv iters ltac:(lia) Hoc Hov Hc Hv)
    as (c1 & v1 & sc1 & sv1 & Ec1 & Ev1 & Hinv & _).
  rewrite Ec in Ec1. injection Ec1 as <- <-. rewrite Ev in Ev1. injection Ev1 as <- <-.
  apply rtc_nsteps in Hx as [n Hn].
  destruct (run_inv _ _ iters _ _ Hi _ _ _ Hinv Hn) as [([] & [] & _) _]. lia.
Qed.

(** ** A concrete pair *)

Lemma demo_ends_ready s : ready (demo_opts s) demo_ctx demo_init.2.
Proof.
  unfold ready, can_post, accepts. split_and!; try (vm_compute; reflexivity).
  - by intros [=].
  - vm_compute. discriminate.
Qed.

Lemma rc_pingpong_completes_witness :
  ∃ c v sc' sv', launch (demo_opts (Some (L "host"))) 4096 demo_ctx demo_init.2
      = (Done (Some c), sc') ∧
    launch (demo_opts None) 4096 demo_ctx demo_init.2 = (Done (Some v), sv') ∧
    ∀ n x, nsteps (step (o_globals (demo_opts (Some (L "host")))) (o_globals (demo_opts None)) 3)
             n (c, v) x →
      Z.of_nat n ≤ 4 * 3 ∧
      ((∃ y, step (o_globals (demo_opts (Some (L "host")))) (o_globals (demo_opts None)) 3 x y)
       ∨ finished 3 x).
Proof.
  apply rc_pingpong_completes; [unfold int_max; lia|discriminate| |apply demo_ends_ready..].
  intros H. by apply H.
Defined.

Definition demo_launch (s : option cstr) : outcome (option rc_state) * hw :=
  launch (demo_opts s) 4096 demo_ctx demo_init.2.
Definition demo_end (s : option cstr) : rc_state :=
  match (demo_launch s).1 with
  | Done (Some c) => c
  | _ => RcState demo_hw demo_ctx 0 0 0 ts_start 0
  end.

Lemma demo_end_eq s :
  s = None ∨ s = Some (L "host") →
  launch (demo_opts s) 4096 demo_ctx demo_init.2
  = (Done (Some (demo_end s)), (demo_launch s).2).
Proof. intros [-> | ->]; vm_compute; reflexivity. Qed.

Lemma rc_queues_bounded_witness :
  let x := (demo_end (Some (L "host")), demo_end None) in
  (0 ≤ sends (rc_hw x.1) - scnt x.1 ≤ 1 ∧
   1 ≤ recvs (rc_hw x.1) - rcnt x.1 ≤ rx_depth demo_ctx) ∧
  (0 ≤ sends (rc_hw x.2) - scnt x.2 ≤ 1 ∧
   1 ≤ recvs (rc_hw x.2) - rcnt x.2 ≤ rx_depth demo_ctx).
Proof.
  cbv zeta.
  refine (rc_queues_bounded (demo_opts (Some (L "host"))) (demo_opts None) 4096 4096 3
            demo_ctx demo_ctx demo_init.2 demo_init.2 _ _ _ _ _ _ _ _
            (demo_ends_ready _) (demo_ends_ready _) (demo_end_eq _ _) (demo_end_eq _ _) _).
  - unfold int_max. lia.
  - discriminate.
  - intros H. by apply H.
  - by right.
  - by left.
  - apply rtc_refl.
Defined.
