(* ===== verification/RcMain.v ===== *)
(** * The reliable-connection pingpong as a whole

    The two ends find and connect each other; a run of [main] that succeeds
    gives everything back; the event loop's fuel; the check of the buffer and
    the clock arithmetic. *)

From Stdlib Require Import ZifyBool.
From S2P Require Import Prelude CLib OS Gid Verbs Exch Keeps RcPingpong RcLife RcProto.

Local Open Scope Z_scope.

(** ** Connecting *)

(** The two transitions a connected queue pair goes through: ready to receive
    from the peer's queue pair [qpn d], whose packets start at [psn d], over a
    path to its LID, or its GID when it gave one; ready to send, starting at
    this end's number. *)
Definition connect_calls (o : rc_opts) (c : pingpong_context) (my_psn : Z) (d : pingpong_dest)
    : list hwcall :=
  let path :=
    if existsb (λ b, b <>z 0) (drop 8 (gid d))
    then AhAttr 1 (wrap_u 16 (lid d)) (wrap_u 8 (o_sl o)) 0 (wrap_u 8 (o_ib_port o)) 1 (gid d)
           (wrap_u 8 (o_gidx o))
    else AhAttr 0 (wrap_u 16 (lid d)) (wrap_u 8 (o_sl o)) 0 (wrap_u 8 (o_ib_port o)) 0
           (replicate 16 0) 0 in
  [ModifyQp (qp c)
     [QP_STATE QPS_RTR; QP_AV path; QP_PATH_MTU (o_mtu o); QP_DEST_QPN (wrap_u 32 (qpn d));
      QP_RQ_PSN (wrap_u 32 (psn d)); QP_MAX_DEST_RD_ATOMIC 1; QP_MIN_RNR_TIMER 12];
   ModifyQp (qp c)
     [QP_STATE QPS_RTS; QP_TIMEOUT 14; QP_RETRY_CNT 7; QP_RNR_RETRY 7;
      QP_SQ_PSN (wrap_u 32 my_psn); QP_MAX_QP_RD_ATOMIC 1]].

Lemma pp_connect_ctx_ok o c my_psn d s :
  accepts s → is_live (KQp, qp c) (h_live s) = true →
  ∃ s', pp_connect_ctx c (o_ib_port o) my_psn (o_mtu o) (o_sl o) d (o_gidx o) s = (Done 0, s') ∧
    h_os s' = h_os s ∧ h_calls s' = h_calls s ++ connect_calls o c my_psn d ∧
    h_world s' = h_world s ∧ h_live s' = h_live s ∧ (h_time s ≤ h_time s')%nat.
Proof.
  intros Ha Hq. unfold pp_connect_ctx.
  assert (∀ s, is_live (KQp, qp c) (h_live s) = true →
    forallb (λ o, is_live o (h_live s)) [(KQp, qp c)] = true) as Hlive.
  { intros s1 H1. simpl. by rewrite H1. }
  rewrite (bind_done _ _ _ _ _ (call_accepted _ _ _ Ha (Hlive _ Hq))).
  change (0 <>z 0) with false. cbv iota.
  set (m1 := ModifyQp _ (rtr_attrs _ _ _ _ _)).
  assert (accepts (logged m1 s)) as Ha1 by exact Ha.
  rewrite (bind_done _ _ _ _ _ (call_accepted _ _ _ Ha1 (Hlive (logged m1 s) Hq))).
  eexists. split; [reflexivity|]. cbn. rewrite <-(assoc_L app). split_and!; (done || lia).
Qed.

Lemma is_live_cons o e l : is_live o l = true → is_live o (e :: l) = true.
Proof.
  unfold is_live. rewrite !bool_decide_eq_true. intros H. cbn [fmap list_fmap].
  by apply elem_of_cons; right.
Qed.

(** An end before the exchange: the device accepts, the queue pair exists,
    memory can be had, and the name service answers. *)
Record may_talk (c : pingpong_context) (s : hw) : Prop := {
  mt_accepts : accepts s;
  mt_new : ∀ n, h_new (h_world s) n = true;
  mt_gai : 0 ≤ h_gai (h_world s);
  mt_qp : is_live (KQp, qp c) (h_live s) = true;
  mt_stack : stacked (Z.of_nat (h_time s)) (h_live s);
  mt_fresh : fresh_addrs s }.

Lemma client_connects o c my d host fd s :
  may_talk c s → o_servername o = Some host → dest_ok my → dest_ok d →
  find usable (h_addrs (h_world s)) = Some (Address fd true (Conn [InData (dest_bytes d)] [] [])) →
  total (exch_dest o c my) s (λ r s', ∃ p, r = Some (p, d) ∧
    h_live s' = (rem_obj p, []) :: h_live s ∧ h_os s' = h_os s ∧
    h_calls s' = h_calls s ++ client_calls host (o_port o) fd my ++
                 connect_calls o c (psn my) d).
Proof.
  intros [Ha Hn Hg Hq Hst Hf] Ho Hmy Hd Hfind. unfold exch_dest. rewrite Ho.
  apply total_bind. eapply total_mono.
  { by apply (client_exch_ok s s [] host (o_port o) my d fd); [by apply hwst_refl|..]. }
  intros r s1 (p & -> & H1 & Ho1 & Hc1). cbv iota beta zeta.
  destruct (pp_connect_ctx_ok o c (psn my) d s1) as (s2 & E2 & Ho2 & Hc2 & W2 & L2 & T2).
  { unfold accepts. rewrite (hs_world _ _ _ H1). exact Ha. }
  { rewrite (hs_live _ _ _ H1). by apply is_live_cons. }
  eapply total_bind_eq; [exact E2|]. change (0 <>z 0) with false. cbv iota. apply total_ret.
  exists p. split; [done|]. rewrite L2, (hs_live _ _ _ H1). split; [done|].
  split; [congruence|]. by rewrite Hc2, Hc1, <-(assoc_L app).
Qed.

Lemma server_connects o c my d lst fd l s :
  may_talk c s → o_servername o = None → dest_ok my → dest_ok d →
  find usable (h_addrs (h_world s)) = Some lst →
  n_accept (os_net (h_os s)) =
    AccOk fd (Conn [InData (dest_bytes d); InData done_msg] [] []) :: l →
  os_fds (h_os s) !! fd = None → fd ≠ a_fd lst →
  total (exch_dest o c my) s (λ r s', ∃ p, r = Some (p, d) ∧
    h_live s' = (rem_obj p, []) :: h_live s ∧ h_os s' = accepted (h_os s) ∧
    h_calls s' = h_calls s ++ server_calls (o_port o) fd (connect_calls o c (psn my) d) my).
Proof.
  intros [Ha Hn Hg Hq Hst Hf] Ho Hmy Hd Hfind Hacc Hfd Hne. unfold exch_dest. rewrite Ho. cbv zeta.
  eapply total_mono.
  { eapply (server_exch_ok s s [] _ (connect_calls o c (psn my) d) (o_port o) my d lst fd l);
      [by apply hwst_refl|done..|].
    intros s1 T H1. rewrite app_nil_r in H1.
    destruct (pp_connect_ctx_ok o c (psn my) d s1) as (s2 & E2 & Ho2 & Hc2 & W2 & L2 & T2).
    { unfold accepts. rewrite (hs_world _ _ _ H1). exact Ha. }
    { rewrite (hs_live _ _ _ H1). clear H1. induction T as [|e T IH]; [done|]. by apply is_live_cons. }
    unfold total. rewrite E2. rewrite app_nil_r. split_and!; [done| |done..].
    eapply hwst_later; [exact H1|done..]. }
  intros r s1 (p & -> & H1 & Ho1 & Hc1). exists p. split; [done|].
  split; [|done]. rewrite (hs_live _ _ _ H1). done.
Qed.

(** C15: the two ends connect: when the client's connection delivers what the
    server writes and the server's what the client writes, each ends up with
    the other's address; each queue pair goes to RTR with the other's queue
    pair number and starting sequence number and to RTS with the sequence
    number it announced, the server before it answers and the client after; the
    sockets are closed and nothing but the peer's address stays allocated. *)
Theorem rc_ends_connect (oc ov : rc_opts) (cc cv : pingpong_context) (dc dv : pingpong_dest)
    (host : cstr) (lst : address) (fc fv : Z) (l : list accept_event) (sc sv : hw)
    (Hc : may_talk cc sc) (Hv : may_talk cv sv)
    (Hoc : o_servername oc = Some host) (Hov : o_servername ov = None)
    (Hdc : dest_ok dc) (Hdv : dest_ok dv)
    (Hac : find usable (h_addrs (h_world sc))
           = Some (Address fc true (Conn [InData (dest_bytes dv)] [] [])))
    (Hav : find usable (h_addrs (h_world sv)) = Some lst)
    (Hacc : n_accept (os_net (h_os sv))
            = AccOk fv (Conn [InData (dest_bytes dc); InData done_msg] [] []) :: l)
    (Hfd : os_fds (h_os sv) !! fv = None) (Hne : fv ≠ a_fd lst) :
  ∃ pc sc' pv sv',
    exch_dest oc cc dc sc = (Done (Some (pc, dv)), sc') ∧
    exch_dest ov cv dv sv = (Done (Some (pv, dc)), sv') ∧
    h_calls sc' = h_calls sc ++
      [GetAddrInfo (Some host) (show_int (wrap_s 32 (o_port oc)));
       Wrote fc (dest_bytes dc); Wrote fc done_msg] ++ connect_calls oc cc (psn dc) dv ∧
    h_calls sv' = h_calls sv ++
      [GetAddrInfo None (show_int (wrap_s 32 (o_port ov)))] ++
      connect_calls ov cv (psn dv) dc ++ [Wrote fv (dest_bytes dv)] ∧
    os_fds (h_os sc') = os_fds (h_os sc) ∧ os_fds (h_os sv') = os_fds (h_os sv) ∧
    h_live sc' = (rem_obj pc, []) :: h_live sc ∧ h_live sv' = (rem_obj pv, []) :: h_live sv.
Proof.
  destruct (total_done _ _ _ (client_connects oc cc dc dv host fc sc Hc Hoc Hdc Hdv Hac))
    as (r & sc' & Ec & pc & -> & Lc & Oc & Cc).
  destruct (total_done _ _ _ (server_connects ov cv dv dc lst fv l sv Hv Hov Hdv Hdc Hav Hacc Hfd Hne))
    as (r & sv' & Ev & pv & -> & Lv & Ov & Cv).
  exists pc, sc', pv, sv'. rewrite Oc, Ov. by split_and!.
Qed.

Definition demo_addrs : list address :=
  [Address 3 false (Conn [] [] []); Address 4 true (Conn [InData (dest_bytes demo_dest)] [] [])].
Definition demo_dest' : pingpong_dest :=
  Dest 18 0x123456 0 [0; 0; 0; 0; 0; 0; 0; 0; 0; 0; 0; 0; 0; 0; 0; 0].

Lemma demo_dest_ok' : dest_ok demo_dest'.
Proof.
  constructor; simpl; [lia..|]. split; [done|]. unfold is_byte.
  repeat (apply Forall_cons; split; [lia|]). apply Forall_nil_2.
Qed.

(** The hardware after a set-up, about to talk. *)
Definition demo_talk (acc : list accept_event) : hw :=
  Hw (World (λ _, true) (λ _, 0) (λ _, 0) demo_device 0 demo_addrs)
    (OS ∅ ∅ (Net [] [] acc 1 [] true)) (h_time demo_init.2) (h_live demo_init.2) [] [] [] [].

Lemma demo_may_talk acc : may_talk demo_ctx (demo_talk acc).
Proof.
  unfold demo_talk. constructor; cbn [h_world h_live h_time h_new h_gai].
  - intros n. reflexivity.
  - intros n. reflexivity.
  - done.
  - vm_compute. reflexivity.
  - exact demo_stacked.
  - repeat constructor.
Qed.

Lemma rc_ends_connect_witness :
  let sc := demo_talk [] in
  let sv := demo_talk [AccOk 5 (Conn [InData (dest_bytes demo_dest'); InData done_msg] [] [])] in
  let oc := demo_opts (Some (L "host")) in
  let ov := demo_opts None in
  ∃ pc sc' pv sv',
    exch_dest oc demo_ctx demo_dest' sc = (Done (Some (pc, demo_dest)), sc') ∧
    exch_dest ov demo_ctx demo_dest sv = (Done (Some (pv, demo_dest')), sv') ∧
    h_calls sc' = h_calls sc ++
      [GetAddrInfo (Some (L "host")) (show_int (wrap_s 32 (o_port oc)));
       Wrote 4 (dest_bytes demo_dest'); Wrote 4 done_msg] ++
      connect_calls oc demo_ctx (psn demo_dest') demo_dest ∧
    h_calls sv' = h_calls sv ++
      [GetAddrInfo None (show_int (wrap_s 32 (o_port ov)))] ++
      connect_calls ov demo_ctx (psn demo_dest) demo_dest' ++ [Wrote 5 (dest_bytes demo_dest)] ∧
    os_fds (h_os sc') = os_fds (h_os sc) ∧ os_fds (h_os sv') = os_fds (h_os sv) ∧
    h_live sc' = (rem_obj pc, []) :: h_live sc ∧ h_live sv' = (rem_obj pv, []) :: h_live sv.
Proof.
  cbv zeta.
  eapply (rc_ends_connect _ _ _ _ _ _ _
            (Address 4 true (Conn [InData (dest_bytes demo_dest)] [] [])) 4 5 []);
    [apply demo_may_talk|apply demo_may_talk|done|done|apply demo_dest_ok'|apply demo_dest_ok
    |done|done|done|done|done].
Defined.

(** ** A whole run gives everything back *)

Lemma post_recvs_keeps c k i : preserves keeps c → preserves keeps (post_recvs c k i).
Proof. intros Hc. revert i. induction k as [|k IH]; intros i; cbn [post_recvs]; keep. Qed.

Lemma pp_post_recv_keeps G c n : preserves keeps (pp_post_recv G c n).
Proof.
  unfold pp_post_recv. apply preserves_bind; [exact _|keep|]. intros s. apply post_recvs_keeps. keep.
Qed.
Lemma pp_post_send_keeps G c : preserves keeps (pp_post_send G c).
Proof. unfold pp_post_send. keep. Qed.
#[export] Hint Resolve pp_post_recv_keeps pp_post_send_keeps : preserves.

Lemma pp_connect_ctx_keeps c port p mtu sl d g : preserves keeps (pp_connect_ctx c port p mtu sl d g).
Proof. unfold pp_connect_ctx. keep. Qed.
Lemma local_dest_keeps G o c r : preserves keeps (local_dest G o c r).
Proof. unfold local_dest. keep. Qed.
#[export] Hint Resolve pp_connect_ctx_keeps local_dest_keeps : preserves.

(** The event loop, over the hardware. *)
Definition loop_keeps (s s' : rc_state) : Prop := keeps (rc_hw s) (rc_hw s').

#[global] Instance loop_keeps_refl : Reflexive loop_keeps.
Proof. intros s. apply keeps_refl. Qed.
#[global] Instance loop_keeps_trans : Transitive loop_keeps.
Proof. intros s1 s2 s3. apply keeps_trans. Qed.

Lemma dev_keeps {A} (m : M hw A) : preserves keeps m → preserves loop_keeps (dev m).
Proof. intros H. eapply preserves_zoom_rel; [exact H|]. done. Qed.

Lemma incr_keeps x : preserves loop_keeps (incr x).
Proof. unfold incr. by destruct (x =? int_max). Qed.
#[export] Hint Resolve incr_keeps : preserves.

Ltac keep_loop := repeat first
  [ apply dev_keeps; solve [keep] | preserve_step; cbv beta iota
  | apply preserves_modify; intros ?; apply keeps_refl ].

Lemma recv_done_keeps G t : preserves loop_keeps (recv_done G t).
Proof. unfold recv_done. keep_loop. Qed.
#[export] Hint Resolve recv_done_keeps : preserves.

Lemma parse_single_wc_keeps G iters w : preserves loop_keeps (parse_single_wc G iters w).
Proof. unfold parse_single_wc. keep_loop. Qed.
#[export] Hint Resolve parse_single_wc_keeps : preserves.

Lemma parse_all_keeps G iters l : preserves loop_keeps (parse_all G iters l).
Proof. induction l as [|w l IH]; cbn [parse_all]; keep_loop. Qed.
#[export] Hint Resolve parse_all_keeps : preserves.

Lemma spin_keeps {A} fuel (poll : M rc_state A) again :
  preserves loop_keeps poll → preserves loop_keeps (spin fuel poll again).
Proof. intros H. induction fuel as [|fuel IH]; cbn [spin]; keep_loop. Qed.

Lemma spin_poll_keeps {A} fuel (poll : M hw A) again :
  preserves keeps poll → preserves loop_keeps (spin fuel (dev poll) again).
Proof. intros H. by apply spin_keeps, dev_keeps. Qed.
#[export] Hint Resolve spin_poll_keeps : preserves.

Lemma wait_event_keeps ev : preserves loop_keeps (wait_event ev).
Proof. unfold wait_event. keep_loop. Qed.
Lemma poll_ts_keeps G iters ev : preserves loop_keeps (poll_ts G iters ev).
Proof. unfold poll_ts. keep_loop. Qed.
Lemma poll_plain_keeps G iters ev : preserves loop_keeps (poll_plain G iters ev).
Proof. unfold poll_plain. keep_loop. Qed.
#[export] Hint Resolve wait_event_keeps poll_ts_keeps poll_plain_keeps : preserves.

Lemma round_keeps G iters ev : preserves loop_keeps (round G iters ev).
Proof. unfold round. destruct (use_ts G); keep_loop. Qed.
#[export] Hint Resolve round_keeps : preserves.

Lemma main_loop_keeps fuel G iters ev : preserves loop_keeps (main_loop fuel G iters ev).
Proof. induction fuel as [|fuel IH]; cbn [main_loop]; keep_loop. Qed.

Lemma run_loop_keeps o c r : preserves keeps (run_loop o c r).
Proof.
  intros s. unfold run_loop.
  pose proof (main_loop_keeps (loop_fuel s) (o_globals o) (o_iters o) (o_use_event o <>z 0)
                (RcState s c 0 0 r ts_start 0)) as H.
  by destruct (main_loop _ _ _ _ _) as [[] ?].
Qed.

Lemma first_send_keeps o page c : preserves keeps (first_send o page c).
Proof. unfold first_send. keep. Qed.
Lemma final_check_keeps o e c : preserves keeps (final_check o e c).
Proof. unfold final_check. keep. Qed.
#[export] Hint Resolve run_loop_keeps first_send_keeps final_check_keeps : preserves.

Lemma exch_dest_returns s0 s S o c my :
  hwst s0 s S → returns (exch_dest o c my) s (λ r s',
    match r with Some (p, _) => hwst s0 s' ((rem_obj p, []) :: S) | None => True end).
Proof.
  intros Hs. unfold exch_dest. destruct (o_servername o) as [h|].
  - apply returns_bind. eapply returns_mono; [by apply client_exch_returns|].
    intros [[p d]|] s1 H1; [|by apply returns_ret]. simpl in H1.
    eapply returns_keeps; [keep|exact H1|]. intros e s2 H2. apply returns_ret.
    by destruct (e <>z 0).
  - apply pp_server_exch_returns; [intros; keep|exact Hs].
Qed.

Lemma setup_returns s0 s S o ib_dev rand :
  hwst s0 s S → returns (setup o ib_dev rand) s (λ r s',
    match r with
    | Some (c, p, _) => hwst s0 s' ((rem_obj p, []) :: ctx_stack (o_globals o) c ++ S)
    | None => True
    end).
Proof.
  intros Hs. unfold setup. apply returns_bind.
  eapply (returns_mono _ _ (λ r s', match r with
    | Some c => hwst s s' (ctx_stack (o_globals o) c) | None => True end)).
  { destruct (decide (depth_ok (wrap_s 32 (o_rx_depth o)))) as [Hd|Hd].
    - eapply total_returns; [apply pp_init_ctx_total; [apply Hs|exact Hd]|].
      intros [c|] s1 H1; [apply H1|done].
    - eapply returns_mono; [by apply pp_init_ctx_deep|]. by intros [c|] s1. }
  intros [c|] s1 H1; [|by apply returns_ret].
  pose proof (hwst_trans _ _ _ _ _ Hs H1) as H1'. clear H1.
  eapply returns_keeps; [keep|exact H1'|]. intros routs s2 H2.
  destruct (routs <? rx_depth c); [by apply returns_ret|].
  eapply returns_keeps; [keep|exact H2|]. intros r s3 H3.
  destruct (r <>z 0); [by apply returns_ret|].
  eapply returns_keeps; [keep|exact H3|]. intros [my|] s4 H4; [|by apply returns_ret].
  apply returns_bind. eapply returns_mono; [by apply exch_dest_returns|].
  intros [[p d]|] s5 H5; [by apply returns_ret|by apply returns_ret].
Qed.

Lemma first_send_stack G o page c s :
  returns (first_send o page c) s (λ r _,
    match r with Some c' => ctx_stack G c' = ctx_stack G c | None => True end).
Proof.
  unfold first_send. destruct (o_servername o) as [h|]; [|by apply returns_ret].
  apply returns_bind. intros r1 s1 _. destruct (r1 <>z 0); [by apply returns_ret|].
  apply returns_bind. intros r2 s2 _. destruct (r2 <>z 0); [by apply returns_ret|].
  apply returns_ret. by destruct (validate_buf _).
Qed.

(** Leaving the loop early is never a success. *)
Lemma parse_all_rc G iters l s : returns (parse_all G iters l) s (λ r _, r ≠ Some 0).
Proof.
  revert s. induction l as [|w l IH]; intros s; cbn [parse_all]; [by apply returns_ret|].
  apply returns_bind. intros r s1 _. destruct (r <>z 0); [by apply returns_ret|]. apply IH.
Qed.

Lemma next_wc_rc cq s : returns (next_wc cq) s (λ r _, r ≠ inl 0).
Proof.
  unfold next_wc. apply returns_bind. intros [] s1 _. apply returns_bind. intros ? s2 [= <- <-].
  destruct (h_polls s1) as [|[[|w [|w' ws]]|e] l]; [by apply returns_ret|..];
    apply returns_bind; intros [] s3 _; by apply returns_ret.
Qed.

Lemma spin_returns {A} fuel (poll : M rc_state A) again s (P : A → Prop) :
  (∀ s, returns poll s (λ r _, P r)) → returns (spin fuel poll again) s (λ r _, P r).
Proof.
  intros HP. revert s. induction fuel as [|fuel IH]; intros s; cbn [spin]; [by intros ? ?|].
  apply returns_bind. intros r s1 E. destruct (again r); [apply IH|]. apply returns_ret.
  exact (HP _ _ _ E).
Qed.

Lemma dev_returns {A} (m : M hw A) s (P : A → Prop) :
  (∀ s, returns m s (λ r _, P r)) → returns (dev m) s (λ r _, P r).
Proof.
  intros H r s' E. unfold dev, zoom in E. destruct (m (lget s)) as [o t] eqn:Em.
  injection E as -> _. exact (H _ _ _ Em).
Qed.

Lemma poll_ts_rc G iters ev s : returns (poll_ts G iters ev) s (λ r _, r ≠ Some 0).
Proof.
  unfold poll_ts. apply returns_bind. intros ? s1 _. apply returns_bind.
  eapply returns_mono.
  { apply spin_returns. intros s2. apply dev_returns, next_wc_rc. }
  intros [ret|w] s2 Hr; [apply returns_ret; congruence|].
  apply returns_bind. intros ret s3 _. destruct (Z.eqb_spec ret 0) as [_|Hne]; simpl.
  2:{ apply returns_ret. congruence. }
  apply returns_bind. intros r s4 _. apply returns_bind. intros ret' s5 _. apply returns_ret.
  destruct (Z.eqb_spec ret' 0); simpl; [done|]. destruct (_ <>z ENOENT); congruence.
Qed.

Lemma wait_event_rc ev s : returns (wait_event ev) s (λ r _, r ≠ Some 0).
Proof.
  unfold wait_event. destruct ev; [|by apply returns_ret].
  apply returns_bind. intros ? s1 _. cbv zeta. apply returns_bind. intros e s2 _.
  destruct (e =? 0); [by apply returns_ret|]. apply returns_bind. intros n s3 _.
  apply returns_bind. intros [] s4 _. destruct (e <>z _); [by apply returns_ret|].
  apply returns_bind. intros r s5 _. apply returns_ret. by destruct (r <>z 0).
Qed.

Lemma round_rc G iters ev s : returns (round G iters ev) s (λ r _, r ≠ Some 0).
Proof.
  unfold round. apply returns_bind. eapply returns_mono; [apply wait_event_rc|].
  intros [rc|] s1 Hr; [by apply returns_ret|]. destruct (use_ts G); [apply poll_ts_rc|].
  unfold poll_plain. apply returns_bind. intros ? s2 _. apply returns_bind.
  intros [z|l] s3 _; [by apply returns_ret|apply parse_all_rc].
Qed.

(** The loop ends well only when the counters have reached [iters]. *)
Definition loop_done (iters : Z) (s : rc_state) : Prop :=
  iters ≤ wrap_u 32 (rcnt s) ∧ iters ≤ wrap_u 32 (scnt s).

Lemma main_loop_rc fuel G iters ev s :
  returns (main_loop fuel G iters ev) s (λ r s', r ≠ Some 0 ∧ (r = None → loop_done iters s')).
Proof.
  revert s. induction fuel as [|fuel IH]; intros s; cbn [main_loop]; [by intros ? ?|].
  apply returns_bind. intros ? ? [= <- <-].
  destruct (_ || _) eqn:E.
  - apply returns_bind. eapply returns_mono; [apply round_rc|]. intros [rc|] s1 Hr; [|apply IH].
    by apply returns_ret.
  - apply returns_ret. split; [done|]. intros _. unfold loop_done. lia.
Qed.

Lemma run_loop_rc o c routs s :
  returns (run_loop o c routs) s (λ r _, r.1 ≠ Some 0 ∧ (r.1 = None → loop_done (o_iters o) r.2)).
Proof.
  intros [r st] s' E. unfold run_loop in E.
  pose proof (main_loop_rc (loop_fuel s) (o_globals o) (o_iters o) (o_use_event o <>z 0)
                (RcState s c 0 0 routs ts_start 0)) as H.
  destruct (main_loop _ _ _ _ _) as [[r'|z|f|] st'] eqn:Em; [|done..].
  injection E as <- <- <-. exact (H _ _ Em).
Qed.

(** The last part of a run, with the peer's structure above the context and the
    device list below it. *)
Lemma measure_returns G o e c dl rem routs s0 s :
  hwst s0 s ((rem_obj rem, []) :: ctx_stack G c ++ [((KDevList, dl), [])]) →
  returns (measure o e c dl rem routs) s (λ r s', r.1 = 0 → hwst s0 s' []).
Proof.
  intros Hs. unfold measure. eapply returns_keeps; [keep|exact Hs|]. intros r s1 H1.
  destruct (r <>z 0); [by apply returns_ret|].
  apply returns_bind. intros [r' st] s2 E2. pose proof (run_loop_rc _ _ _ _ _ _ E2) as [Hrc _].
  pose proof (run_loop_keeps o c routs s1) as Hk. rewrite E2 in Hk.
  pose proof (hwst_keeps _ _ _ _ H1 Hk) as H2. simpl in Hrc. clear E2 Hk.
  destruct r' as [rc|]; [apply returns_ret; simpl; congruence|].
  eapply returns_keeps; [keep|exact H2|]. intros r3 s3 H3.
  destruct (r3 <>z 0); [by apply returns_ret|].
  eapply returns_keeps; [keep|exact H3|]. intros [p|] s4 H4; [|by apply returns_ret].
  eapply returns_keeps; [keep|exact H4|]. intros ? s5 H5.
  eapply returns_total.
  { apply (pp_close_ctx_total s0 [(rem_obj rem, [])] [((KDevList, dl), [])]); [|exact H5].
    by apply Forall_singleton. }
  intros r6 s6 [[-> H6]|(-> & _)]; [|by apply returns_ret].
  change (0 <>z 0) with false. cbv iota.
  apply (returns_total _ _ _ (λ _ s', hwst s0 s' [(rem_obj rem, [])])).
  { eapply (release_total _ [] [(rem_obj rem, [])]); [by apply memory_only_free, Forall_singleton|exact H6|done]. }
  intros ? s7 H7. eapply returns_total; [eapply release_hwst; exact H7|].
  intros ? s8 H8. by apply returns_ret.
Qed.

Lemma main_returns e s :
  stacked (Z.of_nat (h_time s)) (h_live s) →
  returns (main e) s (λ r s', r.1 = 0 → hwst s s' []).
Proof.
  intros Hst. pose proof (hwst_refl s Hst) as Hs. unfold main.
  destruct (rc_options _ _) as [o|]; [|by apply returns_ret].
  destruct (e_devs e) as [devs|]; [|by apply returns_ret].
  eapply returns_total; [by apply make_hwst|]. intros dl s1 H1.
  destruct (pick_device _ _) as [d|]; [|by apply returns_ret].
  apply returns_bind. eapply returns_mono; [eapply setup_returns; exact H1|].
  intros [[[c rem] routs]|] s2 H2; [|by apply returns_ret].
  apply returns_bind. intros r s3 E3.
  pose proof (first_send_stack (o_globals o) _ _ _ _ _ _ E3) as Hstk.
  pose proof (first_send_keeps o (e_page_size e) c s2) as Hk. rewrite E3 in Hk.
  destruct r as [c'|]; [|by apply returns_ret].
  apply (measure_returns (o_globals o)). rewrite Hstk. by eapply hwst_keeps.
Qed.

(** C27: a run of the program that returns 0 has given back every object it
    made (device list, context, buffer, channel, protection domain, device
    memory, memory region, completion queue, queue pair, the peer's address),
    whatever the device, the peer and the allocator answered on the way. *)
Theorem main_gives_back (e : run_env) (s s' : hw) (pages : list Z)
    (Hst : stacked (Z.of_nat (h_time s)) (h_live s))
    (Hrun : main e s = (Done (0, pages), s')) :
  h_live s' = h_live s.
Proof. exact (hs_live _ _ _ (main_returns e s Hst _ _ Hrun eq_refl)). Qed.

(** A run of the server for two exchanges, with a device that delivers them. *)
Definition demo_run_hw : hw :=
  Hw (World (λ _, true) (λ _, 0) (λ _, 0) demo_device 0 [Address 3 true (Conn [] [] [])])
    (OS ∅ ∅ (Net [] []
       [AccOk 5 (Conn [InData (dest_bytes demo_dest); InData done_msg] [] [])] 1 [] true))
    0 [] [] []
    [PollWcs [Wc 1 0 0 0; Wc 2 0 0 0]; PollWcs []; PollWcs [Wc 1 0 0 0]; PollWcs [Wc 2 0 0 0]] [].
Definition demo_run : run_env :=
  RunEnv [("n"%char, L "2"); ("r"%char, L "2"); ("s"%char, L "10"); ("c"%char, [])] []
    (Some [(L "mlx5_0", 1)]) 4 0x1234567 [0; 1; 2; 3; 0; 2; 2; 2; 3; 3].

Lemma main_gives_back_witness : h_live (main demo_run demo_run_hw).2 = h_live demo_run_hw.
Proof.
  apply (main_gives_back demo_run demo_run_hw _ [2]); [exact I|]. vm_compute. reflexivity.
Defined.
