(* ===== verification/RcChecks.v ===== *)
(** * The pure parts of the reliable-connection pingpong

    The options, the fuel of the event loop, the check of the received buffer
    and the statistics on the device's clock. *)

From Stdlib Require Import ZifyBool.
From S2P Require Import Prelude CLib OS Gid Verbs Exch Keeps RcPingpong RcLife RcProto RcMain.

Local Open Scope Z_scope.

(** ** Options *)

Record opts_valid (o : rc_opts) : Prop := {
  ov_port : 0 ≤ o_port o ≤ 65535;
  ov_ib_port : 1 ≤ o_ib_port o ≤ int_max;
  ov_mtu : IBV_MTU_256 ≤ o_mtu o ≤ IBV_MTU_4096;
  ov_size : 0 ≤ o_size o < 2 ^ 32;
  ov_rx_depth : 0 ≤ o_rx_depth o < 2 ^ 32;
  ov_iters : 0 ≤ o_iters o < 2 ^ 32;
  ov_gidx : is_int (o_gidx o);
  ov_odp : implicit_odp (o_globals o) = true → use_odp (o_globals o) = true }.

Lemma wrap_u_range w z : 0 ≤ w → 0 ≤ wrap_u w z < 2 ^ w.
Proof. intros H. apply Z.mod_pos_bound. lia. Qed.

Lemma wrap_s_range z : is_int (wrap_s 32 z).
Proof.
  unfold is_int, wrap_s, int_min, int_max.
  pose proof (Z.mod_pos_bound (z + 2 ^ (32 - 1)) (2 ^ 32)). lia.
Qed.

Lemma mtu_range m : pp_mtu_to_enum m ≠ 0 → IBV_MTU_256 ≤ pp_mtu_to_enum m ≤ IBV_MTU_4096.
Proof.
  unfold pp_mtu_to_enum, IBV_MTU_256, IBV_MTU_512, IBV_MTU_1024, IBV_MTU_2048, IBV_MTU_4096.
  repeat case_match; lia.
Qed.

Lemma parse_opt_valid c a o o' : opts_valid o → parse_opt c a o = Some o' → opts_valid o'.
Proof.
  intros Hv. destruct o as [port dv sv ib sz mtu rx it ev sl g [odp iodp pre ts chk dmem ns]].
  destruct Hv as [H1 H2 H3 H4 H5 H6 H7 H8]. cbn in *.
  pose proof (wrap_u_range 32 (strtoul0 a) ltac:(lia)) as Hu.
  pose proof (wrap_s_range (strtol0 a)) as Hs.
  pose proof (mtu_range (wrap_s 32 (strtol0 a))) as Hm.
  unfold parse_opt. intros E.
  repeat match type of E with
  | context [match ?c with Ascii.Ascii _ _ _ _ _ _ _ _ => _ end] => destruct c
  | context [if ?b then _ else _] => destruct b eqn:?
  end; try discriminate E; injection E as <-; constructor; cbn; try done; unfold is_int in *; try lia.
Qed.

Lemma parse_opts_valid l o o' : opts_valid o → parse_opts l o = Some o' → opts_valid o'.
Proof.
  revert o. induction l as [|[c a] l IH]; intros o Hv; cbn [parse_opts]; [by intros [= <-]|].
  destruct (parse_opt c a o) as [o1|] eqn:E; [|done]. apply IH. by eapply parse_opt_valid.
Qed.

Lemma default_valid : opts_valid default_opts.
Proof.
  by constructor; cbn; unfold int_max, is_int, int_min, IBV_MTU_1024, IBV_MTU_256, IBV_MTU_4096.
Qed.

(** C40: the options the program goes on with: the port is a 16-bit number,
    the device's port at least 1, the MTU one of the five of the interface,
    the sizes and counts 32-bit; on-demand paging and device memory are not
    combined, a prefetch is only asked for with on-demand paging, which implicit
    paging includes; the server's name is the single remaining argument. *)
Theorem rc_options_valid (args : list (char * cstr)) (rest : list cstr) (o : rc_opts)
    (Ho : rc_options args rest = Some o) :
  opts_valid o ∧
  use_odp (o_globals o) && use_dm (o_globals o) = false ∧
  (prefetch_mr (o_globals o) = true → use_odp (o_globals o) = true) ∧
  (length rest ≤ 1)%nat ∧ (∀ h, rest = [h] → o_servername o = Some h).
Proof.
  unfold rc_options in Ho. destruct (parse_opts args default_opts) as [o1|] eqn:E1; [|done].
  pose proof (parse_opts_valid _ _ _ default_valid E1) as Hv. cbn [mbind option_bind] in Ho.
  assert (∃ o2, parse_rest rest o1 = Some o2 ∧ opts_valid o2 ∧ (length rest ≤ 1)%nat ∧
    (∀ h, rest = [h] → o_servername o2 = Some h)) as (o2 & E2 & Hv2 & Hl & Hh).
  { destruct rest as [|h [|h' rest]]; [exists o1|eexists|done].
    - split_and!; (done || simpl; lia).
    - split; [reflexivity|]. destruct Hv. split; [by constructor|]. split; [simpl; lia|].
      by intros h' [= ->]. }
  rewrite E2 in Ho. cbn [mbind option_bind] in Ho.
  destruct (use_odp (o_globals o2) && use_dm (o_globals o2)) eqn:Ed; [done|].
  destruct (negb (use_odp (o_globals o2)) && prefetch_mr (o_globals o2)) eqn:Ep; [done|].
  injection Ho as <-. split_and!; [done..| |done|done].
  intros Hp. rewrite Hp, andb_true_r in Ep. by destruct (use_odp _).
Qed.

Lemma rc_options_valid_witness :
  ∃ o, rc_options [("s"%char, L "8192"); ("m"%char, L "2048"); ("O"%char, []); ("P"%char, [])]
         [L "host"] = Some o ∧ opts_valid o ∧
    use_odp (o_globals o) && use_dm (o_globals o) = false ∧
    (prefetch_mr (o_globals o) = true → use_odp (o_globals o) = true) ∧
    (length [L "host"] ≤ 1)%nat ∧ (∀ h, [L "host"] = [h] → o_servername o = Some h).
Proof.
  eexists. split; [vm_compute; reflexivity|].
  apply (rc_options_valid
    [("s"%char, L "8192"); ("m"%char, L "2048"); ("O"%char, []); ("P"%char, [])]).
  vm_compute. reflexivity.
Defined.

(** ** The check of the buffer *)

Lemma page_mark_zero page i : page_mark page i = 0.
Proof. apply Z.rem_1_r. Qed.

(** The loop visits the multiples of the page size below the size. *)
Lemma page_starts_spec fuel i size page x :
  0 < page → size - i ≤ Z.of_nat fuel → 
  x ∈ page_starts fuel i size page ↔ ∃ k, 0 ≤ k ∧ x = i + k * page ∧ x < size.
Proof.
  intros Hp. revert i. induction fuel as [|fuel IH]; intros i Hf; cbn [page_starts].
  - rewrite elem_of_nil. split; [done|]. intros (k & Hk & -> & Hx). nia.
  - destruct (Z.ltb_spec i size) as [Hi|Hi].
    + rewrite elem_of_cons, IH by lia. split.
      * intros [->|(k & Hk & -> & Hx)]; [exists 0; lia|]. exists (k + 1). split_and!; nia.
      * intros (k & Hk & -> & Hx). destruct (Z.eq_dec k 0) as [->|Hk0]; [left; lia|].
        right. exists (k - 1). split_and!; nia.
    + rewrite elem_of_nil. split; [done|]. intros (k & Hk & -> & Hx). nia.
Qed.

Lemma fill_lookup l page b j :
  (∀ i, i ∈ l → 0 ≤ i) →
  foldl (λ b i, <[Z.to_nat i := page_mark page i]> b) b l !! j =
  if decide (Z.of_nat j ∈ l ∧ (j < length b)%nat) then Some 0 else b !! j.
Proof.
  revert b. induction l as [|i l IH]; intros b Hl; cbn [foldl].
  { rewrite decide_False; [done|]. by intros [?%elem_of_nil _]. }
  rewrite IH by (intros i' Hi'; apply Hl; by apply elem_of_cons; right).
  rewrite length_insert, page_mark_zero. specialize (Hl i ltac:(by constructor)).
  destruct (decide (Z.of_nat j ∈ l ∧ (j < length b)%nat)) as [[H1 H2]|H].
  { rewrite decide_True; [done|]. split; [by apply elem_of_cons; right|done]. }
  destruct (decide (Z.of_nat j = i)) as [<-|Hne].
  - rewrite Nat2Z.id. destruct (decide (j < length b)%nat) as [Hj|Hj].
    + rewrite list_lookup_insert_eq by done. rewrite decide_True; [done|]. split; [by constructor|done].
    + rewrite list_insert_ge by lia. rewrite decide_False; [done|]. tauto.
  - rewrite list_lookup_insert_ne by lia. rewrite decide_False; [done|].
    intros [[?|?]%elem_of_cons ?]; tauto.
Qed.

(** The check of the received buffer: a page is reported exactly when the
    byte it starts with is not 0; in particular the server accepts what the
    client prepares, and also any buffer whose pages start with 0, since the
    mark of every page is the same ([i / page_size % sizeof (char)]). *)
Theorem page_check_spec (size page : Z) (b : list Z) (Hp : 0 < page) (Hs : 0 ≤ size) :
  (∀ p, p ∈ invalid_pages size page b ↔ 
     0 ≤ p ∧ p * page < size ∧ b !! Z.to_nat (p * page) ≠ Some 0) ∧
  (size ≤ Z.of_nat (length b) → invalid_pages size page (fill_pages size page b) = []) ∧
  invalid_pages size page (replicate (Z.to_nat size) 0) = [].
Proof.
  assert (∀ b p, p ∈ invalid_pages size page b ↔
     0 ≤ p ∧ p * page < size ∧ b !! Z.to_nat (p * page) ≠ Some 0) as Hspec.
  { intros b' p. unfold invalid_pages. rewrite list_elem_of_fmap. split.
    - intros (i & -> & Hi). apply list_elem_of_filter in Hi as [Hb Hi].
      apply page_starts_spec in Hi as (k & Hk & -> & Hx); [|done|lia].
      rewrite page_mark_zero in Hb. rewrite Z.add_0_l, Z.quot_mul by lia. 
      rewrite Z.add_0_l in Hb, Hx. done.
    - intros (H0 & H1 & H2). exists (p * page). rewrite Z.quot_mul by lia. split; [done|].
      apply list_elem_of_filter. rewrite page_mark_zero. split; [done|].
      apply page_starts_spec; [done|lia|]. exists p. lia. }
  split; [apply Hspec|].
  assert (∀ b, (∀ p, 0 ≤ p → p * page < size → b !! Z.to_nat (p * page) = Some 0) →
    invalid_pages size page b = []) as Hnone.
  { intros b' Hb. destruct (invalid_pages size page b') as [|p l] eqn:E; [done|].
    destruct (Hspec b' p) as [H _]. rewrite E in H.
    destruct H as (H0 & H1 & H2); [by constructor|]. by destruct H2; apply Hb. }
  split; [intros Hl|]; apply Hnone; intros p H0 H1.
  - unfold fill_pages. rewrite fill_lookup.
    + rewrite decide_True; [done|]. rewrite Z2Nat.id by nia. split; [|lia].
      apply page_starts_spec; [done|lia|]. exists p. lia.
    + intros i Hi. apply page_starts_spec in Hi as (k & Hk & -> & _); [nia|done|lia].
  - apply lookup_replicate_2. nia.
Qed.

Lemma page_check_spec_witness :
  (∀ p, p ∈ invalid_pages 10 4 [0; 1; 2; 3; 0; 2; 2; 2; 3; 3] ↔
     0 ≤ p ∧ p * 4 < 10 ∧ [0; 1; 2; 3; 0; 2; 2; 2; 3; 3] !! Z.to_nat (p * 4) ≠ Some 0) ∧
  (10 ≤ 10 → invalid_pages 10 4 (fill_pages 10 4 [0; 1; 2; 3; 0; 2; 2; 2; 3; 3]) = []) ∧
  invalid_pages 10 4 (replicate 10 0) = [].
Proof. apply (page_check_spec 10 4 [0; 1; 2; 3; 0; 2; 2; 2; 3; 3]); lia. Defined.

(** ** The clock *)

Lemma ts_delta_mod k prev t :
  0 < k ≤ 64 → 0 ≤ prev < 2 ^ k → 0 ≤ t < 2 ^ k →
  ts_delta (2 ^ k - 1) prev t = (t - prev) mod 2 ^ k.
Proof.
  intros Hk Hp Ht. unfold ts_delta. pose proof (Z.pow_le_mono_r 2 k 64 ltac:(lia) ltac:(lia)).
  destruct (Z.leb_spec prev t).
  - symmetry. apply Z.mod_small. lia.
  - rewrite wrap_u_small by lia. apply (Z.mod_unique_pos _ _ (-1)); lia.
Qed.

(** The times between successive completions. *)
Fixpoint deltas (m prev : Z) (l : list Z) : list Z :=
  match l with [] => [] | t :: l => (t - prev) mod m :: deltas m t l end.

Definition sum (l : list Z) : Z := foldr Z.add 0 l.

Lemma wrap_u_add w a b : 0 ≤ w → wrap_u w (wrap_u w a + b) = wrap_u w (a + b).
Proof. intros Hw. apply Z.add_mod_idemp_l. lia. Qed.

Lemma record_ts_fold k l p :
  0 < k ≤ 64 → 0 ≤ comp_recv_prev_time p < 2 ^ k → Forall (λ t, 0 ≤ t < 2 ^ k) l →
  last_comp_with_ts p = 1 →
  let ds := deltas (2 ^ k) (comp_recv_prev_time p) l in
  let p' := foldl (λ p t, record_ts (2 ^ k - 1) t p) p l in
  comp_recv_max_time_delta p' = foldl Z.max (comp_recv_max_time_delta p) ds ∧
  comp_recv_min_time_delta p' = foldl Z.min (comp_recv_min_time_delta p) ds ∧
  wrap_u 64 (comp_recv_total_time_delta p') = wrap_u 64 (comp_recv_total_time_delta p + sum ds) ∧
  wrap_u 32 (comp_with_time_iters p')
    = wrap_u 32 (comp_with_time_iters p + Z.of_nat (length l)).
Proof.
  intros Hk Hprev Hl. revert p Hprev. induction Hl as [|t l Ht _ IH]; intros p Hprev Hlast.
  { simpl. by rewrite !Z.add_0_r. }
  cbv zeta. cbn [foldl deltas sum foldr length].
  set (p1 := record_ts (2 ^ k - 1) t p).
  assert (p1 = TsParams (Z.max (comp_recv_max_time_delta p) ((t - comp_recv_prev_time p) mod 2 ^ k))
    (Z.min (comp_recv_min_time_delta p) ((t - comp_recv_prev_time p) mod 2 ^ k))
    (wrap_u 64 (comp_recv_total_time_delta p + (t - comp_recv_prev_time p) mod 2 ^ k)) t 1
    (wrap_u 32 (comp_with_time_iters p + 1))) as Hp1.
  { unfold p1, record_ts. rewrite Hlast. cbn. by rewrite (ts_delta_mod k) by done. }
  destruct (IH p1) as (H1 & H2 & H3 & H4); [by rewrite Hp1..|].
  rewrite Hp1 in H1, H2, H3, H4 |- *. cbn in H1, H2, H3, H4. cbv zeta.
  split_and!; [exact H1|exact H2| |].
  - rewrite H3, wrap_u_add by lia. f_equal. fold (sum (deltas (2 ^ k) t l)). lia.
  - rewrite H4, wrap_u_add by lia. f_equal. lia.
Qed.

(** The timestamp statistics: on a device whose clock has [k] bits, after
    completions at the times [t :: l] the program holds the largest and the
    smallest time between two successive ones, their sum and their number, a
    wrap-around of the clock between two completions included; the smallest
    is compared with [0xffffffff], so that it is wrong when all are longer. *)
Theorem ts_statistics (k t : Z) (l : list Z) (Hk : 0 < k ≤ 64)
    (Ht : 0 ≤ t < 2 ^ k) (Hl : Forall (λ t, 0 ≤ t < 2 ^ k) l) :
  let p := foldl (λ p t, record_ts (2 ^ k - 1) t p) ts_start (t :: l) in
  let ds := deltas (2 ^ k) t l in
  comp_recv_max_time_delta p = foldl Z.max 0 ds ∧
  comp_recv_min_time_delta p = foldl Z.min 0xffffffff ds ∧
  wrap_u 64 (comp_recv_total_time_delta p) = wrap_u 64 (sum ds) ∧
  wrap_u 32 (comp_with_time_iters p) = wrap_u 32 (Z.of_nat (length l)).
Proof.
  cbv zeta. cbn [foldl].
  exact (record_ts_fold k l (record_ts (2 ^ k - 1) t ts_start) Hk Ht Hl eq_refl).
Qed.

Lemma ts_statistics_witness :
  let p := foldl (λ p t, record_ts (2 ^ 8 - 1) t p) ts_start [250; 4; 20] in
  let ds := deltas (2 ^ 8) 250 [4; 20] in
  comp_recv_max_time_delta p = foldl Z.max 0 ds ∧
  comp_recv_min_time_delta p = foldl Z.min 0xffffffff ds ∧
  wrap_u 64 (comp_recv_total_time_delta p) = wrap_u 64 (sum ds) ∧
  wrap_u 32 (comp_with_time_iters p) = wrap_u 32 (Z.of_nat (length [4; 20])).
Proof. apply (ts_statistics 8 250 [4; 20]); [lia|lia|repeat constructor; lia]. Defined.

(** ** The fuel of the event loop

    What is left of the scripts. *)
Definition left_of (s : rc_state) : nat :=
  (length (h_events (rc_hw s)) + poll_size (h_polls (rc_hw s)))%nat.

Definition scripts_kept (s s' : hw) : Prop := h_events s' = h_events s ∧ h_polls s' = h_polls s.

#[global] Instance scripts_kept_refl : Reflexive scripts_kept.
Proof. by intros s. Qed.
#[global] Instance scripts_kept_trans : Transitive scripts_kept.
Proof. intros s1 s2 s3 (?&?) (?&?). split; congruence. Qed.

Definition shrinks (s s' : rc_state) : Prop := (left_of s' ≤ left_of s)%nat.

#[global] Instance shrinks_refl : Reflexive shrinks.
Proof. intros s. unfold shrinks. lia. Qed.
#[global] Instance shrinks_trans : Transitive shrinks.
Proof. intros s1 s2 s3. unfold shrinks. lia. Qed.

Lemma dev_shrinks {A} (m : M hw A) : preserves scripts_kept m → preserves shrinks (dev m).
Proof.
  intros H. eapply preserves_zoom_rel; [exact H|]. intros s t [E1 E2].
  unfold shrinks, left_of. cbn. rewrite E1, E2. unfold lget. cbn. lia.
Qed.

Lemma uses_scripts os : preserves scripts_kept (uses os).
Proof. intros s. unfold uses. by destruct (forallb _ _). Qed.
#[export] Hint Resolve uses_scripts : preserves.
Lemma call_scripts os c : preserves scripts_kept (call os c).
Proof. unfold call. preserve. Qed.
#[export] Hint Resolve call_scripts : preserves.
Lemma post_recvs_scripts c k i : preserves scripts_kept c → preserves scripts_kept (post_recvs c k i).
Proof. intros Hc. revert i. induction k as [|k IH]; intros i; cbn [post_recvs]; preserve. Qed.
Lemma pp_post_recv_scripts G c n : preserves scripts_kept (pp_post_recv G c n).
Proof.
  unfold pp_post_recv. apply preserves_bind; [exact _|preserve|]. intros s.
  apply post_recvs_scripts. preserve.
Qed.
Lemma pp_post_send_scripts G c : preserves scripts_kept (pp_post_send G c).
Proof. unfold pp_post_send. preserve. Qed.
#[export] Hint Resolve pp_post_recv_scripts pp_post_send_scripts : preserves.

Ltac shrink := repeat first
  [ apply dev_shrinks; solve [preserve] | preserve_step; cbv beta iota
  | apply preserves_modify; intros ?; unfold shrinks, left_of; cbn; lia ].

Lemma incr_shrinks x : preserves shrinks (incr x).
Proof. unfold incr. destruct (x =? int_max); intros s; by apply shrinks_refl. Qed.
#[export] Hint Resolve incr_shrinks : preserves.
Lemma recv_done_shrinks G t : preserves shrinks (recv_done G t).
Proof. unfold recv_done. shrink. Qed.
#[export] Hint Resolve recv_done_shrinks : preserves.
Lemma parse_single_wc_shrinks G iters w : preserves shrinks (parse_single_wc G iters w).
Proof. unfold parse_single_wc. shrink. Qed.
#[export] Hint Resolve parse_single_wc_shrinks : preserves.
Lemma parse_all_shrinks G iters l : preserves shrinks (parse_all G iters l).
Proof. induction l as [|w l IH]; cbn [parse_all]; shrink. Qed.
#[export] Hint Resolve parse_all_shrinks : preserves.

(** One poll: nothing is left, or something of the script is used up; when it
    finds nothing ([again]), a whole entry. *)
Definition poll_step {A} (again : A → bool) (poll : M hw A) : Prop := ∀ s,
  match poll s with
  | (Done r, s') => h_events s' = h_events s ∧
      ((h_polls s = [] ∧ again r = true ∧ s' = s) ∨
       ((poll_size (h_polls s') < poll_size (h_polls s))%nat ∧
        (again r = true → (length (h_polls s') < length (h_polls s))%nat)))
  | _ => True
  end.

Lemma poll_size_drop n w l :
  (0 < n)%nat → w ≠ [] →
  (poll_size (match drop n w with [] => l | r => PollWcs r :: l end) <
   poll_size (PollWcs w :: l))%nat.
Proof.
  intros Hn Hw. assert (length (drop n w) < length w)%nat as Hl.
  { rewrite length_drop. destruct w; [done|simpl; lia]. }
  destruct (drop n w) as [|x r] eqn:E; simpl in *; lia.
Qed.

Lemma poll_cq_step cq :
  poll_step (λ r, match r with inr [] => true | _ => false end) (poll_cq cq 2).
Proof.
  intros s. unfold poll_cq, uses. unfold mbind, M_bind. destruct (forallb _ _); [|done].
  unfold get. destruct (h_polls s) as [|[w|e] l] eqn:E; cbn -[drop take poll_size].
  - split; [done|]. by left.
  - split; [done|]. right. destruct w as [|x w].
    + split; [simpl; lia|]. intros _. simpl. lia.
    + split; [apply (poll_size_drop 2 (x :: w)); (done || lia)|done].
  - split; [done|]. right. split; [simpl; lia|done].
Qed.

Lemma next_wc_step cq :
  poll_step (λ r, match r with inl e => e =? ENOENT | inr _ => false end) (next_wc cq).
Proof.
  intros s. unfold next_wc, uses. unfold mbind, M_bind. destruct (forallb _ _); [|done].
  unfold get. destruct (h_polls s) as [|[[|w [|w' ws]]|e] l] eqn:E; cbn.
  - split; [done|]. by left.
  - split; [done|]. right. split; [lia|lia].
  - split; [done|]. right. split; [lia|done].
  - split; [done|]. right. split; [lia|done].
  - split; [done|]. right. split; [lia|lia].
Qed.

Section spin.
Context {A : Type} (poll : M hw A) (again : A → bool) (Hpoll : poll_step again poll).

Lemma spin_shrinks fuel s :
  returns (spin fuel (dev poll) again) s (λ _ s', (left_of s' < left_of s)%nat).
Proof using Hpoll.
  revert s. induction fuel as [|fuel IH]; intros s; cbn [spin]; [by intros ? ?|].
  apply returns_bind. intros r s1 E. unfold dev, zoom in E. specialize (Hpoll (lget s)).
  destruct (poll (lget s)) as [[r'|z|f|] t] eqn:Ep; try done. injection E as -> <-.
  destruct Hpoll as [He [(_ & Hr & ->)|[Hlt Hr]]].
  - rewrite Hr. eapply returns_mono; [apply IH|]. intros r' s' Hs'. by destruct s.
  - assert (left_of (lset t s) < left_of s)%nat as Hs.
    { unfold left_of, lset, lget in *. cbn in *. rewrite He. lia. }
    destruct (again r); [|by apply returns_ret].
    eapply returns_mono; [apply IH|]. intros r' s' Hs'. exact (Nat.lt_trans _ _ _ Hs' Hs).
Qed.

Lemma spin_empty k s r :
  poll (lget s) = (Done r, lget s) → again r = true → spin k (dev poll) again s = (Hang, s).
Proof using.
  intros E Hr. induction k as [|k IH]; [done|]. cbn [spin].
  rewrite (bind_done _ _ s r s).
  - by rewrite Hr.
  - unfold dev, zoom. rewrite E. by destruct s.
Qed.

(** With one round more than the script has entries, a loop that does not end
    never would. *)
Lemma spin_fuel n m s :
  (length (h_polls (rc_hw s)) < n)%nat → (length (h_polls (rc_hw s)) < m)%nat →
  spin n (dev poll) again s = spin m (dev poll) again s.
Proof using Hpoll.
  revert m s. induction n as [|n IH]; intros m s Hn Hm; [lia|]. destruct m as [|m]; [lia|].
  cbn [spin]. pose proof (Hpoll (lget s)) as Hp. unfold mbind, M_bind, dev at 1 3, zoom.
  destruct (poll (lget s)) as [[r|z|f|] t] eqn:Ep; [|done..].
  destruct Hp as [_ [(He & Hr & ->)|[_ Hlt]]].
  - rewrite Hr. replace (lset (lget s) s) with s by by destruct s.
    by rewrite !(spin_empty _ s r).
  - destruct (again r) eqn:Er; [|done]. specialize (Hlt eq_refl). apply IH; cbn in *; lia.
Qed.
End spin.

Lemma next_wc_shrinks cq : preserves shrinks (dev (next_wc cq)).
Proof.
  intros s. unfold dev, zoom, next_wc, uses, mbind, M_bind, get, shrinks, left_of, lget. cbn.
  destruct (is_live _ _ && true); cbn; [|lia].
  destruct (h_polls (rc_hw s)) as [|[[|w [|w' ws]]|e] l] eqn:E; cbn; rewrite ?E; cbn; lia.
Qed.
#[export] Hint Resolve next_wc_shrinks : preserves.

(** The poll of a round: something is used up unless an event has been. *)
Lemma spin_round {A} (poll : M hw A) again0 (again : A → bool) (ev : bool) s :
  poll_step again0 poll → (∀ r, again r = negb ev && again0 r) →
  returns (spin (S (length (h_polls (rc_hw s)))) (dev poll) again) s (λ _ s',
    (left_of s' ≤ left_of s)%nat ∧ (ev = false → (left_of s' < left_of s)%nat)).
Proof.
  intros Hp Ha. destruct ev.
  - cbn [spin]. apply returns_bind. intros r s1 E. rewrite Ha. apply returns_ret. split; [|done].
    unfold dev, zoom in E. specialize (Hp (lget s)).
    destruct (poll (lget s)) as [[r'|z|f|] t]; try done. injection E as -> <-.
    destruct Hp as [He [(_ & _ & ->)|[Hlt _]]]; unfold left_of; cbn in *; [lia|rewrite He; lia].
  - eapply returns_mono; [|intros r s' H; split; [|intros _]; [|exact H]]; [|simpl in *; lia].
    apply spin_shrinks. intros s1. specialize (Hp s1). destruct (poll s1) as [[r|z|f|] t]; try done.
    by rewrite Ha.
Qed.

Lemma poll_ts_shrinks G iters ev s :
  returns (poll_ts G iters ev) s (λ _ s', (left_of s' ≤ left_of s)%nat ∧
    (ev = false → (left_of s' < left_of s)%nat)).
Proof.
  unfold poll_ts. apply returns_bind. intros ? ? [= <- <-]. apply returns_bind.
  eapply returns_mono; [by apply (spin_round _ _ _ ev _ (next_wc_step (cq (ctx s))))|].
  intros [ret|w] s1 [H1 H2]; [by apply returns_ret|].
  assert (∀ m : M rc_state (option Z), preserves shrinks m → returns m s1 (λ _ s',
    (left_of s' ≤ left_of s)%nat ∧ (ev = false → (left_of s' < left_of s)%nat))) as Hrest.
  { intros m Hm r s' E. specialize (Hm s1). rewrite E in Hm. unfold shrinks in Hm. simpl in Hm.
    split; [lia|]. intros Hev. specialize (H2 Hev). lia. }
  apply Hrest. shrink.
Qed.

Lemma poll_plain_shrinks G iters ev s :
  returns (poll_plain G iters ev) s (λ _ s', (left_of s' ≤ left_of s)%nat ∧
    (ev = false → (left_of s' < left_of s)%nat)).
Proof.
  unfold poll_plain. apply returns_bind. intros ? ? [= <- <-]. apply returns_bind.
  eapply returns_mono; [by apply (spin_round _ _ _ ev _ (poll_cq_step (cq (ctx s))))|].
  intros [z|l] s1 [H1 H2]; [by apply returns_ret|].
  intros r s' E. pose proof (parse_all_shrinks G iters l s1) as Hm. rewrite E in Hm.
  unfold shrinks in Hm. simpl in Hm. split; [lia|]. intros Hev. specialize (H2 Hev). lia.
Qed.

Lemma wait_event_shrinks ev s :
  returns (wait_event ev) s (λ _ s', (left_of s' ≤ left_of s)%nat ∧
    (ev = true → (left_of s' < left_of s)%nat)).
Proof.
  unfold wait_event. destruct ev; [|by apply returns_ret].
  apply returns_bind. intros ? ? [= <- <-]. cbv zeta. apply returns_bind. intros e s1 E.
  assert (left_of s1 < left_of s)%nat as H1.
  { revert E. unfold dev, zoom, get_cq_event, uses, mbind, M_bind, get, lget. cbn.
    destruct (is_live _ _ && true); [|done].
    unfold left_of. destruct (h_events (rc_hw s)) as [|x l] eqn:El; [done|]. cbn.
    intros [= <- <-]. cbn [lset rc_state_hw set_rc_hw rc_hw set_h_events h_events h_polls length]. lia. }
  match goal with |- returns ?m s1 _ => assert (preserves shrinks m) as Hm by shrink end.
  intros r s' E'. specialize (Hm s1). rewrite E' in Hm. unfold shrinks in Hm. simpl in Hm. lia.
Qed.

Lemma round_shrinks G iters ev s r s' :
  round G iters ev s = (Done r, s') → r = None → (left_of s' < left_of s)%nat.
Proof.
  unfold round. intros E Hr.
  apply bind_done_inv in E as (r1 & s1 & E1 & E2).
  destruct (wait_event_shrinks ev s _ _ E1) as [H1 H2].
  destruct r1 as [rc|]; [injection E2 as <- _; done|].
  assert ((left_of s' ≤ left_of s1)%nat ∧ (ev = false → (left_of s' < left_of s1)%nat)) as [H3 H4].
  { destruct (use_ts G); [exact (poll_ts_shrinks _ _ _ _ _ _ E2)|exact (poll_plain_shrinks _ _ _ _ _ _ E2)]. }
  destruct ev; [specialize (H2 eq_refl)|specialize (H4 eq_refl)]; lia.
Qed.

Lemma main_loop_fuel n m G iters ev s :
  (left_of s < n)%nat → (left_of s < m)%nat →
  main_loop n G iters ev s = main_loop m G iters ev s.
Proof.
  revert m s. induction n as [|n IH]; intros m s Hn Hm; [lia|]. destruct m as [|m]; [lia|].
  cbn [main_loop]. rewrite !(bind_done get _ s s s) by done. destruct (_ || _); [|done].
  unfold mbind, M_bind.
  destruct (round G iters ev s) as [[[rc|]|z|f|] s1] eqn:Er; [done| |done..].
  pose proof (round_shrinks _ _ _ _ _ _ Er eq_refl). apply IH; lia.
Qed.

(** *** Where the loop waits

    Code that never waits. *)
Definition never_waits {S A} (m : M S A) : Prop := ∀ s, (m s).1 ≠ Hang.

Lemma never_waits_bind {S A B} (m : M S A) (k : A → M S B) :
  never_waits m → (∀ a, never_waits (k a)) → never_waits (m ≫= k).
Proof.
  intros Hm Hk s. unfold mbind, M_bind. specialize (Hm s). destruct (m s) as [[a|z|f|] s']; [apply Hk|done..].
Qed.

Lemma never_waits_dev {A} (m : M hw A) : never_waits m → never_waits (dev m).
Proof. intros Hm s. unfold dev, zoom. specialize (Hm (lget s)). by destruct (m (lget s)) as [[]]. Qed.

Lemma never_waits_call os c : never_waits (call os c).
Proof.
  unfold call. apply never_waits_bind; [intros s; unfold uses; by case_match|intros _].
  apply never_waits_bind; [by intros s|intros s0]. apply never_waits_bind; [by intros s|intros _].
  apply never_waits_bind; [case_match; by intros s|intros _; by intros s].
Qed.

Ltac no_wait := repeat first
  [ assumption | apply never_waits_call | apply never_waits_dev | apply never_waits_bind; [|intros ?; cbv beta zeta]
  | case_match | solve [intros ?; done] | solve [intros ?; unfold uses; case_match; done] | solve [unfold incr; case_match; intros ?; done] ].

Lemma post_recvs_no_wait (m : M hw Z) n i : never_waits m → never_waits (post_recvs m n i).
Proof. intros Hm. revert i. induction n as [|n IH]; intros i; cbn [post_recvs]; no_wait; apply IH. Qed.

Lemma parse_single_no_wait G iters w : never_waits (parse_single_wc G iters w).
Proof.
  assert (never_waits (recv_done G (wc_timestamp w))) as Hr.
  { unfold recv_done. no_wait. apply post_recvs_no_wait. no_wait. }
  unfold parse_single_wc, pp_post_send. no_wait.
Qed.

Lemma parse_all_no_wait G iters l : never_waits (parse_all G iters l).
Proof.
  induction l as [|w l IH]; cbn [parse_all]; no_wait. apply parse_single_no_wait.
Qed.

(** What a loop that does not end waits for: an event, when it uses them, and else a
    completion, and the device has none left. *)
Definition waiting (use_event : bool) (s : rc_state) : Prop :=
  if use_event then h_events (rc_hw s) = [] else h_polls (rc_hw s) = [].

Lemma bind_hang_inv {S A B} (m : M S A) (k : A → M S B) s s' :
  (m ≫= k) s = (Hang, s') → m s = (Hang, s') ∨ ∃ a s1, m s = (Done a, s1) ∧ k a s1 = (Hang, s').
Proof.
  unfold mbind, M_bind. destruct (m s) as [[a|z|f|] s1]; [|done|done|by intros [= <-]; left].
  intros E. right. by exists a, s1.
Qed.

Lemma spin_waits {A} (poll : M hw A) again fuel s s' :
  poll_step again poll → never_waits poll → (length (h_polls (rc_hw s)) < fuel)%nat →
  spin fuel (dev poll) again s = (Hang, s') → h_polls (rc_hw s') = [].
Proof.
  intros Hp Hn. revert s. induction fuel as [|fuel IH]; intros s Hf; [lia|]. cbn [spin].
  intros [E|(r & s1 & E & Ek)]%bind_hang_inv.
  - by pose proof (never_waits_dev _ Hn s) as H; rewrite E in H.
  - unfold dev, zoom in E. specialize (Hp (lget s)).
    destruct (poll (lget s)) as [[r'|z|f|] t] eqn:Et; try done. injection E as -> <-.
    destruct (again r) eqn:Er; [|done]. destruct Hp as [_ [(He & _ & ->)|[_ Hlt]]].
    + assert (set_rc_hw (lget s) s = s) as Hs by by destruct s. rewrite Hs in Ek.
      by rewrite (spin_empty poll again _ s r) in Ek; [injection Ek as <-|done|done].
    + specialize (Hlt eq_refl). apply (IH (lset t s)); [cbn in *; lia|done].
Qed.

Lemma next_wc_no_wait q : never_waits (next_wc q).
Proof.
  intros s. unfold next_wc, uses, mbind, M_bind, get. destruct (forallb _ _); [|done]. by repeat case_match.
Qed.

Lemma poll_cq_no_wait q n : never_waits (poll_cq q n).
Proof.
  intros s. unfold poll_cq, uses, mbind, M_bind, get. destruct (forallb _ _); [|done]. by repeat case_match.
Qed.

(** A poll behind an event does not go round. *)
Lemma spin_once {A} (poll : M hw A) (again : A → bool) fuel :
  never_waits poll → (∀ r, again r = false) → (0 < fuel)%nat → never_waits (spin fuel (dev poll) again).
Proof.
  intros Hn Ha Hf. destruct fuel as [|fuel]; [lia|]. cbn [spin].
  apply never_waits_bind; [by apply never_waits_dev|intros r]. rewrite Ha. by intros s.
Qed.

Lemma poll_waits {A B} (poll : M hw A) again0 (again : A → bool) (k : A → M rc_state B) ev s s' :
  poll_step again0 poll → never_waits poll → (∀ r, again r = negb ev && again0 r) → (∀ r, never_waits (k r)) →
  (spin (S (length (h_polls (rc_hw s)))) (dev poll) again ≫= k) s = (Hang, s') → ev = false ∧ h_polls (rc_hw s') = [].
Proof.
  intros Hp Hn Ha Hk [E|(r & s1 & _ & E)]%bind_hang_inv; [|by pose proof (Hk r s1) as H; rewrite E in H].
  destruct ev.
  - pose proof (spin_once poll again (S (length (h_polls (rc_hw s)))) Hn Ha ltac:(lia) s) as H. by rewrite E in H.
  - split; [done|]. apply (spin_waits poll again (S (length (h_polls (rc_hw s)))) s s'); [|done|lia|done].
    intros s0. specialize (Hp s0). destruct (poll s0) as [[r|z|f|] t]; try done. by rewrite Ha.
Qed.

Lemma round_waits G iters ev s s' : round G iters ev s = (Hang, s') → waiting ev s'.
Proof.
  unfold round. intros [E|(r & s1 & _ & E)]%bind_hang_inv.
  - unfold wait_event in E. destruct ev; [|done]. unfold waiting.
    apply bind_hang_inv in E as [E|(s0 & s1 & [= <- <-] & E)]; [done|].
    apply bind_hang_inv in E as [E|(e & s1 & _ & E)].
    + unfold dev, zoom, get_cq_event, uses, mbind, M_bind, get, lget in E. cbn in E.
      destruct (is_live _ _ && true); [|done]. destruct (h_events (rc_hw s)) eqn:El; [|done].
      injection E as <-. by destruct s.
    + match type of E with ?m _ = _ => assert (never_waits m) as Hn by no_wait end.
      pose proof (Hn s1) as H. by rewrite E in H.
  - destruct r as [rc|]; [done|]. unfold waiting.
    assert (ev = false ∧ h_polls (rc_hw s') = []) as [-> H]; [|done].
    destruct (use_ts G).
    + unfold poll_ts in E. rewrite bind_get in E. revert E.
      apply (poll_waits _ _ _ _ ev _ _ (next_wc_step (cq (ctx s1))) (next_wc_no_wait _)); [done|].
      intros [z|w]; [by intros ?|]. pose proof (λ w, parse_single_no_wait G (wrap_s 32 iters) w) as Hps.
      no_wait; apply Hps.
    + unfold poll_plain in E. rewrite bind_get in E. revert E.
      apply (poll_waits _ _ _ _ ev _ _ (poll_cq_step (cq (ctx s1))) (poll_cq_no_wait _ _)); [done|].
      intros [z|l]; [by intros ?|apply parse_all_no_wait].
Qed.

(** *** What the loop is *)

(** [rcnt < iters || scnt < iters]. *)
Definition unfinished (iters : Z) (s : rc_state) : Prop :=
  (wrap_u 32 (rcnt s) <? iters) || (wrap_u 32 (scnt s) <? iters) = true.

(** A round after which the loop goes on. *)
Definition goes_on (G : globals) (iters : Z) (ev : bool) (s s' : rc_state) : Prop :=
  unfinished iters s ∧ round G iters ev s = (Done None, s').

(** How the loop ends in the state [s1]. *)
Definition loop_ends (G : globals) (iters : Z) (ev : bool) (s1 : rc_state)
    (r : outcome (option Z) * rc_state) : Prop :=
  match r with
  | (Done None, s') => s' = s1 ∧ ¬ unfinished iters s1
  | (Hang, s') => unfinished iters s1 ∧ round G iters ev s1 = r ∧ waiting ev s'
  | _ => unfinished iters s1 ∧ round G iters ev s1 = r
  end.

Lemma loop_unrolls fuel G iters ev s :
  (loop_fuel (rc_hw s) ≤ fuel)%nat →
  ∃ k s1, nsteps (goes_on G iters ev) k s s1 ∧ (k + loop_fuel (rc_hw s1) ≤ loop_fuel (rc_hw s))%nat ∧
    loop_ends G iters ev s1 (main_loop fuel G iters ev s).
Proof.
  revert s. induction fuel as [|fuel IH]; intros s Hf; [unfold loop_fuel in Hf; lia|].
  cbn [main_loop]. rewrite bind_get.
  destruct ((wrap_u 32 (rcnt s) <? iters) || (wrap_u 32 (scnt s) <? iters)) eqn:Eu.
  2:{ exists 0%nat, s. split; [constructor|]. split; [lia|]. split; [done|]. unfold unfinished. by rewrite Eu. }
  unfold mbind, M_bind. destruct (round G iters ev s) as [[[rc|]|z|f|] s1] eqn:Er.
  - exists 0%nat, s. split; [constructor|]. split; [lia|done].
  - pose proof (round_shrinks _ _ _ _ _ _ Er eq_refl) as Hlt.
    assert (loop_fuel (rc_hw s1) < loop_fuel (rc_hw s))%nat as Hlt' by (unfold loop_fuel, left_of in *; lia).
    destruct (IH s1) as (k & s2 & Hk & Hle & He); [lia|]. exists (S k), s2. split; [|split; [lia|done]].
    econstructor; [by split|done].
  - exists 0%nat, s. split; [constructor|]. split; [lia|done].
  - exists 0%nat, s. split; [constructor|]. split; [lia|done].
  - exists 0%nat, s. split; [constructor|]. split; [lia|]. split; [done|]. split; [done|]. by eapply round_waits.
Qed.

(** C38: the event loop of rc_pingpong.c: with as much fuel as the device has events
    and completions to deliver, and one more, a run is the rounds of the loop one after
    the other, each of which uses up one of them at least, up to a state [s1] in which
    it ends as the code says: both counts have reached the number of iterations, or
    the round at [s1] gives a return code, or fails, or waits; and a round that waits
    does so for an event, or for a completion, of which the device has none left.  More
    fuel changes nothing. *)
Theorem rc_loop_fuel (fuel : nat) (G : globals) (iters : Z) (ev : bool) (s : rc_state)
    (Hf : (loop_fuel (rc_hw s) ≤ fuel)%nat) :
  (∃ k s1, nsteps (goes_on G iters ev) k s s1 ∧ (k + loop_fuel (rc_hw s1) ≤ loop_fuel (rc_hw s))%nat ∧
     loop_ends G iters ev s1 (main_loop fuel G iters ev s)) ∧
  main_loop fuel G iters ev s = main_loop (loop_fuel (rc_hw s)) G iters ev s.
Proof. split; [by apply loop_unrolls|]. apply main_loop_fuel; unfold loop_fuel, left_of in *; lia. Qed.

Lemma rc_loop_fuel_witness :
  let s := RcState demo_run_hw demo_ctx 0 0 2 ts_start 0 in
  let G := o_globals (demo_opts None) in
  (∃ k s1, nsteps (goes_on G 2 false) k s s1 ∧ (k + loop_fuel (rc_hw s1) ≤ loop_fuel demo_run_hw)%nat ∧
     loop_ends G 2 false s1 (main_loop 100 G 2 false s)) ∧
  main_loop 100 G 2 false s = main_loop (loop_fuel demo_run_hw) G 2 false s.
Proof. apply rc_loop_fuel. vm_compute. repeat constructor. Defined.
