(* ===== verification/Setup.v ===== *)
(** * Setting up step by step

    The set-up functions of the examples make their objects one by one and, when
    a step fails, jump into a chain of labels that gives back what was made so
    far.  These lemmas take one such step: the labels give back the stack of the
    objects made, and a failure is never the program's own when the world
    cooperates. *)

From S2P Require Import Prelude CLib OS Gid Verbs Exch RcPingpong RcLife.

Local Open Scope Z_scope.

Section setup.
Context {C : Type} (s0 : hw) (fine : Prop) (P : C → hw → Prop).
Context (Hfine : fine → cooperative (h_world s0)).

(** The result of a set-up: a context, or nothing, with everything given back
    (an object its destructor refuses apart), and not when all was [fine]. *)
Definition init_result (r : option C) (s' : hw) : Prop :=
  match r with
  | Some c => P c s'
  | None => ¬ fine ∧ (never_refuses (h_world s0) → hwst s0 s' [])
  end.

Lemma fail_step clean T s :
  hwst s0 s T → (∀ s, clean s = destroys T.*1 s) → ¬ fine →
  total (fail_with clean) s init_result.
Proof using. intros Hs Hc Hf. eapply fail_total; [exact Hc|exact Hs|]. intros s' H. by split. Qed.

Lemma new_step n deps (clean : Z → M hw ()) (k : Z → M hw (option C)) T s :
  hwst s0 s T → Forall (λ o, o ∈ T.*1) deps → (∀ s, clean 0 s = destroys T.*1 s) →
  (∀ p s', 0 < p → hwst s0 s' (((kind_of n, p), deps) :: T) → total (k p) s' init_result) →
  total (p ← new n deps; if p =? 0 then fail_with (clean p) else k p) s init_result.
Proof using Hfine.
  intros Hs Hd Hc Hk. apply total_bind. eapply new_total; [exact Hs|exact Hd|..].
  - intros s' E H. change (0 =? 0) with true. cbv iota. apply (fail_step _ T); [done..|].
    intros Hf. destruct (Hfine Hf) as [Hn _]. by rewrite Hn in E.
  - intros p s' Hp H. destruct (Z.eqb_spec p 0) as [->|_]; [lia|by apply Hk].
Qed.

Lemma call_step os c clean (k : M hw (option C)) T s :
  hwst s0 s T → Forall (λ o, o ∈ T.*1) os → (∀ s, clean s = destroys T.*1 s) →
  (∀ s', hwst s0 s' T → total k s' init_result) →
  total (r ← call os c; if r <>z 0 then fail_with clean else k) s init_result.
Proof using Hfine.
  intros Hs Ho Hc Hk. apply total_bind. eapply call_total; [exact Hs|exact Ho|].
  intros s' H. destruct (Z.eqb_spec (h_int (h_world s0) (h_time s)) 0) as [_|E]; simpl; [by apply Hk|].
  apply (fail_step _ T); [done..|]. intros Hf. destruct (Hfine Hf) as [_ Hi]. by rewrite Hi in E.
Qed.

(** [if (use_event) ... else ctx->channel = NULL]. *)
Lemma channel_step ctx (ev : bool) (clean : Z → M hw ()) (k : Z → M hw (option C)) s :
  hwst s0 s (stack_device ctx) → (∀ s, clean 0 s = destroys (stack_device ctx).*1 s) →
  (∀ p s', hwst s0 s' (stack_channel (set_channel p ctx)) → (p ≠ 0 ↔ ev = true) →
     total (k p) s' init_result) →
  total (p ← (if ev then new NewChannel [(KContext, context ctx)] else mret 0);
         if ev && (p =? 0) then fail_with (clean p) else k p) s init_result.
Proof using Hfine.
  intros Hs Hc Hk. apply total_bind. destruct ev; cbn [andb].
  - eapply new_total; [exact Hs|apply Forall_singleton; by left|..].
    + intros s' E H. change (0 =? 0) with true. cbv iota. apply (fail_step _ (stack_device ctx)); [done..|].
      intros Hf. destruct (Hfine Hf) as [Hn _]. by rewrite Hn in E.
    + intros p s' Hp H. destruct (Z.eqb_spec p 0) as [->|Hp0]; [lia|]. apply Hk; [|done].
      unfold stack_channel, opt_entry. cbn [channel set_channel]. by destruct (Z.eqb_spec p 0).
  - apply total_ret. by apply Hk.
Qed.
End setup.

(** Everything up to the protection domain, in the programs without optional
    features: the part above is on the stack [T]. *)
Definition plain_stack (c : pingpong_context) : list (obj * list obj) :=
  ((KQp, qp c), [(KPd, pd c); (KCq, cq c)]) ::
  ((KCq, cq c), (KContext, context c) :: opt_obj KChannel (channel c)) ::
  ((KMr, mr c), [(KPd, pd c); (KMem, buf c)]) :: stack_pd c.

Lemma channel_dep c T :
  Forall (λ o, o ∈ (T ++ stack_channel c).*1) ((KContext, context c) :: opt_obj KChannel (channel c)).
Proof.
  rewrite fmap_app. apply Forall_cons_2.
  - apply elem_of_app. right. unfold stack_channel. rewrite fmap_app. apply elem_of_app. right. by left.
  - apply Forall_forall. intros o Ho. apply elem_of_app. right. unfold stack_channel.
    rewrite fmap_app, opt_entry_objs. apply elem_of_app. by left.
Qed.

(** ** Tearing down step by step *)

Section teardown.
Context (s0 : hw) (Q : Z → hw → Prop) (HQ : ∀ s', ¬ never_refuses (h_world s0) → Q 1 s').

Lemma close_one R o deps S (k : M hw Z) s :
  hwst s0 s (R ++ (o, deps) :: S) → free_of o R →
  (∀ s', hwst s0 s' (R ++ S) → total k s' Q) → total (close_step o k) s Q.
Proof using HQ.
  intros Hs HR Hk. unfold close_step. apply total_bind.
  eapply (del_total _ deps R); [exact HR|exact Hs|..].
  - intros s' H'. change (0 <>z 0) with false. cbv iota. by apply Hk.
  - intros r s' Hr E H'. destruct (Z.eqb_spec r 0); [done|]. simpl. apply total_ret, HQ.
    intros H. by rewrite H in E.
Qed.

Lemma close_channel R c S (k : M hw Z) s :
  hwst s0 s (R ++ opt_entry KChannel (channel c) [(KContext, context c)] ++ S) →
  free_of (KChannel, channel c) R →
  (∀ s', hwst s0 s' (R ++ S) → total k s' Q) →
  total (if channel c =? 0 then k else close_step (KChannel, channel c) k) s Q.
Proof using HQ.
  unfold opt_entry. intros Hs HR Hk. destruct (channel c =? 0); [by apply Hk|].
  by eapply close_one.
Qed.

(** The last steps, from the device on. *)
Lemma close_device R c S s :
  memory_only R → hwst s0 s (R ++ stack_device c ++ S) → (∀ s', hwst s0 s' (R ++ S) → Q 0 s') →
  total (close_step (KContext, context c)
           (release (KMem, buf c);; release (KMem, self c);; mret 0)) s Q.
Proof using HQ.
  intros HR Hs H0. pose proof (λ o, memory_only_free o _ HR) as HF.
  eapply close_one; [exact Hs|apply HF|]. intros s1 H1.
  apply total_bind. eapply (release_total _ [] R); [apply HF|exact H1|]. intros s2 H2.
  apply total_bind. eapply (release_total _ [] R); [apply HF|exact H2|]. intros s3 H3.
  by apply total_ret, H0.
Qed.
End teardown.
