(* ===== verification/Plain.v ===== *)
(** * The event loop of the plain pingpongs

    The loop of [main] in uc_pingpong.c and ud_pingpong.c is the same text over
    two ways of posting work.  It is written here once, in a section over the
    two posting functions, and related to the loop of the reliable-connection
    program, which does the same when its extra features are off. *)

From Stdlib Require Import ZifyBool.
From S2P Require Import Prelude CLib OS Gid Verbs Exch Keeps RcPingpong RcLife RcMain.

Local Open Scope Z_scope.

Section loop.
Context (post_recv : pingpong_context → Z → M hw Z) (post_send : pingpong_context → M hw Z).

(** [case PINGPONG_RECV_WRID]: whether to go on. *)
Definition wc_received : M rc_state bool :=
  s ← get;
  let r := routs s - 1 in
  modify (set_routs r);;
  ok ← (if r <=? 1 then
          n ← dev (post_recv (ctx s) (rx_depth (ctx s) - r));
          modify (set_routs (r + n));;
          mret (rx_depth (ctx s) <=? r + n)
        else mret true);
  if negb ok then mret false
  else n ← incr (rcnt s); modify (set_rcnt n);; mret true.

(** One completion: the return code of [main], or [None] to go on. *)
Definition treat_wc (iters : Z) (w : wc) : M rc_state (option Z) :=
  if wc_status w <>z IBV_WC_SUCCESS then mret (Some 1)
  else
    let wr_id := wrap_s 32 (wc_wr_id w) in
    ok ← (if wr_id =? PINGPONG_SEND_WRID then
            s ← get; n ← incr (scnt s); modify (set_scnt n);; mret true
          else if wr_id =? PINGPONG_RECV_WRID then wc_received
          else mret false);
    if negb ok then mret (Some 1)
    else
      modify (λ s, set_ctx (set_pending (Z.land (pending (ctx s)) (Z.lnot wr_id)) (ctx s)) s);;
      s ← get;
      if (wrap_u 32 (scnt s) <? iters) && (pending (ctx s) =? 0) then
        r ← dev (post_send (ctx s));
        if r <>z 0 then mret (Some 1)
        else
          modify (λ s, set_ctx (set_pending (Z.lor PINGPONG_RECV_WRID PINGPONG_SEND_WRID)
                                  (ctx s)) s);;
          mret None
      else mret None.

Fixpoint treat_all (iters : Z) (l : list wc) : M rc_state (option Z) :=
  match l with
  | [] => mret None
  | w :: l =>
      r ← treat_wc iters w;
      match r with Some rc => mret (Some rc) | None => treat_all iters l end
  end.

Definition loop_round (iters : Z) (use_event : bool) : M rc_state (option Z) :=
  r ← wait_event use_event;
  match r with
  | Some rc => mret (Some rc)
  | None =>
      s ← get;
      r ← spin (S (length (h_polls (rc_hw s)))) (dev (poll_cq (cq (ctx s)) 2))
            (λ r, negb use_event && match r with inr [] => true | _ => false end);
      match r with
      | inl _ => mret (Some 1)
      | inr l => treat_all iters l
      end
  end.

(** [while (rcnt < iters || scnt < iters)]. *)
Fixpoint event_loop (fuel : nat) (iters : Z) (use_event : bool) : M rc_state (option Z) :=
  match fuel with
  | O => hang_
  | S fuel =>
      s ← get;
      if (wrap_u 32 (rcnt s) <? iters) || (wrap_u 32 (scnt s) <? iters) then
        r ← loop_round iters use_event;
        match r with
        | Some rc => mret (Some rc)
        | None => event_loop fuel iters use_event
        end
      else mret None
  end.

(** The run of the loop on the hardware, and what it leaves. *)
Definition run_events (iters : Z) (use_event : bool) (c : pingpong_context) (routs : Z)
    : M hw (option Z * rc_state) := λ s,
  match event_loop (loop_fuel s) iters use_event (RcState s c 0 0 routs ts_start 0) with
  | (Done r, st) => (Done (r, st), rc_hw st)
  | (Exited z, st) => (Exited z, rc_hw st)
  | (Fault f, st) => (Fault f, rc_hw st)
  | (Hang, st) => (Hang, rc_hw st)
  end.

(** ** The loop leaves the objects alone, and fails only with 1 *)

Context (Hrecv : ∀ c n, preserves keeps (post_recv c n)) (Hsend : ∀ c, preserves keeps (post_send c)).

Ltac keep_posts := repeat first
  [ apply dev_keeps; first [apply Hrecv | apply Hsend | solve [keep]] | preserve_step; cbv beta iota
  | apply preserves_modify; intros ?; apply keeps_refl ].

Lemma wc_received_keeps : preserves loop_keeps wc_received.
Proof using Hrecv. unfold wc_received. keep_posts. Qed.

Lemma treat_wc_keeps iters w : preserves loop_keeps (treat_wc iters w).
Proof using Hrecv Hsend.
  pose proof wc_received_keeps. unfold treat_wc. keep_posts.
Qed.

Lemma treat_all_keeps iters l : preserves loop_keeps (treat_all iters l).
Proof using Hrecv Hsend.
  pose proof treat_wc_keeps. induction l as [|w l IH]; cbn [treat_all]; keep_posts.
Qed.

Lemma loop_round_keeps iters ev : preserves loop_keeps (loop_round iters ev).
Proof using Hrecv Hsend. pose proof treat_all_keeps. unfold loop_round. keep_posts. Qed.

Lemma event_loop_keeps fuel iters ev : preserves loop_keeps (event_loop fuel iters ev).
Proof using Hrecv Hsend.
  pose proof loop_round_keeps. induction fuel as [|fuel IH]; cbn [event_loop]; keep_posts.
Qed.

Lemma run_events_keeps iters ev c r : preserves keeps (run_events iters ev c r).
Proof using Hrecv Hsend.
  intros s. unfold run_events.
  pose proof (event_loop_keeps (loop_fuel s) iters ev (RcState s c 0 0 r ts_start 0)) as H.
  by destruct (event_loop _ _ _ _) as [[] ?].
Qed.
End loop.

(** ** Leaving the loop early is never a success *)

Section codes.
Context (post_recv : pingpong_context → Z → M hw Z) (post_send : pingpong_context → M hw Z).

Lemma treat_wc_rc iters w s :
  returns (treat_wc post_recv post_send iters w) s (λ r _, r ≠ Some 0).
Proof using.
  unfold treat_wc. destruct (_ <>z _); [by apply returns_ret|]. cbv zeta.
  apply returns_bind. intros ok s1 _. destruct (negb ok); [by apply returns_ret|].
  apply returns_bind. intros ? s2 _. apply returns_bind. intros ? s3 _.
  destruct (_ && _); [|by apply returns_ret].
  apply returns_bind. intros r s4 _. destruct (r <>z 0); [by apply returns_ret|].
  apply returns_bind. intros ? s5 _. by apply returns_ret.
Qed.

Lemma treat_all_rc iters l s :
  returns (treat_all post_recv post_send iters l) s (λ r _, r ≠ Some 0).
Proof using.
  revert s. induction l as [|w l IH]; intros s; cbn [treat_all]; [by apply returns_ret|].
  apply returns_bind. eapply returns_mono; [apply treat_wc_rc|].
  intros [rc|] s1 Hr; [by apply returns_ret|apply IH].
Qed.

Lemma event_loop_rc fuel iters ev s :
  returns (event_loop post_recv post_send fuel iters ev) s (λ r _, r ≠ Some 0).
Proof using.
  revert s. induction fuel as [|fuel IH]; intros s; cbn [event_loop]; [by intros ? ?|].
  apply returns_bind. intros s1 s2 _. destruct (_ || _); [|by apply returns_ret].
  apply returns_bind. unfold loop_round. apply returns_bind.
  eapply returns_mono; [apply wait_event_rc|].
  intros [rc|] s3 Hr; apply returns_ret || apply returns_bind.
  { by apply returns_ret. }
  intros s4 s5 _. apply returns_bind. intros [z|l] s6 _; [apply returns_ret; by apply returns_ret|].
  eapply returns_mono; [apply treat_all_rc|].
  intros [rc|] s7 Hr'; [by apply returns_ret|apply IH].
Qed.

Lemma run_events_rc iters ev c routs s :
  returns (run_events post_recv post_send iters ev c routs) s (λ r _, r.1 ≠ Some 0).
Proof using.
  intros [r st] s' E. unfold run_events in E.
  pose proof (event_loop_rc (loop_fuel s) iters ev (RcState s c 0 0 routs ts_start 0)) as H.
  destruct (event_loop _ _ _ _ _) as [[r'|z|f|] st'] eqn:Em; [|done..].
  injection E as <- <- <-. exact (H _ _ Em).
Qed.
End codes.

(** ** The loop of the reliable-connection program with its features off *)

Definition plain_globals (chk : bool) : globals := Globals false false false false chk false false.

(** What the counters of a plain run satisfy: no time stamps are taken and the
    counter of sends is not negative. *)
Definition plain_counts (s : rc_state) : Prop := ts s = ts_start ∧ 0 ≤ scnt s ≤ int_max.

(** [m] does what [n] does from plain states, its result translated by [f]. *)
Definition same_run {A B} (f : B → A) (m : M rc_state A) (n : M rc_state B) : Prop :=
  ∀ s, plain_counts s →
    match n s with
    | (Done b, s') => m s = (Done (f b), s') ∧ plain_counts s'
    | (Exited z, s') => m s = (Exited z, s')
    | (Fault e, s') => m s = (Fault e, s')
    | (Hang, s') => m s = (Hang, s')
    end.

Lemma same_run_ret {A B} (f : B → A) (b : B) : same_run f (mret (f b)) (mret b).
Proof. intros s Hs. done. Qed.

Lemma same_run_bind {A B A' B'} (f : B → A) (g : B' → A') m n (k : A → M rc_state A')
    (h : B → M rc_state B') :
  same_run f m n → (∀ b, same_run g (k (f b)) (h b)) → same_run g (m ≫= k) (n ≫= h).
Proof.
  intros Hm Hk s Hs. specialize (Hm s Hs). unfold mbind, M_bind.
  destruct (n s) as [[b|z|e|] s'].
  - destruct Hm as [-> Hs']. apply (Hk b s' Hs').
  - by rewrite Hm.
  - by rewrite Hm.
  - by rewrite Hm.
Qed.

Lemma same_run_refl {A} (m : M rc_state A) :
  (∀ s, plain_counts s → plain_counts (m s).2) → same_run id m m.
Proof. intros H s Hs. specialize (H s Hs). by destruct (m s) as [[] ?]. Qed.

Lemma same_run_get {A B} (g : B → A) (k : rc_state → M rc_state A) h :
  (∀ s0, plain_counts s0 → same_run g (k s0) (h s0)) → same_run g (get ≫= k) (get ≫= h).
Proof. intros H s Hs. exact (H s Hs s Hs). Qed.

Lemma same_run_dev {A} (m : M hw A) : same_run id (dev m) (dev m).
Proof. apply same_run_refl. intros s Hs. unfold dev, zoom. by destruct (m (lget s)). Qed.

Lemma same_run_modify f :
  (∀ s, plain_counts s → plain_counts (f s)) → same_run id (modify f) (modify f).
Proof. intros H. apply same_run_refl. intros s Hs. by apply H. Qed.

Lemma same_run_incr x : same_run id (incr x) (incr x).
Proof. apply same_run_refl. intros s Hs. unfold incr. by destruct (x =? int_max). Qed.

Ltac drop_id := cbv beta; repeat match goal with |- context [@id ?T ?x] => change (@id T x) with x end.

Lemma same_run_dev_eq {A} (m n : M hw A) : (∀ s, m s = n s) → same_run id (dev m) (dev n).
Proof.
  intros H s Hs. unfold dev, zoom. rewrite H. by destruct (n (lget s)) as [[] ?].
Qed.

Lemma same_run_skip {A B} (f : B → A) m n (g : rc_state → rc_state) :
  (∀ s, plain_counts s → g s = s) → same_run f m n → same_run f m (modify g;; n).
Proof.
  intros Hg Hm s Hs. erewrite bind_done by reflexivity. rewrite (Hg s Hs). exact (Hm s Hs).
Qed.

Section same.
Context (post_recv : pingpong_context → Z → M hw Z) (post_send : pingpong_context → M hw Z).
Context (G : globals) (iters : Z).
Context (HG : use_ts G = false) (Hiters : 0 ≤ iters ≤ int_max).
Context (Hrecv : ∀ c n s, post_recv c n s = pp_post_recv G c n s).
Context (Hsend : ∀ c s, post_send c s = pp_post_send G c s).

Lemma wc_received_same t : same_run id (wc_received post_recv) (recv_done G t).
Proof using HG Hrecv.
  unfold wc_received, recv_done. apply same_run_get. intros s0 Hs0. cbv zeta.
  eapply (same_run_bind id); [by apply same_run_modify|]. intros _.
  eapply (same_run_bind id).
  { destruct (_ <=? 1); [|by apply (same_run_ret id)].
    eapply (same_run_bind id); [by apply same_run_dev_eq|]. intros n.
    eapply (same_run_bind id); [by apply same_run_modify|]. intros _. by apply (same_run_ret id). }
  intros ok. drop_id. destruct (negb ok); [by apply (same_run_ret id)|].
  eapply (same_run_bind id); [apply same_run_incr|]. intros n.
  eapply (same_run_bind id); [by apply same_run_modify|]. intros _. rewrite HG.
  apply same_run_skip; [|by apply (same_run_ret id)].
  intros s [Hts _]. rewrite Hts. destruct s; simpl in *. by subst.
Qed.

(** The result of [parse_single_wc] as what [main] does with it. *)
Definition stop_code (r : Z) : option Z := if r =? 0 then None else Some 1.

Lemma treat_wc_same w :
  same_run stop_code (treat_wc post_recv post_send iters w) (parse_single_wc G iters w).
Proof using HG Hiters Hrecv Hsend.
  unfold treat_wc, parse_single_wc. destruct (_ <>z IBV_WC_SUCCESS); [by apply (same_run_ret stop_code)|].
  cbv zeta. eapply (same_run_bind id).
  { destruct (_ =? PINGPONG_SEND_WRID).
    - intros s [Hts Hs]. erewrite !bind_done by reflexivity. unfold incr.
      destruct (Z.eqb_spec (scnt s) int_max); [done|]. cbn. split; [done|].
      split; [done|]. cbn. lia.
    - destruct (_ =? PINGPONG_RECV_WRID); [apply wc_received_same|by apply (same_run_ret id)]. }
  intros ok. drop_id. destruct (negb ok); [by apply (same_run_ret stop_code)|].
  eapply (same_run_bind id); [by apply same_run_modify|]. intros _. apply same_run_get.
  intros s0 [_ Hs0]. unfold wrap_u. rewrite (Z.mod_small (scnt s0)) by (unfold int_max in *; lia).
  destruct (_ && _); [|by apply (same_run_ret stop_code)].
  eapply (same_run_bind id); [by apply same_run_dev_eq|]. intros r. drop_id.
  destruct (r <>z 0); [by apply (same_run_ret stop_code)|].
  eapply (same_run_bind id); [by apply same_run_modify|]. intros _. by apply (same_run_ret stop_code).
Qed.

Lemma treat_all_same l :
  same_run id (treat_all post_recv post_send iters l) (parse_all G iters l).
Proof using HG Hiters Hrecv Hsend.
  induction l as [|w l IH]; cbn [treat_all parse_all]; [by apply (same_run_ret id)|].
  eapply same_run_bind; [apply treat_wc_same|]. intros r. unfold stop_code.
  destruct (r =? 0); [exact IH|by apply (same_run_ret id)].
Qed.

Lemma spin_same {A} fuel (poll : M rc_state A) again :
  same_run id poll poll → same_run id (spin fuel poll again) (spin fuel poll again).
Proof using.
  intros Hp. induction fuel as [|fuel IH]; cbn [spin]; [by intros ? ?|].
  eapply same_run_bind; [exact Hp|]. intros r. drop_id.
  destruct (again r); [exact IH|by apply (same_run_ret id)].
Qed.

Lemma wait_event_same ev : same_run id (wait_event ev) (wait_event ev).
Proof using.
  unfold wait_event. destruct ev; [|by apply (same_run_ret id)].
  apply same_run_get. intros s0 _. cbv zeta.
  eapply (same_run_bind id); [apply same_run_dev|]. intros e. drop_id.
  destruct (e =? 0); [by apply (same_run_ret id)|].
  eapply (same_run_bind id); [apply same_run_incr|]. intros n.
  eapply (same_run_bind id); [by apply same_run_modify|]. intros _. drop_id.
  destruct (e <>z _); [by apply (same_run_ret id)|].
  eapply (same_run_bind id); [apply same_run_dev|]. intros r. by apply (same_run_ret id).
Qed.

Lemma loop_round_same ev :
  same_run id (loop_round post_recv post_send iters ev) (round G iters ev).
Proof using HG Hiters Hrecv Hsend.
  unfold loop_round, round. rewrite HG. eapply (same_run_bind id); [apply wait_event_same|].
  intros [rc|]; [by apply (same_run_ret id)|]. unfold poll_plain.
  replace (wrap_s 32 iters) with iters.
  2:{ unfold wrap_s, int_max in *. change (2 ^ (32 - 1)) with (2 ^ 31).
      rewrite Z.mod_small by (split; [lia|change (2 ^ 32) with (2 * 2 ^ 31); lia]). lia. }
  apply same_run_get. intros s0 _.
  eapply (same_run_bind id); [apply spin_same, same_run_dev|].
  intros [z|l]; [by apply (same_run_ret id)|]. apply treat_all_same.
Qed.

Lemma event_loop_same fuel ev :
  same_run id (event_loop post_recv post_send fuel iters ev) (main_loop fuel G iters ev).
Proof using HG Hiters Hrecv Hsend.
  induction fuel as [|fuel IH]; cbn [event_loop main_loop]; [by intros ? ?|].
  apply same_run_get. intros s0 _. destruct (_ || _); [|by apply (same_run_ret id)].
  eapply (same_run_bind id); [apply loop_round_same|].
  intros [rc|]; [by apply (same_run_ret id)|exact IH].
Qed.
End same.

Lemma run_events_same post_recv post_send o c routs s :
  use_ts (o_globals o) = false → 0 ≤ o_iters o ≤ int_max →
  (∀ c n s, post_recv c n s = pp_post_recv (o_globals o) c n s) →
  (∀ c s, post_send c s = pp_post_send (o_globals o) c s) →
  run_events post_recv post_send (o_iters o) (o_use_event o <>z 0) c routs s = run_loop o c routs s.
Proof.
  intros HG Hi Hr Hs. unfold run_events, run_loop.
  pose proof (event_loop_same _ _ (o_globals o) (o_iters o) HG Hi Hr Hs (loop_fuel s)
                (o_use_event o <>z 0) (RcState s c 0 0 routs ts_start 0)) as H.
  specialize (H ltac:(split; [done|unfold int_max; simpl; lia])).
  destruct (main_loop _ _ _ _ _) as [[r|z|f|] st]; [destruct H as [-> _]; done|by rewrite H..].
Qed.

(** ** The end of [main]

    From the first time stamp on: the loop, the acknowledgement of the events
    it counted, the tear-down [close] and the last two [free]s.  The result is
    the return code with the pages reported. *)
Definition finish_run {A} (loop : M hw (option Z * A)) (events : A → Z) (close : M hw Z)
    (cq : Z) (pages : list Z) (dev_list rem : Z) : M hw (Z * list Z) :=
  r ← call [] GetTimeOfDay;
  if r <>z 0 then mret (1, [])
  else
    '(r, st) ← loop;
    match r with
    | Some rc => mret (rc, [])
    | None =>
        r ← call [] GetTimeOfDay;
        if r <>z 0 then mret (1, [])
        else
          call [(KCq, cq)] (AckCqEvents cq (events st));;
          r ← close;
          if r <>z 0 then mret (1, pages)
          else
            release (KDevList, dev_list);;
            release (rem_obj rem);;
            mret (0, pages)
    end.

(** [T] are the objects that exist: the list of the devices, the peer's address
    and those that [close] has to give up. *)
Lemma finish_run_returns {A} (loop : M hw (option Z * A)) events close cq pages dl rem s0 s T :
  hwst s0 s T →
  preserves keeps loop → (∀ s, returns loop s (λ r _, r.1 ≠ Some 0)) →
  (∀ s, hwst s0 s T →
     returns close s (λ r s', r = 0 →
       hwst s0 s' [(rem_obj rem, []); ((KDevList, dl), [])])) →
  returns (finish_run loop events close cq pages dl rem) s (λ r s', r.1 = 0 → hwst s0 s' []).
Proof.
  intros Hs Hk Hrc Hclose. unfold finish_run. eapply returns_keeps; [keep|exact Hs|]. intros r s1 H1.
  destruct (r <>z 0); [by apply returns_ret|].
  apply returns_bind. intros [r' st] s2 E2. pose proof (Hrc _ _ _ E2) as Hr.
  specialize (Hk s1). rewrite E2 in Hk. pose proof (hwst_keeps _ _ _ _ H1 Hk) as H2. simpl in Hr.
  destruct r' as [rc|]; [apply returns_ret; simpl; congruence|].
  eapply returns_keeps; [keep|exact H2|]. intros r3 s3 H3.
  destruct (r3 <>z 0); [by apply returns_ret|].
  eapply returns_keeps; [keep|exact H3|]. intros ? s5 H5.
  apply returns_bind. eapply returns_mono; [by apply Hclose|]. intros r6 s6 H6.
  destruct (Z.eqb_spec r6 0) as [->|]; [|by apply returns_ret].
  change (0 <>z 0) with false. cbv iota.
  apply (returns_total _ _ _ (λ _ s', hwst s0 s' [(rem_obj rem, [])])).
  { eapply (release_total _ [] [(rem_obj rem, [])]); [by apply memory_only_free, Forall_singleton|by apply H6|done]. }
  intros ? s7 H7. eapply returns_total; [eapply release_hwst; exact H7|].
  intros ? s8 H8. by apply returns_ret.
Qed.
