(* ===== verification/UcPingpong.v ===== *)
(** * The unreliable-connection pingpong (rdma-core/uc_pingpong.c)

    The program is the reliable-connection one without on-demand paging, time
    stamps, device memory and extended sends, over queue pairs of another type
    with fewer attributes.  The struct of the context lacks the two fields [dm]
    and [completion_timestamp_mask], which stay 0 here.  The functions are
    translated from this file; the theorems relate them to those of
    rc_pingpong.c and carry the results over. *)

From Stdlib Require Import ZifyBool.
From S2P Require Import Prelude CLib OS Gid Verbs Exch Keeps RcPingpong RcLife RcMain Setup Plain.

Local Open Scope Z_scope.

(** ** Connecting *)

Definition rtr_attrs (port mtu sl : Z) (dest : pingpong_dest) (sgid_idx : Z) : list qp_attr :=
  [QP_STATE QPS_RTR; QP_AV (rc_ah dest port sl sgid_idx); QP_PATH_MTU mtu;
   QP_DEST_QPN (wrap_u 32 (qpn dest)); QP_RQ_PSN (wrap_u 32 (psn dest))].
Definition rts_attrs (my_psn : Z) : list qp_attr :=
  [QP_STATE QPS_RTS; QP_SQ_PSN (wrap_u 32 my_psn)].

Definition pp_connect_ctx (ctx : pingpong_context) (port my_psn mtu sl : Z)
    (dest : pingpong_dest) (sgid_idx : Z) : M hw Z :=
  r ← call [(KQp, qp ctx)] (ModifyQp (qp ctx) (rtr_attrs port mtu sl dest sgid_idx));
  if r <>z 0 then mret 1
  else
    r ← call [(KQp, qp ctx)] (ModifyQp (qp ctx) (rts_attrs my_psn));
    if r <>z 0 then mret 1 else mret 0.

(** The exchange functions are the same text as in rc_pingpong.c. *)
Definition pp_client_exch_dest := Exch.pp_client_exch_dest.
Definition pp_server_exch_dest (ctx : pingpong_context) (ib_port mtu port sl : Z)
    (my_dest : pingpong_dest) (sgid_idx : Z) : M hw (option remote) :=
  Exch.pp_server_exch_dest
    (λ d, pp_connect_ctx ctx ib_port (psn my_dest) mtu sl d sgid_idx) port my_dest.

(** ** Setting up and tearing down

    The labels below [clean_mr] are those of rc_pingpong.c. *)
Definition clean_mr (ctx : pingpong_context) : M hw () := del (KMr, mr ctx);; clean_pd ctx.
Definition clean_cq (ctx : pingpong_context) : M hw () := del (KCq, cq ctx);; clean_mr ctx.
Definition clean_qp (ctx : pingpong_context) : M hw () := del (KQp, qp ctx);; clean_cq ctx.

(** From the memory region on. *)
Definition init_queues (ctx : pingpong_context) (port : Z) : M hw (option pingpong_context) :=
  p ← new (NewMr false (wrap_u 64 (size ctx)) IBV_ACCESS_LOCAL_WRITE)
        [(KPd, pd ctx); (KMem, buf ctx)];
  let ctx := set_mr p ctx in
  if p =? 0 then fail_with (clean_pd ctx)
  else
    cqe ← int_add (rx_depth ctx) 1;
    p ← new (NewCq false cqe)
          ((KContext, context ctx) :: opt_obj KChannel (channel ctx));
    let ctx := set_cq p ctx in
    if p =? 0 then fail_with (clean_mr ctx)
    else
      p ← new (NewQp false QPT_UC 1 (wrap_u 32 (rx_depth ctx))) [(KPd, pd ctx); (KCq, cq ctx)];
      let ctx := set_qp p ctx in
      if p =? 0 then fail_with (clean_cq ctx)
      else
        call [(KQp, qp ctx)] (QueryQp (qp ctx));;
        s ← get;
        let ctx := if wrap_u 32 (size ctx) <=? max_inline (h_dev (h_world s))
                   then set_send_flags (Z.lor (send_flags ctx) IBV_SEND_INLINE) ctx else ctx in
        r ← call [(KQp, qp ctx)] (ModifyQp (qp ctx)
              [QP_STATE QPS_INIT; QP_PKEY_INDEX 0; QP_PORT (wrap_u 8 port); QP_ACCESS_FLAGS 0]);
        if r <>z 0 then fail_with (clean_qp ctx) else mret (Some ctx).

Definition pp_init_ctx (ib_dev size rx_depth port : Z) (use_event : bool)
    : M hw (option pingpong_context) :=
  p ← new NewStruct [];
  if p =? 0 then mret None
  else
    let ctx := new_context p size rx_depth in
    p ← new (NewMem (wrap_u 64 size)) [];
    let ctx := set_buf p ctx in
    if p =? 0 then fail_with (clean_ctx ctx)
    else
      let ctx := set_contents (replicate (Z.to_nat size) 0x7b) ctx in
      p ← new (NewContext ib_dev) [];
      let ctx := set_context p ctx in
      if p =? 0 then fail_with (clean_buffer ctx)
      else
        p ← (if use_event then new NewChannel [(KContext, context ctx)] else mret 0);
        let ctx := set_channel p ctx in
        if use_event && (p =? 0) then fail_with (clean_device ctx)
        else
          p ← new NewPd [(KContext, context ctx)];
          let ctx := set_pd p ctx in
          if p =? 0 then fail_with (clean_comp_channel ctx)
          else init_queues ctx port.

Definition pp_close_ctx (ctx : pingpong_context) : M hw Z :=
  close_step (KQp, qp ctx) (
  close_step (KCq, cq ctx) (
  close_step (KMr, mr ctx) (
  close_step (KPd, pd ctx) (
  let k :=
    close_step (KContext, context ctx) (
    release (KMem, buf ctx);;
    release (KMem, self ctx);;
    mret 0) in
  if channel ctx =? 0 then k else close_step (KChannel, channel ctx) k)))).

(** ** Posting work *)

Definition work_list (s : hw) (ctx : pingpong_context) : sge :=
  Sge (buf ctx) (wrap_u 32 (size ctx)) (mr_lkey (h_dev (h_world s)) (mr ctx)).

Definition pp_post_recv (ctx : pingpong_context) (n : Z) : M hw Z :=
  s ← get;
  post_recvs (call [(KQp, qp ctx); (KMr, mr ctx)]
                (PostRecv (qp ctx) PINGPONG_RECV_WRID (work_list s ctx)))
    (Z.to_nat n) 0.

Definition pp_post_send (ctx : pingpong_context) : M hw Z :=
  s ← get;
  call [(KQp, qp ctx); (KMr, mr ctx)]
    (PostSend (qp ctx) PINGPONG_SEND_WRID (send_flags ctx) (work_list s ctx)).

(** ** [main] *)

(** The options that exist here; their treatment is the same text as in
    rc_pingpong.c. *)
Definition parse_opt (c : char) (optarg : cstr) (o : rc_opts) : option rc_opts :=
  if existsb (Ascii.eqb c) (L "pdismrnlegc") then RcPingpong.parse_opt c optarg o else None.

Fixpoint parse_opts (l : list (char * cstr)) (o : rc_opts) : option rc_opts :=
  match l with
  | [] => Some o
  | (c, optarg) :: l => o ← parse_opt c optarg o; parse_opts l o
  end.

Definition uc_options (args : list (char * cstr)) (rest : list cstr) : option rc_opts :=
  o ← parse_opts args default_opts; parse_rest rest o.

(** The port's attributes and this end's address, the same text again. *)
Definition local_dest (o : rc_opts) (c : pingpong_context) (rand : Z) : M hw (option pingpong_dest) :=
  RcPingpong.local_dest (o_globals o) o c rand.

Definition exch_dest (o : rc_opts) (c : pingpong_context) (my_dest : pingpong_dest)
    : M hw (option remote) :=
  match o_servername o with
  | Some h =>
      r ← pp_client_exch_dest h (o_port o) my_dest;
      match r with
      | None => mret None
      | Some (p, d) =>
          e ← pp_connect_ctx c (o_ib_port o) (psn my_dest) (o_mtu o) (o_sl o) d (o_gidx o);
          mret (if e <>z 0 then None else Some (p, d))
      end
  | None => pp_server_exch_dest c (o_ib_port o) (o_mtu o) (o_port o) (o_sl o) my_dest (o_gidx o)
  end.

(** Up to the exchange of the addresses: the context, the address of the peer's
    structure and [routs]. *)
Definition setup (o : rc_opts) (ib_dev rand : Z) : M hw (option (pingpong_context * Z * Z)) :=
  c ← pp_init_ctx ib_dev (wrap_s 32 (o_size o)) (wrap_s 32 (o_rx_depth o)) (o_ib_port o)
        (o_use_event o <>z 0);
  match c with
  | None => mret None
  | Some c =>
      routs ← pp_post_recv c (rx_depth c);
      if routs <? rx_depth c then mret None
      else
        r ← (if o_use_event o <>z 0 then call [(KCq, cq c)] (ReqNotifyCq (cq c)) else mret 0);
        if r <>z 0 then mret None
        else
          my_dest ← local_dest o c rand;
          match my_dest with
          | None => mret None
          | Some my_dest =>
              r ← exch_dest o c my_dest;
              mret ('(p, _) ← r; Some (c, p, routs))
          end
  end.

Definition first_send (o : rc_opts) (page : Z) (c : pingpong_context)
    : M hw (option pingpong_context) :=
  let c := set_pending PINGPONG_RECV_WRID c in
  match o_servername o with
  | None => mret (Some c)
  | Some _ =>
      let c := if validate_buf (o_globals o)
               then set_contents (fill_pages (o_size o) page (contents c)) c else c in
      r ← pp_post_send c;
      if r <>z 0 then mret None
      else mret (Some (set_pending (Z.lor (pending c) PINGPONG_SEND_WRID) c))
  end.

(** The pages the server reports. *)
Definition final_check (o : rc_opts) (e : run_env) : list Z :=
  match o_servername o with
  | Some _ => []
  | None =>
      if validate_buf (o_globals o) then invalid_pages (o_size o) (e_page_size e) (e_buf e) else []
  end.

Definition run_loop (o : rc_opts) (c : pingpong_context) (routs : Z) : M hw (option Z * rc_state) :=
  run_events pp_post_recv pp_post_send (o_iters o) (o_use_event o <>z 0) c routs.

(** From the first time stamp to the end. *)
Definition measure (o : rc_opts) (e : run_env) (c : pingpong_context) (dev_list rem routs : Z)
    : M hw (Z * list Z) :=
  finish_run (run_loop o c routs) num_cq_events (pp_close_ctx c) (cq c) (final_check o e)
    dev_list rem.

Definition main (e : run_env) : M hw (Z * list Z) :=
  match uc_options (e_args e) (e_rest e) with
  | None => mret (1, [])
  | Some o =>
      match e_devs e with
      | None => mret (1, [])
      | Some devs =>
          dev_list ← make NewDevList [];
          match pick_device (o_ib_devname o) devs with
          | None => mret (1, [])
          | Some ib_dev =>
              r ← setup o ib_dev (e_rand e);
              match r with
              | None => mret (1, [])
              | Some (c, rem, routs) =>
                  c ← first_send o (e_page_size e) c;
                  match c with
                  | None => mret (1, [])
                  | Some c => measure o e c dev_list rem routs
                  end
              end
          end
      end
  end.

(** ** The same program as rc_pingpong.c *)

Lemma post_recv_same chk c n s :
  pp_post_recv c n s = RcPingpong.pp_post_recv (plain_globals chk) c n s.
Proof. done. Qed.
Lemma post_send_same chk c s :
  pp_post_send c s = RcPingpong.pp_post_send (plain_globals chk) c s.
Proof. done. Qed.

Lemma clean_mr_same c s : dm c = 0 → clean_mr c s = RcPingpong.clean_mr c s.
Proof.
  intros H. unfold RcPingpong.clean_mr, clean_dm. apply bind_ext. intros ? s'. by rewrite H.
Qed.
Lemma clean_cq_same c s : dm c = 0 → clean_cq c s = RcPingpong.clean_cq c s.
Proof. intros H. apply bind_ext. intros ? s'. by apply clean_mr_same. Qed.
Lemma clean_qp_same c s : dm c = 0 → clean_qp c s = RcPingpong.clean_qp c s.
Proof. intros H. apply bind_ext. intros ? s'. by apply clean_cq_same. Qed.

Lemma fail_same {A} (m n : M hw ()) s : m s = n s → @fail_with A m s = fail_with n s.
Proof. intros H. unfold fail_with, mbind, M_bind. by rewrite H. Qed.

Lemma init_queues_same chk c port s :
  dm c = 0 →
  init_queues c port s
  = RcPingpong.init_queues (plain_globals chk) c port IBV_ACCESS_LOCAL_WRITE s.
Proof.
  intros Hd. unfold init_queues, RcPingpong.init_queues, register. cbn [plain_globals implicit_odp
    use_dm prefetch_mr use_ts use_new_send].
  apply bind_ext. intros p s1. destruct (p =? 0).
  { apply fail_same. unfold clean_dm. cbn [dm set_mr]. by rewrite Hd. }
  rewrite bind_get, bind_ret. apply bind_ext. intros cqe s1'. apply bind_ext. intros p2 s2. destruct (p2 =? 0).
  { apply fail_same. by apply clean_mr_same. }
  apply bind_ext_eq; [done|]. intros p3 s3. destruct (p3 =? 0).
  { apply fail_same. by apply clean_cq_same. }
  apply bind_ext. intros r s4. rewrite !bind_get. cbn [negb].
  rewrite orb_true_r, andb_true_r. apply bind_ext. intros r' s5.
  destruct (r' <>z 0); [|done]. apply fail_same, clean_qp_same. by destruct (_ <=? _).
Qed.

Lemma init_same chk ib_dev sz depth port ev s :
  pp_init_ctx ib_dev sz depth port ev s
  = RcPingpong.pp_init_ctx (plain_globals chk) ib_dev sz depth port ev s.
Proof.
  unfold pp_init_ctx, RcPingpong.pp_init_ctx.
  apply bind_ext. intros p s1. destruct (p =? 0); [done|]. cbv zeta.
  apply bind_ext. intros p2 s2. destruct (p2 =? 0); [done|].
  apply bind_ext. intros p3 s3. destruct (p3 =? 0); [done|].
  apply bind_ext. intros p4 s4. destruct (ev && (p4 =? 0)); [done|].
  apply bind_ext. intros p5 s5. destruct (p5 =? 0); [done|].
  by apply init_queues_same.
Qed.

Lemma close_same c s : dm c = 0 → pp_close_ctx c s = RcPingpong.pp_close_ctx c s.
Proof. intros H. unfold RcPingpong.pp_close_ctx. by rewrite H. Qed.

(** The context a set-up gives has no device memory. *)
Lemma init_queues_dm c port s :
  dm c = 0 →
  returns (init_queues c port) s (λ r _, match r with Some c' => dm c' = 0 | None => True end).
Proof.
  intros Hd. unfold init_queues. apply returns_bind. intros p s1 _.
  destruct (p =? 0); [apply fail_none|]. apply returns_bind. intros cqe s1' _.
  apply returns_bind. intros p2 s2 _.
  destruct (p2 =? 0); [apply fail_none|]. apply returns_bind. intros p3 s3 _.
  destruct (p3 =? 0); [apply fail_none|]. apply returns_bind. intros r s4 _.
  apply returns_bind. intros ? s5 _. apply returns_bind. intros r' s6 _.
  destruct (r' <>z 0); [apply fail_none|]. apply returns_ret. by destruct (_ <=? _).
Qed.

Lemma init_dm ib_dev sz depth port ev s :
  returns (pp_init_ctx ib_dev sz depth port ev) s
    (λ r _, match r with Some c => dm c = 0 | None => True end).
Proof.
  unfold pp_init_ctx. apply returns_bind. intros p s1 _. destruct (p =? 0); [by apply returns_ret|].
  cbv zeta. apply returns_bind. intros p2 s2 _. destruct (p2 =? 0); [apply fail_none|].
  apply returns_bind. intros p3 s3 _. destruct (p3 =? 0); [apply fail_none|].
  apply returns_bind. intros p4 s4 _. destruct (ev && (p4 =? 0)); [apply fail_none|].
  apply returns_bind. intros p5 s5 _. destruct (p5 =? 0); [apply fail_none|].
  by apply init_queues_dm.
Qed.

(** Options of this program are options of that one, with every feature off. *)
Definition plain_opts (o : rc_opts) : Prop := ∃ chk, o_globals o = plain_globals chk.

Lemma parse_opt_plain c optarg o o' :
  plain_opts o → parse_opt c optarg o = Some o' →
  plain_opts o' ∧ RcPingpong.parse_opt c optarg o = Some o'.
Proof.
  intros [chk Ho] H. unfold parse_opt in H. destruct (existsb _ _) eqn:Ec; [|done].
  split; [|exact H]. destruct o as [? ? ? ? ? ? ? ? ? ? ? g]. cbn in Ho. subst g.
  apply existsb_exists in Ec as (c' & Hc & ->%Ascii.eqb_eq).
  cbn in Hc. repeat destruct Hc as [<-|Hc]; try done; cbn -[pp_mtu_to_enum] in H;
    repeat case_match; simplify_eq; first [by exists chk | by exists true].
Qed.

Lemma parse_opts_plain l o o' :
  plain_opts o → parse_opts l o = Some o' →
  plain_opts o' ∧ RcPingpong.parse_opts l o = Some o'.
Proof.
  revert o. induction l as [|[c a] l IH]; intros o Ho H.
  { by injection H as <-. }
  cbn [parse_opts RcPingpong.parse_opts] in *. apply bind_Some in H as (o1 & H1 & H2).
  destruct (parse_opt_plain _ _ _ _ Ho H1) as [Ho1 ->]. exact (IH o1 Ho1 H2).
Qed.

Lemma uc_options_plain args rest o :
  uc_options args rest = Some o → plain_opts o ∧ rc_options args rest = Some o.
Proof.
  unfold uc_options, rc_options. intros (o1 & H1 & H2)%bind_Some.
  assert (plain_opts default_opts) as Hd by (by exists false).
  destruct (parse_opts_plain _ _ _ Hd H1) as [Ho ->]. cbn [mbind option_bind].
  rewrite H2. assert (plain_opts o) as Hpl.
  { destruct Ho as [chk Ho]. destruct rest as [|h [|]]; simplify_eq/=; by exists chk. }
  split; [done|]. destruct Hpl as [chk E]. cbn [mbind option_bind]. cbv zeta. by rewrite E.
Qed.

Lemma first_send_same chk o page c s :
  o_globals o = plain_globals chk → first_send o page c s = RcPingpong.first_send o page c s.
Proof.
  intros Ho. unfold first_send, RcPingpong.first_send. rewrite Ho. by destruct (o_servername o).
Qed.

Lemma final_check_same chk o e c s :
  o_globals o = plain_globals chk →
  RcPingpong.final_check o e c s = (Done (Some (final_check o e)), s).
Proof.
  intros Ho. unfold final_check, RcPingpong.final_check. rewrite Ho.
  destruct (o_servername o); [done|]. by destruct chk.
Qed.

Lemma run_loop_same chk o c routs s :
  o_globals o = plain_globals chk → 0 ≤ o_iters o ≤ int_max →
  run_loop o c routs s = RcPingpong.run_loop o c routs s.
Proof.
  intros Ho Hi. unfold run_loop. apply run_events_same; [by rewrite Ho|done|..]; by rewrite Ho.
Qed.

Lemma measure_same chk o e c dl rem routs s :
  o_globals o = plain_globals chk → 0 ≤ o_iters o ≤ int_max → dm c = 0 →
  measure o e c dl rem routs s = RcPingpong.measure o e c dl rem routs s.
Proof.
  intros Ho Hi Hd. unfold measure, finish_run, RcPingpong.measure.
  apply bind_ext. intros r s1. destruct (r <>z 0); [done|].
  apply bind_ext_eq; [by eapply run_loop_same|]. intros [r' st] s2.
  destruct r' as [rc|]; [done|]. apply bind_ext. intros r3 s3.
  destruct (r3 <>z 0); [done|].
  rewrite (bind_done _ _ _ _ _ (final_check_same chk o e c s3 Ho)).
  apply bind_ext. intros ? s4. apply bind_ext_eq; [by apply close_same|]. done.
Qed.

(** C14: the unreliable-connection program is the reliable-connection one with
    its features off: the options it accepts are read alike by both; for such
    options, and a number of iterations that is an [int], the set-up, the
    client's first message and the whole of the measured part, from the first
    time stamp to the tear-down and the return code, are the same functions of
    the hardware, so that only the attributes of the connection differ. *)
Theorem uc_is_rc (args : list (char * cstr)) (rest : list cstr) (o : rc_opts)
    (Ho : uc_options args rest = Some o) (Hi : 0 ≤ o_iters o ≤ int_max) :
  rc_options args rest = Some o ∧
  (∀ ib_dev sz depth port ev s,
    pp_init_ctx ib_dev sz depth port ev s
    = RcPingpong.pp_init_ctx (o_globals o) ib_dev sz depth port ev s) ∧
  (∀ page c s, first_send o page c s = RcPingpong.first_send o page c s) ∧
  (∀ e c dl rem routs s, dm c = 0 →
    measure o e c dl rem routs s = RcPingpong.measure o e c dl rem routs s) ∧
  (∀ ib_dev sz depth port ev s c s',
    pp_init_ctx ib_dev sz depth port ev s = (Done (Some c), s') → dm c = 0).
Proof.
  destruct (uc_options_plain _ _ _ Ho) as [[chk Hg] Hrc]. split_and!; [done|..].
  - intros. rewrite Hg. apply init_same.
  - intros. by eapply first_send_same.
  - intros. by eapply measure_same.
  - intros ib_dev sz depth port ev s c s' E. exact (init_dm _ _ _ _ _ _ _ _ E).
Qed.

(** The labels give up the stack of the objects made. *)
Lemma uc_clean_mr_destroys c s :
  clean_mr c s = destroys (((KMr, mr c), [(KPd, pd c); (KMem, buf c)]) :: stack_pd c).*1 s.
Proof. by apply destroys_one; [|apply clean_pd_destroys]. Qed.
Lemma uc_clean_cq_destroys c s :
  clean_cq c s = destroys (((KCq, cq c), (KContext, context c) :: opt_obj KChannel (channel c)) ::
    ((KMr, mr c), [(KPd, pd c); (KMem, buf c)]) :: stack_pd c).*1 s.
Proof. by apply destroys_one; [|apply uc_clean_mr_destroys]. Qed.
Lemma uc_clean_qp_destroys c s : clean_qp c s = destroys (plain_stack c).*1 s.
Proof. by apply destroys_one; [|apply uc_clean_cq_destroys]. Qed.

(** ** A whole run gives everything back *)

Lemma uc_pp_post_recv_keeps c n : preserves keeps (pp_post_recv c n).
Proof. exact (RcMain.pp_post_recv_keeps (plain_globals false) c n). Qed.
Lemma uc_pp_post_send_keeps c : preserves keeps (pp_post_send c).
Proof. exact (RcMain.pp_post_send_keeps (plain_globals false) c). Qed.
Lemma uc_pp_connect_ctx_keeps c port p mtu sl d g : preserves keeps (pp_connect_ctx c port p mtu sl d g).
Proof. unfold pp_connect_ctx. keep. Qed.
#[export] Hint Resolve uc_pp_post_recv_keeps uc_pp_post_send_keeps uc_pp_connect_ctx_keeps : preserves.

Lemma uc_first_send_keeps o page c : preserves keeps (first_send o page c).
Proof. unfold first_send. keep. Qed.

Lemma uc_run_loop_keeps o c routs : preserves keeps (run_loop o c routs).
Proof. apply run_events_keeps; intros; [apply uc_pp_post_recv_keeps|apply uc_pp_post_send_keeps]. Qed.

Lemma uc_exch_dest_returns s0 s T o c my :
  hwst s0 s T → returns (exch_dest o c my) s (λ r s',
    match r with Some (p, _) => hwst s0 s' ((rem_obj p, []) :: T) | None => True end).
Proof.
  intros Hs. unfold exch_dest. destruct (o_servername o) as [h|].
  - apply returns_bind. eapply returns_mono; [by apply client_exch_returns|].
    intros [[p d]|] s1 H1; [|by apply returns_ret]. simpl in H1.
    eapply returns_keeps; [keep|exact H1|]. intros e s2 H2. apply returns_ret.
    by destruct (e <>z 0).
  - apply pp_server_exch_returns; [intros; keep|exact Hs].
Qed.

Lemma uc_setup_returns s0 s T o ib_dev rand :
  hwst s0 s T → returns (setup o ib_dev rand) s (λ r s',
    match r with
    | Some (c, p, _) =>
        dm c = 0 ∧ hwst s0 s' ((rem_obj p, []) :: ctx_stack (plain_globals false) c ++ T)
    | None => True
    end).
Proof.
  intros Hs. unfold setup. apply returns_bind. intros r s1 E1.
  pose proof (init_dm _ _ _ _ _ _ _ _ E1) as Hd.
  assert (match r with Some c => hwst s s1 (ctx_stack (plain_globals false) c) | None => True end) as H1.
  { rewrite (init_same false) in E1. destruct (decide (depth_ok (wrap_s 32 (o_rx_depth o)))) as [Hd'|Hd'].
    - pose proof (RcLife.pp_init_ctx_total (plain_globals false) ib_dev (wrap_s 32 (o_size o))
        (wrap_s 32 (o_rx_depth o)) (o_ib_port o) (o_use_event o <>z 0) s (hs_stack _ _ _ Hs) Hd') as Ht.
      unfold total in Ht. rewrite E1 in Ht. destruct r as [c|]; [apply Ht|done].
    - pose proof (pp_init_ctx_deep _ _ _ _ _ _ _ Hd' _ _ E1) as Hn. by destruct r. }
  destruct r as [c|]; [|by apply returns_ret].
  pose proof (hwst_trans _ _ _ _ _ Hs H1) as H1'.
  eapply returns_keeps; [keep|exact H1'|]. intros routs s2 H2.
  destruct (routs <? rx_depth c); [by apply returns_ret|].
  eapply returns_keeps; [keep|exact H2|]. intros r s3 H3.
  destruct (r <>z 0); [by apply returns_ret|].
  eapply returns_keeps; [apply (RcMain.local_dest_keeps (o_globals o))|exact H3|].
  intros [my|] s4 H4; [|by apply returns_ret].
  apply returns_bind. eapply returns_mono; [by apply uc_exch_dest_returns|].
  intros [[p d]|] s5 H5; [by apply returns_ret|by apply returns_ret].
Qed.

Lemma uc_main_returns e s :
  stacked (Z.of_nat (h_time s)) (h_live s) →
  returns (main e) s (λ r s', r.1 = 0 → hwst s s' []).
Proof.
  intros Hst. pose proof (hwst_refl s Hst) as Hs. unfold main.
  destruct (uc_options _ _) as [o|]; [|by apply returns_ret].
  destruct (e_devs e) as [devs|]; [|by apply returns_ret].
  eapply returns_total; [by apply make_hwst|]. intros dl s1 H1.
  destruct (pick_device _ _) as [d|]; [|by apply returns_ret].
  apply returns_bind. eapply returns_mono; [eapply uc_setup_returns; exact H1|].
  intros [[[c rem] routs]|] s2 H2; [|by apply returns_ret]. destruct H2 as [Hd H2].
  apply returns_bind. intros r s3 E3.
  pose proof (uc_first_send_keeps o (e_page_size e) c s2) as Hk. rewrite E3 in Hk.
  destruct r as [c'|]; [|by apply returns_ret].
  assert (dm c' = 0 ∧ ctx_stack (plain_globals false) c' = ctx_stack (plain_globals false) c) as [Hd' Hstk].
  { revert E3. unfold first_send. destruct (o_servername o); [|by intros [= <- <-]].
    intros (r3 & s4 & _ & E)%bind_done_inv. destruct (r3 <>z 0); [done|].
    injection E as <- <-. by destruct (validate_buf _). }
  eapply (finish_run_returns _ _ _ _ _ _ _ s s3
            ((rem_obj rem, []) :: ctx_stack (plain_globals false) c' ++ [((KDevList, dl), [])])).
  - rewrite Hstk. by eapply hwst_keeps.
  - apply uc_run_loop_keeps.
  - intros s4. apply run_events_rc.
  - intros s4 H4 r s5 E. rewrite close_same in E by done.
    pose proof (pp_close_ctx_total s [(rem_obj rem, [])] [((KDevList, dl), [])]
      (plain_globals false) c' s4 ltac:(by apply Forall_singleton) H4) as Ht.
    unfold total in Ht. rewrite E in Ht. destruct Ht as [[_ H]|[-> _]]; done.
Qed.

(** A run of the unreliable-connection program that returns 0 has given
    back every object it made, whatever the device, the peer and the allocator
    answered on the way. *)
Theorem uc_gives_back (e : run_env) (s s' : hw) (pages : list Z)
    (Hst : stacked (Z.of_nat (h_time s)) (h_live s))
    (Hrun : main e s = (Done (0, pages), s')) :
  h_live s' = h_live s.
Proof. exact (hs_live _ _ _ (uc_main_returns e s Hst _ _ Hrun eq_refl)). Qed.

(** ** Concrete runs *)

Definition demo_args : list (char * cstr) := [("n"%char, L "2"); ("r"%char, L "2"); ("c"%char, [])].
Definition demo_uc_opts : rc_opts :=
  RcOpts 18515 None (Some (L "host")) 1 4096 IBV_MTU_1024 2 2 0 0 (-1) (plain_globals true).

Lemma uc_is_rc_witness :
  rc_options demo_args [L "host"] = Some demo_uc_opts ∧
  measure demo_uc_opts demo_run demo_ctx 1 2 2 demo_run_hw
  = RcPingpong.measure demo_uc_opts demo_run demo_ctx 1 2 2 demo_run_hw.
Proof.
  destruct (uc_is_rc demo_args [L "host"] demo_uc_opts) as (H1 & _ & _ & H4 & _).
  - vm_compute. reflexivity.
  - unfold int_max. simpl. lia.
  - split; [exact H1|]. apply H4. vm_compute. reflexivity.
Defined.

Lemma uc_gives_back_witness : h_live (main demo_run demo_run_hw).2 = h_live demo_run_hw.
Proof.
  apply (uc_gives_back demo_run demo_run_hw _ [2]); [exact I|]. vm_compute. reflexivity.
Defined.
