(* ===== verification/UcProto.v ===== *)
(** * The pingpong over an unreliable connection

    Two ends of uc_pingpong.c after their set-up.  A step is the treatment of
    one completion by [treat_wc], or the loss of a message in flight: an
    unreliable connection drops messages and says nothing.  The invariant of an
    end is the one of the reliable program, whose steps are the same. *)

From S2P Require Import Prelude CLib OS Gid Verbs Exch Keeps RcPingpong RcLife RcProto RcMain Plain.
From S2P Require Import UcPingpong.

Local Open Scope Z_scope.

(** ** Steps *)

Definition handles (iters wr_id : Z) (a a' : rc_state) : Prop :=
  ∃ t q, treat_wc pp_post_recv pp_post_send iters (Wc wr_id IBV_WC_SUCCESS t q) a = (Done None, a').

(** A completion at an end to which [sent] messages have been sent that were
    not lost. *)
Inductive end_step (iters sent : Z) : rc_state → rc_state → Prop :=
  | send_completes a a' :
      scnt a < sends (rc_hw a) → handles iters PINGPONG_SEND_WRID a a' → end_step iters sent a a'
  | message_arrives a a' :
      rcnt a < sent → rcnt a < recvs (rc_hw a) → handles iters PINGPONG_RECV_WRID a a' →
      end_step iters sent a a'.

(** Both ends, and how many messages of each have been lost. *)
Record link := Link { client : rc_state; server : rc_state; lost_c : Z; lost_v : Z }.

Inductive step (iters : Z) : link → link → Prop :=
  | client_step c c' v lc lv :
      end_step iters (sends (rc_hw v) - lv) c c' → step iters (Link c v lc lv) (Link c' v lc lv)
  | server_step c v v' lc lv :
      end_step iters (sends (rc_hw c) - lc) v v' → step iters (Link c v lc lv) (Link c v' lc lv)
  | client_message_lost c v lc lv :
      rcnt v < sends (rc_hw c) - lc → step iters (Link c v lc lv) (Link c v (lc + 1) lv)
  | server_message_lost c v lc lv :
      rcnt c < sends (rc_hw v) - lv → step iters (Link c v lc lv) (Link c v lc (lv + 1)).

(** An end after its set-up. *)
Definition launch (o : rc_opts) (page : Z) (c : pingpong_context) : M hw (option rc_state) :=
  routs ← pp_post_recv c (rx_depth c);
  if routs <? rx_depth c then mret None
  else
    c ← first_send o page c;
    match c with
    | None => mret None
    | Some c => s ← get; mret (Some (RcState s c 0 0 routs ts_start 0))
    end.

(** ** The invariant *)

Record link_inv (iters dc dv : Z) (x : link) : Prop := {
  li_client : node_inv 0 iters dc (client x);
  li_server : node_inv 1 iters dv (server x);
  li_plain : ts (client x) = ts_start ∧ ts (server x) = ts_start;
  li_lost : 0 ≤ lost_c x ∧ 0 ≤ lost_v x;
  li_to_client : rcnt (client x) ≤ sends (rc_hw (server x)) - lost_v x;
  li_to_server : rcnt (server x) ≤ sends (rc_hw (client x)) - lost_c x }.

(** What has happened: completions and losses. *)
Definition events (x : link) : Z :=
  scnt (client x) + rcnt (client x) + scnt (server x) + rcnt (server x) + lost_c x + lost_v x.
Definition lost (x : link) : Z := lost_c x + lost_v x.
Definition outstanding (x : link) : Z :=
  (sends (rc_hw (client x)) - scnt (client x)) + (sends (rc_hw (server x)) - scnt (server x)).

Section link.
Context (iters dc dv : Z) (Hiters : 1 ≤ iters ≤ int_max).

(** A completion of an end, whatever its role. *)
Lemma end_step_inv ahead depth sent a a' :
  0 ≤ ahead ≤ 1 → node_inv ahead iters depth a → ts a = ts_start →
  (rcnt a < sent → rcnt a < sends (rc_hw a) + ahead ∧ rcnt a < iters) →
  end_step iters sent a a' →
  node_inv ahead iters depth a' ∧ ts a' = ts_start ∧ sends (rc_hw a) ≤ sends (rc_hw a') ∧
  ((scnt a' = scnt a + 1 ∧ rcnt a' = rcnt a) ∨
   (scnt a' = scnt a ∧ rcnt a' = rcnt a + 1 ∧ rcnt a < sent)).
Proof using Hiters.
  intros Ha Hinv Hts Hturn Hs.
  assert (plain_counts a) as Hpl.
  { pose proof (ni_scnt _ _ _ _ Hinv). pose proof (ni_iters _ _ _ _ Hinv). split; [done|lia]. }
  assert (∀ w, same_run stop_code (treat_wc pp_post_recv pp_post_send iters w)
    (parse_single_wc (plain_globals false) iters w)) as Hsame.
  { intros w. apply treat_wc_same; [done|lia|done..]. }
  destruct Hs as [a a' Hlt (t & q & E)|a a' Hlt _ (t & q & E)].
  - destruct (send_handled (plain_globals false) ahead iters depth Hiters Ha t q a Hinv Hlt)
      as (s' & E' & Hinv' & Es & Er & Hsd).
    specialize (Hsame (Wc PINGPONG_SEND_WRID IBV_WC_SUCCESS t q) a Hpl). rewrite E' in Hsame.
    destruct Hsame as [E2 [Hts' _]]. rewrite E in E2. injection E2 as ->. split_and!; [done..|by left].
  - destruct (Hturn Hlt) as [H1 H2].
    destruct (message_handled (plain_globals false) ahead iters depth Hiters Ha t q a Hinv H1 H2)
      as (s' & E' & Hinv' & Es & Er & Hsd).
    specialize (Hsame (Wc PINGPONG_RECV_WRID IBV_WC_SUCCESS t q) a Hpl). rewrite E' in Hsame.
    destruct Hsame as [E2 [Hts' _]]. rewrite E in E2. injection E2 as ->. split_and!; [done..|by right].
Qed.

Lemma link_turn x :
  link_inv iters dc dv x →
  (rcnt (client x) < sends (rc_hw (server x)) - lost_v x →
     rcnt (client x) < sends (rc_hw (client x)) + 0 ∧ rcnt (client x) < iters) ∧
  (rcnt (server x) < sends (rc_hw (client x)) - lost_c x →
     rcnt (server x) < sends (rc_hw (server x)) + 1 ∧ rcnt (server x) < iters).
Proof using. intros [[] [] _ ? ? ?]. lia. Qed.

Lemma link_step x y :
  link_inv iters dc dv x → step iters x y → link_inv iters dc dv y ∧ events y = events x + 1.
Proof using Hiters.
  intros Hinv Hs. pose proof (link_turn _ Hinv) as [Htc Htv].
  destruct Hinv as [Hc Hv [Pc Pv] Hl H1 H2], Hs as [c c' v lc lv Hs|c v v' lc lv Hs|c v lc lv Hs|c v lc lv Hs];
    unfold events; cbn [client server lost_c lost_v] in *.
  - destruct (end_step_inv 0 dc _ c c' ltac:(lia) Hc Pc Htc Hs) as (Hc' & Pc' & Hsd & Hcases).
    split; [|lia]. constructor; cbn [client server lost_c lost_v]; (done || lia).
  - destruct (end_step_inv 1 dv _ v v' ltac:(lia) Hv Pv Htv Hs) as (Hv' & Pv' & Hsd & Hcases).
    split; [|lia]. constructor; cbn [client server lost_c lost_v]; (done || lia).
  - split; [|lia]. constructor; cbn [client server lost_c lost_v]; (done || lia).
  - split; [|lia]. constructor; cbn [client server lost_c lost_v]; (done || lia).
Qed.

Lemma link_run n x y :
  link_inv iters dc dv x → nsteps (step iters) n x y →
  link_inv iters dc dv y ∧ events y = events x + Z.of_nat n.
Proof using Hiters.
  intros Hx Hn. induction Hn as [x|n x y z Hs _ IH]; [split; [done|lia]|].
  destruct (link_step _ _ Hx Hs) as [Hy E]. destruct (IH Hy) as [Hz E']. split; [done|lia].
Qed.

Lemma events_bound x : link_inv iters dc dv x → events x ≤ 4 * iters.
Proof using. intros [[] [] _ ? ? ?]. unfold events. lia. Qed.

(** At most one message is in flight, so at most one can be lost, and after
    that no message is in flight any more. *)
Lemma lost_one x :
  link_inv iters dc dv x →
  lost x ≤ 1 ∧ 0 ≤ outstanding x ≤ 2 ∧
  (lost x = 1 → rcnt (client x) = sends (rc_hw (server x)) - lost_v x ∧
     rcnt (server x) = sends (rc_hw (client x)) - lost_c x ∧
     sends (rc_hw (client x)) = rcnt (client x) + 1 ∧ sends (rc_hw (server x)) = rcnt (server x)).
Proof using. intros [[] [] _ ? ? ?]. unfold lost, outstanding. lia. Qed.

Lemma lost_step x y :
  link_inv iters dc dv x → lost x = 1 → step iters x y →
  lost y = 1 ∧ outstanding y = outstanding x - 1.
Proof using Hiters.
  intros Hx Hl Hs. destruct (link_step _ _ Hx Hs) as [Hy Hev].
  destruct (lost_one _ Hx) as (_ & _ & Hx1). destruct (lost_one _ Hy) as (Hy1 & _ & Hy2).
  specialize (Hx1 Hl). destruct Hs as [c c' v lc lv Hs|c v v' lc lv Hs|c v lc lv Hs|c v lc lv Hs];
    unfold events, lost, outstanding in *; cbn [client server lost_c lost_v] in *; try lia.
  all: specialize (Hy2 Hl); split; [done|].
  all: destruct Hs as [a a' _ _|a a' Hlt _ _]; lia.
Qed.

(** No message arrives any more. *)
Lemma lost_stays n x y :
  link_inv iters dc dv x → lost x = 1 → nsteps (step iters) n x y →
  link_inv iters dc dv y ∧ lost y = 1 ∧ rcnt (client y) = rcnt (client x) ∧ rcnt (server y) = rcnt (server x).
Proof using Hiters.
  intros Hx Hl Hn. induction Hn as [x|n x y z Hs _ IH]; [done|].
  destruct (link_step _ _ Hx Hs) as [Hy _]. destruct (lost_step _ _ Hx Hl Hs) as [Hl' _].
  destruct (IH Hy Hl') as (Hz & Hlz & Ec & Ev).
  destruct (lost_one _ Hx) as (_ & _ & Hx1), (lost_one _ Hy) as (_ & _ & Hy1).
  specialize (Hx1 Hl). specialize (Hy1 Hl'). rewrite Ec, Ev. split; [done|]. split; [done|].
  destruct Hs as [c c' v lc lv Hs|c v v' lc lv Hs|c v lc lv Hs|c v lc lv Hs];
    unfold lost in *; cbn [client server lost_c lost_v] in *; lia.
Qed.

Lemma lost_run n x y :
  link_inv iters dc dv x → lost x = 1 → nsteps (step iters) n x y → Z.of_nat n ≤ 2.
Proof using Hiters.
  intros Hx Hl Hn.
  assert (link_inv iters dc dv y ∧ outstanding y = outstanding x - Z.of_nat n) as [Hy E].
  { induction Hn as [x|n x y z Hs _ IH]; [split; [done|lia]|].
    destruct (link_step _ _ Hx Hs) as [Hy _]. destruct (lost_step _ _ Hx Hl Hs) as [Hl' E].
    destruct (IH Hy Hl') as [Hz E']. split; [done|lia]. }
  destruct (lost_one _ Hx) as (_ & ? & _). destruct (lost_one _ Hy) as (_ & ? & _). lia.
Qed.
End link.

(** ** Progress as long as nothing is lost *)

Section progress.
Context (iters dc dv : Z) (Hiters : 1 ≤ iters ≤ int_max).

Lemma rc_end_step a b a' sent :
  plain_counts a → sends (rc_hw b) ≤ sent →
  RcProto.end_step (plain_globals false) iters b a a' → end_step iters sent a a'.
Proof using Hiters.
  intros Hpl Hsent Hs.
  assert (∀ w, RcProto.handles (plain_globals false) iters w a a' → handles iters w a a') as Hh.
  { intros w (t & q & E). exists t, q.
    pose proof (treat_wc_same pp_post_recv pp_post_send (plain_globals false) iters eq_refl
      ltac:(lia) (post_recv_same false) (post_send_same false) (Wc w IBV_WC_SUCCESS t q) a Hpl) as H.
    rewrite E in H. apply H. }
  destruct Hs as [a a' Hlt H|a a' Hlt Hr H].
  - apply send_completes; [done|by apply Hh].
  - apply message_arrives; [lia|done|by apply Hh].
Qed.

Lemma link_live x :
  link_inv iters dc dv x → lost x = 0 →
  (∃ y, step iters x y ∧ lost y = 0) ∨ finished iters (client x, server x).
Proof using Hiters.
  intros Hinv Hl. destruct x as [c v lc lv]. unfold lost in Hl. cbn [lost_c lost_v] in Hl.
  pose proof Hinv as [Hc Hv [Pc Pv] Hl0 H1 H2]. cbn [client server lost_c lost_v] in *.
  assert (plain_counts c ∧ plain_counts v) as [Plc Plv].
  { destruct Hc, Hv. unfold plain_counts. split; (split; [done|lia]). }
  assert (pair_inv iters dc dv (c, v)) as Hpair by (split_and!; cbn [fst snd]; (done || lia)).
  destruct (live_or_finished (plain_globals false) (plain_globals false) iters dc dv Hiters (c, v) Hpair)
    as [[y Hs]|Hf]; [left|by right].
  inversion Hs as [c0 c' v0 Hs' E1 E2|c0 v0 v' Hs' E1 E2]; subst.
  - exists (Link c' v lc lv). split; [|done]. apply client_step. eapply rc_end_step; [done| |exact Hs']. lia.
  - exists (Link c v' lc lv). split; [|done]. apply server_step. eapply rc_end_step; [done| |exact Hs']. lia.
Qed.

(** What is lost is never made good. *)
Lemma lost_not_finished x :
  link_inv iters dc dv x → lost x ≠ 0 → ¬ finished iters (client x, server x).
Proof using.
  intros [_ _ _ ? H1 H2] Hl [(Hc1 & Hc2 & Hc3) (Hv1 & Hv2 & Hv3)]. unfold lost in Hl.
  cbn [fst snd] in *. lia.
Qed.
End progress.

(** ** Launching *)

Lemma launch_same o page c s :
  plain_opts o → launch o page c s = RcProto.launch o page c s.
Proof.
  intros [chk Ho]. unfold launch, RcProto.launch. rewrite Ho.
  apply bind_ext. intros routs s1. destruct (routs <? rx_depth c); [done|].
  apply bind_ext_eq; [by eapply first_send_same|]. done.
Qed.

Lemma launch_ts o page c s :
  returns (launch o page c) s (λ r _, match r with Some n => ts n = ts_start | None => True end).
Proof.
  unfold launch. apply returns_bind. intros routs s1 _. destruct (routs <? rx_depth c); [by apply returns_ret|].
  apply returns_bind. intros [c'|] s2 _; [|by apply returns_ret].
  apply returns_bind. intros s3 s4 _. by apply returns_ret.
Qed.

Lemma launch_link oc ov pc pv cc cv sc sv iters :
  1 ≤ iters → is_client oc → ¬ is_client ov → plain_opts oc → plain_opts ov →
  ready oc cc sc → ready ov cv sv →
  ∃ c v sc' sv', launch oc pc cc sc = (Done (Some c), sc') ∧
    launch ov pv cv sv = (Done (Some v), sv') ∧
    link_inv iters (rx_depth cc) (rx_depth cv) (Link c v 0 0) ∧ events (Link c v 0 0) = 0.
Proof.
  intros Hi Hoc Hov Hpc Hpv Hc Hv.
  destruct (launch_pair oc ov pc pv cc cv sc sv iters Hi Hoc Hov Hc Hv)
    as (c & v & sc' & sv' & Ec & Ev & (Ic & Iv & H1 & H2) & Hp).
  rewrite <-launch_same in Ec, Ev by done. exists c, v, sc', sv'.
  pose proof (launch_ts _ _ _ _ _ _ Ec) as Tc. pose proof (launch_ts _ _ _ _ _ _ Ev) as Tv.
  unfold progress in Hp. unfold events. cbn [fst snd client server lost_c lost_v] in *.
  split_and!; [done..| |lia]. constructor; cbn [client server lost_c lost_v]; (done || lia).
Qed.

(** C5: over an unreliable connection the pingpong completes exactly when no
    message is lost.  As long as none is, the ends can go on until each has
    sent and received exactly [iters] messages.  Once one is lost, at most two
    completions are left (of sends already posted) and no message arrives any more: the
    client has not received all of its messages and waits for ever, and the server,
    which has received as many as the client, or one more when it is its own message
    that was lost, waits for ever too unless that was its last answer. *)
Theorem uc_completes_unless_lost (oc ov : rc_opts) (pc pv iters : Z)
    (cc cv : pingpong_context) (sc sv : hw)
    (Hi : 1 ≤ iters ≤ int_max) (Hoc : is_client oc) (Hov : ¬ is_client ov)
    (Hpc : plain_opts oc) (Hpv : plain_opts ov) (Hc : ready oc cc sc) (Hv : ready ov cv sv) :
  ∃ c v sc' sv', launch oc pc cc sc = (Done (Some c), sc') ∧
    launch ov pv cv sv = (Done (Some v), sv') ∧
    ∀ n x, nsteps (step iters) n (Link c v 0 0) x →
      Z.of_nat n ≤ 4 * iters ∧
      (lost x = 0 →
         (∃ y, step iters x y ∧ lost y = 0) ∨ finished iters (client x, server x)) ∧
      (lost x ≠ 0 →
         rcnt (client x) < iters ∧ rcnt (server x) = rcnt (client x) + lost_v x ∧
         ∀ m y, nsteps (step iters) m x y →
           Z.of_nat m ≤ 2 ∧ rcnt (client y) = rcnt (client x) ∧ rcnt (server y) = rcnt (server x) ∧
           ¬ finished iters (client y, server y)).
Proof.
  destruct (launch_link oc ov pc pv cc cv sc sv iters ltac:(lia) Hoc Hov Hpc Hpv Hc Hv)
    as (c & v & sc' & sv' & Ec & Ev & Hinv & Hev).
  exists c, v, sc', sv'. split; [done|]. split; [done|]. intros n x Hn.
  destruct (link_run iters _ _ Hi _ _ _ Hinv Hn) as [Hx Ex].
  pose proof (events_bound iters _ _ _ Hx). split; [lia|]. split.
  - by eapply (link_live iters).
  - intros Hl. pose proof (lost_one iters _ _ _ Hx) as (Hl1 & _ & Hx1).
    assert (lost x = 1) as Hl2 by (destruct (li_lost _ _ _ _ Hx); unfold lost in *; lia).
    specialize (Hx1 Hl2). destruct Hx1 as (Hxc & Hxv & Hsc & Hsv).
    pose proof (ni_iters _ _ _ _ (li_client _ _ _ _ Hx)). pose proof Hl2 as Hl3. unfold lost in Hl3.
    split; [lia|]. split; [lia|]. intros m y Hm.
    destruct (lost_stays iters _ _ Hi _ _ _ Hx Hl2 Hm) as (Hy & Hly & Hyc & Hyv).
    split; [exact (lost_run iters _ _ Hi _ _ _ Hx Hl2 Hm)|]. split; [done|]. split; [done|].
    eapply lost_not_finished; [exact Hy|]. by rewrite Hly.
Qed.

Lemma uc_completes_unless_lost_witness :
  ∃ c v sc' sv', launch (demo_opts (Some (L "host"))) 4096 demo_ctx demo_init.2
      = (Done (Some c), sc') ∧
    launch (demo_opts None) 4096 demo_ctx demo_init.2 = (Done (Some v), sv') ∧
    ∀ n x, nsteps (step 3) n (Link c v 0 0) x →
      Z.of_nat n ≤ 4 * 3 ∧
      (lost x = 0 →
         (∃ y, step 3 x y ∧ lost y = 0) ∨ finished 3 (client x, server x)) ∧
      (lost x ≠ 0 →
         rcnt (client x) < 3 ∧ rcnt (server x) = rcnt (client x) + lost_v x ∧
         ∀ m y, nsteps (step 3) m x y →
           Z.of_nat m ≤ 2 ∧ rcnt (client y) = rcnt (client x) ∧ rcnt (server y) = rcnt (server x) ∧
           ¬ finished 3 (client y, server y)).
Proof.
  apply uc_completes_unless_lost; [unfold int_max; lia|discriminate| | | |apply demo_ends_ready..].
  - intros H. by apply H.
  - by exists false.
  - by exists false.
Defined.
