(* ===== verification/UdPingpong.v ===== *)
(** * The datagram pingpong (rdma-core/ud_pingpong.c)

    An unreliable datagram queue pair is not connected: each message names an
    address handle and the number and key of the peer's queue pair.  A message
    must fit the MTU of the port, and what is received starts after 40 bytes of
    routing header.  The context's address handle, made last, is passed beside
    the rest of the context. *)

From Stdlib Require Import ZifyBool.
From S2P Require Import Prelude CLib OS Gid Verbs Exch Keeps RcPingpong RcLife RcMain Plain.
From S2P Require Import Setup UcPingpong.

Local Open Scope Z_scope.

Definition GRH_SIZE : Z := 40.
Definition QKEY : Z := 0x11111111.

(** ** Connecting

    The address handle made, or [None] for the return code 1. *)
Definition pp_connect_ctx (ctx : pingpong_context) (port my_psn sl : Z) (dest : pingpong_dest)
    (sgid_idx : Z) : M hw (option Z) :=
  r ← call [(KQp, qp ctx)] (ModifyQp (qp ctx) [QP_STATE QPS_RTR]);
  if r <>z 0 then mret None
  else
    r ← call [(KQp, qp ctx)]
          (ModifyQp (qp ctx) [QP_STATE QPS_RTS; QP_SQ_PSN (wrap_u 32 my_psn)]);
    if r <>z 0 then mret None
    else
      ah ← new (NewAh (rc_ah dest port sl sgid_idx)) [(KPd, pd ctx)];
      if ah =? 0 then mret None else mret (Some ah).

(** The exchange functions are the same text as in rc_pingpong.c. *)
Definition pp_client_exch_dest := Exch.pp_client_exch_dest.
Definition pp_server_exch_dest (ctx : pingpong_context) (ib_port port sl : Z)
    (my_dest : pingpong_dest) (sgid_idx : Z) : M hw (option (Z * (pingpong_dest * Z))) :=
  server_exch (λ d, ah ← pp_connect_ctx ctx ib_port (psn my_dest) sl d sgid_idx;
                    mret (pair d <$> ah)) port my_dest.

(** ** Setting up and tearing down

    The labels are those of uc_pingpong.c. *)
Definition port_mtu (active_mtu : Z) : M hw Z :=
  if (0 <=? active_mtu + 7) && (active_mtu + 7 <? 31) then mret (Z.shiftl 1 (active_mtu + 7))
  else fault_ Overflow.

(** From the memory region on. *)
Definition init_queues (ctx : pingpong_context) (port : Z) : M hw (option pingpong_context) :=
  len ← int_add (size ctx) GRH_SIZE;
  p ← new (NewMr false (wrap_u 64 len) IBV_ACCESS_LOCAL_WRITE) [(KPd, pd ctx); (KMem, buf ctx)];
  let ctx := set_mr p ctx in
  if p =? 0 then fail_with (clean_pd ctx)
  else
    cqe ← int_add (rx_depth ctx) 1;
    p ← new (NewCq false cqe)
          ((KContext, context ctx) :: opt_obj KChannel (channel ctx));
    let ctx := set_cq p ctx in
    if p =? 0 then fail_with (clean_mr ctx)
    else
      p ← new (NewQp false QPT_UD 1 (wrap_u 32 (rx_depth ctx))) [(KPd, pd ctx); (KCq, cq ctx)];
      let ctx := set_qp p ctx in
      if p =? 0 then fail_with (clean_cq ctx)
      else
        call [(KQp, qp ctx)] (QueryQp (qp ctx));;
        s ← get;
        let ctx := if wrap_u 32 (size ctx) <=? max_inline (h_dev (h_world s))
                   then set_send_flags (Z.lor (send_flags ctx) IBV_SEND_INLINE) ctx else ctx in
        r ← call [(KQp, qp ctx)] (ModifyQp (qp ctx)
              [QP_STATE QPS_INIT; QP_PKEY_INDEX 0; QP_PORT (wrap_u 8 port); QP_QKEY QKEY]);
        if r <>z 0 then fail_with (clean_qp ctx) else mret (Some ctx).

Definition pp_init_ctx (ib_dev size rx_depth port : Z) (use_event : bool)
    : M hw (option pingpong_context) :=
  p ← new NewStruct [];
  if p =? 0 then mret None
  else
    let ctx := new_context p size rx_depth in
    len ← int_add size GRH_SIZE;
    p ← new (NewMem (wrap_u 64 len)) [];
    let ctx := set_buf p ctx in
    if p =? 0 then fail_with (clean_ctx ctx)
    else
      let ctx := set_contents (replicate (Z.to_nat len) 0x7b) ctx in
      p ← new (NewContext ib_dev) [];
      let ctx := set_context p ctx in
      if p =? 0 then fail_with (clean_buffer ctx)
      else
        r ← call [(KContext, context ctx)] (QueryPort (context ctx) (wrap_u 8 port));
        if r <>z 0 then fail_with (clean_device ctx)
        else
          s ← get;
          mtu ← port_mtu (port_active_mtu (h_dev (h_world s)));
          if mtu <? size then fail_with (clean_device ctx)
          else
            p ← (if use_event then new NewChannel [(KContext, context ctx)] else mret 0);
            let ctx := set_channel p ctx in
            if use_event && (p =? 0) then fail_with (clean_device ctx)
            else
              p ← new NewPd [(KContext, context ctx)];
              let ctx := set_pd p ctx in
              if p =? 0 then fail_with (clean_comp_channel ctx)
              else init_queues ctx port.

Definition pp_close_ctx (ctx : pingpong_context) (ah : Z) : M hw Z :=
  close_step (KQp, qp ctx) (
  close_step (KCq, cq ctx) (
  close_step (KMr, mr ctx) (
  close_step (KAh, ah) (
  close_step (KPd, pd ctx) (
  let k :=
    close_step (KContext, context ctx) (
    release (KMem, buf ctx);;
    release (KMem, self ctx);;
    mret 0) in
  if channel ctx =? 0 then k else close_step (KChannel, channel ctx) k))))).

(** ** Posting work *)

Definition pp_post_recv (ctx : pingpong_context) (n : Z) : M hw Z :=
  s ← get;
  len ← int_add (size ctx) GRH_SIZE;
  post_recvs (call [(KQp, qp ctx); (KMr, mr ctx)]
                (PostRecv (qp ctx) PINGPONG_RECV_WRID
                   (Sge (buf ctx) (wrap_u 32 len) (mr_lkey (h_dev (h_world s)) (mr ctx)))))
    (Z.to_nat n) 0.

Definition pp_post_send (ctx : pingpong_context) (ah qpn : Z) : M hw Z :=
  s ← get;
  call [(KQp, qp ctx); (KMr, mr ctx); (KAh, ah)]
    (PostSendUd (qp ctx) PINGPONG_SEND_WRID (send_flags ctx)
       (Sge (buf ctx + GRH_SIZE) (wrap_u 32 (size ctx)) (mr_lkey (h_dev (h_world s)) (mr ctx)))
       ah (wrap_u 32 qpn) QKEY).

(** ** [main] *)

(** No option for the MTU; the port is read by [strtol]. *)
Definition parse_opt (c : char) (optarg : cstr) (o : rc_opts) : option rc_opts :=
  match c with
  | "p"%char =>
      let port := wrap_u 32 (strtol0 optarg) in
      if 65535 <? port then None
      else Some (RcOpts port (o_ib_devname o) (o_servername o) (o_ib_port o) (o_size o) (o_mtu o)
                   (o_rx_depth o) (o_iters o) (o_use_event o) (o_sl o) (o_gidx o) (o_globals o))
  | _ =>
      if existsb (Ascii.eqb c) (L "disrnlegc") then RcPingpong.parse_opt c optarg o else None
  end.

Fixpoint parse_opts (l : list (char * cstr)) (o : rc_opts) : option rc_opts :=
  match l with
  | [] => Some o
  | (c, optarg) :: l => o ← parse_opt c optarg o; parse_opts l o
  end.

(** The default size is 1024; there is no path MTU. *)
Definition ud_defaults : rc_opts :=
  RcOpts 18515 None None 1 1024 0 500 1000 0 0 (-1)
    (Globals false false false false false false false).

Definition ud_options (args : list (char * cstr)) (rest : list cstr) : option rc_opts :=
  o ← parse_opts args ud_defaults; parse_rest rest o.

(** The port's attributes and this end's address; a LID of 0 is accepted. *)
Definition local_dest (o : rc_opts) (c : pingpong_context) (rand : Z) : M hw (option pingpong_dest) :=
  r ← call [(KContext, context c)] (QueryPort (context c) (wrap_u 8 (o_ib_port o)));
  if r <>z 0 then mret None
  else
    s ← get;
    let d := h_dev (h_world s) in
    g ← (if 0 <=? o_gidx o then
           r ← call [(KContext, context c)]
                 (QueryGid (context c) (wrap_u 8 (o_ib_port o)) (o_gidx o));
           mret (if r <>z 0 then None else Some (port_gid d (o_gidx o)))
         else mret (Some (replicate 16 0)));
    mret (g ← g; Some (Dest (port_lid d) (qp_num d (qp c)) (Z.land rand 0xffffff) g)).

(** The address of the peer's structure, the peer's address and the address
    handle. *)
Definition exch_dest (o : rc_opts) (c : pingpong_context) (my_dest : pingpong_dest)
    : M hw (option (Z * (pingpong_dest * Z))) :=
  match o_servername o with
  | Some h =>
      r ← pp_client_exch_dest h (o_port o) my_dest;
      match r with
      | None => mret None
      | Some (p, d) =>
          ah ← pp_connect_ctx c (o_ib_port o) (psn my_dest) (o_sl o) d (o_gidx o);
          mret (ah ← ah; Some (p, (d, ah)))
      end
  | None => pp_server_exch_dest c (o_ib_port o) (o_port o) (o_sl o) my_dest (o_gidx o)
  end.

Record ud_setup := UdSetup {
  u_ctx : pingpong_context;
  u_rem : Z;
  u_dest : pingpong_dest;
  u_ah : Z;
  u_routs : Z }.

Definition setup (o : rc_opts) (ib_dev rand : Z) : M hw (option ud_setup) :=
  c ← pp_init_ctx ib_dev (wrap_s 32 (o_size o)) (wrap_s 32 (o_rx_depth o)) (o_ib_port o)
        (o_use_event o <>z 0);
  match c with
  | None => mret None
  | Some c =>
      routs ← pp_post_recv c (rx_depth c);
      if routs <? rx_depth c then mret None
      else
        r ← (if o_use_event o <>z 0 then call [(KCq, cq c)] (ReqNotifyCq (cq c)) else mret 0);
        if r <>z 0 then mret None
        else
          my_dest ← local_dest o c rand;
          match my_dest with
          | None => mret None
          | Some my_dest =>
              r ← exch_dest o c my_dest;
              mret ('(p, (d, ah)) ← r; Some (UdSetup c p d ah routs))
          end
  end.

(** The client's loop over its buffer, behind the routing header. *)
Definition fill_pages (size page : Z) (b : list Z) : list Z :=
  foldl (λ b i, <[Z.to_nat (i + GRH_SIZE) := page_mark page i]> b) b
    (page_starts (Z.to_nat size) 0 size page).

Definition invalid_pages (size page : Z) (b : list Z) : list Z :=
  (λ i, Z.quot i page) <$>
  filter (λ i, b !! Z.to_nat (i + GRH_SIZE) ≠ Some (page_mark page i))
    (page_starts (Z.to_nat size) 0 size page).

Definition first_send (o : rc_opts) (page : Z) (u : ud_setup) : M hw (option pingpong_context) :=
  let c := set_pending PINGPONG_RECV_WRID (u_ctx u) in
  match o_servername o with
  | None => mret (Some c)
  | Some _ =>
      let c := if validate_buf (o_globals o)
               then set_contents (fill_pages (o_size o) page (contents c)) c else c in
      r ← pp_post_send c (u_ah u) (qpn (u_dest u));
      if r <>z 0 then mret None
      else mret (Some (set_pending (Z.lor (pending c) PINGPONG_SEND_WRID) c))
  end.

Definition final_check (o : rc_opts) (e : run_env) : list Z :=
  match o_servername o with
  | Some _ => []
  | None =>
      if validate_buf (o_globals o) then invalid_pages (o_size o) (e_page_size e) (e_buf e) else []
  end.

(** The loop, whose every send names the handle and the peer's queue pair. *)
Definition run_loop (o : rc_opts) (u : ud_setup) (c : pingpong_context)
    : M hw (option Z * rc_state) :=
  run_events pp_post_recv (λ c, pp_post_send c (u_ah u) (qpn (u_dest u))) (o_iters o)
    (o_use_event o <>z 0) c (u_routs u).

Definition measure (o : rc_opts) (e : run_env) (u : ud_setup) (c : pingpong_context) (dev_list : Z)
    : M hw (Z * list Z) :=
  finish_run (run_loop o u c) num_cq_events (pp_close_ctx c (u_ah u)) (cq c) (final_check o e)
    dev_list (u_rem u).

Definition main (e : run_env) : M hw (Z * list Z) :=
  match ud_options (e_args e) (e_rest e) with
  | None => mret (1, [])
  | Some o =>
      match e_devs e with
      | None => mret (1, [])
      | Some devs =>
          dev_list ← make NewDevList [];
          match pick_device (o_ib_devname o) devs with
          | None => mret (1, [])
          | Some ib_dev =>
              r ← setup o ib_dev (e_rand e);
              match r with
              | None => mret (1, [])
              | Some u =>
                  c ← first_send o (e_page_size e) u;
                  match c with
                  | None => mret (1, [])
                  | Some c => measure o e u c dev_list
                  end
              end
          end
      end
  end.

(** ** The life of the objects *)

(** The port's MTU is one of [enum ibv_mtu], 256 to 4096 bytes. *)
Definition mtu_of (d : device) : Z := Z.shiftl 1 (port_active_mtu d + 7).
Definition mtu_ok (d : device) : Prop := 1 ≤ port_active_mtu d ≤ 5.

Lemma port_mtu_ok d s : mtu_ok d → port_mtu (port_active_mtu d) s = (Done (mtu_of d), s).
Proof. intros H. unfold port_mtu, mtu_ok in *. rewrite (proj2 (andb_true_iff _ _)) by lia. done. Qed.

(** The sizes for which [size + 40] is an [int]. *)
Definition size_ok (sz : Z) : Prop := int_min ≤ sz ≤ int_max - GRH_SIZE.

Ltac in_plain :=
  repeat first [apply Forall_nil_2 | apply Forall_cons_2];
  unfold plain_stack, stack_pd, stack_channel, stack_device, stack_buf, stack_ctx;
  repeat first [rewrite fmap_app | rewrite elem_of_app | rewrite elem_of_cons
               | progress cbn [fmap list_fmap fst app]];
  tauto.

Section life.
Context (s0 : hw) (sz depth : Z) (ev : bool).

Definition ud_fine : Prop :=
  cooperative (h_world s0) ∧ sz ≤ mtu_of (h_dev (h_world s0)).

Definition ud_made (c : pingpong_context) (s' : hw) : Prop :=
  hwst s0 s' (plain_stack c) ∧ ctx_for sz depth ev c ∧ sz ≤ mtu_of (h_dev (h_world s0)).

Lemma fine_cooperative : ud_fine → cooperative (h_world s0).
Proof using. by intros [? _]. Qed.

Lemma ud_init_queues_total c port s :
  hwst s0 s (stack_pd c) → ctx_for sz depth ev c → size_ok sz → depth_ok depth →
  sz ≤ mtu_of (h_dev (h_world s0)) →
  total (init_queues c port) s (init_result s0 ud_fine ud_made).
Proof using.
  intros Hs Hc Hsz Hdepth Hmtu. pose proof fine_cooperative as Hfc. unfold init_queues.
  eapply total_bind_eq.
  { apply int_add_ok. rewrite (cf_size _ _ _ _ Hc). unfold size_ok, GRH_SIZE, int_min in *. lia. }
  eapply new_step; [exact Hfc|exact Hs|in_plain| |].
  { intros s1. apply (clean_pd_destroys c). }
  intros p1 s1 _ H1. set (c1 := set_mr p1 c).
  eapply total_bind_eq; [apply int_add_ok; change (rx_depth c1) with (rx_depth c); by rewrite (cf_depth _ _ _ _ Hc)|].
  eapply new_step; [exact Hfc|exact H1| | |].
  { apply (channel_dep c1 [_; _]). }
  { intros s2. apply (uc_clean_mr_destroys c1). }
  intros p2 s2 _ H2. set (c2 := set_cq p2 c1).
  eapply new_step; [exact Hfc|exact H2|in_plain| |].
  { intros s3. apply (uc_clean_cq_destroys c2). }
  intros p3 s3 _ H3. set (c3 := set_qp p3 c2). change (hwst s0 s3 (plain_stack c3)) in H3.
  apply total_bind. eapply call_total; [exact H3|in_plain|]. intros s4 H4.
  apply total_bind, total_get. cbv zeta. set (c4 := if _ <=? _ then _ else c3).
  assert (plain_stack c4 = plain_stack c3 ∧ ctx_for sz depth ev c4 ∧ qp c4 = qp c3) as (Est & Hc4 & Hq).
  { unfold c4. destruct (_ <=? _); (split; [done|split; [|done]]); destruct Hc; by constructor. }
  rewrite <-Est in H4. eapply call_step; [exact Hfc|exact H4|in_plain| |].
  { apply uc_clean_qp_destroys. }
  intros s5 H5. by apply total_ret.
Qed.

Lemma ud_pp_init_ctx_total ib_dev port :
  stacked (Z.of_nat (h_time s0)) (h_live s0) → size_ok sz → depth_ok depth → mtu_ok (h_dev (h_world s0)) →
  total (pp_init_ctx ib_dev sz depth port ev) s0 (init_result s0 ud_fine ud_made).
Proof using.
  intros Hst Hsz Hdepth Hmtu. pose proof (hwst_refl s0 Hst) as Hs. pose proof fine_cooperative as Hfc.
  unfold pp_init_ctx. apply total_bind. eapply new_total; [exact Hs|in_plain|..].
  { intros s1 E H1. apply total_ret. split; [|done]. intros [[Hn _] _]. by rewrite Hn in E. }
  intros p1 s1 Hp1 H1. destruct (Z.eqb_spec p1 0) as [->|_]; [lia|].
  set (c1 := new_context p1 sz depth). change (hwst s0 s1 (stack_ctx c1)) in H1. cbv zeta.
  eapply total_bind_eq.
  { apply int_add_ok. unfold size_ok, GRH_SIZE, int_min in *. lia. }
  eapply new_step; [exact Hfc|exact H1|in_plain| |].
  { intros s2. apply (clean_ctx_destroys c1). }
  intros p2 s2 _ H2. set (c2 := set_contents _ _). change (hwst s0 s2 (stack_buf c2)) in H2.
  eapply new_step; [exact Hfc|exact H2|in_plain| |].
  { intros s3. apply (clean_buffer_destroys c2). }
  intros p3 s3 _ H3. set (c3 := set_context p3 c2). change (hwst s0 s3 (stack_device c3)) in H3.
  eapply call_step; [exact Hfc|exact H3|in_plain| |].
  { apply clean_device_destroys. }
  intros s4 H4. apply total_bind, total_get. rewrite (hs_world _ _ _ H4).
  eapply total_bind_eq; [by apply port_mtu_ok|].
  destruct (Z.ltb_spec (mtu_of (h_dev (h_world s0))) sz) as [Hlt|Hle].
  { eapply fail_step; [exact H4|apply clean_device_destroys|]. intros [_ ?]. lia. }
  eapply (channel_step s0 _ _ Hfc c3); [exact H4| |].
  { intros s5. apply (clean_device_destroys c3). }
  intros p5 s5 H5 Hp5. set (c5 := set_channel p5 c3). change (hwst s0 s5 (stack_channel c5)) in H5.
  eapply new_step; [exact Hfc|exact H5|in_plain| |].
  { intros s6. apply (clean_channel_destroys c5). }
  intros p6 s6 _ H6. set (c6 := set_pd p6 c5). change (hwst s0 s6 (stack_pd c6)) in H6.
  by apply ud_init_queues_total.
Qed.
End life.

(** Tearing down gives up the context and the handle, under the structure of
    the peer's address; 1 is returned only when a destructor refuses. *)
Lemma ud_pp_close_ctx_total s0 R U c ah s :
  memory_only R → 0 < ah →
  hwst s0 s (((KAh, ah), [(KPd, pd c)]) :: R ++ plain_stack c ++ U) →
  total (pp_close_ctx c ah) s (λ r s',
    (r = 0 ∧ hwst s0 s' (R ++ U)) ∨ (r = 1 ∧ ¬ never_refuses (h_world s0))).
Proof.
  intros HR Hah Hs. unfold pp_close_ctx. set (Q := λ (r : Z) (s' : hw), _).
  assert (∀ s', ¬ never_refuses (h_world s0) → Q 1 s') as HQ by (intros; by right).
  set (A := ((KAh, ah), [(KPd, pd c)]) : obj * list obj) in *.
  assert (∀ k p, k ≠ KPd → free_of (k, p) (A :: R)) as HF.
  { intros k p Hk. apply Forall_cons. split; [|by apply memory_only_free].
    simpl. intros [= -> _]%list_elem_of_singleton. done. }
  eapply (close_one s0 Q HQ (A :: R)); [exact Hs|by apply HF|]. clear s Hs. intros s Hs.
  eapply (close_one s0 Q HQ (A :: R)); [exact Hs|by apply HF|]. clear s Hs. intros s Hs.
  eapply (close_one s0 Q HQ (A :: R)); [exact Hs|by apply HF|]. clear s Hs. intros s Hs.
  eapply (close_one s0 Q HQ []); [exact Hs|apply Forall_nil_2|]. clear s Hs. intros s Hs.
  eapply (close_one s0 Q HQ R); [exact Hs|by apply memory_only_free|]. clear s Hs. intros s Hs.
  cbv zeta. unfold stack_channel in Hs. cbn [app] in Hs.
  rewrite <-(assoc_L app (opt_entry _ _ _)) in Hs.
  eapply (close_channel s0 Q HQ R); [exact Hs|by apply memory_only_free|]. clear s Hs. intros s Hs.
  eapply (close_device s0 Q HQ R); [exact HR|exact Hs|]. intros s' H'. by left.
Qed.

(** ** A whole run gives everything back *)

Lemma ud_pp_post_recv_keeps c n : preserves keeps (pp_post_recv c n).
Proof.
  unfold pp_post_recv. apply preserves_bind; [exact _|keep|]. intros s.
  apply preserves_bind; [exact _|keep|]. intros len. apply post_recvs_keeps. keep.
Qed.
Lemma ud_pp_post_send_keeps c ah q : preserves keeps (pp_post_send c ah q).
Proof. unfold pp_post_send. keep. Qed.
Lemma ud_local_dest_keeps o c r : preserves keeps (local_dest o c r).
Proof. unfold local_dest. keep. Qed.
#[export] Hint Resolve ud_pp_post_recv_keeps ud_pp_post_send_keeps ud_local_dest_keeps : preserves.

Lemma ud_first_send_keeps o page u : preserves keeps (first_send o page u).
Proof. unfold first_send. keep. Qed.
Lemma ud_run_loop_keeps o u c : preserves keeps (run_loop o u c).
Proof.
  unfold run_loop. apply run_events_keeps; [exact ud_pp_post_recv_keeps|].
  intros c0. exact (ud_pp_post_send_keeps c0 _ _).
Qed.

(** The handle as an object. *)
Definition ah_entry (c : pingpong_context) (ah : Z) : obj * list obj := ((KAh, ah), [(KPd, pd c)]).

Lemma pp_connect_ctx_returns s0 s T c port p sl d g :
  hwst s0 s T → (KPd, pd c) ∈ T.*1 →
  returns (pp_connect_ctx c port p sl d g) s (λ r s',
    match r with Some ah => 0 < ah ∧ hwst s0 s' (ah_entry c ah :: T) | None => hwst s0 s' T end).
Proof.
  intros Hs Hpd. unfold pp_connect_ctx.
  eapply returns_keeps; [keep|exact Hs|]. intros r s1 H1.
  destruct (r <>z 0); [by apply returns_ret|].
  eapply returns_keeps; [keep|exact H1|]. intros r2 s2 H2.
  destruct (r2 <>z 0); [by apply returns_ret|].
  eapply (returns_total _ _ _ (λ p s', (p = 0 ∧ hwst s0 s' T) ∨
    (0 < p ∧ hwst s0 s' (ah_entry c p :: T)))).
  { eapply new_total; [exact H2|by apply Forall_singleton|by left|by right]. }
  intros ah s3 [[-> H3]|[Hp H3]]; [by apply returns_ret|].
  destruct (Z.eqb_spec ah 0); [lia|]. by apply returns_ret.
Qed.

Lemma ud_exch_dest_returns s0 s T o c my :
  hwst s0 s T → (KPd, pd c) ∈ T.*1 →
  returns (exch_dest o c my) s (λ r s',
    match r with
    | Some (p, (_, ah)) => 0 < ah ∧ hwst s0 s' (ah_entry c ah :: (rem_obj p, []) :: T)
    | None => True
    end).
Proof.
  intros Hs Hpd. unfold exch_dest. destruct (o_servername o) as [h|].
  - apply returns_bind. eapply returns_mono; [by apply client_exch_returns|].
    intros [[p d]|] s1 H1; [|by apply returns_ret]. simpl in H1.
    apply returns_bind. eapply returns_mono; [eapply pp_connect_ctx_returns; [exact H1|]|].
    { by right. }
    intros [ah|] s2 H2; by apply returns_ret.
  - eapply returns_mono.
    + eapply (server_exch_returns (λ r : pingpong_dest * Z, 0 < r.2)
        (λ r : pingpong_dest * Z, [ah_entry c r.2]) [(KPd, pd c)]); [|exact Hs|by apply Forall_singleton].
      intros d s1 T1 H1 [Hin _]%Forall_cons. apply returns_bind.
      eapply returns_mono; [by eapply pp_connect_ctx_returns|].
      intros [ah|] s2 H2; by apply returns_ret.
    + by intros [[p [d ah]]|] s1 H1.
Qed.

(** No context for a deeper receive queue. *)
Lemma ud_init_queues_deep c port s :
  ¬ depth_ok (rx_depth c) → returns (init_queues c port) s no_context.
Proof.
  intros Hd. unfold init_queues. apply returns_bind. intros len s1 _. apply returns_bind. intros p s2 _.
  cbv zeta. destruct (p =? 0); [apply fail_none|]. apply returns_bind. intros cqe s4 E. exfalso. apply Hd.
  revert E. unfold int_add, depth_ok. cbn [rx_depth set_mr]. destruct (_ && _) eqn:Eb; [lia|done].
Qed.

Lemma ud_pp_init_ctx_deep ib_dev sz depth port ev s :
  ¬ depth_ok depth → returns (pp_init_ctx ib_dev sz depth port ev) s no_context.
Proof.
  intros Hd. unfold pp_init_ctx. apply returns_bind. intros p s1 _. destruct (p =? 0); [by apply returns_ret|].
  cbv zeta. apply returns_bind. intros len s2 _. apply returns_bind. intros p2 s3 _.
  destruct (p2 =? 0); [apply fail_none|]. apply returns_bind. intros p3 s4 _.
  destruct (p3 =? 0); [apply fail_none|]. apply returns_bind. intros r s5 _.
  destruct (r <>z 0); [apply fail_none|]. apply returns_bind. intros s6 s6' _.
  apply returns_bind. intros mtu s7 _. destruct (mtu <? sz); [apply fail_none|].
  apply returns_bind. intros p5 s8 _. destruct (ev && (p5 =? 0)); [apply fail_none|].
  apply returns_bind. intros p6 s9 _. destruct (p6 =? 0); [apply fail_none|]. by apply ud_init_queues_deep.
Qed.

Lemma ud_setup_returns s0 s T o ib_dev rand :
  hwst s0 s T → mtu_ok (h_dev (h_world s0)) → size_ok (wrap_s 32 (o_size o)) →
  returns (setup o ib_dev rand) s (λ r s',
    match r with
    | Some u => 0 < u_ah u ∧
        hwst s0 s' (ah_entry (u_ctx u) (u_ah u) :: (rem_obj (u_rem u), []) :: plain_stack (u_ctx u) ++ T)
    | None => True
    end).
Proof.
  intros Hs Hmtu Hsz. unfold setup. apply returns_bind.
  eapply (returns_mono _ _ (λ r s', match r with Some c => hwst s s' (plain_stack c) | None => True end)).
  { destruct (decide (depth_ok (wrap_s 32 (o_rx_depth o)))) as [Hd|Hd].
    - eapply total_returns; [apply ud_pp_init_ctx_total; [exact (hs_stack _ _ _ Hs)|exact Hsz|exact Hd|by rewrite (hs_world _ _ _ Hs)]|].
      intros [c|] s1 H1; [apply H1|done].
    - eapply returns_mono; [by apply ud_pp_init_ctx_deep|]. by intros [c|] s1. }
  intros [c|] s1 H1; [|by apply returns_ret].
  pose proof (hwst_trans _ _ _ _ _ Hs H1) as H1'.
  eapply returns_keeps; [keep|exact H1'|]. intros routs s2 H2.
  destruct (routs <? rx_depth c); [by apply returns_ret|].
  eapply returns_keeps; [keep|exact H2|]. intros r s3 H3.
  destruct (r <>z 0); [by apply returns_ret|].
  eapply returns_keeps; [keep|exact H3|]. intros [my|] s4 H4; [|by apply returns_ret].
  apply returns_bind. eapply returns_mono; [apply ud_exch_dest_returns; [exact H4|]|].
  { rewrite fmap_app. apply elem_of_app. left. unfold plain_stack, stack_pd.
    cbn [fmap list_fmap fst]. do 3 right. by left. }
  intros [[p [d ah]]|] s5 H5; by apply returns_ret.
Qed.

Lemma ud_main_returns e s :
  stacked (Z.of_nat (h_time s)) (h_live s) → mtu_ok (h_dev (h_world s)) →
  (∀ o, ud_options (e_args e) (e_rest e) = Some o → size_ok (wrap_s 32 (o_size o))) →
  returns (main e) s (λ r s', r.1 = 0 → hwst s s' []).
Proof.
  intros Hst Hmtu Hsz. pose proof (hwst_refl s Hst) as Hs. unfold main.
  destruct (ud_options _ _) as [o|]; [|by apply returns_ret]. specialize (Hsz o eq_refl).
  destruct (e_devs e) as [devs|]; [|by apply returns_ret].
  eapply returns_total; [by apply make_hwst|]. intros dl s1 H1.
  destruct (pick_device _ _) as [d|]; [|by apply returns_ret].
  apply returns_bind. eapply returns_mono; [eapply ud_setup_returns; [exact H1|exact Hmtu|exact Hsz]|].
  intros [u|] s2 H2; [|by apply returns_ret]. destruct H2 as [Hah H2].
  apply returns_bind. intros r s3 E3.
  pose proof (ud_first_send_keeps o (e_page_size e) u s2) as Hk. rewrite E3 in Hk.
  destruct r as [c'|]; [|by apply returns_ret].
  assert (plain_stack c' = plain_stack (u_ctx u) ∧ pd c' = pd (u_ctx u)) as [Hstk Hpd].
  { revert E3. unfold first_send. destruct (o_servername o).
    - intros (r3 & s4 & _ & E)%bind_done_inv. destruct (r3 <>z 0); [done|].
      injection E as <- _. by destruct (validate_buf _).
    - intros E. injection E as <- _. done. }
  pose proof (hwst_keeps _ _ _ _ H2 Hk) as H3. clear H2 Hk E3. unfold measure.
  eapply (finish_run_returns _ _ _ _ _ _ _ s s3
            (ah_entry c' (u_ah u) :: (rem_obj (u_rem u), []) :: plain_stack c' ++ [((KDevList, dl), [])])).
  - unfold ah_entry. rewrite Hstk, Hpd. exact H3.
  - exact (ud_run_loop_keeps o u c').
  - intros s4. unfold run_loop. apply run_events_rc.
  - intros s4 H4 r s5 E.
    pose proof (ud_pp_close_ctx_total s [(rem_obj (u_rem u), [])] [((KDevList, dl), [])] c' (u_ah u) s4
      ltac:(by apply Forall_singleton) Hah H4) as Ht.
    unfold total in Ht. rewrite E in Ht. destruct Ht as [[_ H]|[-> _]]; done.
Qed.

(** Every send of [c] posts one message of [len] bytes, from behind the room
    for the routing header, to the queue pair and through the address handle
    it is given. *)
Definition sends (c : pingpong_context) (len : Z) : Prop :=
  ∀ ah qpn s, pp_post_send c ah qpn s =
    call [(KQp, qp c); (KMr, mr c); (KAh, ah)]
      (PostSendUd (qp c) 2 (send_flags c)
         (Sge (buf c + 40) len (mr_lkey (h_dev (h_world s)) (mr c))) ah (wrap_u 32 qpn) 0x11111111) s.

Lemma posts_size c : sends c (wrap_u 32 (size c)).
Proof. done. Qed.

Lemma mtu_of_range d : mtu_ok d → 256 ≤ mtu_of d ≤ 4096.
Proof.
  unfold mtu_ok, mtu_of. intros H. rewrite Z.shiftl_1_l.
  split; [apply (Z.pow_le_mono_r 2 8)|apply (Z.pow_le_mono_r 2 _ 12)]; lia.
Qed.

(** A size of the option [-s] that is negative as an [int] is posted as a
    length above any MTU. *)
Lemma negative_size sz : int_min ≤ sz < 0 → wrap_u 32 sz = sz + 2 ^ 32.
Proof.
  intros H. unfold wrap_u, int_min in *. symmetry. apply (Z.mod_unique_pos _ _ (-1)); lia.
Qed.

Lemma message_fits sz d : size_ok sz → mtu_ok d → sz ≤ mtu_of d →
  (0 ≤ sz ∧ wrap_u 32 sz = sz) ∨ (sz < 0 ∧ mtu_of d < wrap_u 32 sz).
Proof.
  intros Hsz Hd Hle. pose proof (mtu_of_range d Hd). destruct (decide (0 ≤ sz)).
  - left. split; [done|]. apply wrap_u_small. lia.
  - right. split; [lia|]. unfold size_ok in Hsz. rewrite negative_size by lia.
    unfold int_min in Hsz. lia.
Qed.

(** C13: a datagram set-up, with a size and a depth of the receive queue that
    leave room in an [int], either gives a context whose objects are exactly
    the ones it made and whose size is at most the MTU of the port (256 to 4096
    bytes) as a signed integer, or gives everything back (when no call that
    gives back refuses); it does not fail when every object can be made, every
    call succeeds and the size asked for is at most the MTU. Every send of the
    context then posts a message of that size, which fits the MTU, when the
    size is not negative; a size that is negative as an [int] passes the test
    too, and every send then posts a length above the MTU. *)
Theorem ud_init_spec (ib_dev sz depth port : Z) (ev : bool) (s : hw)
    (Hst : stacked (Z.of_nat (h_time s)) (h_live s))
    (Hsz : size_ok sz) (Hdepth : depth_ok depth) (Hmtu : mtu_ok (h_dev (h_world s))) :
  ∃ r s', pp_init_ctx ib_dev sz depth port ev s = (Done r, s') ∧
    match r with
    | Some c => h_live s' = plain_stack c ++ h_live s ∧ ctx_for sz depth ev c ∧
                sz ≤ mtu_of (h_dev (h_world s)) ∧
                (0 ≤ sz → sends c sz) ∧
                (sz < 0 → ∃ len, sends c len ∧ mtu_of (h_dev (h_world s)) < len)
    | None => (never_refuses (h_world s) → h_live s' = h_live s) ∧
              ¬ (cooperative (h_world s) ∧ sz ≤ mtu_of (h_dev (h_world s)))
    end.
Proof.
  destruct (total_done _ _ _ (ud_pp_init_ctx_total s sz depth ev ib_dev port Hst Hsz Hdepth Hmtu))
    as (r & s' & E & H). exists r, s'. split; [done|]. destruct r as [c|].
  - destruct H as (H & Hc & Hm). split_and!; [apply H|done|done|..];
      pose proof (posts_size c) as Hp; rewrite (cf_size _ _ _ _ Hc) in Hp;
      destruct (message_fits sz _ Hsz Hmtu Hm) as [[? E']|[? ?]]; [by rewrite E' in Hp|lia|lia|eauto].
  - destruct H as [H1 H2]. split; [|done]. intros Hr. apply (hs_live _ _ _ (H2 Hr)).
Qed.

(** A run of the datagram program that returns 0 has given back every
    object it made, the address handle included, whatever the device, the peer
    and the allocator answered; the size asked for must leave room for the
    routing header in an [int]. *)
Theorem ud_gives_back (e : run_env) (s s' : hw) (pages : list Z)
    (Hst : stacked (Z.of_nat (h_time s)) (h_live s)) (Hmtu : mtu_ok (h_dev (h_world s)))
    (Hsz : ∀ o, ud_options (e_args e) (e_rest e) = Some o → size_ok (wrap_s 32 (o_size o)))
    (Hrun : main e s = (Done (0, pages), s')) :
  h_live s' = h_live s.
Proof. exact (hs_live _ _ _ (ud_main_returns e s Hst Hmtu Hsz _ _ Hrun eq_refl)). Qed.

(** ** Concrete runs *)

Lemma ud_init_spec_witness :
  ∃ r s', pp_init_ctx 1 1024 2 1 true demo_hw = (Done r, s') ∧
    match r with
    | Some c => h_live s' = plain_stack c ++ h_live demo_hw ∧ ctx_for 1024 2 true c ∧
                1024 ≤ mtu_of (h_dev (h_world demo_hw)) ∧
                (0 ≤ 1024 → sends c 1024) ∧
                (1024 < 0 → ∃ len, sends c len ∧ mtu_of (h_dev (h_world demo_hw)) < len)
    | None => (never_refuses (h_world demo_hw) → h_live s' = h_live demo_hw) ∧
              ¬ (cooperative (h_world demo_hw) ∧ 1024 ≤ mtu_of (h_dev (h_world demo_hw)))
    end.
Proof.
  apply (ud_init_spec 1 1024 2 1 true demo_hw); [exact I| |split; vm_compute; discriminate|].
  - unfold size_ok, int_min, int_max, GRH_SIZE. lia.
  - unfold mtu_ok. vm_compute. split; discriminate.
Defined.

(** Two exchanges of the server; the second half of the buffer is wrong. *)
Definition demo_ud_run : run_env :=
  RunEnv [("n"%char, L "2"); ("r"%char, L "2"); ("s"%char, L "8"); ("c"%char, [])] []
    (Some [(L "mlx5_0", 1)]) 4 0x1234567 (replicate 44 0 ++ [7; 0; 0; 0]).

Lemma ud_gives_back_witness : h_live (main demo_ud_run demo_run_hw).2 = h_live demo_run_hw.
Proof.
  apply (ud_gives_back demo_ud_run demo_run_hw _ [1]).
  - exact I.
  - unfold mtu_ok. vm_compute. split; discriminate.
  - intros o Ho. vm_compute in Ho. injection Ho as <-. vm_compute. split; discriminate.
  - vm_compute. reflexivity.
Defined.
