(* ===== verification/SrqPingpong.v ===== *)
(** * The pingpong over a shared receive queue (rdma-core/srq_pingpong.c)

    Up to 255 queue pairs of a process share one receive queue and one
    completion queue; a completion is matched with its queue pair by number,
    and each queue pair has its own pending bits.  The context is the one of
    rc_pingpong.c with a second record for the parts that are new; the fields
    [qp], [dm], [pending] and [completion_timestamp_mask] of the first one do
    not exist here and stay 0. *)

From Stdlib Require Import ZifyBool.
From S2P Require Import Prelude CLib OS Gid Verbs Exch Keeps RcPingpong RcLife RcMain Setup Plain.
From S2P Require Import UcPingpong.

Local Open Scope Z_scope.

Definition MAX_QP : Z := 256.
Definition IBV_ODP_SUPPORT_SRQ_RECV : Z := 32.

(** The fields [srq], [num_qp], [qp] (the queue pairs made so far) and
    [pending]. *)
Record srq_part := SrqPart {
  srq : Z;
  num_qp : Z;
  qps : list Z;
  pendings : list Z }.

Definition set_srq (v : Z) (x : srq_part) : srq_part :=
  SrqPart v (num_qp x) (qps x) (pendings x).
Definition add_qp (v : Z) (x : srq_part) : srq_part :=
  SrqPart (srq x) (num_qp x) (qps x ++ [v]) (pendings x).
Definition set_pending_at (i : nat) (v : Z) (x : srq_part) : srq_part :=
  SrqPart (srq x) (num_qp x) (qps x) (<[i := v]> (pendings x)).

(** ** Connecting

    The loop over the queue pairs; [gid0] is [dest->gid], the GID of the first
    address, which every round uses. *)
Fixpoint connect_loop (port mtu sl sgid_idx : Z) (gid0 : option (list Z)) (l : list Z)
    (my_dest dest : list pingpong_dest) : M hw Z :=
  match l with
  | [] => mret 0
  | q :: l =>
      d ← or_fault Uninitialised (head dest);
      g ← or_fault Uninitialised gid0;
      my ← or_fault OutOfBounds (head my_dest);
      r ← call [(KQp, q)]
            (ModifyQp q (rtr_attrs port mtu sl (Dest (lid d) (qpn d) (psn d) g) sgid_idx));
      if r <>z 0 then mret 1
      else
        r ← call [(KQp, q)] (ModifyQp q (rts_attrs (psn my)));
        if r <>z 0 then mret 1
        else connect_loop port mtu sl sgid_idx gid0 l (tail my_dest) (tail dest)
  end.

Definition pp_connect_ctx (x : srq_part) (port mtu sl : Z) (my_dest dest : list pingpong_dest)
    (sgid_idx : Z) : M hw Z :=
  connect_loop port mtu sl sgid_idx (gid <$> head dest) (qps x) my_dest dest.

(** ** The exchange of addresses *)

(** The loop that reads one message. *)
Definition read_all_msg (fd : Z) : M hw (option (list char)) := read_all MSG_SIZE fd.

(** The loop that reads [k] addresses; those read, and whether all were.  The
    local [gid] keeps the text of the address before. *)
Fixpoint read_dests (fd : Z) (k : nat) (buf : region) : M hw (list pingpong_dest * bool) :=
  match k with
  | O => mret ([], true)
  | S k =>
      m ← read_all_msg fd;
      match m with
      | None => mret ([], false)
      | Some m =>
          '(d, buf) ← lift (scan_dest_gid m buf);
          '(l, ok) ← read_dests fd k buf;
          mret (d :: l, ok)
      end
  end.

(** The loop that writes the addresses. *)
Fixpoint write_dests (fd : Z) (l : list pingpong_dest) : M hw bool :=
  match l with
  | [] => mret true
  | d :: l =>
      msg ← or_fault OutOfBounds (dest_msg d);
      ok ← write_msg fd msg;
      if negb ok then mret false else write_dests fd l
  end.

(** The address of the array made for the peer's answer, with the entries that
    were filled. *)
Abbreviation remotes := (Z * list pingpong_dest)%type.

(** The local [gid] after the client's own addresses were written. *)
Definition last_gid (my_dest : list pingpong_dest) : region :=
  match last my_dest with Some d => client_gid d | None => server_gid end.

(** The array is returned even when an error stops the reading or the writing
    of the last message. *)
Definition pp_client_exch_dest (servername : cstr) (port : Z) (my_dest : list pingpong_dest)
    : M hw (option remotes) :=
  sockfd ← open_socket (Some servername) port;
  if sockfd <? 0 then mret None
  else
    ok ← write_dests sockfd my_dest;
    r ← (if negb ok then mret None
         else
           p ← new NewStruct [];
           if p =? 0 then mret None
           else
             '(l, ok) ← read_dests sockfd (Z.to_nat MAX_QP) (last_gid my_dest);
             (if (ok : bool) then write_msg sockfd done_msg else mret false);;
             mret (Some (p, l)));
    sys (shutdown_close sockfd);;
    mret r.

Definition pp_server_exch_dest (x : srq_part) (ib_port mtu port sl : Z)
    (my_dest : list pingpong_dest) (sgid_idx : Z) : M hw (option remotes) :=
  sockfd ← open_socket None port;
  if sockfd <? 0 then mret None
  else
    connfd ← sys sys_accept;
    sys (shutdown_close sockfd);;
    match connfd with
    | None => mret None
    | Some connfd =>
        p ← new NewStruct [];
        r ← (if p =? 0 then mret None
             else
               '(l, ok) ← read_dests connfd (Z.to_nat MAX_QP) server_gid;
               if negb ok then mret (Some (p, l))
               else
                 e ← pp_connect_ctx x ib_port mtu sl my_dest l sgid_idx;
                 if e <>z 0 then release (rem_obj p);; mret None
                 else
                   ok ← write_dests connfd my_dest;
                   m ← (if negb ok then mret None else read_msg connfd (strlen done_msg));
                   match m with
                   | None => release (rem_obj p);; mret None
                   | Some _ => mret (Some (p, l))
                   end);
        sys (shutdown_close connfd);;
        mret r
    end.

(** ** Setting up and tearing down

    The labels below [clean_cq] are those of uc_pingpong.c. *)
Fixpoint del_all (l : list Z) : M hw () :=
  match l with
  | [] => mret tt
  | q :: l => del (KQp, q);; del_all l
  end.

(** [clean_qps], from the last queue pair made down to the first. *)
Definition clean_qps (c : pingpong_context) (x : srq_part) : M hw () :=
  del_all (rev (qps x));; del (KSrq, srq x);; clean_cq c.

(** The first loop over the queue pairs, [k] being left; whether all were made. *)
Fixpoint create_qps (k : nat) (c : pingpong_context) (x : srq_part)
    : M hw (pingpong_context * srq_part * bool) :=
  match k with
  | O => mret (c, x, true)
  | S k =>
      p ← new (NewQp false QPT_RC 1 0) [(KPd, pd c); (KCq, cq c); (KSrq, srq x)];
      if p =? 0 then mret (c, x, false)
      else
        call [(KQp, p)] (QueryQp p);;
        s ← get;
        let c := if wrap_u 32 (size c) <=? max_inline (h_dev (h_world s))
                 then set_send_flags (Z.lor (send_flags c) IBV_SEND_INLINE) c else c in
        create_qps k c (add_qp p x)
  end.

(** The second loop: whether every queue pair was initialised. *)
Fixpoint init_qps (port : Z) (l : list Z) : M hw bool :=
  match l with
  | [] => mret true
  | q :: l =>
      r ← call [(KQp, q)] (ModifyQp q
            [QP_STATE QPS_INIT; QP_PKEY_INDEX 0; QP_PORT (wrap_u 8 port); QP_ACCESS_FLAGS 0]);
      if r <>z 0 then mret false else init_qps port l
  end.

(** From the memory region on. *)
Definition init_queues (c : pingpong_context) (num_qp port access_flags : Z)
    : M hw (option (pingpong_context * srq_part)) :=
  p ← new (NewMr false (wrap_u 64 (size c)) access_flags) [(KPd, pd c); (KMem, buf c)];
  let c := set_mr p c in
  if p =? 0 then fail_with (clean_pd c)
  else
    cqe ← int_add (rx_depth c) num_qp;
    p ← new (NewCq false cqe) ((KContext, context c) :: opt_obj KChannel (channel c));
    let c := set_cq p c in
    if p =? 0 then fail_with (clean_mr c)
    else
      p ← new (NewSrq (wrap_u 32 (rx_depth c))) [(KPd, pd c)];
      let x := SrqPart p num_qp [] (replicate (Z.to_nat MAX_QP) 0) in
      if p =? 0 then fail_with (clean_cq c)
      else
        '(c, x, ok) ← create_qps (Z.to_nat num_qp) c x;
        if negb ok then fail_with (clean_qps c x)
        else
          ok ← init_qps port (qps x);
          if negb ok then fail_with (clean_qps c x) else mret (Some (c, x)).

(** The device's support for on-demand paging, when it is asked for. *)
Definition odp_support (d : device) : bool :=
  let rc_caps_mask := Z.lor IBV_ODP_SUPPORT_SEND IBV_ODP_SUPPORT_SRQ_RECV in
  (Z.land (odp_general d) IBV_ODP_SUPPORT <>z 0) &&
  (Z.land (odp_rc d) rc_caps_mask =? rc_caps_mask).

Definition init_odp (odp : bool) (c : pingpong_context) : M hw bool :=
  if odp then
    r ← call [(KContext, context c)] (QueryDevice (context c));
    if r <>z 0 then mret false
    else s ← get; mret (odp_support (h_dev (h_world s)))
  else mret true.

Definition pp_init_ctx (odp : bool) (ib_dev size num_qp rx_depth port : Z) (use_event : bool)
    : M hw (option (pingpong_context * srq_part)) :=
  p ← new NewStruct [];
  if p =? 0 then mret None
  else
    let c := new_context p size rx_depth in
    p ← new (NewMem (wrap_u 64 size)) [];
    let c := set_buf p c in
    if p =? 0 then fail_with (clean_ctx c)
    else
      let c := set_contents (replicate (Z.to_nat size) 0) c in
      p ← new (NewContext ib_dev) [];
      let c := set_context p c in
      if p =? 0 then fail_with (clean_buffer c)
      else
        ok ← init_odp odp c;
        if negb ok then fail_with (clean_device c)
        else
          let access_flags := if odp then Z.lor IBV_ACCESS_LOCAL_WRITE IBV_ACCESS_ON_DEMAND
                              else IBV_ACCESS_LOCAL_WRITE in
          p ← (if use_event then new NewChannel [(KContext, context c)] else mret 0);
          let c := set_channel p c in
          if use_event && (p =? 0) then fail_with (clean_device c)
          else
            p ← new NewPd [(KContext, context c)];
            let c := set_pd p c in
            if p =? 0 then fail_with (clean_comp_channel c)
            else init_queues c num_qp port access_flags.

(** The queue pairs go in the order they were made. *)
Fixpoint close_qps (l : list Z) (k : M hw Z) : M hw Z :=
  match l with
  | [] => k
  | q :: l => close_step (KQp, q) (close_qps l k)
  end.

Definition pp_close_ctx (c : pingpong_context) (x : srq_part) : M hw Z :=
  close_qps (qps x) (
  close_step (KSrq, srq x) (
  close_step (KCq, cq c) (
  close_step (KMr, mr c) (
  close_step (KPd, pd c) (
  let k :=
    close_step (KContext, context c) (
    release (KMem, buf c);;
    release (KMem, self c);;
    mret 0) in
  if channel c =? 0 then k else close_step (KChannel, channel c) k))))).

(** ** Posting work *)

Definition pp_post_recv (c : pingpong_context) (x : srq_part) (n : Z) : M hw Z :=
  s ← get;
  post_recvs (call [(KSrq, srq x); (KMr, mr c)]
                (PostSrqRecv (srq x) PINGPONG_RECV_WRID (work_list s c)))
    (Z.to_nat n) 0.

Definition pp_post_send (c : pingpong_context) (x : srq_part) (qp_index : nat) : M hw Z :=
  q ← or_fault OutOfBounds (qps x !! qp_index);
  s ← get;
  call [(KQp, q); (KMr, mr c)]
    (PostSend q PINGPONG_SEND_WRID (send_flags c) (work_list s c)).

(** The index of the queue pair with this number. *)
Definition find_qp (d : device) (qpn : Z) (x : srq_part) : option nat :=
  fst <$> list_find (λ q, qp_num d q = wrap_u 32 (wrap_s 32 qpn)) (qps x).

(** ** Completions

    The variables of [main] are those of the other programs, with the new part
    of the context. *)
Record srq_state := SrqState { sq_run : rc_state; sq_part : srq_part }.

Definition set_sq_run (v : rc_state) (s : srq_state) : srq_state := SrqState v (sq_part s).
Definition set_sq_part (v : srq_part) (s : srq_state) : srq_state := SrqState (sq_run s) v.

#[global] Program Instance srq_state_run : Lens srq_state rc_state :=
  {| lget := sq_run; lset := set_sq_run |}.
Next Obligation. done. Qed.
Next Obligation. by intros []. Qed.
Next Obligation. done. Qed.

Definition run {A} (m : M rc_state A) : M srq_state A := zoom m.

(** [case PINGPONG_RECV_WRID]: whether to go on. *)
Definition srq_received : M srq_state bool :=
  s ← get;
  let c := ctx (sq_run s) in
  let x := sq_part s in
  let r := routs (sq_run s) - 1 in
  run (modify (set_routs r));;
  ok ← (if wrap_u 32 r <=? num_qp x then
          n ← run (dev (pp_post_recv c x (rx_depth c - r)));
          run (modify (set_routs (r + n)));;
          mret (rx_depth c <=? r + n)
        else mret true);
  if negb ok then mret false
  else n ← run (incr (rcnt (sq_run s))); run (modify (set_rcnt n));; mret true.

Definition srq_treat_wc (iters : Z) (w : wc) : M srq_state (option Z) :=
  if wc_status w <>z IBV_WC_SUCCESS then mret (Some 1)
  else
    s ← get;
    match find_qp (h_dev (h_world (rc_hw (sq_run s)))) (wc_qp_num w) (sq_part s) with
    | None => mret (Some 1)
    | Some qp_ind =>
        let wr_id := wrap_s 32 (wc_wr_id w) in
        ok ← (if wr_id =? PINGPONG_SEND_WRID then
                n ← run (incr (scnt (sq_run s))); run (modify (set_scnt n));; mret true
              else if wr_id =? PINGPONG_RECV_WRID then srq_received
              else mret false);
        if negb ok then mret (Some 1)
        else
          s ← get;
          b ← or_fault OutOfBounds (pendings (sq_part s) !! qp_ind);
          let b := Z.land b (Z.lnot wr_id) in
          modify (set_sq_part (set_pending_at qp_ind b (sq_part s)));;
          if (wrap_u 32 (scnt (sq_run s)) <? iters) && (b =? 0) then
            r ← run (dev (pp_post_send (ctx (sq_run s)) (sq_part s) qp_ind));
            if r <>z 0 then mret (Some 1)
            else
              modify (λ s, set_sq_part (set_pending_at qp_ind
                             (Z.lor PINGPONG_RECV_WRID PINGPONG_SEND_WRID) (sq_part s)) s);;
              mret None
          else mret None
    end.

Fixpoint srq_treat_all (iters : Z) (l : list wc) : M srq_state (option Z) :=
  match l with
  | [] => mret None
  | w :: l =>
      r ← srq_treat_wc iters w;
      match r with Some rc => mret (Some rc) | None => srq_treat_all iters l end
  end.

(** [num_wc] completions at most. *)
Definition srq_round (iters num_wc : Z) (use_event : bool) : M srq_state (option Z) :=
  r ← run (wait_event use_event);
  match r with
  | Some rc => mret (Some rc)
  | None =>
      s ← get;
      r ← run (spin (S (length (h_polls (rc_hw (sq_run s)))))
                 (dev (poll_cq (cq (ctx (sq_run s))) (Z.to_nat num_wc)))
                 (λ r, negb use_event && match r with inr [] => true | _ => false end));
      match r with
      | inl _ => mret (Some 1)
      | inr l => srq_treat_all iters l
      end
  end.

(** [while (rcnt < iters || scnt < iters)]. *)
Fixpoint srq_loop (fuel : nat) (iters num_wc : Z) (use_event : bool) : M srq_state (option Z) :=
  match fuel with
  | O => hang_
  | S fuel =>
      s ← get;
      if (wrap_u 32 (rcnt (sq_run s)) <? iters) || (wrap_u 32 (scnt (sq_run s)) <? iters) then
        r ← srq_round iters num_wc use_event;
        match r with
        | Some rc => mret (Some rc)
        | None => srq_loop fuel iters num_wc use_event
        end
      else mret None
  end.

(** ** [main] *)

Record srq_opts := SrqOpts { so_opts : rc_opts; so_num_qp : Z }.

Definition parse_opt (c : char) (optarg : cstr) (o : srq_opts) : option srq_opts :=
  match c with
  | "q"%char => Some (SrqOpts (so_opts o) (wrap_u 32 (strtoul0 optarg)))
  | "s"%char =>
      if wrap_u 32 (strtoul0 optarg) <? 1 then None
      else r ← RcPingpong.parse_opt c optarg (so_opts o); Some (SrqOpts r (so_num_qp o))
  | _ =>
      if existsb (Ascii.eqb c) (L "pdimrnlegoc")
      then r ← RcPingpong.parse_opt c optarg (so_opts o); Some (SrqOpts r (so_num_qp o))
      else None
  end.

Fixpoint parse_opts (l : list (char * cstr)) (o : srq_opts) : option srq_opts :=
  match l with
  | [] => Some o
  | (c, optarg) :: l => o ← parse_opt c optarg o; parse_opts l o
  end.

(** The options of a run, or [None] when [main] returns 1 at once. *)
Definition srq_options (args : list (char * cstr)) (rest : list cstr) : option srq_opts :=
  o ← parse_opts args (SrqOpts default_opts 16);
  r ← parse_rest rest (so_opts o);
  if o_rx_depth r <? so_num_qp o then None
  else if MAX_QP <=? so_num_qp o then None
  else Some (SrqOpts r (so_num_qp o)).

(** The addresses of this end's queue pairs; [rand] are the random numbers. *)
Fixpoint local_loop (o : rc_opts) (c : pingpong_context) (rand : nat → Z) (i : nat) (l : list Z)
    : M hw (option (list pingpong_dest)) :=
  match l with
  | [] => mret (Some [])
  | q :: l =>
      s ← get;
      let d := h_dev (h_world s) in
      if negb (port_ethernet d) && (port_lid d =? 0) then mret None
      else
        g ← (if 0 <=? o_gidx o then
               r ← call [(KContext, context c)]
                     (QueryGid (context c) (wrap_u 8 (o_ib_port o)) (o_gidx o));
               mret (if r <>z 0 then None else Some (port_gid d (o_gidx o)))
             else mret (Some (replicate 16 0)));
        match g with
        | None => mret None
        | Some g =>
            r ← local_loop o c rand (S i) l;
            mret (l ← r; Some (Dest (port_lid d) (qp_num d q) (Z.land (rand i) 0xffffff) g :: l))
        end
  end.

(** [memset (my_dest, 0, sizeof my_dest)]: all [MAX_QP] entries are sent. *)
Definition zero_dest : pingpong_dest := Dest 0 0 0 (replicate 16 0).

Definition local_dests (o : rc_opts) (c : pingpong_context) (x : srq_part) (rand : nat → Z)
    : M hw (option (list pingpong_dest)) :=
  r ← call [(KContext, context c)] (QueryPort (context c) (wrap_u 8 (o_ib_port o)));
  if r <>z 0 then mret None
  else
    r ← local_loop o c rand 0 (qps x);
    mret (l ← r; Some (l ++ replicate (Z.to_nat MAX_QP - length l) zero_dest)).

Definition exch_dests (o : rc_opts) (x : srq_part) (my_dest : list pingpong_dest)
    : M hw (option remotes) :=
  match o_servername o with
  | Some h =>
      r ← pp_client_exch_dest h (o_port o) my_dest;
      match r with
      | None => mret None
      | Some (p, l) =>
          e ← pp_connect_ctx x (o_ib_port o) (o_mtu o) (o_sl o) my_dest l (o_gidx o);
          mret (if e <>z 0 then None else Some (p, l))
      end
  | None => pp_server_exch_dest x (o_ib_port o) (o_mtu o) (o_port o) (o_sl o) my_dest (o_gidx o)
  end.

(** The context with its new part, the address of the peer's array and
    [routs]. *)
Definition setup (o : srq_opts) (ib_dev : Z) (rand : nat → Z)
    : M hw (option (pingpong_context * srq_part * Z * Z)) :=
  let r := so_opts o in
  c ← pp_init_ctx (use_odp (o_globals r)) ib_dev (wrap_s 32 (o_size r)) (so_num_qp o)
        (wrap_s 32 (o_rx_depth r)) (o_ib_port r) (o_use_event r <>z 0);
  match c with
  | None => mret None
  | Some (c, x) =>
      routs ← pp_post_recv c x (rx_depth c);
      if routs <? rx_depth c then mret None
      else
        e ← (if o_use_event r <>z 0 then call [(KCq, cq c)] (ReqNotifyCq (cq c)) else mret 0);
        if e <>z 0 then mret None
        else
          my_dest ← local_dests r c x rand;
          match my_dest with
          | None => mret None
          | Some my_dest =>
              e ← exch_dests r x my_dest;
              mret ('(p, _) ← e; Some (c, x, p, routs))
          end
  end.

(** The client's first messages, from queue pair [i] on, [k] being left. *)
Fixpoint send_loop (c : pingpong_context) (k i : nat) (x : srq_part) : M hw (option srq_part) :=
  match k with
  | O => mret (Some x)
  | S k =>
      r ← pp_post_send c x i;
      if r <>z 0 then mret None
      else send_loop c k (S i)
             (set_pending_at i (Z.lor PINGPONG_SEND_WRID PINGPONG_RECV_WRID) x)
  end.

Fixpoint wait_loop (k i : nat) (x : srq_part) : srq_part :=
  match k with
  | O => x
  | S k => wait_loop k (S i) (set_pending_at i PINGPONG_RECV_WRID x)
  end.

Definition first_sends (o : rc_opts) (page : Z) (c : pingpong_context) (x : srq_part)
    : M hw (option (pingpong_context * srq_part)) :=
  match o_servername o with
  | None => mret (Some (c, wait_loop (Z.to_nat (num_qp x)) 0 x))
  | Some _ =>
      let c := if validate_buf (o_globals o)
               then set_contents (fill_pages (o_size o) page (contents c)) c else c in
      x ← send_loop c (Z.to_nat (num_qp x)) 0 x;
      mret (pair c <$> x)
  end.

Definition run_loop (o : srq_opts) (c : pingpong_context) (x : srq_part) (routs : Z)
    : M hw (option Z * srq_state) := λ s,
  let num_wc := wrap_s 32 (so_num_qp o + o_rx_depth (so_opts o)) in
  let st := SrqState (RcState s c 0 0 routs ts_start 0) x in
  match srq_loop (loop_fuel s) (o_iters (so_opts o)) num_wc (o_use_event (so_opts o) <>z 0) st with
  | (Done r, st) => (Done (r, st), rc_hw (sq_run st))
  | (Exited z, st) => (Exited z, rc_hw (sq_run st))
  | (Fault f, st) => (Fault f, rc_hw (sq_run st))
  | (Hang, st) => (Hang, rc_hw (sq_run st))
  end.

(** From the first time stamp to the end. *)
Definition measure (o : srq_opts) (e : run_env) (c : pingpong_context) (x : srq_part)
    (dev_list rem routs : Z) : M hw (Z * list Z) :=
  finish_run (run_loop o c x routs) (λ st, num_cq_events (sq_run st)) (pp_close_ctx c x) (cq c)
    (UcPingpong.final_check (so_opts o) e) dev_list rem.

Definition main (e : run_env) (rand : nat → Z) : M hw (Z * list Z) :=
  match srq_options (e_args e) (e_rest e) with
  | None => mret (1, [])
  | Some o =>
      match e_devs e with
      | None => mret (1, [])
      | Some devs =>
          dev_list ← make NewDevList [];
          match pick_device (o_ib_devname (so_opts o)) devs with
          | None => mret (1, [])
          | Some ib_dev =>
              r ← setup o ib_dev rand;
              match r with
              | None => mret (1, [])
              | Some (c, x, rem, routs) =>
                  r ← first_sends (so_opts o) (e_page_size e) c x;
                  match r with
                  | None => mret (1, [])
                  | Some (c, x) => measure o e c x dev_list rem routs
                  end
              end
          end
      end
  end.
