(* ===== verification/SrqLife.v ===== *)
(** * Life cycle of the shared-receive-queue pingpong

    Setting up makes the queue pairs asked for on top of the shared receive
    queue, or gives everything back; tearing down takes the queue pairs in the
    order they were made, and a whole run leaves nothing behind. *)

From Stdlib Require Import ZifyBool.
From S2P Require Import Prelude CLib OS Gid Verbs Exch Keeps RcPingpong RcLife RcMain Setup Plain.
From S2P Require Import UcPingpong SrqPingpong.

Local Open Scope Z_scope.

(** ** The objects of a context *)

Definition stack_queues (c : pingpong_context) : list (obj * list obj) :=
  ((KCq, cq c), (KContext, context c) :: opt_obj KChannel (channel c)) ::
  ((KMr, mr c), [(KPd, pd c); (KMem, buf c)]) :: stack_pd c.
Definition stack_srq (c : pingpong_context) (srq : Z) : list (obj * list obj) :=
  ((KSrq, srq), [(KPd, pd c)]) :: stack_queues c.
Definition qp_entry (c : pingpong_context) (srq q : Z) : obj * list obj :=
  ((KQp, q), [(KPd, pd c); (KCq, cq c); (KSrq, srq)]).
Definition srq_stack (c : pingpong_context) (x : srq_part) : list (obj * list obj) :=
  (qp_entry c (srq x) <$> rev (qps x)) ++ stack_srq c (srq x).

Lemma add_qp_stack c x q : srq_stack c (add_qp q x) = qp_entry c (srq x) q :: srq_stack c x.
Proof. unfold srq_stack. cbn [add_qp qps srq]. by rewrite rev_app_distr. Qed.

(** The labels give up the stack. *)
Lemma del_all_destroys l (f : M hw ()) r s :
  (∀ s, f s = destroys r s) → (del_all l;; f) s = destroys ((pair KQp <$> l) ++ r) s.
Proof.
  intros Hf. revert s. induction l as [|q l IH]; intros s; [apply Hf|].
  cbn [del_all fmap list_fmap app destroys]. change (is_memory (KQp, q)) with false. cbv iota.
  rewrite bind_assoc. apply bind_ext. intros ? s'. apply IH.
Qed.

Lemma clean_qps_destroys c x s : clean_qps c x s = destroys (srq_stack c x).*1 s.
Proof.
  unfold clean_qps, srq_stack. rewrite fmap_app, <-list_fmap_compose.
  change (fst ∘ qp_entry c (srq x)) with (@pair kind Z KQp).
  apply del_all_destroys. intros s'. apply destroys_one; [done|]. apply uc_clean_cq_destroys.
Qed.

Ltac in_srq :=
  repeat first [apply Forall_nil_2 | apply Forall_cons_2];
  unfold srq_stack, stack_srq, stack_queues, stack_pd, stack_channel, stack_device, stack_buf,
    stack_ctx;
  repeat first [rewrite fmap_app | rewrite elem_of_app | rewrite elem_of_cons
               | progress cbn [fmap list_fmap fst app]];
  tauto.

(** ** Setting up *)

Section life.
Context (s0 : hw) (odp : bool) (sz nq depth : Z) (ev : bool).

Definition srq_fine : Prop :=
  cooperative (h_world s0) ∧ (odp = true → odp_support (h_dev (h_world s0)) = true).

Definition srq_made (r : pingpong_context * srq_part) (s' : hw) : Prop :=
  hwst s0 s' (srq_stack r.1 r.2) ∧ ctx_for sz depth ev r.1 ∧ num_qp r.2 = nq ∧
  length (qps r.2) = Z.to_nat nq ∧ pendings r.2 = replicate (Z.to_nat MAX_QP) 0.

Lemma srq_fine_cooperative : srq_fine → cooperative (h_world s0).
Proof using. by intros [? _]. Qed.

(** The first loop: the queue pairs made are on the stack, even when one
    cannot be made. *)
Lemma create_qps_total k c x s :
  hwst s0 s (srq_stack c x) → ctx_for sz depth ev c →
  total (create_qps k c x) s (λ r s', let '(c', x', ok) := r in
    hwst s0 s' (srq_stack c' x') ∧ ctx_for sz depth ev c' ∧ num_qp x' = num_qp x ∧
    pendings x' = pendings x ∧
    if ok : bool then length (qps x') = (length (qps x) + k)%nat
    else ¬ cooperative (h_world s0)).
Proof using.
  revert c x s. induction k as [|k IH]; intros c x s Hs Hc; cbn [create_qps].
  { apply total_ret. by rewrite Nat.add_0_r. }
  apply total_bind. eapply new_total; [exact Hs|in_srq|..].
  { intros s1 E H1. change (0 =? 0) with true. cbv iota. apply total_ret.
    split_and!; [done..|]. intros [Hn _]. by rewrite Hn in E. }
  intros p s1 Hp H1. destruct (Z.eqb_spec p 0) as [->|_]; [lia|].
  change (hwst s0 s1 (qp_entry c (srq x) p :: srq_stack c x)) in H1. rewrite <-add_qp_stack in H1.
  apply total_bind. eapply call_total; [exact H1| |].
  { rewrite add_qp_stack. apply Forall_singleton. by left. }
  intros s2 H2. apply total_bind, total_get. cbv zeta. set (c' := if _ <=? _ then _ else c).
  assert (srq_stack c' (add_qp p x) = srq_stack c (add_qp p x) ∧ ctx_for sz depth ev c') as [Est Hc'].
  { unfold c'. destruct (_ <=? _); (split; [done|]); destruct Hc; by constructor. }
  eapply total_mono; [apply IH; [by rewrite Est|done]|].
  intros [[c'' x''] ok] s3 (H3 & Hc3 & Hn3 & Hp3 & Hok). split_and!; [done..|].
  destruct ok; [|done]. rewrite Hok. cbn [add_qp qps]. rewrite length_app. simpl. lia.
Qed.

Lemma init_qps_total port T l s :
  hwst s0 s T → Forall (λ q, (KQp, q) ∈ T.*1) l →
  total (init_qps port l) s (λ ok s', hwst s0 s' T ∧ (ok = false → ¬ cooperative (h_world s0))).
Proof using.
  intros Hs Hl. revert s Hs. induction Hl as [|q l Hq _ IH]; intros s Hs; cbn [init_qps].
  { by apply total_ret. }
  apply total_bind. eapply call_total; [exact Hs|by apply Forall_singleton|]. intros s1 H1.
  destruct (Z.eqb_spec (h_int (h_world s0) (h_time s)) 0) as [_|E]; simpl; [by apply IH|].
  apply total_ret. split; [done|]. intros _ [_ Hi]. by rewrite Hi in E.
Qed.

Lemma srq_stack_qps c x : Forall (λ q, (KQp, q) ∈ (srq_stack c x).*1) (qps x).
Proof using.
  apply Forall_forall. intros q Hq. unfold srq_stack. rewrite fmap_app. apply elem_of_app. left.
  rewrite <-list_fmap_compose. apply list_elem_of_fmap. exists q. split; [done|].
  by apply list_elem_of_In, in_rev, list_elem_of_In in Hq.
Qed.

Lemma srq_init_queues_total c port a s :
  hwst s0 s (stack_pd c) → ctx_for sz depth ev c → int_min ≤ depth + nq ≤ int_max →
  total (init_queues c nq port a) s (init_result s0 srq_fine srq_made).
Proof using.
  intros Hs Hc Hd. pose proof srq_fine_cooperative as Hfc. unfold init_queues.
  eapply new_step; [exact Hfc|exact Hs|in_srq| |].
  { intros s1. apply (clean_pd_destroys c). }
  intros p1 s1 _ H1. set (c1 := set_mr p1 c).
  eapply total_bind_eq.
  { apply int_add_ok. pose proof (cf_depth _ _ _ _ Hc) as E. cbn. by rewrite E. }
  eapply new_step; [exact Hfc|exact H1| | |].
  { apply (channel_dep c1 [_; _]). }
  { intros s2. apply (uc_clean_mr_destroys c1). }
  intros p2 s2 _ H2. set (c2 := set_cq p2 c1). change (hwst s0 s2 (stack_queues c2)) in H2.
  eapply new_step; [exact Hfc|exact H2|in_srq| |].
  { intros s3. apply (uc_clean_cq_destroys c2). }
  intros p3 s3 _ H3. set (x3 := SrqPart p3 nq [] _). change (hwst s0 s3 (srq_stack c2 x3)) in H3.
  apply total_bind. eapply total_mono; [apply create_qps_total; [exact H3|by destruct Hc]|].
  intros [[c4 x4] ok] s4 (H4 & Hc4 & Hn4 & Hp4 & Hok). destruct ok; cbn [negb].
  2:{ eapply fail_step; [exact H4|apply clean_qps_destroys|]. intros Hf. by apply Hok, Hfc. }
  apply total_bind. eapply total_mono; [apply init_qps_total; [exact H4|apply srq_stack_qps]|].
  intros [|] s5 [H5 Hok5]; cbn [negb].
  - by apply total_ret.
  - eapply fail_step; [exact H5|apply clean_qps_destroys|]. intros Hf. by apply Hok5, Hfc.
Qed.

Lemma init_odp_total c s T :
  hwst s0 s T → (KContext, context c) ∈ T.*1 →
  total (init_odp odp c) s (λ ok s', hwst s0 s' T ∧ (ok = false → ¬ srq_fine)).
Proof using.
  intros Hs Hc. unfold init_odp. unfold srq_fine. destruct odp; [|by apply total_ret].
  apply total_bind. eapply call_total; [exact Hs|by apply Forall_singleton|]. intros s1 H1.
  destruct (Z.eqb_spec (h_int (h_world s0) (h_time s)) 0) as [_|E]; simpl.
  - apply total_bind, total_get, total_ret. rewrite (hs_world _ _ _ H1). split; [done|].
    intros E [_ Ho]. rewrite (Ho eq_refl) in E. done.
  - apply total_ret. split; [done|]. intros _ [[_ Hi] _]. by rewrite Hi in E.
Qed.

Lemma srq_init_ctx_total ib_dev port :
  stacked (Z.of_nat (h_time s0)) (h_live s0) → int_min ≤ depth + nq ≤ int_max →
  total (pp_init_ctx odp ib_dev sz nq depth port ev) s0 (init_result s0 srq_fine srq_made).
Proof using.
  intros Hst Hd. pose proof (hwst_refl s0 Hst) as Hs. pose proof srq_fine_cooperative as Hfc.
  unfold pp_init_ctx. apply total_bind. eapply new_total; [exact Hs|in_srq|..].
  { intros s1 E H1. apply total_ret. split; [|done]. intros [[Hn _] _]. by rewrite Hn in E. }
  intros p1 s1 Hp1 H1. destruct (Z.eqb_spec p1 0) as [->|_]; [lia|].
  set (c1 := new_context p1 sz depth). change (hwst s0 s1 (stack_ctx c1)) in H1. cbv zeta.
  eapply new_step; [exact Hfc|exact H1|in_srq| |].
  { intros s2. apply (clean_ctx_destroys c1). }
  intros p2 s2 _ H2. set (c2 := set_contents _ _). change (hwst s0 s2 (stack_buf c2)) in H2.
  eapply new_step; [exact Hfc|exact H2|in_srq| |].
  { intros s3. apply (clean_buffer_destroys c2). }
  intros p3 s3 _ H3. set (c3 := set_context p3 c2). change (hwst s0 s3 (stack_device c3)) in H3.
  apply total_bind. eapply total_mono; [eapply init_odp_total; [exact H3|by left]|].
  intros [|] s4 [H4 Hok]; cbn [negb].
  2:{ eapply fail_step; [exact H4|apply clean_device_destroys|]. by apply Hok. }
  eapply (channel_step s0 _ _ Hfc c3); [exact H4| |].
  { intros s5. apply (clean_device_destroys c3). }
  intros p5 s5 H5 Hp5. set (c5 := set_channel p5 c3). change (hwst s0 s5 (stack_channel c5)) in H5.
  eapply new_step; [exact Hfc|exact H5|in_srq| |].
  { intros s6. apply (clean_channel_destroys c5). }
  intros p6 s6 _ H6. set (c6 := set_pd p6 c5). change (hwst s0 s6 (stack_pd c6)) in H6.
  by apply srq_init_queues_total.
Qed.
End life.

(** ** Tearing down *)

Section teardown.
Context (s0 : hw) (Q : Z → hw → Prop) (HQ : ∀ s', ¬ never_refuses (h_world s0) → Q 1 s').

(** The queue pair made first lies deepest: those above it do not need it. *)
Lemma close_qps_total R S c srq l (k : M hw Z) s :
  memory_only R → hwst s0 s (R ++ (qp_entry c srq <$> rev l) ++ S) →
  (∀ s', hwst s0 s' (R ++ S) → total k s' Q) → total (close_qps l k) s Q.
Proof using HQ.
  intros HR Hs Hk. revert s Hs. induction l as [|q l IH]; intros s Hs; cbn [close_qps].
  { by apply Hk. }
  cbn [rev] in Hs. rewrite fmap_app, <-(assoc_L app) in Hs. cbn [fmap list_fmap app] in Hs.
  rewrite (assoc_L app) in Hs. eapply (close_one s0 Q HQ); [exact Hs| |].
  - apply Forall_app. split; [by apply memory_only_free|]. apply Forall_forall.
    intros e (q' & -> & _)%list_elem_of_fmap. cbn [qp_entry snd].
    rewrite !not_elem_of_cons. split_and!; [done..|apply not_elem_of_nil].
  - intros s' H'. apply IH. by rewrite (assoc_L app).
Qed.

Lemma srq_close_total R U c x s :
  memory_only R → hwst s0 s (R ++ srq_stack c x ++ U) →
  (∀ s', hwst s0 s' (R ++ U) → Q 0 s') → total (pp_close_ctx c x) s Q.
Proof using HQ.
  intros HR Hs H0. pose proof (λ o, memory_only_free o _ HR) as HF. unfold pp_close_ctx.
  unfold srq_stack in Hs. rewrite <-(assoc_L app) in Hs.
  eapply close_qps_total; [exact HR|exact Hs|]. clear s Hs. intros s Hs.
  eapply (close_one s0 Q HQ R); [exact Hs|apply HF|]. clear s Hs. intros s Hs.
  eapply (close_one s0 Q HQ R); [exact Hs|apply HF|]. clear s Hs. intros s Hs.
  eapply (close_one s0 Q HQ R); [exact Hs|apply HF|]. clear s Hs. intros s Hs.
  eapply (close_one s0 Q HQ R); [exact Hs|apply HF|]. clear s Hs. intros s Hs.
  cbv zeta. change (hwst s0 s (R ++ (opt_entry KChannel (channel c) [(KContext, context c)] ++
    stack_device c) ++ U)) in Hs.
  rewrite <-(assoc_L app (opt_entry _ _ _)) in Hs.
  eapply (close_channel s0 Q HQ R); [exact Hs|apply HF|]. clear s Hs. intros s Hs.
  by eapply (close_device s0 Q HQ R).
Qed.
End teardown.

(** ** Calls that leave the objects alone *)

Lemma read_all_msg_keeps fd : preserves keeps (read_all_msg fd).
Proof. unfold read_all_msg. keep. Qed.
#[export] Hint Resolve read_all_msg_keeps : preserves.
Lemma read_dests_keeps fd k buf : preserves keeps (read_dests fd k buf).
Proof. revert buf. induction k as [|k IH]; intros buf; cbn [read_dests]; keep. Qed.
Lemma write_dests_keeps fd l : preserves keeps (write_dests fd l).
Proof. induction l as [|d l IH]; cbn [write_dests]; keep. Qed.
Lemma connect_loop_keeps port mtu sl g g0 l my d :
  preserves keeps (connect_loop port mtu sl g g0 l my d).
Proof. revert my d. induction l as [|q l IH]; intros my d; cbn [connect_loop]; keep. Qed.
#[export] Hint Resolve read_dests_keeps write_dests_keeps connect_loop_keeps : preserves.
Lemma srq_connect_keeps x port mtu sl my d g : preserves keeps (pp_connect_ctx x port mtu sl my d g).
Proof. unfold pp_connect_ctx. keep. Qed.
#[export] Hint Resolve srq_connect_keeps : preserves.
Lemma srq_post_recv_keeps c x n : preserves keeps (pp_post_recv c x n).
Proof.
  unfold pp_post_recv. apply preserves_bind; [exact _|keep|]. intros s. apply post_recvs_keeps. keep.
Qed.
Lemma srq_post_send_keeps c x i : preserves keeps (pp_post_send c x i).
Proof. unfold pp_post_send. keep. Qed.
Lemma local_loop_keeps o c rand i l : preserves keeps (local_loop o c rand i l).
Proof. revert i. induction l as [|q l IH]; intros i; cbn [local_loop]; keep. Qed.
#[export] Hint Resolve srq_post_recv_keeps srq_post_send_keeps local_loop_keeps : preserves.
Lemma local_dests_keeps o c x rand : preserves keeps (local_dests o c x rand).
Proof. unfold local_dests. keep. Qed.
Lemma send_loop_keeps c k i x : preserves keeps (send_loop c k i x).
Proof. revert i x. induction k as [|k IH]; intros i x; cbn [send_loop]; keep. Qed.
#[export] Hint Resolve local_dests_keeps send_loop_keeps : preserves.
Lemma first_sends_keeps o page c x : preserves keeps (first_sends o page c x).
Proof. unfold first_sends. keep. Qed.

(** The loop. *)
Definition srq_keeps (s s' : srq_state) : Prop := loop_keeps (sq_run s) (sq_run s').

#[global] Instance srq_keeps_refl : Reflexive srq_keeps.
Proof. intros s. unfold srq_keeps. done. Qed.
#[global] Instance srq_keeps_trans : Transitive srq_keeps.
Proof. intros s1 s2 s3 H1 H2. unfold srq_keeps in *. by etrans. Qed.

Lemma run_keeps {A} (m : M rc_state A) : preserves loop_keeps m → preserves srq_keeps (run m).
Proof. intros H. unfold run. eapply preserves_zoom_rel; [exact H|]. by intros s t Ht. Qed.

Ltac keep_run := repeat first
  [ apply run_keeps; solve [keep_loop] | preserve_step; cbv beta iota
  | apply preserves_modify; intros ?; apply keeps_refl ].

Lemma srq_received_keeps : preserves srq_keeps srq_received.
Proof. unfold srq_received. keep_run. Qed.
#[export] Hint Resolve srq_received_keeps : preserves.
Lemma srq_treat_wc_keeps iters w : preserves srq_keeps (srq_treat_wc iters w).
Proof. unfold srq_treat_wc. keep_run. Qed.
#[export] Hint Resolve srq_treat_wc_keeps : preserves.
Lemma srq_treat_all_keeps iters l : preserves srq_keeps (srq_treat_all iters l).
Proof. induction l as [|w l IH]; cbn [srq_treat_all]; keep_run. Qed.
#[export] Hint Resolve srq_treat_all_keeps : preserves.
Lemma srq_round_keeps iters n ev : preserves srq_keeps (srq_round iters n ev).
Proof. unfold srq_round. keep_run. Qed.
#[export] Hint Resolve srq_round_keeps : preserves.
Lemma srq_loop_keeps fuel iters n ev : preserves srq_keeps (srq_loop fuel iters n ev).
Proof. induction fuel as [|fuel IH]; cbn [srq_loop]; keep_run. Qed.

Lemma srq_run_loop_keeps o c x r : preserves keeps (run_loop o c x r).
Proof.
  intros s. unfold run_loop. cbv zeta.
  pose proof (srq_loop_keeps (loop_fuel s) (o_iters (so_opts o))
    (wrap_s 32 (so_num_qp o + o_rx_depth (so_opts o))) (o_use_event (so_opts o) <>z 0)
    (SrqState (RcState s c 0 0 r ts_start 0) x)) as H.
  by destruct (srq_loop _ _ _ _ _) as [[] ?].
Qed.

(** Leaving the loop early is never a success. *)
Lemma srq_treat_wc_rc iters w s : returns (srq_treat_wc iters w) s (λ r _, r ≠ Some 0).
Proof.
  unfold srq_treat_wc. destruct (_ <>z _); [by apply returns_ret|].
  apply returns_bind. intros ? s1 _. destruct (find_qp _ _ _) as [i|]; [|by apply returns_ret].
  cbv zeta. apply returns_bind. intros ok s2 _. destruct (negb ok); [by apply returns_ret|].
  apply returns_bind. intros ? s3 _. apply returns_bind. intros b s4 _.
  apply returns_bind. intros ? s5 _. destruct (_ && _); [|by apply returns_ret].
  apply returns_bind. intros r s6 _. destruct (r <>z 0); [by apply returns_ret|].
  apply returns_bind. intros ? s7 _. by apply returns_ret.
Qed.

Lemma srq_treat_all_rc iters l s : returns (srq_treat_all iters l) s (λ r _, r ≠ Some 0).
Proof.
  revert s. induction l as [|w l IH]; intros s; cbn [srq_treat_all]; [by apply returns_ret|].
  apply returns_bind. eapply returns_mono; [apply srq_treat_wc_rc|].
  intros [rc|] s1 Hr; [by apply returns_ret|apply IH].
Qed.

Lemma run_wait_rc ev s : returns (run (wait_event ev)) s (λ r _, r ≠ Some 0).
Proof.
  intros r s' E. unfold run, zoom in E. pose proof (wait_event_rc ev (lget s)) as H.
  destruct (wait_event ev (lget s)) as [o t] eqn:Ew. injection E as -> <-. exact (H _ _ Ew).
Qed.

Lemma srq_loop_rc fuel iters n ev s : returns (srq_loop fuel iters n ev) s (λ r _, r ≠ Some 0).
Proof.
  revert s. induction fuel as [|fuel IH]; intros s; cbn [srq_loop]; [by intros ? ?|].
  apply returns_bind. intros s1 s2 _. destruct (_ || _); [|by apply returns_ret].
  apply returns_bind. unfold srq_round. apply returns_bind.
  eapply returns_mono; [apply run_wait_rc|]. intros [rc|] s3 Hr.
  { apply returns_ret. by apply returns_ret. }
  apply returns_bind. intros s4 s5 _. apply returns_bind.
  intros [z|l] s6 _; [apply returns_ret; by apply returns_ret|].
  eapply returns_mono; [apply srq_treat_all_rc|].
  intros [rc|] s7 Hr'; [by apply returns_ret|apply IH].
Qed.

Lemma srq_run_loop_rc o c x r s : returns (run_loop o c x r) s (λ r _, r.1 ≠ Some 0).
Proof.
  intros [r' st] s' E. unfold run_loop in E. cbv zeta in E.
  pose proof (srq_loop_rc (loop_fuel s) (o_iters (so_opts o))
    (wrap_s 32 (so_num_qp o + o_rx_depth (so_opts o))) (o_use_event (so_opts o) <>z 0)
    (SrqState (RcState s c 0 0 r ts_start 0) x)) as H.
  destruct (srq_loop _ _ _ _ _) as [[r0|z|f|] st'] eqn:Em; [|done..].
  injection E as <- <- <-. exact (H _ _ Em).
Qed.

(** ** A whole run gives everything back *)

(** What an exchange leaves. *)
Definition dests_post (s0 : hw) (S : list (obj * list obj)) (r : option remotes) (s' : hw) : Prop :=
  match r with Some (p, _) => hwst s0 s' ((rem_obj p, []) :: S) | None => True end.

Lemma dests_close s0 S fd r s :
  dests_post s0 S r s → returns (sys (shutdown_close fd);; mret r) s (dests_post s0 S).
Proof.
  intros H. apply returns_bind. intros [] s' E. apply returns_ret.
  pose proof (sys_keeps (shutdown_close fd) s) as Hk. rewrite E in Hk.
  destruct r as [[p d]|]; simpl in *; [|done]. by eapply hwst_keeps.
Qed.

Lemma dests_client s0 s S h port my :
  hwst s0 s S → returns (pp_client_exch_dest h port my) s (dests_post s0 S).
Proof.
  intros Hs. unfold pp_client_exch_dest. apply returns_bind.
  eapply returns_mono; [by eapply open_socket_returns|]. intros fd s1 H1.
  destruct (fd <? 0); [by apply returns_ret|].
  eapply returns_keeps; [keep|exact H1|]. intros ok s2 H2. apply returns_bind.
  eapply returns_mono; [|intros r s' H; by apply dests_close]. cbv beta.
  destruct (negb ok); [by apply returns_ret|].
  eapply returns_total; [by apply (new_hwst s0 s2 S)|].
  intros p s3 [[-> H3]|[Hp H3]]; [by apply returns_ret|]. destruct (Z.eqb_spec p 0); [done|].
  eapply returns_keeps; [keep|exact H3|]. intros [l ok'] s4 H4.
  eapply returns_keeps; [destruct ok'; keep|exact H4|]. intros ? s5 H5. by apply returns_ret.
Qed.

Lemma dests_server s0 s S x ib_port mtu port sl my g :
  hwst s0 s S → returns (pp_server_exch_dest x ib_port mtu port sl my g) s (dests_post s0 S).
Proof.
  intros Hs. unfold pp_server_exch_dest. apply returns_bind.
  eapply returns_mono; [by eapply open_socket_returns|]. intros fd s1 H1.
  destruct (fd <? 0); [by apply returns_ret|].
  eapply returns_keeps; [keep|exact H1|]. intros cfd s2 H2.
  eapply returns_keeps; [keep|exact H2|]. intros ? s3 H3.
  destruct cfd as [cfd|]; [|by apply returns_ret].
  eapply returns_total; [by apply (new_hwst s0 s3 S)|]. intros p s4 H4. apply returns_bind.
  eapply returns_mono; [|intros r s' H; by apply dests_close]. cbv beta.
  destruct H4 as [[-> H4]|[Hp H4]]; [by apply returns_ret|]. destruct (Z.eqb_spec p 0); [done|].
  eapply returns_keeps; [keep|exact H4|]. intros [l ok] s5 H5.
  destruct ok; cbn [negb]; [|by apply returns_ret].
  eapply returns_keeps; [keep|exact H5|]. intros e s6 H6.
  destruct (e <>z 0).
  { apply returns_bind. intros ? s7 _. by apply returns_ret. }
  eapply returns_keeps; [keep|exact H6|]. intros ok s7 H7.
  eapply returns_keeps; [keep|exact H7|]. intros [m|] s8 H8; [by apply returns_ret|].
  apply returns_bind. intros ? s9 _. by apply returns_ret.
Qed.

Lemma exch_dests_returns s0 s S o x my :
  hwst s0 s S → returns (exch_dests o x my) s (dests_post s0 S).
Proof.
  intros Hs. unfold exch_dests. destruct (o_servername o) as [h|]; [|by apply dests_server].
  apply returns_bind. eapply returns_mono; [by apply dests_client|].
  intros [[p l]|] s1 H1; [|by apply returns_ret]. simpl in H1.
  eapply returns_keeps; [keep|exact H1|]. intros e s2 H2. apply returns_ret. by destruct (e <>z 0).
Qed.

(** The sizes of a run for which the completion queue's size is an [int]. *)
Definition srq_sizes_ok (o : srq_opts) : Prop :=
  int_min ≤ wrap_s 32 (o_rx_depth (so_opts o)) + so_num_qp o ≤ int_max.

Lemma srq_setup_returns s0 s S o ib_dev rand :
  hwst s0 s S → srq_sizes_ok o →
  returns (setup o ib_dev rand) s (λ r s',
    match r with
    | Some (c, x, p, _) => hwst s0 s' ((rem_obj p, []) :: srq_stack c x ++ S)
    | None => True
    end).
Proof.
  intros Hs Hsz. unfold setup. eapply returns_total.
  { apply srq_init_ctx_total; [exact (hs_stack _ _ _ Hs)|exact Hsz]. }
  intros [[c x]|] s1 H1; [|by apply returns_ret]. destruct H1 as [H1 _].
  pose proof (hwst_trans _ _ _ _ _ Hs H1) as H1'. cbn [fst snd] in H1'.
  eapply returns_keeps; [keep|exact H1'|]. intros routs s2 H2.
  destruct (routs <? rx_depth c); [by apply returns_ret|].
  eapply returns_keeps; [keep|exact H2|]. intros r s3 H3.
  destruct (r <>z 0); [by apply returns_ret|].
  eapply returns_keeps; [keep|exact H3|]. intros [my|] s4 H4; [|by apply returns_ret].
  apply returns_bind. eapply returns_mono; [by apply exch_dests_returns|].
  intros [[p l]|] s5 H5; by apply returns_ret.
Qed.

Lemma send_loop_same c k i x s :
  returns (send_loop c k i x) s (λ r _,
    match r with Some x' => srq x' = srq x ∧ qps x' = qps x | None => True end).
Proof.
  revert i x s. induction k as [|k IH]; intros i x s; cbn [send_loop]; [by apply returns_ret|].
  apply returns_bind. intros r s1 _. destruct (r <>z 0); [by apply returns_ret|].
  eapply returns_mono; [apply IH|]. by intros [x'|] s2 H.
Qed.

Lemma wait_loop_same k i x : srq (wait_loop k i x) = srq x ∧ qps (wait_loop k i x) = qps x.
Proof.
  revert i x. induction k as [|k IH]; intros i x; cbn [wait_loop]; [done|].
  destruct (IH (S i) (set_pending_at i PINGPONG_RECV_WRID x)) as [-> ->]. done.
Qed.

Lemma first_sends_stack o page c x s :
  returns (first_sends o page c x) s (λ r _,
    match r with Some (c', x') => srq_stack c' x' = srq_stack c x | None => True end).
Proof.
  unfold first_sends. destruct (o_servername o) as [h|].
  - apply returns_bind. eapply returns_mono; [apply send_loop_same|].
    intros [x'|] s1 H; apply returns_ret; [|done]. cbn. destruct H as [E1 E2].
    unfold srq_stack. rewrite E1, E2. by destruct (validate_buf _).
  - apply returns_ret. destruct (wait_loop_same (Z.to_nat (num_qp x)) 0 x) as [E1 E2].
    unfold srq_stack. by rewrite E1, E2.
Qed.

Lemma srq_main_returns e rand s :
  stacked (Z.of_nat (h_time s)) (h_live s) →
  (∀ o, srq_options (e_args e) (e_rest e) = Some o → srq_sizes_ok o) →
  returns (main e rand) s (λ r s', r.1 = 0 → hwst s s' []).
Proof.
  intros Hst Hsz. pose proof (hwst_refl s Hst) as Hs. unfold main.
  destruct (srq_options _ _) as [o|]; [|by apply returns_ret]. specialize (Hsz o eq_refl).
  destruct (e_devs e) as [devs|]; [|by apply returns_ret].
  eapply returns_total; [by apply make_hwst|]. intros dl s1 H1.
  destruct (pick_device _ _) as [d|]; [|by apply returns_ret].
  apply returns_bind. eapply returns_mono; [eapply srq_setup_returns; [exact H1|exact Hsz]|].
  intros [[[[c x] rem] routs]|] s2 H2; [|by apply returns_ret].
  apply returns_bind. intros r s3 E3.
  pose proof (first_sends_keeps (so_opts o) (e_page_size e) c x s2) as Hk. rewrite E3 in Hk.
  destruct r as [[c' x']|]; [|by apply returns_ret].
  pose proof (first_sends_stack _ _ _ _ _ _ _ E3) as Hstk. cbv beta iota in Hstk.
  pose proof (hwst_keeps _ _ _ _ H2 Hk) as H3. rewrite <-Hstk in H3. unfold measure.
  eapply (finish_run_returns _ _ _ _ _ _ _ s s3 _ H3).
  - apply srq_run_loop_keeps.
  - intros s4. apply srq_run_loop_rc.
  - intros s4 H4 r s5 E.
    pose proof (srq_close_total s (λ r s', r = 0 → hwst s s' [(rem_obj rem, []); ((KDevList, dl), [])])
      ltac:(discriminate) [(rem_obj rem, [])] [((KDevList, dl), [])] c' x' s4
      ltac:(by apply Forall_singleton) H4 (λ s' H _, H)) as Ht.
    unfold total in Ht. rewrite E in Ht. exact Ht.
Qed.

(** Setting up the shared receive queue and [num_qp] queue pairs either
    gives a context with exactly [num_qp] queue pairs, whose objects are all
    those made, or gives everything back, in whichever step it fails, the loop
    over the queue pairs included; it does not fail when every object can be
    made, every call succeeds and the device supports the paging asked for. *)
Theorem srq_init_spec (odp : bool) (ib_dev sz nq depth port : Z) (ev : bool) (s : hw)
    (Hst : stacked (Z.of_nat (h_time s)) (h_live s)) (Hd : int_min ≤ depth + nq ≤ int_max) :
  ∃ r s', pp_init_ctx odp ib_dev sz nq depth port ev s = (Done r, s') ∧
    match r with
    | Some (c, x) => h_live s' = srq_stack c x ++ h_live s ∧ ctx_for sz depth ev c ∧
                     length (qps x) = Z.to_nat nq ∧ num_qp x = nq ∧
                     pendings x = replicate (Z.to_nat MAX_QP) 0
    | None => (never_refuses (h_world s) → h_live s' = h_live s) ∧ ¬ srq_fine s odp
    end.
Proof.
  destruct (total_done _ _ _ (srq_init_ctx_total s odp sz nq depth ev ib_dev port Hst Hd))
    as (r & s' & E & H). exists r, s'. split; [done|]. destruct r as [[c x]|].
  - destruct H as (H & Hc & Hn & Hl & Hp). split; [apply H|done].
  - destruct H as [H1 H2]. split; [|done]. intros Hr. apply (hs_live _ _ _ (H2 Hr)).
Qed.

(** A run of the shared-receive-queue program that returns 0 has given
    back every object it made, all its queue pairs included, whatever the
    device, the peer and the allocator answered. *)
Theorem srq_gives_back (e : run_env) (rand : nat → Z) (s s' : hw) (pages : list Z)
    (Hst : stacked (Z.of_nat (h_time s)) (h_live s))
    (Hsz : ∀ o, srq_options (e_args e) (e_rest e) = Some o → srq_sizes_ok o)
    (Hrun : main e rand s = (Done (0, pages), s')) :
  h_live s' = h_live s.
Proof. exact (hs_live _ _ _ (srq_main_returns e rand s Hst Hsz _ _ Hrun eq_refl)). Qed.

(** ** Concrete runs *)

Lemma srq_init_spec_witness :
  ∃ r s', pp_init_ctx true 1 64 3 5 1 true demo_hw = (Done r, s') ∧
    match r with
    | Some (c, x) => h_live s' = srq_stack c x ++ h_live demo_hw ∧ ctx_for 64 5 true c ∧
                     length (qps x) = Z.to_nat 3 ∧ num_qp x = 3 ∧
                     pendings x = replicate (Z.to_nat MAX_QP) 0
    | None => (never_refuses (h_world demo_hw) → h_live s' = h_live demo_hw) ∧
              ¬ srq_fine demo_hw true
    end.
Proof. apply (srq_init_spec true 1 64 3 5 1 true demo_hw); [exact I|vm_compute; split; discriminate]. Defined.

(** A server with two queue pairs, whose numbers are 209 and 211; the second
    half of the buffer is wrong. *)
Definition demo_srq_hw : hw :=
  Hw (World (λ _, true) (λ _, 0) (λ _, 0) demo_device 0 [Address 3 true (Conn [] [] [])])
    (OS ∅ ∅ (Net [] []
       [AccOk 5 (Conn [InData (concat (replicate (Z.to_nat MAX_QP) (dest_bytes demo_dest)) ++ done_msg)]
                   [] [])] 1 [] true))
    0 [] [] []
    [PollWcs [Wc 1 0 0 209; Wc 2 0 0 209]; PollWcs []; PollWcs [Wc 1 0 0 211; Wc 2 0 0 211]] [].
Definition demo_srq_run : run_env :=
  RunEnv [("q"%char, L "2"); ("n"%char, L "2"); ("r"%char, L "3"); ("s"%char, L "8"); ("c"%char, [])] []
    (Some [(L "mlx5_0", 1)]) 4 0 [0; 0; 0; 0; 7; 0; 0; 0].

Lemma srq_gives_back_witness :
  h_live (main demo_srq_run (λ n, 7 + Z.of_nat n) demo_srq_hw).2 = h_live demo_srq_hw.
Proof.
  apply (srq_gives_back demo_srq_run (λ n, 7 + Z.of_nat n) demo_srq_hw _ [1]).
  - exact I.
  - intros o Ho. vm_compute in Ho. injection Ho as <-. vm_compute. split; discriminate.
  - vm_compute. reflexivity.
Defined.
