(* ===== verification/SrqProto.v ===== *)
(** * The pingpong over shared receive queues, between two ends

    Two processes of srq_pingpong.c after their set-up, their queue pairs
    connected index by index.  A step is the treatment of one completion by
    [srq_treat_wc], of a send that was posted on a queue pair or of a message
    the peer's queue pair of the same index has sent, for which the shared
    queue holds a receive.  The completions of an end come in any order.  The
    code counts over all queue pairs; the counts of each one are kept beside
    its state. *)

From Stdlib Require Import ZifyBool.
From S2P Require Import Prelude CLib OS Gid Verbs Exch Keeps RcPingpong RcLife RcProto RcMain.
From S2P Require Import Setup Plain UcPingpong SrqPingpong SrqLife.

Local Open Scope Z_scope.

(** ** Sums *)

Definition zsum (l : list Z) : Z := foldr Z.add 0 l.

Lemma zsum_insert l i x y : l !! i = Some x → zsum (<[i := y]> l) = zsum l - x + y.
Proof.
  revert i. induction l as [|z l IH]; intros [|i]; simpl; [done..| |].
  - intros [= ->]. lia.
  - intros H. rewrite IH by done. lia.
Qed.

Lemma zsum_le l l' c :
  Forall2 (λ x y, x ≤ y + c) l l' → zsum l ≤ zsum l' + c * Z.of_nat (length l').
Proof. induction 1 as [|x y l l' H _ IH]; simpl; lia. Qed.

Lemma zsum_nonneg l : Forall (λ x, 0 ≤ x) l → 0 ≤ zsum l.
Proof. induction 1; simpl; lia. Qed.

(** ** Counting the work posted *)

Definition is_send_on (q : Z) (c : hwcall) : Prop :=
  match c with PostSend q' _ _ _ => q' = q | _ => False end.
Definition is_srq_recv (c : hwcall) : Prop :=
  match c with PostSrqRecv _ _ _ => True | _ => False end.

#[global] Instance is_send_on_dec q c : Decision (is_send_on q c).
Proof. unfold is_send_on. destruct c; apply _. Defined.
#[global] Instance is_srq_recv_dec c : Decision (is_srq_recv c).
Proof. unfold is_srq_recv. destruct c; apply _. Defined.

Definition sends_on (s : hw) (q : Z) : Z := Z.of_nat (length (filter (is_send_on q) (h_calls s))).
Definition srq_recvs (s : hw) : Z := Z.of_nat (length (filter is_srq_recv (h_calls s))).

Lemma calls_logged s s' l :
  h_calls s' = h_calls s ++ l →
  (∀ q, sends_on s' q = sends_on s q + Z.of_nat (length (filter (is_send_on q) l))) ∧
  srq_recvs s' = srq_recvs s + Z.of_nat (length (filter is_srq_recv l)).
Proof. intros E. unfold sends_on, srq_recvs. rewrite E. split; intros; rewrite filter_app, length_app; lia. Qed.

Lemma filter_srq_recvs k srq w e :
  let l := replicate k (PostSrqRecv srq w e) in
  (∀ q, filter (is_send_on q) l = []) ∧ filter is_srq_recv l = l.
Proof.
  induction k as [|k [IH1 IH2]]; [done|]. cbn [replicate]. split.
  - intros q. rewrite filter_cons_False by (simpl; tauto). apply IH1.
  - rewrite filter_cons_True by (simpl; tauto). by rewrite IH2.
Qed.

(** ** Steps *)

(** An end with, for each queue pair, the sends completed and the messages
    received. *)
Record node := Node { nd : srq_state; counts : list (Z * Z) }.

Definition hw_of (a : srq_state) : hw := rc_hw (sq_run a).
Definition qp_sends (a : srq_state) : list Z := sends_on (hw_of a) <$> qps (sq_part a).

(** This end treats a completion of its queue pair [q], and goes on. *)
Definition handles (iters wr_id q : Z) (a a' : srq_state) : Prop :=
  ∃ t, srq_treat_wc iters (Wc wr_id IBV_WC_SUCCESS t (qp_num (h_dev (h_world (hw_of a))) q)) a
       = (Done None, a').

(** [n] takes a step while the other end is [b]. *)
Inductive end_step (iters : Z) (b : node) : node → node → Prop :=
  | send_completes a a' cs i q s r :
      qps (sq_part a) !! i = Some q → cs !! i = Some (s, r) → s < sends_on (hw_of a) q →
      handles iters PINGPONG_SEND_WRID q a a' →
      end_step iters b (Node a cs) (Node a' (<[i := (s + 1, r)]> cs))
  | message_arrives a a' cs i q s r m :
      qps (sq_part a) !! i = Some q → cs !! i = Some (s, r) →
      qp_sends (nd b) !! i = Some m → r < m →
      rcnt (sq_run a) < srq_recvs (hw_of a) →
      handles iters PINGPONG_RECV_WRID q a a' →
      end_step iters b (Node a cs) (Node a' (<[i := (s, r + 1)]> cs)).

Abbreviation both := (node * node)%type.

Inductive step (iters : Z) : both → both → Prop :=
  | client_step c c' v : end_step iters v c c' → step iters (c, v) (c', v)
  | server_step c v v' : end_step iters c v v' → step iters (c, v) (c, v').

(** The condition of the loop of [main]. *)
Definition running (iters : Z) (n : node) : Prop :=
  rcnt (sq_run (nd n)) < iters ∨ scnt (sq_run (nd n)) < iters.

(** ** The invariant of one end

    [ahead] is 0 for the client, which has to send first, and 1 for the
    server. *)
Definition bits (ahead n s r : Z) : Z :=
  (if r <? n + ahead then PINGPONG_RECV_WRID else 0) + (if s <? n then PINGPONG_SEND_WRID else 0).

(** What the hardware must allow, and what never changes. *)
Record can_work (k depth : Z) (a : srq_state) : Prop := {
  cw_accepts : accepts (hw_of a);
  cw_srq : is_live (KSrq, srq (sq_part a)) (h_live (hw_of a)) = true;
  cw_mr : is_live (KMr, mr (ctx (sq_run a))) (h_live (hw_of a)) = true;
  cw_qps : Forall (λ q, is_live (KQp, q) (h_live (hw_of a)) = true) (qps (sq_part a));
  cw_nums : NoDup (qp_num (h_dev (h_world (hw_of a))) <$> qps (sq_part a));
  cw_range : Forall (λ q, 0 ≤ qp_num (h_dev (h_world (hw_of a))) q < 2 ^ 32) (qps (sq_part a));
  cw_num_qp : num_qp (sq_part a) = k;
  cw_len : Z.of_nat (length (qps (sq_part a))) = k;
  cw_depth : rx_depth (ctx (sq_run a)) = depth }.

(** The counts of one queue pair. *)
Definition counts_ok (ahead : Z) (n : Z) (p : Z * Z) : Prop :=
  0 ≤ p.1 ≤ n ∧ n ≤ p.1 + 1 ∧ 0 ≤ p.2 ∧ n + ahead - 1 ≤ p.2 ≤ n + ahead.

Record core (ahead iters k depth : Z) (a : srq_state) (cs : list (Z * Z)) : Prop := {
  co_work : can_work k depth a;
  co_counts : Forall2 (counts_ok ahead) (qp_sends a) cs;
  co_scnt : scnt (sq_run a) = zsum cs.*1;
  co_rcnt : rcnt (sq_run a) = zsum cs.*2;
  co_sends : zsum (qp_sends a) ≤ iters - 1 + k;
  co_routs : routs (sq_run a) = srq_recvs (hw_of a) - rcnt (sq_run a);
  co_window : k ≤ routs (sq_run a) ≤ depth }.

(** The pending bits of queue pair [i]. *)
Definition pending_ok (ahead iters : Z) (a : srq_state) (cs : list (Z * Z)) (i : nat) : Prop :=
  ∀ n s r, qp_sends a !! i = Some n → cs !! i = Some (s, r) →
    pendings (sq_part a) !! i = Some (bits ahead n s r) ∧
    (bits ahead n s r = 0 → iters ≤ scnt (sq_run a)).

Record node_inv (ahead iters k depth : Z) (n : node) : Prop := {
  nv_core : core ahead iters k depth (nd n) (counts n);
  nv_pending : ∀ i, pending_ok ahead iters (nd n) (counts n) i }.

(** ** Posting *)

Lemma srq_post_recv_accepted k depth a n :
  can_work k depth a → 0 ≤ n →
  ∃ s', pp_post_recv (ctx (sq_run a)) (sq_part a) n (hw_of a) = (Done n, s') ∧
    h_world s' = h_world (hw_of a) ∧ h_live s' = h_live (hw_of a) ∧
    (∀ q, sends_on s' q = sends_on (hw_of a) q) ∧ srq_recvs s' = srq_recvs (hw_of a) + n.
Proof.
  intros [Ha Hs Hm _ _ _ _ _ _] Hn. unfold pp_post_recv. erewrite bind_done by reflexivity.
  rewrite post_recvs_accepted by first [exact Ha | simpl; by rewrite Hs, Hm].
  set (cl := PostSrqRecv _ _ _).
  destruct (iter_logged cl (Z.to_nat n) (hw_of a)) as (E1 & E2 & E3 & E4).
  eexists. split; [by rewrite Z.add_0_l, Z2Nat.id|]. split; [done|]. split; [done|].
  destruct (calls_logged _ _ _ E4) as [H1 H2].
  destruct (filter_srq_recvs (Z.to_nat n) (srq (sq_part a)) PINGPONG_RECV_WRID (work_list (hw_of a) (ctx (sq_run a)))) as [F1 F2].
  split; [intros q; rewrite H1; unfold cl; rewrite F1; simpl; lia|]. rewrite H2. unfold cl. rewrite F2, length_replicate. lia.
Qed.

Lemma srq_post_send_accepted k depth a i q :
  can_work k depth a → qps (sq_part a) !! i = Some q →
  ∃ s', pp_post_send (ctx (sq_run a)) (sq_part a) i (hw_of a) = (Done 0, s') ∧
    h_world s' = h_world (hw_of a) ∧ h_live s' = h_live (hw_of a) ∧
    (∀ q', sends_on s' q' = sends_on (hw_of a) q' + if decide (q' = q) then 1 else 0) ∧
    srq_recvs s' = srq_recvs (hw_of a).
Proof.
  intros [Ha _ Hm Hq _ _ _ _ _] Hi. unfold pp_post_send. rewrite Hi.
  erewrite bind_done by reflexivity. erewrite bind_done by reflexivity.
  rewrite Forall_lookup in Hq. specialize (Hq _ _ Hi).
  rewrite call_accepted by first [exact Ha | simpl; by rewrite Hq, Hm].
  eexists. split; [done|]. split; [done|]. split; [done|]. set (cl := PostSend _ _ _ _).
  destruct (calls_logged (hw_of a) (logged cl (hw_of a)) [cl] eq_refl) as [H1 H2].
  split; [|rewrite H2; unfold cl; rewrite filter_cons_False by (simpl; tauto); simpl; lia].
  intros q'. rewrite H1. unfold cl. destruct (decide (q' = q)) as [->|Hne].
  - by rewrite filter_cons_True.
  - rewrite filter_cons_False by (simpl; congruence). done.
Qed.

Lemma find_qp_own k depth a i q :
  can_work k depth a → qps (sq_part a) !! i = Some q →
  find_qp (h_dev (h_world (hw_of a))) (qp_num (h_dev (h_world (hw_of a))) q) (sq_part a) = Some i.
Proof.
  intros [_ _ _ _ Hnd Hr _ _ _] Hi. unfold find_qp. set (f := qp_num _) in *.
  rewrite Forall_lookup in Hr. pose proof (Hr _ _ Hi) as Hq.
  rewrite wrap_u_of_s by done.
  assert (list_find (λ q0, f q0 = f q) (qps (sq_part a)) = Some (i, q)) as ->; [|done].
  apply list_find_Some. split_and!; [done|done|]. intros j q' Hj Hlt E.
  assert (j = i); [|lia]. eapply (NoDup_lookup _ _ _ _ Hnd).
  - rewrite list_lookup_fmap, Hj. done.
  - rewrite list_lookup_fmap, Hi. simpl. by f_equal.
Qed.

(** ** Facts of the counts *)

Ltac by_counts := unfold counts_ok, compose, flip in *; cbv beta in *; cbn [fst snd] in *; lia.

Lemma core_total ahead iters k depth a cs :
  core ahead iters k depth a cs → zsum (qp_sends a) ≤ zsum cs.*1 + k.
Proof.
  intros [Hw Hc _ _ _ _ _]. rewrite <-(cw_len _ _ _ Hw).
  replace (length (qps (sq_part a))) with (length cs.*1)
    by (rewrite length_fmap, <-(Forall2_length _ _ _ Hc); apply length_fmap).
  rewrite <-(Z.mul_1_l (Z.of_nat _)). apply zsum_le. apply Forall2_fmap_r.
  eapply Forall2_impl; [exact Hc|]. intros n [s r] H. by_counts.
Qed.

Lemma core_scnt ahead iters k depth a cs :
  core ahead iters k depth a cs → 0 ≤ scnt (sq_run a) ≤ zsum (qp_sends a).
Proof.
  intros [Hw Hc E _ _ _ _]. rewrite E. split.
  - apply zsum_nonneg. apply Forall_fmap. eapply Forall2_Forall_r; [exact Hc|].
    apply Forall_forall. intros n _ [s r] H. by_counts.
  - rewrite <-(Z.add_0_r (zsum (qp_sends a))), <-(Z.mul_0_l (Z.of_nat (length (qp_sends a)))).
    apply zsum_le. clear -Hc. induction Hc as [|n [s r] l l' H _ IH]; constructor; [by_counts|done].
Qed.

Lemma core_rcnt ahead iters k depth a cs : core ahead iters k depth a cs → 0 ≤ rcnt (sq_run a).
Proof.
  intros [Hw Hc _ E _ _ _]. rewrite E.
  apply zsum_nonneg. apply Forall_fmap. eapply Forall2_Forall_r; [exact Hc|].
  apply Forall_forall. intros n _ [s r] H. by_counts.
Qed.

(** A client receives no more than it sends. *)
Lemma core_rcnt_le iters k depth a cs :
  core 0 iters k depth a cs → rcnt (sq_run a) ≤ zsum (qp_sends a).
Proof.
  intros [Hw Hc _ E _ _ _]. rewrite E.
  rewrite <-(Z.add_0_r (zsum (qp_sends a))), <-(Z.mul_0_l (Z.of_nat (length (qp_sends a)))).
  apply zsum_le. clear -Hc. induction Hc as [|n [s r] l l' H _ IH]; constructor; [by_counts|done].
Qed.

Lemma core_at ahead iters k depth a cs i n s r :
  core ahead iters k depth a cs → qp_sends a !! i = Some n → cs !! i = Some (s, r) →
  counts_ok ahead n (s, r).
Proof. intros [_ Hc _ _ _ _ _] Hn Hcs. by eapply Forall2_lookup_lr. Qed.

(** Posting on queue pair [i] adds one to its count. *)
Lemma qp_sends_post a a' i q n :
  NoDup (qps (sq_part a)) → qps (sq_part a') = qps (sq_part a) →
  qps (sq_part a) !! i = Some q → qp_sends a !! i = Some n →
  (∀ q', sends_on (hw_of a') q' = sends_on (hw_of a) q' + if decide (q' = q) then 1 else 0) →
  qp_sends a' = <[i := n + 1]> (qp_sends a).
Proof.
  intros Hnd Eq Hi Hn Hs. unfold qp_sends in *. rewrite Eq. apply list_eq. intros j.
  rewrite list_lookup_fmap. destruct (decide (j = i)) as [->|Hne].
  - rewrite list_lookup_insert_eq; [|by eapply lookup_lt_Some].
    rewrite Hi. rewrite list_lookup_fmap, Hi in Hn. injection Hn as <-. simpl.
    by rewrite Hs, decide_True.
  - rewrite list_lookup_insert_ne, list_lookup_fmap by done.
    destruct (qps (sq_part a) !! j) as [q'|] eqn:Hj; [|done]. simpl. rewrite Hs, decide_False, Z.add_0_r; [done|].
    intros ->. apply Hne. by eapply NoDup_lookup.
Qed.

Lemma qp_sends_same a a' :
  qps (sq_part a') = qps (sq_part a) → (∀ q, sends_on (hw_of a') q = sends_on (hw_of a) q) →
  qp_sends a' = qp_sends a.
Proof. intros E H. unfold qp_sends. rewrite E. apply list_fmap_ext. intros. apply H. Qed.

Lemma can_work_same k depth a a' :
  can_work k depth a → h_world (hw_of a') = h_world (hw_of a) →
  h_live (hw_of a') = h_live (hw_of a) → ctx (sq_run a') = ctx (sq_run a) →
  srq (sq_part a') = srq (sq_part a) → num_qp (sq_part a') = num_qp (sq_part a) →
  qps (sq_part a') = qps (sq_part a) → can_work k depth a'.
Proof.
  intros [] Ew El Ec Es En Eq. constructor; unfold accepts in *;
    rewrite ?Ew, ?El, ?Ec, ?Es, ?En, ?Eq; done.
Qed.

Lemma all_le_refl l : Forall2 Z.le l l.
Proof. induction l; constructor; [lia|done]. Qed.

Lemma wrap_u_int z : 0 ≤ z ≤ int_max → wrap_u 32 z = z.
Proof. unfold int_max. intros H. apply wrap_u_small. change (2 ^ 32) with (2 * 2 ^ 31). lia. Qed.

(** ** Treating a completion *)

Section node.
Context (ahead iters k depth : Z).
Context (Hiters : 1 ≤ iters) (Hk : 1 ≤ k) (Hmax : iters + k ≤ int_max) (Hahead : 0 ≤ ahead ≤ 1).

(** Both kinds of completion end the same way. *)
Definition srq_after (wr_id : Z) (i : nat) : M srq_state (option Z) :=
  s ← get;
  b ← or_fault OutOfBounds (pendings (sq_part s) !! i);
  let b := Z.land b (Z.lnot wr_id) in
  modify (set_sq_part (set_pending_at i b (sq_part s)));;
  if (wrap_u 32 (scnt (sq_run s)) <? iters) && (b =? 0) then
    r ← run (dev (pp_post_send (ctx (sq_run s)) (sq_part s) i));
    if r <>z 0 then mret (Some 1)
    else
      modify (λ s, set_sq_part (set_pending_at i
                     (Z.lor PINGPONG_RECV_WRID PINGPONG_SEND_WRID) (sq_part s)) s);;
      mret None
  else mret None.

(** Another message is posted: the counts stay in the bounds of the run. *)
Lemma core_post cs i n s r a a' :
  core ahead iters k depth a cs → qp_sends a !! i = Some n → cs !! i = Some (s, r) →
  n = s → r = n + ahead → zsum cs.*1 < iters →
  qp_sends a' = <[i := n + 1]> (qp_sends a) → can_work k depth a' →
  scnt (sq_run a') = scnt (sq_run a) → rcnt (sq_run a') = rcnt (sq_run a) →
  routs (sq_run a') = routs (sq_run a) → srq_recvs (hw_of a') = srq_recvs (hw_of a) →
  core ahead iters k depth a' cs.
Proof using Hk Hahead.
  intros [H1 H2 H3 H4 H5 H6 H7] Hn Hcs Hns Hra Hlt Esd Hw E1 E2 E3 E4.
  constructor; rewrite ?Esd, ?E1, ?E2, ?E3, ?E4; try done.
  - rewrite <-(list_insert_id cs i (s, r)) by done. apply Forall2_insert; [done|].
    unfold counts_ok in *. cbn [fst snd]. rewrite Forall2_lookup in H2.
    pose proof (H2 i) as Hat. rewrite Hn, Hcs in Hat. inversion Hat as [? ? Hc|]. unfold counts_ok in Hc.
    cbn [fst snd] in Hc. lia.
  - rewrite zsum_insert with (x := n) by done.
    enough (zsum (<[i := n + 1]> (qp_sends a)) ≤ zsum cs.*1 + k) as H.
    { rewrite zsum_insert with (x := n) in H by done. lia. }
    rewrite <-(cw_len _ _ _ H1).
    replace (length (qps (sq_part a))) with (length cs.*1)
      by (rewrite length_fmap, <-(Forall2_length _ _ _ H2); apply length_fmap).
    rewrite <-(Z.mul_1_l (Z.of_nat _)). apply zsum_le, Forall2_fmap_r.
    rewrite <-(list_insert_id cs i (s, r)) by done. apply Forall2_insert; [|simpl; lia].
    eapply Forall2_impl; [exact H2|]. intros x [y z] H. by_counts.
Qed.

Lemma srq_after_inv w i a cs b0 n s r :
  core ahead iters k depth a cs → (∀ j, j ≠ i → pending_ok ahead iters a cs j) →
  qp_sends a !! i = Some n → cs !! i = Some (s, r) → pendings (sq_part a) !! i = Some b0 →
  Z.land b0 (Z.lnot w) = bits ahead n s r →
  ∃ a', srq_after w i a = (Done None, a') ∧ node_inv ahead iters k depth (Node a' cs) ∧
    Forall2 Z.le (qp_sends a) (qp_sends a').
Proof using Hiters Hk Hmax Hahead.
  intros Hco Hpe Hn Hcs Hb0 Hland. unfold srq_after. erewrite bind_done by reflexivity.
  rewrite Hb0. erewrite bind_done by reflexivity. rewrite Hland. cbv zeta.
  erewrite bind_done by reflexivity.
  pose proof (core_scnt _ _ _ _ _ _ Hco) as Hsc. pose proof (co_sends _ _ _ _ _ _ Hco) as Hsn.
  rewrite wrap_u_int by lia. pose proof (core_at _ _ _ _ _ _ _ _ _ _ Hco Hn Hcs) as Hat.
  destruct ((scnt (sq_run a) <? iters) && (bits ahead n s r =? 0)) eqn:Epost.
  - destruct (qps (sq_part a) !! i) as [q|] eqn:Hq.
    2:{ unfold qp_sends in Hn. rewrite list_lookup_fmap, Hq in Hn. done. }
    set (a1 := set_sq_part (set_pending_at i (bits ahead n s r) (sq_part a)) a).
    destruct (srq_post_send_accepted k depth a i q (co_work _ _ _ _ _ _ Hco) Hq)
      as (hw' & E & Ew & El & Es & Er).
    erewrite bind_done.
    2:{ apply zoom_done. apply zoom_done. exact E. }
    change (0 <>z 0) with false. cbv iota. erewrite bind_done by reflexivity.
    eexists. split; [reflexivity|]. set (a' := set_sq_part _ _).
    assert (NoDup (qps (sq_part a))) as Hnd.
    { eapply NoDup_fmap_1. exact (cw_nums _ _ _ (co_work _ _ _ _ _ _ Hco)). }
    assert (qp_sends a' = <[i := n + 1]> (qp_sends a)) as Esd by (eapply qp_sends_post; eauto).
    assert (n = s ∧ r = n + ahead) as [Hns Hra].
    { unfold bits, PINGPONG_RECV_WRID, PINGPONG_SEND_WRID, counts_ok in *. cbn [fst snd] in Hat.
      destruct (Z.ltb_spec r (n + ahead)), (Z.ltb_spec s n); lia. }
    assert (core ahead iters k depth a' cs) as Hco'.
    { apply (core_post cs i n s r a); try done; [rewrite <-(co_scnt _ _ _ _ _ _ Hco); lia|].
      by eapply can_work_same; [exact (co_work _ _ _ _ _ _ Hco)|..]. }
    split; [constructor; [exact Hco'|]|].
    + intros j n' s' r' Hn' Hcs'. cbn [nd counts] in *. rewrite Esd in Hn'.
      destruct (decide (j = i)) as [->|Hne].
      * rewrite list_lookup_insert_eq in Hn' by (by eapply lookup_lt_Some). injection Hn' as <-.
        rewrite Hcs in Hcs'. injection Hcs' as <- <-.
        change (pendings (sq_part a')) with (<[i := 3]> (<[i := bits ahead n s r]> (pendings (sq_part a)))).
        rewrite list_lookup_insert_eq by (rewrite length_insert; by eapply lookup_lt_Some).
        unfold bits. rewrite !(proj2 (Z.ltb_lt _ _)) by lia. split; [done|].
        unfold PINGPONG_RECV_WRID, PINGPONG_SEND_WRID. lia.
      * rewrite list_lookup_insert_ne in Hn' by done.
        change (pendings (sq_part a')) with (<[i := 3]> (<[i := bits ahead n s r]> (pendings (sq_part a)))).
        rewrite !list_lookup_insert_ne by done. exact (Hpe j Hne n' s' r' Hn' Hcs').
    + rewrite Esd. rewrite <-(list_insert_id (qp_sends a) i n) at 1 by done.
      apply Forall2_insert; [apply all_le_refl|lia].
  - eexists. split; [reflexivity|]. split; [|apply all_le_refl].
    constructor; cbn [nd counts].
    + destruct Hco as [H1 H2 H3 H4 H5 H6 H7]. constructor; try done. by eapply can_work_same.
    + intros j n' s' r' Hn' Hcs'. cbn [sq_part set_sq_part set_pending_at pendings sq_run].
      change (qp_sends _) with (qp_sends a) in Hn'.
      destruct (decide (j = i)) as [->|Hne].
      * rewrite Hn in Hn'. injection Hn' as <-. rewrite Hcs in Hcs'. injection Hcs' as <- <-.
        rewrite list_lookup_insert_eq by (by eapply lookup_lt_Some). split; [done|]. intros Hz.
        apply andb_false_iff in Epost as [?%Z.ltb_ge|?%Z.eqb_neq]; [done|lia].
      * rewrite list_lookup_insert_ne by done. exact (Hpe j Hne n' s' r' Hn' Hcs').
Qed.

Lemma qp_sends_at a i q : qps (sq_part a) !! i = Some q → qp_sends a !! i = Some (sends_on (hw_of a) q).
Proof using. intros H. unfold qp_sends. by rewrite list_lookup_fmap, H. Qed.

(** The other queue pairs keep their pending bits when the counts of [i] and
    the counters of the end change. *)
Lemma others_pending a a1 cs i p :
  (∀ j, pending_ok ahead iters a cs j) → qp_sends a1 = qp_sends a →
  sq_part a1 = sq_part a → scnt (sq_run a) ≤ scnt (sq_run a1) →
  ∀ j, j ≠ i → pending_ok ahead iters a1 (<[i := p]> cs) j.
Proof using.
  intros Hpe Es Ep Hle j Hne n s r Hn Hcs. rewrite Es in Hn. rewrite list_lookup_insert_ne in Hcs by done.
  destruct (Hpe j n s r Hn Hcs) as [H1 H2]. rewrite Ep. split; [done|]. intros Hz.
  specialize (H2 Hz). lia.
Qed.

Lemma srq_send_handled t a cs i q s r :
  node_inv ahead iters k depth (Node a cs) → qps (sq_part a) !! i = Some q →
  cs !! i = Some (s, r) → s < sends_on (hw_of a) q →
  ∃ a', srq_treat_wc iters
          (Wc PINGPONG_SEND_WRID IBV_WC_SUCCESS t (qp_num (h_dev (h_world (hw_of a))) q)) a
        = (Done None, a') ∧
    node_inv ahead iters k depth (Node a' (<[i := (s + 1, r)]> cs)) ∧
    Forall2 Z.le (qp_sends a) (qp_sends a').
Proof using Hiters Hk Hmax Hahead.
  intros [Hco Hpe] Hq Hcs Hlt. cbn [nd counts] in *. pose proof (qp_sends_at _ _ _ Hq) as Hn.
  set (n := sends_on (hw_of a) q) in *.
  pose proof (core_scnt _ _ _ _ _ _ Hco) as Hsc. pose proof (co_sends _ _ _ _ _ _ Hco) as Hsn.
  destruct (Hpe i n s r Hn Hcs) as [Hb _].
  pose proof (core_at _ _ _ _ _ _ _ _ _ _ Hco Hn Hcs) as Hat.
  unfold srq_treat_wc. change (wc_status _ <>z IBV_WC_SUCCESS) with false. cbv iota.
  erewrite bind_done by reflexivity. cbn [wc_qp_num].
  change (rc_hw (sq_run a)) with (hw_of a). rewrite (find_qp_own _ _ _ _ _ (co_work _ _ _ _ _ _ Hco) Hq).
  change (wrap_s 32 (wc_wr_id _)) with PINGPONG_SEND_WRID.
  change (PINGPONG_SEND_WRID =? PINGPONG_SEND_WRID) with true. cbv iota zeta.
  rewrite bind_assoc. erewrite bind_done.
  2:{ apply zoom_done. unfold incr. destruct (Z.eqb_spec (scnt (sq_run a)) int_max) as [E|_]; [lia|]. reflexivity. }
  rewrite bind_assoc. erewrite bind_done by (apply zoom_done; reflexivity).
  erewrite bind_done by reflexivity. cbv beta iota. change (negb true) with false. cbv iota.
  set (a1 := lset _ _).
  apply (srq_after_inv PINGPONG_SEND_WRID i a1 (<[i := (s + 1, r)]> cs) (bits ahead n s r) n (s + 1) r).
  - destruct Hco as [H1 H2 H3 H4 H5 H6 H7]. constructor; try done.
    + by eapply can_work_same.
    + change (qp_sends a1) with (qp_sends a). rewrite <-(list_insert_id (qp_sends a) i n) by done.
      apply Forall2_insert; [done|]. by_counts.
    + change (scnt (sq_run a1)) with (scnt (sq_run a) + 1). rewrite list_fmap_insert. simpl.
      rewrite zsum_insert with (x := s); [lia|]. by rewrite list_lookup_fmap, Hcs.
    + change (rcnt (sq_run a1)) with (rcnt (sq_run a)). rewrite list_fmap_insert. simpl.
      rewrite zsum_insert with (x := r); [lia|]. by rewrite list_lookup_fmap, Hcs.
  - eapply others_pending; [exact Hpe|done|done|]. change (scnt (sq_run a1)) with (scnt (sq_run a) + 1). lia.
  - exact Hn.
  - apply list_lookup_insert_eq. by eapply lookup_lt_Some.
  - exact Hb.
  - unfold bits, PINGPONG_RECV_WRID, PINGPONG_SEND_WRID, counts_ok in *. cbn [fst snd] in Hat.
    rewrite (proj2 (Z.ltb_lt s n)) by lia. rewrite (proj2 (Z.ltb_ge (s + 1) n)) by lia.
    by destruct (r <? n + ahead).
Qed.

(** The receives are posted again when no more are left than queue pairs. *)
Lemma srq_refilled a cs :
  core ahead iters k depth a cs → k ≤ depth → rcnt (sq_run a) < int_max → depth ≤ int_max →
  ∃ a1, srq_received a = (Done true, a1) ∧
    h_world (hw_of a1) = h_world (hw_of a) ∧ h_live (hw_of a1) = h_live (hw_of a) ∧
    ctx (sq_run a1) = ctx (sq_run a) ∧ sq_part a1 = sq_part a ∧
    (∀ q, sends_on (hw_of a1) q = sends_on (hw_of a) q) ∧
    scnt (sq_run a1) = scnt (sq_run a) ∧ rcnt (sq_run a1) = rcnt (sq_run a) + 1 ∧
    routs (sq_run a1) = srq_recvs (hw_of a1) - rcnt (sq_run a1) ∧ k ≤ routs (sq_run a1) ≤ depth.
Proof using Hk.
  intros [H1 H2 H3 H4 H5 H6 H7] Hkd Hr Hd. unfold srq_received.
  erewrite bind_done by reflexivity. cbv zeta. erewrite bind_done by (apply zoom_done; reflexivity).
  assert (∀ b, zoom (incr (rcnt (sq_run a))) b = (Done (rcnt (sq_run a) + 1), b)) as Hincr.
  { intros [b x]. unfold zoom, incr. destruct (Z.eqb_spec (rcnt (sq_run a)) int_max) as [E|_]; [lia|done]. }
  rewrite wrap_u_int by lia. rewrite (cw_num_qp _ _ _ H1).
  destruct (Z.leb_spec (routs (sq_run a) - 1) k) as [Hle|Hgt].
  - destruct (srq_post_recv_accepted k depth a (rx_depth (ctx (sq_run a)) - (routs (sq_run a) - 1)) H1)
      as (hw' & E & Ew & El & Es & Er); [rewrite (cw_depth _ _ _ H1); lia|].
    rewrite bind_assoc. erewrite bind_done.
    2:{ apply zoom_done. apply zoom_done. exact E. }
    rewrite bind_assoc. erewrite bind_done by (apply zoom_done; reflexivity).
    erewrite bind_done by reflexivity.
    rewrite (proj2 (Z.leb_le _ _)) by lia. cbn [negb]. cbv iota.
    erewrite bind_done by apply Hincr. erewrite bind_done by (apply zoom_done; reflexivity).
    eexists. split; [reflexivity|]. rewrite (cw_depth _ _ _ H1) in *. unfold hw_of in *.
    cbn [sq_run rc_hw lset lget srq_state_run rc_state_hw set_sq_run set_rc_hw set_routs set_rcnt
      routs rcnt scnt sq_part ctx].
    split_and!; (done || lia).
  - erewrite bind_done by reflexivity. cbn [negb]. cbv iota.
    erewrite bind_done by apply Hincr. erewrite bind_done by (apply zoom_done; reflexivity).
    eexists. split; [reflexivity|]. unfold hw_of in *.
    cbn [sq_run rc_hw lset lget srq_state_run rc_state_hw set_sq_run set_rc_hw set_routs set_rcnt
      routs rcnt scnt sq_part ctx].
    split_and!; (done || lia).
Qed.

Lemma srq_message_handled t a cs i q s r :
  node_inv ahead iters k depth (Node a cs) → k ≤ depth ≤ int_max → rcnt (sq_run a) < int_max →
  qps (sq_part a) !! i = Some q → cs !! i = Some (s, r) → r < sends_on (hw_of a) q + ahead →
  ∃ a', srq_treat_wc iters
          (Wc PINGPONG_RECV_WRID IBV_WC_SUCCESS t (qp_num (h_dev (h_world (hw_of a))) q)) a
        = (Done None, a') ∧
    node_inv ahead iters k depth (Node a' (<[i := (s, r + 1)]> cs)) ∧
    Forall2 Z.le (qp_sends a) (qp_sends a').
Proof using Hiters Hk Hmax Hahead.
  intros [Hco Hpe] Hd Hr Hq Hcs Hlt. cbn [nd counts] in *. pose proof (qp_sends_at _ _ _ Hq) as Hn.
  set (n := sends_on (hw_of a) q) in *.
  destruct (Hpe i n s r Hn Hcs) as [Hb _].
  pose proof (core_at _ _ _ _ _ _ _ _ _ _ Hco Hn Hcs) as Hat.
  unfold srq_treat_wc. change (wc_status _ <>z IBV_WC_SUCCESS) with false. cbv iota.
  erewrite bind_done by reflexivity. cbn [wc_qp_num].
  change (rc_hw (sq_run a)) with (hw_of a). rewrite (find_qp_own _ _ _ _ _ (co_work _ _ _ _ _ _ Hco) Hq).
  change (wrap_s 32 (wc_wr_id _)) with PINGPONG_RECV_WRID.
  change (PINGPONG_RECV_WRID =? PINGPONG_SEND_WRID) with false.
  change (PINGPONG_RECV_WRID =? PINGPONG_RECV_WRID) with true. cbv iota zeta.
  destruct (srq_refilled a cs Hco) as (a1 & E & Ew & El & Ec & Ep & Es & Esc & Erc & Ero & Hwin); [lia..|].
  erewrite bind_done by exact E. cbv beta iota. change (negb true) with false. cbv iota.
  pose proof (qp_sends_same a a1 ltac:(by rewrite Ep) Es) as Eqs. rewrite <-Eqs.
  apply (srq_after_inv PINGPONG_RECV_WRID i a1 (<[i := (s, r + 1)]> cs) (bits ahead n s r) n s (r + 1)).
  - destruct Hco as [H1 H2 H3 H4 H5 H6 H7]. constructor; try done; rewrite ?Eqs.
    + eapply can_work_same; [exact H1|done..| | |]; by rewrite Ep.
    + rewrite <-(list_insert_id (qp_sends a) i n) by done.
      apply Forall2_insert; [done|]. by_counts.
    + rewrite Esc. rewrite list_fmap_insert. simpl.
      rewrite zsum_insert with (x := s); [lia|]. by rewrite list_lookup_fmap, Hcs.
    + rewrite Erc. rewrite list_fmap_insert. simpl.
      rewrite zsum_insert with (x := r); [lia|]. by rewrite list_lookup_fmap, Hcs.
    + done.
  - eapply others_pending; [exact Hpe|done|done|]. lia.
  - by rewrite Eqs.
  - apply list_lookup_insert_eq. by eapply lookup_lt_Some.
  - by rewrite Ep.
  - unfold bits, PINGPONG_RECV_WRID, PINGPONG_SEND_WRID, counts_ok in *. cbn [fst snd] in Hat.
    rewrite (proj2 (Z.ltb_lt r (n + ahead))) by lia. rewrite (proj2 (Z.ltb_ge (r + 1) (n + ahead))) by lia.
    by destruct (s <? n).
Qed.
End node.

(** ** Both ends *)

(** No more messages are received on a queue pair than its peer has sent. *)
Definition within (cs : list (Z * Z)) (ms : list Z) : Prop := Forall2 (λ p m, p.2 ≤ m) cs ms.

Lemma within_mono cs ms ms' : within cs ms → Forall2 Z.le ms ms' → within cs ms'.
Proof.
  intros H. revert ms'. induction H as [|p m cs ms H _ IH]; intros ms' Hle;
    inversion Hle; subst; constructor; [lia|by apply IH].
Qed.

Lemma within_insert cs ms i s r m :
  within cs ms → ms !! i = Some m → r ≤ m → within (<[i := (s, r)]> cs) ms.
Proof. intros H Hm Hr. rewrite <-(list_insert_id ms i m) by done. by apply Forall2_insert. Qed.

Lemma within_sum cs ms : within cs ms → zsum cs.*2 ≤ zsum ms.
Proof. induction 1 as [|p m cs ms H _ IH]; [done|]. unfold zsum in *. cbn [fmap list_fmap foldr] in *. lia. Qed.

Record pair_inv (iters k dc dv : Z) (x : both) : Prop := {
  pi_client : node_inv 0 iters k dc x.1;
  pi_server : node_inv 1 iters k dv x.2;
  pi_to_client : within (counts x.1) (qp_sends (nd x.2));
  pi_to_server : within (counts x.2) (qp_sends (nd x.1)) }.

(** The completions treated so far. *)
Definition treated (n : node) : Z := zsum (counts n).*1 + zsum (counts n).*2.
Definition events (x : both) : Z := treated x.1 + treated x.2.

Section ends.
Context (iters k dc dv : Z).
Context (Hiters : 1 ≤ iters) (Hk : 1 ≤ k) (Hmax : iters + k ≤ int_max).
Context (Hdc : k ≤ dc ≤ int_max) (Hdv : k ≤ dv ≤ int_max).

(** A step of one end, whatever its role: [Hturn] says that a message that is
    there is expected. *)
Lemma srq_end_step_inv ahead depth b n n' :
  0 ≤ ahead ≤ 1 → k ≤ depth ≤ int_max → node_inv ahead iters k depth n →
  within (counts n) (qp_sends b) → zsum (qp_sends b) ≤ iters - 1 + k →
  (∀ i q r s m, qps (sq_part (nd n)) !! i = Some q → counts n !! i = Some (s, r) →
     qp_sends b !! i = Some m → r < m → r < sends_on (hw_of (nd n)) q + ahead) →
  (∃ cs, end_step iters (Node b cs) n n') →
  node_inv ahead iters k depth n' ∧ within (counts n') (qp_sends b) ∧
  Forall2 Z.le (qp_sends (nd n)) (qp_sends (nd n')) ∧ treated n' = treated n + 1.
Proof using Hiters Hk Hmax.
  intros Ha Hd Hinv Hwi Hsum Hturn [cs Hs].
  inversion Hs as [a a' cs0 i q s r Hq Hcs Hlt (t & E) E1 E2|a a' cs0 i q s r m Hq Hcs Hm Hlt Hrv (t & E) E1 E2];
    subst n n'; cbn [nd counts] in *.
  - destruct (srq_send_handled ahead iters k depth Hiters Hk Hmax Ha t a cs0 i q s r Hinv Hq Hcs Hlt)
      as (a1 & E' & Hinv' & Hle).
    rewrite E in E'. injection E' as <-. split; [done|]. split; [|split; [done|]].
    + assert (i < length (qp_sends b))%nat as [m Hm]%lookup_lt_is_Some.
      { rewrite <-(Forall2_length _ _ _ Hwi). by eapply lookup_lt_Some. }
      eapply within_insert; [exact Hwi|exact Hm|]. exact (Forall2_lookup_lr _ _ _ _ _ _ Hwi Hcs Hm).
    + unfold treated. cbn [counts]. rewrite !list_fmap_insert. cbn [fst snd].
      rewrite (zsum_insert _ _ s), (zsum_insert _ _ r) by (by rewrite list_lookup_fmap, Hcs). lia.
  - pose proof (within_sum _ _ Hwi) as Hws.
    assert (rcnt (sq_run a) < int_max) as Hr.
    { pose proof (co_rcnt _ _ _ _ _ _ (nv_core _ _ _ _ _ Hinv)) as Er. cbn [nd counts] in Er. lia. }
    destruct (srq_message_handled ahead iters k depth Hiters Hk Hmax Ha t a cs0 i q s r Hinv Hd Hr Hq Hcs)
      as (a1 & E' & Hinv' & Hle); [by eapply Hturn|].
    rewrite E in E'. injection E' as <-. split; [done|]. split; [|split; [done|]].
    + eapply within_insert; [exact Hwi|exact Hm|]. lia.
    + unfold treated. cbn [counts]. rewrite !list_fmap_insert. cbn [fst snd].
      rewrite (zsum_insert _ _ s), (zsum_insert _ _ r) by (by rewrite list_lookup_fmap, Hcs). lia.
Qed.

(** What the invariant says of one index. *)
Lemma pair_at x i :
  pair_inv iters k dc dv x → (i < Z.to_nat k)%nat →
  ∃ qc qv sc rc sv rv,
    qps (sq_part (nd x.1)) !! i = Some qc ∧ qps (sq_part (nd x.2)) !! i = Some qv ∧
    counts x.1 !! i = Some (sc, rc) ∧ counts x.2 !! i = Some (sv, rv) ∧
    let nc := sends_on (hw_of (nd x.1)) qc in let nv := sends_on (hw_of (nd x.2)) qv in
    qp_sends (nd x.1) !! i = Some nc ∧ qp_sends (nd x.2) !! i = Some nv ∧
    counts_ok 0 nc (sc, rc) ∧ counts_ok 1 nv (sv, rv) ∧ rc ≤ nv ∧ rv ≤ nc.
Proof using Hk.
  intros [[Cc Pc] [Cv Pv] Hc Hv] Hi.
  pose proof (cw_len _ _ _ (co_work _ _ _ _ _ _ Cc)) as Lc.
  pose proof (cw_len _ _ _ (co_work _ _ _ _ _ _ Cv)) as Lv.
  assert (i < length (qps (sq_part (nd x.1))))%nat as [qc Hqc]%lookup_lt_is_Some by lia.
  assert (i < length (qps (sq_part (nd x.2))))%nat as [qv Hqv]%lookup_lt_is_Some by lia.
  pose proof (qp_sends_at _ _ _ Hqc) as Hnc. pose proof (qp_sends_at _ _ _ Hqv) as Hnv.
  pose proof (Forall2_length _ _ _ (co_counts _ _ _ _ _ _ Cc)) as Lc'.
  pose proof (Forall2_length _ _ _ (co_counts _ _ _ _ _ _ Cv)) as Lv'.
  unfold qp_sends in Lc', Lv'. rewrite length_fmap in Lc', Lv'.
  assert (i < length (counts x.1))%nat as [[sc rc] Hcc]%lookup_lt_is_Some by lia.
  assert (i < length (counts x.2))%nat as [[sv rv] Hcv]%lookup_lt_is_Some by lia.
  exists qc, qv, sc, rc, sv, rv. cbv zeta. split_and!; try done.
  - by eapply core_at.
  - by eapply core_at.
  - exact (Forall2_lookup_lr _ _ _ _ _ _ Hc Hcc Hnv).
  - exact (Forall2_lookup_lr _ _ _ _ _ _ Hv Hcv Hnc).
Qed.

Lemma pair_index (ahead depth : Z) (n : node) i q :
  node_inv ahead iters k depth n → qps (sq_part (nd n)) !! i = Some q → (i < Z.to_nat k)%nat.
Proof using Hk.
  intros [C _] H. apply lookup_lt_Some in H.
  pose proof (cw_len _ _ _ (co_work _ _ _ _ _ _ C)). lia.
Qed.

Lemma pair_step x y :
  pair_inv iters k dc dv x → step iters x y →
  pair_inv iters k dc dv y ∧ events y = events x + 1.
Proof using Hiters Hk Hmax Hdc Hdv.
  intros Hx Hs. pose proof (λ i, pair_at x i Hx) as Hat. destruct Hx as [Hc Hv Wc Wv].
  pose proof (co_sends _ _ _ _ _ _ (nv_core _ _ _ _ _ Hc)) as Sc.
  pose proof (co_sends _ _ _ _ _ _ (nv_core _ _ _ _ _ Hv)) as Sv.
  destruct Hs as [c c' v Hs|c v v' Hs]; cbn [fst snd] in *; unfold events; cbn [fst snd].
  - destruct (srq_end_step_inv 0 dc (nd v) c c' ltac:(lia) Hdc Hc Wc Sv) as (Hc' & Wc' & Hle & Ht).
    + intros i q r s m Hq Hcs Hm Hlt. pose proof (pair_index _ _ _ _ _ Hc Hq) as Hi.
      destruct (Hat i Hi) as (qc & qv & sc & rc & sv & rv & Q1 & Q2 & C1 & C2 & N1 & N2 & K1 & K2 & L1 & L2).
      rewrite Hq in Q1. injection Q1 as <-. rewrite Hcs in C1. injection C1 as <- <-.
      rewrite Hm in N2. injection N2 as E. by_counts.
    + exists (counts v). by destruct v.
    + split; [|lia]. constructor; cbn [fst snd]; try done. by eapply within_mono.
  - destruct (srq_end_step_inv 1 dv (nd c) v v' ltac:(lia) Hdv Hv Wv Sc) as (Hv' & Wv' & Hle & Ht).
    + intros i q r s m Hq Hcs Hm Hlt. pose proof (pair_index _ _ _ _ _ Hv Hq) as Hi.
      destruct (Hat i Hi) as (qc & qv & sc & rc & sv & rv & Q1 & Q2 & C1 & C2 & N1 & N2 & K1 & K2 & L1 & L2).
      rewrite Hq in Q2. injection Q2 as <-. rewrite Hcs in C2. injection C2 as <- <-.
      rewrite Hm in N1. injection N1 as E. by_counts.
    + exists (counts c). by destruct c.
    + split; [|lia]. constructor; cbn [fst snd]; try done. by eapply within_mono.
Qed.

Lemma pair_run n x y :
  pair_inv iters k dc dv x → nsteps (step iters) n x y →
  pair_inv iters k dc dv y ∧ events y = events x + Z.of_nat n.
Proof using Hiters Hk Hmax Hdc Hdv.
  intros Hx Hn. induction Hn as [x|n x y z Hs _ IH]; [split; [done|lia]|].
  destruct (pair_step _ _ Hx Hs) as [Hy E]. destruct (IH Hy) as [Hz E']. split; [done|lia].
Qed.

Lemma srq_events_bound x : pair_inv iters k dc dv x → events x ≤ 4 * (iters - 1 + k).
Proof using Hk.
  intros [[Cc _] [Cv _] Wc Wv]. apply within_sum in Wc, Wv.
  pose proof (core_scnt _ _ _ _ _ _ Cc). pose proof (core_scnt _ _ _ _ _ _ Cv).
  destruct Cc as [_ _ E1 _ S1 _ _], Cv as [_ _ E2 _ S2 _ _]. unfold events, treated. lia.
Qed.

(** ** Progress *)

(** Queue pair [i] of [n] has nothing to treat. *)
Definition idle_at (n b : node) (i : nat) : Prop :=
  match qp_sends (nd n) !! i, counts n !! i, qp_sends (nd b) !! i with
  | Some m, Some (s, r), Some m' => m ≤ s ∧ m' ≤ r
  | _, _, _ => True
  end.

#[local] Instance idle_at_dec n b i : Decision (idle_at n b i).
Proof. unfold idle_at. repeat case_match; apply _. Defined.

(** An end can treat something, or all its queue pairs are idle. *)
Lemma can_step ahead depth n b :
  0 ≤ ahead ≤ 1 → k ≤ depth ≤ int_max → node_inv ahead iters k depth n →
  within (counts n) (qp_sends (nd b)) → zsum (qp_sends (nd b)) ≤ iters - 1 + k →
  (∀ i q r s m, qps (sq_part (nd n)) !! i = Some q → counts n !! i = Some (s, r) →
     qp_sends (nd b) !! i = Some m → r < m → r < sends_on (hw_of (nd n)) q + ahead) →
  (∃ n', end_step iters b n n') ∨ (∀ i, idle_at n b i).
Proof using Hiters Hk Hmax.
  intros Ha Hd Hinv Hwi Hsum Hturn.
  destruct (decide (Forall (idle_at n b) (seq 0 (length (counts n))))) as [Hall|Hex].
  { right. intros i. destruct (counts n !! i) as [p|] eqn:E.
    - rewrite Forall_forall in Hall. apply Hall, elem_of_seq. apply lookup_lt_Some in E. lia.
    - unfold idle_at. rewrite E. by destruct (qp_sends (nd n) !! i). }
  left. apply not_Forall_Exists, Exists_exists in Hex as (i & _ & Hi); [|apply _].
  unfold compose, idle_at in Hi. cbv beta in Hi.
  destruct (qp_sends (nd n) !! i) as [m|] eqn:Hm; [|by destruct Hi].
  destruct (counts n !! i) as [[s r]|] eqn:Hcs; [|by destruct Hi].
  destruct (qp_sends (nd b) !! i) as [m'|] eqn:Hm'; [|by destruct Hi].
  destruct (qps (sq_part (nd n)) !! i) as [q|] eqn:Hq.
  2:{ unfold qp_sends in Hm. by rewrite list_lookup_fmap, Hq in Hm. }
  rewrite (qp_sends_at _ _ _ Hq) in Hm. injection Hm as Em. destruct n as [a cs]. cbn [nd counts] in *.
  destruct (Z.lt_ge_cases s (sends_on (hw_of a) q)) as [Hlt|Hge].
  - destruct (srq_send_handled ahead iters k depth Hiters Hk Hmax Ha 0 a cs i q s r Hinv Hq Hcs Hlt)
      as (a' & E & _). eexists. eapply send_completes; [exact Hq|exact Hcs|exact Hlt|]. by exists 0.
  - pose proof (within_sum _ _ Hwi) as Hws.
    assert (r < m') as Hlt by lia.
    pose proof (co_rcnt _ _ _ _ _ _ (nv_core _ _ _ _ _ Hinv)) as Er.
    pose proof (co_routs _ _ _ _ _ _ (nv_core _ _ _ _ _ Hinv)) as Ero.
    pose proof (co_window _ _ _ _ _ _ (nv_core _ _ _ _ _ Hinv)) as Hwin. cbn [nd counts] in *.
    destruct (srq_message_handled ahead iters k depth Hiters Hk Hmax Ha 0 a cs i q s r Hinv Hd
      ltac:(lia) Hq Hcs) as (a' & E & _); [by eapply Hturn|].
    eexists. eapply message_arrives; [exact Hq|exact Hcs|exact Hm'|exact Hlt|lia|]. by exists 0.
Qed.

(** A step of an end that has not left its loop. *)
Definition live_step (x y : both) : Prop :=
  (running iters x.1 ∧ end_step iters x.2 x.1 y.1 ∧ y.2 = x.2) ∨
  (running iters x.2 ∧ end_step iters x.1 x.2 y.2 ∧ y.1 = x.1).

Lemma live_is_step x y : live_step x y → step iters x y.
Proof using.
  destruct x as [c v], y as [c' v']. intros [(_ & H & E)|(_ & H & E)]; cbn [fst snd] in *; subst;
    by constructor.
Qed.

(** When all queue pairs of an end are idle it has taken everything. *)
Lemma idle_sums x :
  pair_inv iters k dc dv x →
  ((∀ i, idle_at x.1 x.2 i) →
     zsum (qp_sends (nd x.1)) ≤ scnt (sq_run (nd x.1)) ∧
     zsum (qp_sends (nd x.2)) ≤ rcnt (sq_run (nd x.1))) ∧
  ((∀ i, idle_at x.2 x.1 i) →
     zsum (qp_sends (nd x.2)) ≤ scnt (sq_run (nd x.2)) ∧
     zsum (qp_sends (nd x.1)) ≤ rcnt (sq_run (nd x.2))).
Proof using Hk.
  intros Hx. pose proof (λ i, pair_at x i Hx) as Hat. destruct Hx as [[Cc _] [Cv _] Wc Wv].
  assert (∀ l l' : list Z, length l = Z.to_nat k → length l' = Z.to_nat k →
    (∀ i x y, (i < Z.to_nat k)%nat → l !! i = Some x → l' !! i = Some y → x ≤ y) → zsum l ≤ zsum l') as Hz.
  { intros l l' L1 L2 H. rewrite <-(Z.add_0_r (zsum l')), <-(Z.mul_0_l (Z.of_nat (length l'))).
    apply zsum_le, Forall2_same_length_lookup_2; [congruence|]. intros i y z Hy Hz'.
    rewrite Z.add_0_r. eapply H; [|exact Hy|exact Hz']. apply lookup_lt_Some in Hy. lia. }
  assert (length (qp_sends (nd x.1)) = Z.to_nat k ∧ length (qp_sends (nd x.2)) = Z.to_nat k) as [L1 L2].
  { unfold qp_sends. rewrite !length_fmap.
    pose proof (cw_len _ _ _ (co_work _ _ _ _ _ _ Cc)).
    pose proof (cw_len _ _ _ (co_work _ _ _ _ _ _ Cv)). lia. }
  pose proof (Forall2_length _ _ _ (co_counts _ _ _ _ _ _ Cc)) as L1'.
  pose proof (Forall2_length _ _ _ (co_counts _ _ _ _ _ _ Cv)) as L2'.
  rewrite (co_scnt _ _ _ _ _ _ Cc), (co_rcnt _ _ _ _ _ _ Cc).
  rewrite (co_scnt _ _ _ _ _ _ Cv), (co_rcnt _ _ _ _ _ _ Cv).
  split; intros Hidle; split; apply Hz; rewrite ?length_fmap; try congruence; intros i y z Hi Hy Hzz;
    destruct (Hat i Hi) as (qc & qv & sc & rc & sv & rv & Q1 & Q2 & C1 & C2 & N1 & N2 & _);
    specialize (Hidle i); unfold idle_at in Hidle; rewrite N1, N2, ?C1, ?C2 in Hidle;
    rewrite list_lookup_fmap, ?C1, ?C2 in Hzz; injection Hzz as <-;
    rewrite ?N1, ?N2 in Hy; injection Hy as <-; cbn [fst snd]; lia.
Qed.

Lemma pair_turn x :
  pair_inv iters k dc dv x →
  (∀ i q r s m, qps (sq_part (nd x.1)) !! i = Some q → counts x.1 !! i = Some (s, r) →
     qp_sends (nd x.2) !! i = Some m → r < m → r < sends_on (hw_of (nd x.1)) q + 0) ∧
  (∀ i q r s m, qps (sq_part (nd x.2)) !! i = Some q → counts x.2 !! i = Some (s, r) →
     qp_sends (nd x.1) !! i = Some m → r < m → r < sends_on (hw_of (nd x.2)) q + 1).
Proof using Hk.
  intros Hx. pose proof (λ i, pair_at x i Hx) as Hat. destruct Hx as [Hc Hv _ _].
  split; intros i q r s m Hq Hcs Hm Hlt.
  - destruct (Hat i (pair_index _ _ _ _ _ Hc Hq))
      as (qc & qv & sc & rc & sv & rv & Q1 & Q2 & C1 & C2 & N1 & N2 & K1 & K2 & L1 & L2).
    rewrite Hq in Q1. injection Q1 as <-. rewrite Hcs in C1. injection C1 as <- <-.
    rewrite Hm in N2. injection N2 as E. by_counts.
  - destruct (Hat i (pair_index _ _ _ _ _ Hv Hq))
      as (qc & qv & sc & rc & sv & rv & Q1 & Q2 & C1 & C2 & N1 & N2 & K1 & K2 & L1 & L2).
    rewrite Hq in Q2. injection Q2 as <-. rewrite Hcs in C2. injection C2 as <- <-.
    rewrite Hm in N1. injection N1 as E. by_counts.
Qed.

(** With every queue pair of both ends idle, each index waits for the server or
    for the client, whose count is therefore complete. *)
Lemma all_idle x :
  pair_inv iters k dc dv x → (∀ i, idle_at x.1 x.2 i) → (∀ i, idle_at x.2 x.1 i) →
  iters ≤ zsum (qp_sends (nd x.1)) ∧ iters ≤ zsum (qp_sends (nd x.2)).
Proof using Hk.
  intros Hx Ic Iv. pose proof (λ i, pair_at x i Hx) as Hat.
  destruct (idle_sums x Hx) as [Sc Sv]. specialize (Sc Ic). specialize (Sv Iv).
  destruct Hx as [[Cc Pc] [Cv Pv] Wc Wv]. pose proof (core_scnt _ _ _ _ _ _ Cc) as Tc.
  pose proof (core_scnt _ _ _ _ _ _ Cv) as Tv. pose proof (core_rcnt_le _ _ _ _ _ Cc) as Uc.
  apply within_sum in Wc, Wv.
  rewrite <-(co_rcnt _ _ _ _ _ _ Cc) in Wc. rewrite <-(co_rcnt _ _ _ _ _ _ Cv) in Wv.
  assert (∀ i qc qv, qps (sq_part (nd x.1)) !! i = Some qc → qps (sq_part (nd x.2)) !! i = Some qv →
    (i < Z.to_nat k)%nat →
    (sends_on (hw_of (nd x.1)) qc = sends_on (hw_of (nd x.2)) qv ∧ iters ≤ scnt (sq_run (nd x.1))) ∨
    iters ≤ scnt (sq_run (nd x.2))) as Hcase.
  { intros i qc qv Hqc Hqv Hi.
    destruct (Hat i Hi) as (qc' & qv' & sc & rc & sv & rv & Q1 & Q2 & C1 & C2 & N1 & N2 & K1 & K2 & L1 & L2).
    rewrite Hqc in Q1. injection Q1 as <-. rewrite Hqv in Q2. injection Q2 as <-.
    specialize (Ic i). unfold idle_at in Ic. rewrite N1, C1, N2 in Ic.
    specialize (Iv i). unfold idle_at in Iv. rewrite N1, C2, N2 in Iv.
    destruct (Pc i _ _ _ N1 C1) as [_ Zc]. destruct (Pv i _ _ _ N2 C2) as [_ Zv].
    unfold bits, PINGPONG_RECV_WRID, PINGPONG_SEND_WRID, counts_ok in *. cbn [fst snd] in *.
    destruct (Z.eq_dec (sends_on (hw_of (nd x.1)) qc) (sends_on (hw_of (nd x.2)) qv)) as [E|E].
    - left. split; [done|]. apply Zc. rewrite !(proj2 (Z.ltb_ge _ _)) by lia. done.
    - right. apply Zv. rewrite !(proj2 (Z.ltb_ge _ _)) by lia. done. }
  assert (iters ≤ scnt (sq_run (nd x.2)) ∨
    (qp_sends (nd x.1) = qp_sends (nd x.2) ∧ iters ≤ scnt (sq_run (nd x.1)))) as [H|[E H]]; [|lia|].
  2:{ rewrite <-E. lia. }
  destruct (Z.le_gt_cases iters (scnt (sq_run (nd x.2)))) as [|Hlt]; [by left|right]. split.
  - apply list_eq_same_length with (n := Z.to_nat k).
    + unfold qp_sends. rewrite length_fmap. pose proof (cw_len _ _ _ (co_work _ _ _ _ _ _ Cv)). lia.
    + unfold qp_sends. rewrite length_fmap. pose proof (cw_len _ _ _ (co_work _ _ _ _ _ _ Cc)). lia.
    + intros i y z Hi Hy Hz. destruct (Hat i Hi) as (qc & qv & _ & _ & _ & _ & Q1 & Q2 & _ & _ & N1 & N2 & _).
      rewrite N1 in Hy. rewrite N2 in Hz. injection Hy as <-. injection Hz as <-.
      destruct (Hcase i qc qv Q1 Q2 Hi) as [[E _]|?]; [done|lia].
  - destruct (Hat 0%nat ltac:(lia)) as (qc & qv & _ & _ & _ & _ & Q1 & Q2 & _).
    destruct (Hcase 0%nat qc qv Q1 Q2 ltac:(lia)) as [[_ ?]|?]; [done|lia].
Qed.

Lemma live_or_over x :
  pair_inv iters k dc dv x → running iters x.1 ∨ running iters x.2 → ∃ y, live_step x y.
Proof using Hiters Hk Hmax Hdc Hdv.
  intros Hx Hrun. destruct (pair_turn x Hx) as [Tc Tv]. destruct (idle_sums x Hx) as [Sc Sv].
  pose proof (all_idle x Hx) as Hall. destruct Hx as [Hc Hv Wc Wv].
  pose proof (core_scnt _ _ _ _ _ _ (nv_core _ _ _ _ _ Hc)) as Rc.
  pose proof (core_scnt _ _ _ _ _ _ (nv_core _ _ _ _ _ Hv)) as Rv.
  pose proof (co_sends _ _ _ _ _ _ (nv_core _ _ _ _ _ Hc)) as Bc.
  pose proof (co_sends _ _ _ _ _ _ (nv_core _ _ _ _ _ Hv)) as Bv.
  destruct (can_step 0 dc x.1 x.2 ltac:(lia) Hdc Hc Wc Bv Tc) as [[c' Hs]|Ic].
  { destruct (decide (rcnt (sq_run (nd x.1)) < iters ∨ scnt (sq_run (nd x.1)) < iters)) as [Hr|Hn].
    { exists (c', x.2). left. done. }
    destruct (can_step 1 dv x.2 x.1 ltac:(lia) Hdv Hv Wv Bc Tv) as [[v' Hs']|Iv].
    - exists (x.1, v'). right. split_and!; [|done..]. destruct Hrun; [done|done].
    - exfalso. specialize (Sv Iv). apply within_sum in Wc, Wv.
      rewrite <-(co_rcnt _ _ _ _ _ _ (nv_core _ _ _ _ _ Hc)) in Wc.
      destruct Hrun as [Hr|Hr]; unfold running in Hr; lia. }
  destruct (can_step 1 dv x.2 x.1 ltac:(lia) Hdv Hv Wv Bc Tv) as [[v' Hs']|Iv].
  { destruct (decide (rcnt (sq_run (nd x.2)) < iters ∨ scnt (sq_run (nd x.2)) < iters)) as [Hr|Hn].
    { exists (x.1, v'). right. done. }
    exfalso. specialize (Sc Ic). apply within_sum in Wc, Wv.
    rewrite <-(co_rcnt _ _ _ _ _ _ (nv_core _ _ _ _ _ Hv)) in Wv.
    destruct Hrun as [Hr|Hr]; unfold running in Hr; lia. }
  exfalso. specialize (Sc Ic). specialize (Sv Iv). specialize (Hall Ic Iv).
  destruct Hrun as [Hr|Hr]; unfold running in Hr; lia.
Qed.

(** The queues of an end are never over their depths. *)
Lemma queues_bounded x :
  pair_inv iters k dc dv x →
  Forall2 (λ n p, 0 ≤ n - p.1 ≤ 1) (qp_sends (nd x.1)) (counts x.1) ∧
  Forall2 (λ n p, 0 ≤ n - p.1 ≤ 1) (qp_sends (nd x.2)) (counts x.2) ∧
  zsum (qp_sends (nd x.2)) - rcnt (sq_run (nd x.1))
    ≤ k ≤ srq_recvs (hw_of (nd x.1)) - rcnt (sq_run (nd x.1)) ≤ dc ∧
  zsum (qp_sends (nd x.1)) - rcnt (sq_run (nd x.2))
    ≤ k ≤ srq_recvs (hw_of (nd x.2)) - rcnt (sq_run (nd x.2)) ≤ dv.
Proof using Hk.
  intros Hx. pose proof (λ i, pair_at x i Hx) as Hat. destruct Hx as [[Cc _] [Cv _] _ _].
  assert (∀ ahead (n : node) depth, core ahead iters k depth (nd n) (counts n) →
    Forall2 (λ m p, 0 ≤ m - p.1 ≤ 1) (qp_sends (nd n)) (counts n)) as Hone.
  { intros ahead n depth H. eapply Forall2_impl; [exact (co_counts _ _ _ _ _ _ H)|].
    intros m p Hp. by_counts. }
  assert (∀ (a b : node) ahead ahead' d d', core ahead iters k d (nd a) (counts a) →
    core ahead' iters k d' (nd b) (counts b) →
    (∀ i m s r, (i < Z.to_nat k)%nat → counts a !! i = Some (s, r) → qp_sends (nd b) !! i = Some m → m ≤ r + 1) →
    zsum (qp_sends (nd b)) - rcnt (sq_run (nd a)) ≤ k) as Hin.
  { intros a b ahead ahead' d d' Ha Hb H. rewrite (co_rcnt _ _ _ _ _ _ Ha).
    pose proof (Forall2_length _ _ _ (co_counts _ _ _ _ _ _ Ha)) as La. unfold qp_sends in La.
    rewrite length_fmap in La. pose proof (cw_len _ _ _ (co_work _ _ _ _ _ _ Ha)) as Lk.
    pose proof (cw_len _ _ _ (co_work _ _ _ _ _ _ Hb)) as Lk'.
    enough (zsum (qp_sends (nd b)) ≤ zsum (counts a).*2 + 1 * Z.of_nat (length (counts a).*2)).
    { rewrite length_fmap in *. lia. }
    apply zsum_le, Forall2_same_length_lookup_2.
    { unfold qp_sends. rewrite !length_fmap. lia. }
    intros i m y Hm Hy. rewrite list_lookup_fmap in Hy. destruct (counts a !! i) as [[s r]|] eqn:E; [|done].
    injection Hy as <-. eapply H; [|exact E|exact Hm]. apply lookup_lt_Some in E. lia. }
  split_and!; [by eapply Hone|by eapply Hone|eapply Hin; [exact Cc|exact Cv|]| | |eapply Hin; [exact Cv|exact Cc|]| |].
  - intros i m s r Hi Hcs Hm. destruct (Hat i Hi)
      as (qc & qv & sc & rc & sv & rv & Q1 & Q2 & C1 & C2 & N1 & N2 & K1 & K2 & L1 & L2).
    rewrite Hcs in C1. injection C1 as <- <-. rewrite Hm in N2. injection N2 as E. by_counts.
  - pose proof (co_routs _ _ _ _ _ _ Cc). pose proof (co_window _ _ _ _ _ _ Cc). lia.
  - pose proof (co_routs _ _ _ _ _ _ Cc). pose proof (co_window _ _ _ _ _ _ Cc). lia.
  - intros i m s r Hi Hcs Hm. destruct (Hat i Hi)
      as (qc & qv & sc & rc & sv & rv & Q1 & Q2 & C1 & C2 & N1 & N2 & K1 & K2 & L1 & L2).
    rewrite Hcs in C2. injection C2 as <- <-. rewrite Hm in N1. injection N1 as E. by_counts.
  - pose proof (co_routs _ _ _ _ _ _ Cv). pose proof (co_window _ _ _ _ _ _ Cv). lia.
  - pose proof (co_routs _ _ _ _ _ _ Cv). pose proof (co_window _ _ _ _ _ _ Cv). lia.
Qed.
End ends.

(** ** Launching *)

Definition start (c : pingpong_context) (x : srq_part) (s : hw) (routs : Z) : srq_state :=
  SrqState (RcState s c 0 0 routs ts_start 0) x.

(** An end after its set-up: the receives posted, the client's first messages
    sent. *)
Definition launch (o : rc_opts) (page : Z) (c : pingpong_context) (x : srq_part)
    : M hw (option node) :=
  routs ← pp_post_recv c x (rx_depth c);
  if routs <? rx_depth c then mret None
  else
    r ← first_sends o page c x;
    match r with
    | None => mret None
    | Some (c, x) => s ← get; mret (Some (Node (start c x s routs) (replicate (length (qps x)) (0, 0))))
    end.

Definition ready (k : Z) (c : pingpong_context) (x : srq_part) (s : hw) : Prop :=
  can_work k (rx_depth c) (start c x s 0) ∧ (∀ q, sends_on s q = 0) ∧ srq_recvs s = 0 ∧
  pendings x = replicate (Z.to_nat MAX_QP) 0 ∧ 1 ≤ k < MAX_QP ∧ k ≤ rx_depth c ≤ int_max.

(** The first [i] queue pairs have sent: their bits and counts. *)
Record sent_upto (x0 : srq_part) (s0 : hw) (i : nat) (x : srq_part) (s : hw) : Prop := {
  su_world : h_world s = h_world s0;
  su_live : h_live s = h_live s0;
  su_srq : srq x = srq x0;
  su_num : num_qp x = num_qp x0;
  su_qps : qps x = qps x0;
  su_recvs : srq_recvs s = srq_recvs s0;
  su_len : length (pendings x) = length (pendings x0);
  su_sends : ∀ j q, qps x0 !! j = Some q → sends_on s q = sends_on s0 q + if decide (j < i)%nat then 1 else 0;
  su_bits : ∀ j, (j < i)%nat → (j < length (pendings x0))%nat → pendings x !! j = Some 3 }.

Lemma send_loop_ok k depth c x0 s0 j i x s :
  can_work k depth (start c x0 s0 0) → sent_upto x0 s0 i x s →
  (i + j = length (qps x0))%nat → (length (qps x0) ≤ length (pendings x0))%nat →
  ∃ x' s', send_loop c j i x s = (Done (Some x'), s') ∧ sent_upto x0 s0 (i + j) x' s'.
Proof.
  intros Hw. revert i x s. induction j as [|j IH]; intros i x s Hsu Hij Hlen; cbn [send_loop].
  { exists x, s. rewrite Nat.add_0_r. done. }
  pose proof Hsu as [H1 H2 H3 H4 H5 H6 H7 H8 H9].
  assert (can_work k depth (start c x s 0)) as Hw'.
  { eapply can_work_same; [exact Hw|..]; done. }
  assert (i < length (qps x0))%nat as [q Hq]%lookup_lt_is_Some by lia.
  destruct (srq_post_send_accepted k depth (start c x s 0) i q Hw') as (s1 & E & Ew & El & Es & Er).
  { unfold start. cbn [sq_part]. by rewrite H5. }
  erewrite bind_done by exact E. change (0 <>z 0) with false. cbv iota.
  unfold start, hw_of in *. cbn [sq_run sq_part rc_hw ctx] in *.
  destruct (IH (S i) (set_pending_at i (Z.lor PINGPONG_SEND_WRID PINGPONG_RECV_WRID) x) s1)
    as (x' & s' & E' & Hsu'); [|lia|done|].
  - constructor; cbn [srq num_qp qps pendings set_pending_at]; try congruence.
    + by rewrite length_insert.
    + intros j' q' Hj'. rewrite Es, (H8 j' q' Hj').
      assert (q' = q ↔ j' = i) as Heq.
      { split; [|intros ->; congruence]. intros ->.
        eapply (NoDup_lookup (qps x0)); [|exact Hj'|exact Hq].
        eapply NoDup_fmap_1. exact (cw_nums _ _ _ Hw). }
      repeat case_decide; try lia; naive_solver lia.
    + intros j' Hj' Hjl. destruct (decide (j' = i)) as [->|Hne].
      * rewrite list_lookup_insert_eq by lia. done.
      * rewrite list_lookup_insert_ne by done. apply H9; lia.
  - exists x', s'. split; [done|]. by replace (i + S j)%nat with (S i + j)%nat by lia.
Qed.

Lemma wait_loop_ok j i x :
  (i + j ≤ length (pendings x))%nat →
  srq (wait_loop j i x) = srq x ∧ num_qp (wait_loop j i x) = num_qp x ∧
  qps (wait_loop j i x) = qps x ∧
  (∀ j', (j' < i)%nat → pendings (wait_loop j i x) !! j' = pendings x !! j') ∧
  (∀ j', (i ≤ j' < i + j)%nat → pendings (wait_loop j i x) !! j' = Some PINGPONG_RECV_WRID).
Proof.
  revert i x. induction j as [|j IH]; intros i x Hl; cbn [wait_loop].
  { split_and!; [done..|]. intros j' Hj'. lia. }
  destruct (IH (S i) (set_pending_at i PINGPONG_RECV_WRID x)) as (E1 & E2 & E3 & E4 & E5).
  { cbn [pendings set_pending_at]. rewrite length_insert. lia. }
  split_and!; [done..| |].
  - intros j' Hj'. rewrite E4 by lia. cbn [pendings set_pending_at].
    by rewrite list_lookup_insert_ne by lia.
  - intros j' Hj'. destruct (decide (j' = i)) as [->|Hne].
    + rewrite E4 by lia. cbn [pendings set_pending_at]. rewrite list_lookup_insert_eq; [done|lia].
    + apply E5. lia.
Qed.

Lemma zsum_replicate n z : zsum (replicate n z) = Z.of_nat n * z.
Proof. induction n as [|n IH]; [done|]. unfold zsum in *. cbn [replicate foldr]. lia. Qed.

Definition is_client (o : rc_opts) : Prop := o_servername o ≠ None.
Definition ahead_of (o : rc_opts) : Z := match o_servername o with Some _ => 0 | None => 1 end.

(** An end that starts, each of its queue pairs having sent [m] messages. *)
Lemma start_inv ahead m iters k depth c x s :
  1 ≤ iters → 0 ≤ ahead ≤ 1 → m + ahead = 1 → k ≤ depth → can_work k depth (start c x s depth) →
  (∀ q, q ∈ qps x → sends_on s q = m) → srq_recvs s = depth →
  (∀ j, (j < Z.to_nat k)%nat → pendings x !! j = Some (bits ahead m 0 0)) →
  node_inv ahead iters k depth (Node (start c x s depth) (replicate (Z.to_nat k) (0, 0))).
Proof.
  intros Hi Ha Hm Hd Hw Hq Hr Hp. pose proof (cw_len _ _ _ Hw) as Hlen. cbn [sq_part start] in Hlen.
  assert (qp_sends (start c x s depth) = replicate (Z.to_nat k) m) as Eqs.
  { unfold qp_sends, start, hw_of. cbn [sq_run sq_part rc_hw].
    symmetry; apply replicate_as_elem_of; split; [rewrite length_fmap; lia|].
    by intros y (q & -> & ?%Hq)%list_elem_of_fmap. }
  constructor; [constructor|]; cbn [nd counts]; rewrite ?Eqs.
  - done.
  - apply Forall2_replicate. unfold counts_ok. cbn [fst snd]. lia.
  - cbn. rewrite fmap_replicate, zsum_replicate. cbn. lia.
  - cbn. rewrite fmap_replicate, zsum_replicate. cbn. lia.
  - rewrite zsum_replicate. nia.
  - unfold start, hw_of. cbn. lia.
  - cbn. lia.
  - intros j n' s2 r2 Hn' Hcs. rewrite Eqs in Hn'.
    apply lookup_replicate in Hn' as [-> Hj]. apply lookup_replicate in Hcs as [[= -> ->] _].
    split; [by apply Hp|]. unfold bits. rewrite (proj2 (Z.ltb_lt 0 (m + ahead))) by lia.
    unfold PINGPONG_RECV_WRID, PINGPONG_SEND_WRID. destruct (0 <? m); lia.
Qed.

Lemma srq_launch_inv o page iters k c x s :
  1 ≤ iters → ready k c x s →
  ∃ n s', launch o page c x s = (Done (Some n), s') ∧
    node_inv (ahead_of o) iters k (rx_depth c) n ∧ counts n = replicate (Z.to_nat k) (0, 0).
Proof.
  intros Hi (Hw & Hs & Hr & Hp & Hk & Hd). unfold launch.
  destruct (srq_post_recv_accepted k (rx_depth c) (start c x s 0) (rx_depth c) Hw)
    as (s1 & E & Ew & El & Es & Er); [lia|].
  unfold start, hw_of in E, Ew, El, Es, Er. cbn [sq_run sq_part rc_hw ctx] in *.
  rewrite (bind_done _ _ _ _ _ E), Z.ltb_irrefl. unfold first_sends, ahead_of.
  pose proof (cw_len _ _ _ Hw) as Hlen. cbn [sq_part start] in Hlen.
  pose proof (cw_num_qp _ _ _ Hw) as Hnum. cbn [sq_part start] in Hnum. rewrite Hnum.
  assert (length (pendings x) = Z.to_nat MAX_QP) as Hpl by (by rewrite Hp, length_replicate).
  assert (Z.to_nat k = length (qps x)) as Hkl by lia.
  destruct (o_servername o) as [h|].
  - set (c1 := if validate_buf _ then _ else c).
    assert (∀ x s, can_work k (rx_depth c) (start c x s 0) → can_work k (rx_depth c) (start c1 x s 0)) as Hc1.
    { intros x1 s2 [? ? ? ? ? ? ? ? ?]. unfold c1. destruct (validate_buf _); by constructor. }
    destruct (send_loop_ok k (rx_depth c) c1 x s1 (Z.to_nat k) 0 x s1) as (x' & s' & E' & Hsu).
    + apply Hc1. eapply can_work_same; [exact Hw|done..].
    + constructor; try done; [|lia]. intros j q _. rewrite decide_False by lia. lia.
    + lia.
    + rewrite Hpl. unfold MAX_QP in *. lia.
    + rewrite bind_assoc, (bind_done _ _ _ _ _ E'), bind_ret. cbn [fmap option_fmap option_map].
      erewrite bind_done by reflexivity. eexists _, _. split; [reflexivity|].
      rewrite Nat.add_0_l in Hsu. destruct Hsu as [H1 H2 H3 H4 H5 H6 H7 H8 H9].
      rewrite H5, <-Hkl. split; [|done]. apply (start_inv 0 1); try lia.
      * apply (can_work_same _ _ (start c1 x' s' 0)); [|done..].
        apply Hc1. eapply can_work_same; [exact Hw| | |done..]; unfold start, hw_of; cbn; congruence.
      * rewrite H5. intros q Hq. apply list_elem_of_lookup in Hq as [j Hj].
        rewrite (H8 j q Hj), Es, Hs, decide_True; [done|]. apply lookup_lt_Some in Hj. lia.
      * intros j Hj. rewrite H9; [done|lia|]. rewrite Hpl. unfold MAX_QP in *. lia.
  - destruct (wait_loop_ok (Z.to_nat k) 0 x) as (E1 & E2 & E3 & _ & E5).
    { rewrite Hpl. unfold MAX_QP in *. lia. }
    erewrite bind_done by reflexivity.
    eexists _, _. split; [reflexivity|]. set (x' := wait_loop _ _ _) in *. rewrite E3, <-Hkl. split; [|done].
    apply (start_inv 1 0); try lia.
    + eapply can_work_same; [exact Hw|done..].
    + rewrite E3. intros q Hq. by rewrite Es, Hs.
    + intros j Hj. rewrite E5; [done|lia].
Qed.

Lemma within_zero n ms : Forall (λ m, 0 ≤ m) ms → length ms = n → within (replicate n (0, 0)) ms.
Proof. intros H <-. induction H; constructor; [done|done]. Qed.

Lemma sends_nonneg a : Forall (λ m, 0 ≤ m) (qp_sends a).
Proof. apply Forall_fmap, Forall_true. intros q. unfold compose, sends_on. lia. Qed.

Lemma node_length ahead iters k depth n :
  node_inv ahead iters k depth n → length (qp_sends (nd n)) = Z.to_nat k.
Proof.
  intros [Hc _]. unfold qp_sends. rewrite length_fmap.
  pose proof (cw_len _ _ _ (co_work _ _ _ _ _ _ Hc)). lia.
Qed.

(** Both ends ready: both launches succeed, in a state of [pair_inv]. *)
Lemma srq_launch_pair oc ov pc pv iters k cc cv xc xv sc sv :
  1 ≤ iters → is_client oc → ¬ is_client ov → ready k cc xc sc → ready k cv xv sv →
  ∃ c v sc' sv', launch oc pc cc xc sc = (Done (Some c), sc') ∧
    launch ov pv cv xv sv = (Done (Some v), sv') ∧
    pair_inv iters k (rx_depth cc) (rx_depth cv) (c, v) ∧ events (c, v) = 0.
Proof.
  intros Hi Hoc Hov Hc Hv.
  destruct (srq_launch_inv oc pc iters k cc xc sc Hi Hc) as (c & sc' & Ec & Ic & Zc).
  destruct (srq_launch_inv ov pv iters k cv xv sv Hi Hv) as (v & sv' & Ev & Iv & Zv).
  unfold is_client, ahead_of in *.
  destruct (o_servername oc); [|done]. destruct (o_servername ov); [by destruct Hov|].
  exists c, v, sc', sv'. do 2 (split; [done|]). split.
  - constructor; cbn [fst snd]; [done..| |]; rewrite ?Zc, ?Zv; apply within_zero;
      (apply sends_nonneg || by eapply node_length).
  - unfold events, treated. cbn [fst snd]. rewrite Zc, Zv, !fmap_replicate, !zsum_replicate.
    cbn [fst snd]. lia.
Qed.

Lemma ready_bounds k c x s : ready k c x s → 1 ≤ k ∧ k ≤ rx_depth c ≤ int_max.
Proof. intros (_ & _ & _ & _ & ? & ?). lia. Qed.

(** C3: two ends of the shared-receive-queue program, with their queue pairs
    connected and room for [rx_depth] receives, both pass their first posts;
    whatever the order in which the completions of the queue pairs of each end
    are delivered, they treat at most [4 (iters - 1 + num_qp)] of them, no
    post is refused, and while an end is in its loop one that is in its loop
    has a completion to treat: neither waits for ever. *)
Theorem srq_pingpong_completes (oc ov : rc_opts) (pc pv iters k : Z)
    (cc cv : pingpong_context) (xc xv : srq_part) (sc sv : hw)
    (Hi : 1 ≤ iters) (Hmax : iters + k ≤ int_max) (Hoc : is_client oc) (Hov : ¬ is_client ov)
    (Hc : ready k cc xc sc) (Hv : ready k cv xv sv) :
  ∃ c v sc' sv', launch oc pc cc xc sc = (Done (Some c), sc') ∧
    launch ov pv cv xv sv = (Done (Some v), sv') ∧
    ∀ n x, nsteps (step iters) n (c, v) x →
      Z.of_nat n ≤ 4 * (iters - 1 + k) ∧
      (running iters x.1 ∨ running iters x.2 → ∃ y, live_step iters x y).
Proof.
  destruct (srq_launch_pair oc ov pc pv iters k cc cv xc xv sc sv Hi Hoc Hov Hc Hv)
    as (c & v & sc' & sv' & Ec & Ev & Hinv & Hev).
  pose proof (ready_bounds _ _ _ _ Hc) as [Hk Hdc]. pose proof (ready_bounds _ _ _ _ Hv) as [_ Hdv].
  exists c, v, sc', sv'. do 2 (split; [done|]). intros n x Hn.
  destruct (pair_run iters k _ _ Hi Hk Hmax Hdc Hdv n _ x Hinv Hn) as [Hx Ex].
  pose proof (srq_events_bound iters k _ _ Hk x Hx). split; [lia|].
  by apply (live_or_over iters k _ _ Hi Hk Hmax Hdc Hdv).
Qed.

(** At every moment of such a run, each queue pair has at most one send
    that is not completed, and the shared queue of each end holds a receive
    for every message on its way, never more than its depth. *)
Theorem srq_queues_bounded (oc ov : rc_opts) (pc pv iters k : Z)
    (cc cv : pingpong_context) (xc xv : srq_part) (sc sv sc' sv' : hw) (c v : node) (x : both)
    (Hi : 1 ≤ iters) (Hmax : iters + k ≤ int_max) (Hoc : is_client oc) (Hov : ¬ is_client ov)
    (Hc : ready k cc xc sc) (Hv : ready k cv xv sv)
    (Ec : launch oc pc cc xc sc = (Done (Some c), sc'))
    (Ev : launch ov pv cv xv sv = (Done (Some v), sv')) (Hx : rtc (step iters) (c, v) x) :
  (Forall2 (λ n p, 0 ≤ n - p.1 ≤ 1) (qp_sends (nd x.1)) (counts x.1) ∧
   Forall2 (λ n p, 0 ≤ n - p.1 ≤ 1) (qp_sends (nd x.2)) (counts x.2)) ∧
  (zsum (qp_sends (nd x.2)) - rcnt (sq_run (nd x.1))
     ≤ srq_recvs (hw_of (nd x.1)) - rcnt (sq_run (nd x.1)) ≤ rx_depth cc) ∧
  (zsum (qp_sends (nd x.1)) - rcnt (sq_run (nd x.2))
     ≤ srq_recvs (hw_of (nd x.2)) - rcnt (sq_run (nd x.2)) ≤ rx_depth cv).
Proof.
  destruct (srq_launch_pair oc ov pc pv iters k cc cv xc xv sc sv Hi Hoc Hov Hc Hv)
    as (c1 & v1 & sc1 & sv1 & Ec1 & Ev1 & Hinv & _).
  rewrite Ec1 in Ec. rewrite Ev1 in Ev. injection Ec as -> _. injection Ev as -> _.
  pose proof (ready_bounds _ _ _ _ Hc) as [Hk Hdc]. pose proof (ready_bounds _ _ _ _ Hv) as [_ Hdv].
  apply rtc_nsteps in Hx as [n Hn].
  destruct (pair_run iters k _ _ Hi Hk Hmax Hdc Hdv n _ x Hinv Hn) as [Hp _].
  destruct (queues_bounded iters k _ _ Hk x Hp) as (A & B & C & D). split; [done|]. split; lia.
Qed.

(** ** Concrete ends *)

Definition demo_srq_init : outcome (option (pingpong_context * srq_part)) * hw :=
  pp_init_ctx false 1 64 3 5 1 false demo_hw.
Definition demo_srq_ctx : pingpong_context * srq_part :=
  match demo_srq_init.1 with
  | Done (Some r) => r
  | _ => (demo_ctx, SrqPart 0 0 [] [])
  end.
Definition demo_srq_launch (s : option cstr) : outcome (option node) * hw :=
  launch (demo_opts s) 4096 demo_srq_ctx.1 demo_srq_ctx.2 demo_srq_init.2.
Definition demo_srq_end (s : option cstr) : node :=
  match (demo_srq_launch s).1 with
  | Done (Some c) => c
  | _ => Node (start demo_ctx demo_srq_ctx.2 demo_hw 0) []
  end.

Lemma demo_srq_ready : ready 3 demo_srq_ctx.1 demo_srq_ctx.2 demo_srq_init.2.
Proof.
  assert (qps demo_srq_ctx.2 = [8; 10; 12]) as Eq by (vm_compute; reflexivity).
  assert (h_world demo_srq_init.2 = demo_world) as Ew by (vm_compute; reflexivity).
  split.
  - constructor; unfold start, hw_of, accepts; cbn [sq_run sq_part rc_hw ctx]; rewrite ?Eq, ?Ew.
    1: done.
    1, 2: vm_compute; reflexivity.
    1: repeat (constructor; [vm_compute; reflexivity|]); constructor.
    3-5: vm_compute; reflexivity.
    + change (NoDup [208; 210; 212]). apply (bool_decide_unpack _). vm_compute. exact I.
    + apply (bool_decide_unpack _). vm_compute. exact I.
  - split; [intros q; vm_compute; reflexivity|].
    split; [vm_compute; reflexivity|]. split; [vm_compute; reflexivity|].
    vm_compute. repeat split; discriminate.
Qed.

Lemma srq_pingpong_completes_witness :
  ∃ c v sc' sv',
    launch (demo_opts (Some (L "host"))) 4096 demo_srq_ctx.1 demo_srq_ctx.2 demo_srq_init.2
      = (Done (Some c), sc') ∧
    launch (demo_opts None) 4096 demo_srq_ctx.1 demo_srq_ctx.2 demo_srq_init.2 = (Done (Some v), sv') ∧
    ∀ n x, nsteps (step 4) n (c, v) x →
      Z.of_nat n ≤ 4 * (4 - 1 + 3) ∧ (running 4 x.1 ∨ running 4 x.2 → ∃ y, live_step 4 x y).
Proof.
  apply srq_pingpong_completes; [lia|unfold int_max; lia|discriminate| |apply demo_srq_ready..].
  intros H. by apply H.
Defined.

Lemma demo_srq_end_eq s :
  s = None ∨ s = Some (L "host") →
  launch (demo_opts s) 4096 demo_srq_ctx.1 demo_srq_ctx.2 demo_srq_init.2
  = (Done (Some (demo_srq_end s)), (demo_srq_launch s).2).
Proof. intros [-> | ->]; vm_compute; reflexivity. Qed.

Lemma srq_queues_bounded_witness :
  let x := (demo_srq_end (Some (L "host")), demo_srq_end None) in
  (Forall2 (λ n p, 0 ≤ n - p.1 ≤ 1) (qp_sends (nd x.1)) (counts x.1) ∧
   Forall2 (λ n p, 0 ≤ n - p.1 ≤ 1) (qp_sends (nd x.2)) (counts x.2)) ∧
  (zsum (qp_sends (nd x.2)) - rcnt (sq_run (nd x.1))
     ≤ srq_recvs (hw_of (nd x.1)) - rcnt (sq_run (nd x.1)) ≤ rx_depth demo_srq_ctx.1) ∧
  (zsum (qp_sends (nd x.1)) - rcnt (sq_run (nd x.2))
     ≤ srq_recvs (hw_of (nd x.2)) - rcnt (sq_run (nd x.2)) ≤ rx_depth demo_srq_ctx.1).
Proof.
  cbv zeta.
  refine (srq_queues_bounded (demo_opts (Some (L "host"))) (demo_opts None) 4096 4096 4 3
            demo_srq_ctx.1 demo_srq_ctx.1 demo_srq_ctx.2 demo_srq_ctx.2 demo_srq_init.2 demo_srq_init.2
            _ _ _ _ _ _ _ _ _ demo_srq_ready demo_srq_ready (demo_srq_end_eq _ _) (demo_srq_end_eq _ _) _).
  - lia.
  - unfold int_max. lia.
  - discriminate.
  - intros H. by apply H.
  - by right.
  - by left.
  - apply rtc_refl.
Defined.
