(* ===== verification/XsrqPingpong.v ===== *)
(** * The pingpong over XRC domains (rdma-core/xsrq_pingpong.c)

    A server with several clients.  An end has, for each peer, a queue pair
    that receives and one that sends; the messages for a peer go round robin
    over all the queue pairs that send, and name the shared receive queue they
    are for.  The part of the static [ctx] that no longer changes once the
    set-up is over is a value of [pingpong_context]; the array [rem_dest] is
    the state [xsrq], over the hardware. *)

From Stdlib Require Import ZifyBool.
From S2P Require Import Prelude CLib OS Gid Verbs Exch RcPingpong SrqPingpong.

Local Open Scope Z_scope.

(** [MSG_SIZE] of this file, and the access flags it uses. *)
Definition XMSG_SIZE : Z := 66.
Definition TERMINATION_MSG_SIZE : Z := 4.
Definition TERMINATION_MSG : cstr := L "END".
Definition IBV_ACCESS_REMOTE_WRITE : Z := 2.
Definition IBV_ACCESS_REMOTE_READ : Z := 4.

(** [struct pingpong_dest]; the GID and the LID have other names in Rocq. *)
Record xdest := XDest {
  rgid : list Z;
  rlid : Z;
  recv_qpn : Z;
  send_qpn : Z;
  recv_psn : Z;
  send_psn : Z;
  srqn : Z;
  pp_cnt : Z;
  sockfd : Z }.

Definition set_recv_psn (v : Z) (d : xdest) : xdest :=
  XDest (rgid d) (rlid d) (recv_qpn d) (send_qpn d) v (send_psn d) (srqn d) (pp_cnt d) (sockfd d).
Definition set_pp_cnt (v : Z) (d : xdest) : xdest :=
  XDest (rgid d) (rlid d) (recv_qpn d) (send_qpn d) (recv_psn d) (send_psn d) (srqn d) v (sockfd d).

(** [calloc]. *)
Definition no_dest : xdest := XDest (replicate 16 0) 0 0 0 0 0 0 0 0.

(** The options: fields of [ctx], the locals of [main] and [use_odp]. *)
Record xopts := XOpts {
  x_port : Z;
  x_devname : option cstr;
  x_servername : option cstr;
  ib_port : Z;
  msg_size : Z;
  mtu : Z;
  num_clients : Z;
  num_tests : Z;
  sl : Z;
  gidx : Z;
  use_event : bool;
  x_odp : bool }.

(** [struct pingpong_context] after the set-up. *)
Record xctx := XCtx {
  xo : xopts;
  recv_arr : Z;
  send_arr : Z;
  rem_arr : Z;
  context : Z;
  xbuf : Z;
  channel : Z;
  pd : Z;
  mr : Z;
  domain_fd : Z;
  xrcd : Z;
  recv_cq : Z;
  send_cq : Z;
  srq : Z;
  recv_qp : list Z;
  send_qp : list Z;
  my_lid : Z }.

(** ** Setting up

    Nothing is given back when a step fails: [main] returns 1 at once. *)

Definition open_device (ib_devname : option cstr) (devs : option (list (cstr * Z)))
    : M hw (option Z) :=
  match devs with
  | None => mret None
  | Some l =>
      dev_list ← make NewDevList [];
      match pick_device ib_devname l with
      | None => mret None
      | Some d =>
          p ← new (NewContext d) [];
          if p =? 0 then mret None else release (KDevList, dev_list);; mret (Some p)
      end
  end.

(** [calloc (n, size)]: a negative number is a size that does not fit. *)
Definition calloc (n size : Z) : M hw Z :=
  if n <? 0 then mret 0 else new (NewMem (wrap_u 64 (n * size))) [].

Definition init_attrs (o : xopts) (access : Z) : list qp_attr :=
  [QP_STATE QPS_INIT; QP_PKEY_INDEX 0; QP_PORT (wrap_u 8 (ib_port o)); QP_ACCESS_FLAGS access].

(** [create_qps], [k] peers being left: the queue pairs that receive and those
    that send. *)
Fixpoint create_qps (o : xopts) (context pd xrcd send_cq : Z) (k : nat)
    : M hw (option (list Z * list Z)) :=
  match k with
  | O => mret (Some ([], []))
  | S k =>
      r ← new (NewQp true QPT_XRC_RECV 0 0) [(KContext, context); (KXrcd, xrcd)];
      if r =? 0 then mret None
      else
        e ← call [(KQp, r)] (ModifyQp r
              (init_attrs o (Z.lor IBV_ACCESS_REMOTE_WRITE IBV_ACCESS_REMOTE_READ)));
        if e <>z 0 then mret None
        else
          n ← int_mul (num_clients o) (num_tests o);
          q ← new (NewQp true QPT_XRC_SEND (wrap_u 32 n) 0)
                [(KContext, context); (KPd, pd); (KCq, send_cq)];
          if q =? 0 then mret None
          else
            e ← call [(KQp, q)] (ModifyQp q (init_attrs o 0));
            if e <>z 0 then mret None
            else
              l ← create_qps o context pd xrcd send_cq k;
              mret ('(rs, qs) ← l; Some (r :: rs, q :: qs))
  end.

(** The device's support for on-demand paging, when it is asked for. *)
Definition xrc_odp_support (d : device) : bool :=
  let xrc_caps_mask := Z.lor IBV_ODP_SUPPORT_SEND IBV_ODP_SUPPORT_SRQ_RECV in
  (Z.land (odp_general d) IBV_ODP_SUPPORT <>z 0) &&
  (Z.land (odp_xrc d) xrc_caps_mask =? xrc_caps_mask).

(** The features and the port: the LID. *)
Definition init_port (o : xopts) (context : Z) : M hw (option Z) :=
  e ← (if x_odp o then call [(KContext, context)] (QueryDevice context) else mret 0);
  if e <>z 0 then mret None
  else
    s ← get;
    let d := h_dev (h_world s) in
    if x_odp o && negb (xrc_odp_support d) then mret None
    else
      e ← call [(KContext, context)] (QueryPort context (wrap_u 8 (ib_port o)));
      if e <>z 0 then mret None
      else if negb (port_ethernet d) && (port_lid d =? 0) then mret None
      else mret (Some (port_lid d)).

(** The descriptor of the domain's file: [dom] is what [open] returns. *)
Definition open_domain (dom : Z) : M hw Z :=
  if dom <? 0 then mret (-1) else sys (modify (set_conn dom (Conn [] [] [])));; mret dom.

(** From the completion queues on: they, the shared receive queue and the
    queue pairs. *)
Definition init_queues (o : xopts) (context channel pd xrcd : Z)
    : M hw (option (Z * Z * Z * (list Z * list Z))) :=
  recv_cq ← new (NewCq false (num_clients o)) ((KContext, context) :: opt_obj KChannel channel);
  if recv_cq =? 0 then mret None
  else
    e ← (if use_event o then call [(KCq, recv_cq)] (ReqNotifyCq recv_cq) else mret 0);
    if e <>z 0 then mret None
    else
      send_cq ← new (NewCq false (num_clients o)) [(KContext, context)];
      if send_cq =? 0 then mret None
      else
        srq ← new (NewSrq (wrap_u 32 (num_clients o)))
                [(KContext, context); (KXrcd, xrcd); (KCq, recv_cq); (KPd, pd)];
        if srq =? 0 then mret None
        else
          l ← create_qps o context pd xrcd send_cq (Z.to_nat (num_clients o));
          mret (pair (recv_cq, send_cq, srq) <$> l).

(** The buffer, the protection domain, the memory region and the XRC domain. *)
Definition init_memory (o : xopts) (context dom : Z) : M hw (option (Z * Z * Z * Z * Z * Z)) :=
  let access_flags := if x_odp o then Z.lor IBV_ACCESS_LOCAL_WRITE IBV_ACCESS_ON_DEMAND
                      else IBV_ACCESS_LOCAL_WRITE in
  buf ← new (NewMem (wrap_u 64 (msg_size o))) [];
  if buf =? 0 then mret None
  else
    channel ← (if use_event o then new NewChannel [(KContext, context)] else mret 0);
    if use_event o && (channel =? 0) then mret None
    else
      pd ← new NewPd [(KContext, context)];
      if pd =? 0 then mret None
      else
        mr ← new (NewMr false (wrap_u 64 (msg_size o)) access_flags) [(KPd, pd); (KMem, buf)];
        if mr =? 0 then mret None
        else
          fd ← open_domain dom;
          xrcd ← new (NewXrcd fd) [(KContext, context)];
          if xrcd =? 0 then mret None else mret (Some (buf, channel, pd, mr, fd, xrcd)).

(** The context and [rem_dest], or nothing when it returns 1. *)
Definition pp_init_ctx (o : xopts) (devs : option (list (cstr * Z))) (dom : Z)
    : M hw (option (xctx * list xdest)) :=
  recv_arr ← calloc (num_clients o) 8;
  send_arr ← calloc (num_clients o) 8;
  rem_arr ← calloc (num_clients o) 48;
  if (recv_arr =? 0) || (send_arr =? 0) || (rem_arr =? 0) then mret None
  else
    c ← open_device (x_devname o) devs;
    match c with
    | None => mret None
    | Some context =>
        l ← init_port o context;
        match l with
        | None => mret None
        | Some lid =>
            m ← init_memory o context dom;
            match m with
            | None => mret None
            | Some (buf, channel, pd, mr, fd, xrcd) =>
                q ← init_queues o context channel pd xrcd;
                mret ('(recv_cq, send_cq, srq, (rs, qs)) ← q;
                      Some (XCtx o recv_arr send_arr rem_arr context buf channel pd mr fd xrcd
                              recv_cq send_cq srq rs qs lid,
                            replicate (Z.to_nat (num_clients o)) no_dest))
            end
        end
    end.

(** ** The state of a run *)

Record xsrq := Xsrq { x_hw : hw; rem_dest : list xdest }.

Definition set_x_hw (v : hw) (s : xsrq) : xsrq := Xsrq v (rem_dest s).
Definition set_rem_dest (v : list xdest) (s : xsrq) : xsrq := Xsrq (x_hw s) v.

#[global] Program Instance xsrq_hw : Lens xsrq hw := {| lget := x_hw; lset := set_x_hw |}.
Next Obligation. done. Qed.
Next Obligation. by intros []. Qed.
Next Obligation. done. Qed.

Definition hard {A} (m : M hw A) : M xsrq A := zoom m.

(** [ctx.rem_dest[index]]. *)
Definition peer (index : nat) : M xsrq xdest :=
  s ← get; or_fault OutOfBounds (rem_dest s !! index).
Definition set_peer (index : nat) (d : xdest) : M xsrq () :=
  modify (λ s, set_rem_dest (<[index := d]> (rem_dest s)) s).

(** ** The exchange of addresses *)

Definition xdest_text (lid recv_qpn send_qpn psn srqn : Z) (gid : list Z) : cstr :=
  show_hex 4 lid ++ L ":" ++ show_hex 6 recv_qpn ++ L ":" ++ show_hex 6 send_qpn ++ L ":" ++
  show_hex 6 psn ++ L ":" ++ show_hex 6 srqn ++ L ":" ++ gid_to_wire_gid gid.

(** [sprintf] into [msg]; the text of a GID has 32 characters. *)
Definition xdest_msg (lid recv_qpn send_qpn psn srqn : Z) (gid : list Z) : option (list char) :=
  let t := xdest_text lid recv_qpn send_qpn psn srqn gid in
  if XMSG_SIZE <=? strlen t then None else Some (t ++ [NUL]).

(** [n] numbers in hexadecimal, each followed by a colon. *)
Fixpoint scan_fields (n : nat) (s : cstr) : option (list Z * cstr) :=
  match n with
  | O => Some ([], s)
  | S n =>
      '(z, s) ← scan_hex s; s ← skip_colon s; '(l, s) ← scan_fields n s; Some (wrap_s 32 z :: l, s)
  end.

(** [sscanf] into the entry [d], and [wire_gid_to_gid].  When a conversion
    fails nothing was stored into the local [gid], which is then read. *)
Definition scan_xdest (msg : list char) (d : xdest) : outcome xdest :=
  match cstr_at msg with
  | None => Fault OutOfBounds
  | Some s =>
      match scan_fields 5 s with
      | Some ([l; rq; sq; p; n], s) =>
          let '(t, _) := break is_space (skip_space s) in
          if GID_SIZE <=? strlen t then Fault OutOfBounds
          else
            match wire_gid_to_gid (store_gid t server_gid) with
            | None => Fault Uninitialised
            | Some g => Done (XDest g l rq sq (recv_psn d) p n (pp_cnt d) (sockfd d))
            end
      | _ => Fault Uninitialised
      end
  end.

(** [rand] is the random number drawn. *)
Definition send_local_dest (c : xctx) (sockfd : Z) (index : nat) (rand : Z) : M xsrq Z :=
  s ← get;
  let d := h_dev (h_world (x_hw s)) in
  e ← (if 0 <=? gidx (xo c) then
         hard (call [(KContext, context c)]
                 (QueryGid (context c) (wrap_u 8 (ib_port (xo c))) (gidx (xo c))))
       else mret 0);
  if e <>z 0 then mret (-1)
  else
    let g := if 0 <=? gidx (xo c) then port_gid d (gidx (xo c)) else replicate 16 0 in
    p ← peer index;
    let psn := Z.land rand 0xffffff in
    set_peer index (set_recv_psn psn p);;
    e ← hard (call [(KSrq, srq c)] (GetSrqNum (srq c)));
    if e <>z 0 then mret (-1)
    else
      rq ← or_fault OutOfBounds (recv_qp c !! index);
      sq ← or_fault OutOfBounds (send_qp c !! index);
      msg ← or_fault OutOfBounds
              (xdest_msg (my_lid c) (qp_num d rq) (qp_num d sq) psn (srq_num d (srq c)) g);
      ok ← hard (write_msg sockfd msg);
      mret (if negb ok then -1 else 0).

Definition recv_remote_dest (fd : Z) (index : nat) : M xsrq Z :=
  m ← hard (read_all XMSG_SIZE fd);
  match m with
  | None => mret (-1)
  | Some m =>
      p ← peer index;
      d ← lift (scan_xdest m p);
      set_peer index (XDest (rgid d) (rlid d) (recv_qpn d) (send_qpn d) (recv_psn d) (send_psn d)
                        (srqn d) (pp_cnt d) fd);;
      mret 0
  end.

(** ** Connecting *)

(** [set_ah_attr], when the peer has a GID. *)
Definition xrc_ah (o : xopts) (d : xdest) : ah_attr :=
  if has_interface_id (rgid d)
  then AhAttr 1 (wrap_u 16 (rlid d)) (wrap_u 8 (sl o)) 0 (wrap_u 8 (ib_port o)) 5 (rgid d)
         (wrap_u 8 (gidx o))
  else AhAttr 0 (wrap_u 16 (rlid d)) (wrap_u 8 (sl o)) 0 (wrap_u 8 (ib_port o)) 0
         (replicate 16 0) 0.

(** The four calls of [connect_qps]: to the queue pair that receives, then to
    the one that sends. *)
Definition recv_rtr (o : xopts) (d : xdest) : list qp_attr :=
  [QP_STATE QPS_RTR; QP_AV (xrc_ah o d); QP_PATH_MTU (mtu o); QP_DEST_QPN (wrap_u 32 (send_qpn d));
   QP_RQ_PSN (wrap_u 32 (send_psn d)); QP_MAX_DEST_RD_ATOMIC 0; QP_MIN_RNR_TIMER 12].
Definition recv_rts (d : xdest) : list qp_attr :=
  [QP_STATE QPS_RTS; QP_TIMEOUT 14; QP_SQ_PSN (wrap_u 32 (recv_psn d))].
Definition send_rtr (o : xopts) (d : xdest) : list qp_attr :=
  [QP_STATE QPS_RTR; QP_AV (xrc_ah o d); QP_PATH_MTU (mtu o); QP_DEST_QPN (wrap_u 32 (recv_qpn d));
   QP_RQ_PSN (wrap_u 32 (send_psn d))].
Definition send_rts (d : xdest) : list qp_attr :=
  [QP_STATE QPS_RTS; QP_TIMEOUT 14; QP_SQ_PSN (wrap_u 32 (recv_psn d)); QP_RETRY_CNT 7;
   QP_RNR_RETRY 7; QP_MAX_QP_RD_ATOMIC 0].

(** The calls in order; 1 at the first that fails. *)
Fixpoint modify_all (l : list (Z * list qp_attr)) : M hw Z :=
  match l with
  | [] => mret 0
  | (q, a) :: l => e ← call [(KQp, q)] (ModifyQp q a); if e <>z 0 then mret 1 else modify_all l
  end.

Definition connect_qps (c : xctx) (index : nat) : M xsrq Z :=
  d ← peer index;
  rq ← or_fault OutOfBounds (recv_qp c !! index);
  sq ← or_fault OutOfBounds (send_qp c !! index);
  hard (modify_all [(rq, recv_rtr (xo c) d); (rq, recv_rts d);
                    (sq, send_rtr (xo c) d); (sq, send_rts d)]).

Definition pp_client_connect (c : xctx) (servername : cstr) (port : Z) (rand : nat → Z)
    : M xsrq Z :=
  sockfd ← hard (open_socket (Some servername) port);
  if sockfd <? 0 then mret 1
  else
    e ← send_local_dest c sockfd 0 (rand 0%nat);
    if e <>z 0 then hard (sys (shutdown_close sockfd));; mret 1
    else
      e ← recv_remote_dest sockfd 0;
      if e <>z 0 then mret 1
      else
        e ← connect_qps c 0;
        mret (if e <>z 0 then 1 else 0).

(** The loop over the clients, from [i] on, [k] being left. *)
Fixpoint accept_clients (c : xctx) (sockfd : Z) (rand : nat → Z) (k i : nat) : M xsrq Z :=
  match k with
  | O => mret 0
  | S k =>
      connfd ← hard (sys sys_accept);
      match connfd with
      | None => mret 1
      | Some connfd =>
          e ← recv_remote_dest connfd i;
          if e <>z 0 then mret 1
          else
            e ← send_local_dest c connfd i (rand i);
            if e <>z 0 then mret 1
            else
              e ← connect_qps c i;
              if e <>z 0 then mret 1 else accept_clients c sockfd rand k (S i)
      end
  end.

Definition pp_server_connect (c : xctx) (port : Z) (rand : nat → Z) : M xsrq Z :=
  sockfd ← hard (open_socket None port);
  if sockfd <? 0 then mret 1
  else
    e ← accept_clients c sockfd rand (Z.to_nat (num_clients (xo c))) 0;
    if e <>z 0 then mret 1 else hard (sys (shutdown_close sockfd));; mret 0.

(** ** The end of a run *)

Definition recv_termination_ack (index : nat) : M xsrq Z :=
  d ← peer index;
  m ← hard (read_all TERMINATION_MSG_SIZE (sockfd d));
  mret (match m with
        | None => 1
        | Some m => if str_eq m (TERMINATION_MSG ++ [NUL]) then 0 else 1
        end).

Definition send_termination_ack (index : nat) : M xsrq Z :=
  d ← peer index;
  ok ← hard (write_msg (sockfd d) (TERMINATION_MSG ++ [NUL]));
  mret (if negb ok then 1 else 0).

Definition pp_client_termination : M xsrq Z :=
  e ← send_termination_ack 0;
  if e <>z 0 then mret 1
  else e ← recv_termination_ack 0; mret (if e <>z 0 then 1 else 0).

(** A loop over the clients that stops at the first error. *)
Fixpoint for_clients (f : nat → M xsrq Z) (k i : nat) : M xsrq Z :=
  match k with
  | O => mret 0
  | S k => e ← f i; if e <>z 0 then mret 1 else for_clients f k (S i)
  end.

Definition pp_server_termination (c : xctx) : M xsrq Z :=
  let n := Z.to_nat (num_clients (xo c)) in
  e ← for_clients recv_termination_ack n 0;
  if e <>z 0 then mret 1 else for_clients send_termination_ack n 0.

(** The loop of [pp_close_ctx] over the peers. *)
Fixpoint close_peers (sqs rqs : list Z) (l : list xdest) (k : M hw Z) : M hw Z :=
  match sqs, rqs, l with
  | sq :: sqs, rq :: rqs, d :: l =>
      close_step (KQp, sq) (
      close_step (KQp, rq) (
      (if sockfd d =? 0 then mret tt else sys (shutdown_close (sockfd d)));;
      close_peers sqs rqs l k))
  | _, _, _ => k
  end.

(** [close] of the domain's file: the descriptor goes whatever it returns. *)
Definition close_domain (fd : Z) : M hw Z :=
  s ← get;
  modify tick;;
  sys (shutdown_close fd);;
  mret (h_int (h_world s) (h_time s)).

Definition pp_close_ctx (c : xctx) (l : list xdest) : M hw Z :=
  close_peers (send_qp c) (recv_qp c) l (
  close_step (KSrq, srq c) (
  close_step (KXrcd, xrcd c) (
  e ← (if 0 <=? domain_fd c then close_domain (domain_fd c) else mret 0);
  if e <>z 0 then mret 1
  else
    close_step (KCq, send_cq c) (
    close_step (KCq, recv_cq c) (
    close_step (KMr, mr c) (
    close_step (KPd, pd c) (
    let k :=
      close_step (KContext, context c) (
      release (KMem, xbuf c);;
      release (KMem, rem_arr c);;
      release (KMem, send_arr c);;
      release (KMem, recv_arr c);;
      mret 0) in
    if channel c =? 0 then k else close_step (KChannel, channel c) k))))))).

(** ** Posting work *)

Definition work_list (s : hw) (c : xctx) : sge :=
  Sge (xbuf c) (wrap_u 32 (msg_size (xo c))) (mr_lkey (h_dev (h_world s)) (mr c)).

(** [while (cnt--)], the work request having the address [wr_id]: 1 at the
    first failure.  A negative count is decremented until it overflows. *)
Fixpoint post_all (c : M hw Z) (k : nat) (last : M hw Z) : M hw Z :=
  match k with
  | O => last
  | S k => e ← c; if e <>z 0 then mret 1 else post_all c k last
  end.

Definition ctx_addr : Z := 1.

Definition pp_post_recv (c : xctx) (cnt : Z) : M hw Z :=
  s ← get;
  let post := call [(KSrq, srq c); (KMr, mr c)] (PostSrqRecv (srq c) ctx_addr (work_list s c)) in
  if 0 <=? cnt then post_all post (Z.to_nat cnt) (mret 0)
  else post_all post (Z.to_nat (cnt - int_min)) (fault_ Overflow).

Definition pp_post_send (c : xctx) (index : nat) : M xsrq Z :=
  s ← get;
  d ← peer index;
  n ← int_add (Z.of_nat index) (pp_cnt d);
  let qpi := Z.rem n (num_clients (xo c)) in
  cnt ← int_add (pp_cnt d) 1;
  set_peer index (set_pp_cnt cnt d);;
  let flags := if num_tests (xo c) <=? cnt then IBV_SEND_SIGNALED else 0 in
  q ← or_fault OutOfBounds (send_qp c !! Z.to_nat qpi);
  hard (call [(KQp, q); (KMr, mr c)]
          (PostSendXrc q (Z.of_nat index) flags (work_list (x_hw s) c) (wrap_u 32 (srqn d)))).

(** The index of the client a message came from; 0 when there is only one, and
    also when no queue pair has the number. *)
Definition find_qp (d : device) (c : xctx) (qpn : Z) : nat :=
  if num_clients (xo c) =? 1 then 0%nat
  else default 0%nat
         (fst <$> list_find (λ q, qp_num d q = wrap_u 32 (wrap_s 32 qpn)) (recv_qp c)).

(** ** The loop *)

(** 1 for an error. *)
Definition get_event (c : xctx) : M hw Z :=
  ev_cq ← get_cq_event (channel c);
  if ev_cq =? 0 then mret 1
  else if ev_cq <>z recv_cq c then mret 1
  else e ← call [(KCq, recv_cq c)] (ReqNotifyCq (recv_cq c)); mret (if e <>z 0 then 1 else 0).

(** One completion of a message: the return code of [main], or the new count.
    The results of the posts are not looked at. *)
Definition treat_wc (c : xctx) (cnt : Z) (w : wc) : M xsrq (Z + Z) :=
  if wc_status w <>z 0 then mret (inl 1)
  else
    hard (pp_post_recv c 1);;
    s ← get;
    let qpi := find_qp (h_dev (h_world (x_hw s))) c (wc_qp_num w) in
    d ← peer qpi;
    (if pp_cnt d <? num_tests (xo c) then pp_post_send c qpi else mret 0);;
    cnt ← int_add cnt 1;
    mret (inr cnt).

(** [do { ... } while (ne > 0)]. *)
Fixpoint poll_round (fuel : nat) (c : xctx) (cnt : Z) : M xsrq (Z + Z) :=
  match fuel with
  | O => hang_
  | S fuel =>
      r ← hard (poll_cq (recv_cq c) 1);
      match r with
      | inl _ => mret (inl 1)
      | inr [] => mret (inr cnt)
      | inr (w :: _) =>
          r ← treat_wc c cnt w;
          match r with
          | inl rc => mret (inl rc)
          | inr cnt => poll_round fuel c cnt
          end
      end
  end.

(** [while (cnt < total)]: the return code, or the number of events. *)
Fixpoint recv_loop (fuel : nat) (c : xctx) (total cnt num_cq_events : Z) : M xsrq (Z + Z) :=
  match fuel with
  | O => hang_
  | S fuel =>
      if cnt <? total then
        e ← (if use_event (xo c) then hard (get_event c) else mret 0);
        if e <>z 0 then mret (inl 1)
        else
          n ← (if use_event (xo c) then int_add num_cq_events 1 else mret num_cq_events);
          s ← get;
          r ← poll_round (S (poll_size (h_polls (x_hw s)))) c cnt;
          match r with
          | inl rc => mret (inl rc)
          | inr cnt => recv_loop fuel c total cnt n
          end
      else mret (inr num_cq_events)
  end.

(** The loop over the completions of the sends: 1 for an error. *)
Fixpoint drain_loop (fuel : nat) (c : xctx) (cnt : Z) : M hw Z :=
  match fuel with
  | O => hang_
  | S fuel =>
      if cnt <? num_clients (xo c) then
        r ← poll_cq (send_cq c) 1;
        match r with
        | inl _ => mret 1
        | inr l => drain_loop fuel c (cnt + Z.of_nat (length l))
        end
      else mret 0
  end.

(** ** Options *)

Definition init : xopts := XOpts 18515 None None 1 4096 IBV_MTU_1024 1 5 0 (-1) false false.

Definition parse_opt (c : char) (optarg : cstr) (o : xopts) : option xopts :=
  let '(XOpts port dev srv ibp size mtu clients tests sl gidx ev odp) := o in
  let n := wrap_s 32 (strtol0 optarg) in
  match c with
  | "p"%char =>
      if (n <? 0) || (65535 <? n) then None
      else Some (XOpts n dev srv ibp size mtu clients tests sl gidx ev odp)
  | "d"%char => Some (XOpts port (Some optarg) srv ibp size mtu clients tests sl gidx ev odp)
  | "i"%char =>
      if n <? 0 then None else Some (XOpts port dev srv n size mtu clients tests sl gidx ev odp)
  | "s"%char => Some (XOpts port dev srv ibp n mtu clients tests sl gidx ev odp)
  | "m"%char =>
      if pp_mtu_to_enum n =? 0 then None
      else Some (XOpts port dev srv ibp size (pp_mtu_to_enum n) clients tests sl gidx ev odp)
  | "c"%char => Some (XOpts port dev srv ibp size mtu n tests sl gidx ev odp)
  | "n"%char => Some (XOpts port dev srv ibp size mtu clients n sl gidx ev odp)
  | "l"%char => Some (XOpts port dev srv ibp size mtu clients tests n gidx ev odp)
  | "g"%char => Some (XOpts port dev srv ibp size mtu clients tests sl n ev odp)
  | "e"%char => Some (XOpts port dev srv ibp size mtu clients tests sl gidx true odp)
  | "o"%char => Some (XOpts port dev srv ibp size mtu clients tests sl gidx ev true)
  | _ => None
  end.

Fixpoint parse_opts (l : list (char * cstr)) (o : xopts) : option xopts :=
  match l with
  | [] => Some o
  | (c, optarg) :: l => o ← parse_opt c optarg o; parse_opts l o
  end.

(** With a host name the program is a client, of one peer. *)
Definition xsrq_options (args : list (char * cstr)) (rest : list cstr) : option xopts :=
  o ← parse_opts args init;
  match rest with
  | [] => Some o
  | [h] => Some (XOpts (x_port o) (x_devname o) (Some h) (ib_port o) (msg_size o) (mtu o) 1
                   (num_tests o) (sl o) (gidx o) (use_event o) (x_odp o))
  | _ => None
  end.

(** ** [main] *)

(** The server's first messages, one to each client. *)
Fixpoint send_first (c : xctx) (k i : nat) : M xsrq () :=
  match k with
  | O => mret tt
  | S k => pp_post_send c i;; send_first c k (S i)
  end.

Definition connect_all (c : xctx) (rand : nat → Z) : M xsrq Z :=
  match x_servername (xo c) with
  | Some h => pp_client_connect c h (x_port (xo c)) rand
  | None =>
      e ← pp_server_connect c (x_port (xo c)) rand;
      if e <>z 0 then mret 1
      else send_first c (Z.to_nat (num_clients (xo c))) 0;; mret 0
  end.

(** From the posting of the receives to the end. *)
Definition xsrq_run (c : xctx) (rand : nat → Z) : M xsrq Z :=
  e ← hard (pp_post_recv c (num_clients (xo c)));
  if e <>z 0 then mret 1
  else
    e ← connect_all c rand;
    if e <>z 0 then mret 1
    else
      total ← int_mul (num_clients (xo c)) (num_tests (xo c));
      s ← get;
      r ← recv_loop (loop_fuel (x_hw s)) c total 0 0;
      match r with
      | inl rc => mret rc
      | inr n =>
          s ← get;
          e ← hard (drain_loop (S (poll_size (h_polls (x_hw s)))) c 0);
          if e <>z 0 then mret 1
          else
            (if use_event (xo c) then hard (call [(KCq, recv_cq c)] (AckCqEvents (recv_cq c) n))
             else mret 0);;
            e ← match x_servername (xo c) with
                | Some _ => pp_client_termination
                | None => pp_server_termination c
                end;
            if e <>z 0 then mret 1
            else
              s ← get;
              e ← hard (pp_close_ctx c (rem_dest s));
              mret (if e <>z 0 then 1 else 0)
      end.

(** What a run meets besides the hardware: the options and arguments, the
    devices, what [open] of the domain's file returns, the random numbers. *)
Record xenv := XEnv {
  xe_args : list (char * cstr);
  xe_rest : list cstr;
  xe_devs : option (list (cstr * Z));
  xe_domain : Z;
  xe_rand : nat → Z }.

(** A run from the entries [l] of [rem_dest]. *)
Definition with_peers {A} (l : list xdest) (m : M xsrq A) : M hw A := λ s,
  let '(r, t) := m (Xsrq s l) in (r, x_hw t).

Definition main (e : xenv) : M hw Z :=
  match xsrq_options (xe_args e) (xe_rest e) with
  | None => mret 1
  | Some o =>
      r ← pp_init_ctx o (xe_devs e) (xe_domain e);
      match r with
      | None => mret 1
      | Some (c, l) => with_peers l (xsrq_run c (xe_rand e))
      end
  end.
