(* ===== verification/XsrqLife.v ===== *)
(** * Life cycle of the XRC pingpong

    The objects a set-up of xsrq_pingpong.c makes, and that a run that returns
    0 has given them all back. *)

From Stdlib Require Import ZifyBool.
From S2P Require Import Prelude CLib OS Gid Verbs Exch Keeps RcPingpong RcLife Setup.
From S2P Require Import SrqPingpong XsrqPingpong.

Local Open Scope Z_scope.

(** ** The objects of a context *)

Section entries.
Context (c pd xrcd send_cq : Z).

Definition recv_entry (r : Z) : obj * list obj := ((KQp, r), [(KContext, c); (KXrcd, xrcd)]).
Definition send_entry (q : Z) : obj * list obj :=
  ((KQp, q), [(KContext, c); (KPd, pd); (KCq, send_cq)]).

(** The queue pairs made last are on top. *)
Fixpoint qp_entries (rs qs : list Z) : list (obj * list obj) :=
  match rs, qs with
  | r :: rs, q :: qs => qp_entries rs qs ++ [send_entry q; recv_entry r]
  | _, _ => []
  end.

Lemma qp_entries_free q rs qs : free_of (KQp, q) (qp_entries rs qs).
Proof using.
  revert qs. induction rs as [|r rs IH]; intros [|q' qs]; cbn [qp_entries]; [constructor..|].
  apply Forall_app. split; [apply IH|].
  repeat (apply Forall_cons_2;
    [cbn; rewrite !not_elem_of_cons; split_and!; (discriminate || apply not_elem_of_nil)|]).
  apply Forall_nil_2.
Qed.
End entries.

Definition xstack_base (c : xctx) : list (obj * list obj) :=
  [((KMem, xbuf c), []); ((KContext, context c), []); ((KMem, rem_arr c), []);
   ((KMem, send_arr c), []); ((KMem, recv_arr c), [])].
Definition xstack_channel (c : xctx) : list (obj * list obj) :=
  opt_entry KChannel (channel c) [(KContext, context c)] ++ xstack_base c.
Definition xstack_queues (c : xctx) : list (obj * list obj) :=
  [((KSrq, srq c), [(KContext, context c); (KXrcd, xrcd c); (KCq, recv_cq c); (KPd, pd c)]);
   ((KCq, send_cq c), [(KContext, context c)]);
   ((KCq, recv_cq c), (KContext, context c) :: opt_obj KChannel (channel c));
   ((KXrcd, xrcd c), [(KContext, context c)]);
   ((KMr, mr c), [(KPd, pd c); (KMem, xbuf c)]);
   ((KPd, pd c), [(KContext, context c)])].
Definition xstack (c : xctx) : list (obj * list obj) :=
  qp_entries (context c) (pd c) (xrcd c) (send_cq c) (recv_qp c) (send_qp c) ++
  xstack_queues c ++ xstack_channel c.

(** ** Setting up *)

Section setup.
Context (s0 : hw) {C : Type}.

(** One step: an object is made, or the set-up stops. *)
Lemma make_or_stop n deps T s (k : Z → M hw (option C)) (Q : C → hw → Prop) :
  hwst s0 s T → Forall (λ o, o ∈ T.*1) deps →
  (∀ p s', p ≠ 0 → hwst s0 s' (((kind_of n, p), deps) :: T) →
     returns (k p) s' (λ r s', match r with Some a => Q a s' | None => True end)) →
  returns (p ← new n deps; if p =? 0 then mret None else k p) s
    (λ r s', match r with Some a => Q a s' | None => True end).
Proof using.
  intros Hs Hd Hk. eapply (returns_total _ _ _ (λ p s', (p = 0 ∧ hwst s0 s' T) ∨
    (p ≠ 0 ∧ hwst s0 s' (((kind_of n, p), deps) :: T)))).
  - eapply new_total; [exact Hs|exact Hd|by left|]. intros p s' Hp H. right. split; [lia|done].
  - intros p s' [[-> H]|[Hp H]]; [by apply returns_ret|]. destruct (Z.eqb_spec p 0); [done|by apply Hk].
Qed.

(** One call: it succeeds, or the set-up stops. *)
Lemma call_or_stop (m : M hw Z) T s (k : M hw (option C)) (Q : C → hw → Prop) :
  preserves keeps m → hwst s0 s T →
  (∀ s', hwst s0 s' T → returns k s' (λ r s', match r with Some a => Q a s' | None => True end)) →
  returns (e ← m; if e <>z 0 then mret None else k) s
    (λ r s', match r with Some a => Q a s' | None => True end).
Proof using.
  intros Hm Hs Hk. eapply returns_keeps; [exact Hm|exact Hs|]. intros e s' H.
  destruct (e <>z 0); [by apply returns_ret|by apply Hk].
Qed.
End setup.

Lemma calloc_returns n size s0 s T :
  hwst s0 s T → returns (calloc n size) s (λ p s',
    (p = 0 ∧ hwst s0 s' T) ∨ (p ≠ 0 ∧ hwst s0 s' (((KMem, p), []) :: T))).
Proof.
  intros Hs. unfold calloc. destruct (n <? 0); [apply returns_ret; by left|].
  intros p s' E. pose proof (new_hwst s0 s T (NewMem (wrap_u 64 (n * size))) Hs) as H.
  unfold total in H. by rewrite E in H.
Qed.

Lemma calloc_made s0 s p T :
  (p = 0 ∧ hwst s0 s T) ∨ (p ≠ 0 ∧ hwst s0 s (((KMem, p), []) :: T)) →
  hwst s0 s (if p =? 0 then T else ((KMem, p), []) :: T).
Proof. by intros [[Hp H]|[Hp H]]; destruct (Z.eqb_spec p 0). Qed.

(** Membership in a stack that is written out. *)
Ltac in_stack :=
  repeat first [apply Forall_nil_2 | apply Forall_cons_2];
  unfold xstack_queues, xstack_channel, xstack_base;
  repeat first [rewrite fmap_app | rewrite elem_of_app | rewrite elem_of_cons
               | progress cbn [fmap list_fmap fst app]];
  tauto.

Lemma open_device_returns name devs s0 s T :
  hwst s0 s T → returns (open_device name devs) s (λ r s',
    match r with Some p => hwst s0 s' (((KContext, p), []) :: T) | None => True end).
Proof.
  intros Hs. unfold open_device. destruct devs as [l|]; [|by apply returns_ret].
  eapply returns_total; [by eapply make_hwst|]. intros dl s1 H1.
  destruct (pick_device name l) as [d|]; [|by apply returns_ret].
  eapply make_or_stop; [exact H1|apply Forall_nil_2|]. intros p s2 Hp H2.
  eapply (returns_total _ _ _ (λ _ s', hwst s0 s' (((KContext, p), []) :: T))).
  { eapply (release_total (KDevList, dl) [] [_]); [|exact H2|].
    - apply Forall_singleton, not_elem_of_nil.
    - intros s3 H3. exact H3. }
  intros ? s3 H3. by apply returns_ret.
Qed.

Lemma init_port_keeps o c : preserves keeps (init_port o c).
Proof. unfold init_port. keep. Qed.
Lemma open_domain_keeps dom : preserves keeps (open_domain dom).
Proof. unfold open_domain. keep. Qed.
#[export] Hint Resolve init_port_keeps open_domain_keeps : preserves.

Lemma init_memory_returns o c dom s0 s T :
  hwst s0 s T → (KContext, c) ∈ T.*1 →
  returns (init_memory o c dom) s (λ r s',
    match r with
    | Some (buf, ch, pd, mr, fd, xrcd) => hwst s0 s'
        (((KXrcd, xrcd), [(KContext, c)]) :: ((KMr, mr), [(KPd, pd); (KMem, buf)]) ::
         ((KPd, pd), [(KContext, c)]) :: opt_entry KChannel ch [(KContext, c)] ++
         ((KMem, buf), []) :: T)
    | None => True
    end).
Proof.
  intros Hs Hc. unfold init_memory. cbv zeta.
  eapply make_or_stop; [exact Hs|apply Forall_nil_2|]. intros buf s1 _ H1.
  eapply (returns_total _ _ _ (λ ch s', (ch = 0 ∧ use_event o = true) ∨
    hwst s0 s' (opt_entry KChannel ch [(KContext, c)] ++ ((KMem, buf), []) :: T))).
  { destruct (use_event o).
    - eapply new_total; [exact H1|apply Forall_singleton; by right|by left|].
      intros p s' Hp H. right. unfold opt_entry. by destruct (Z.eqb_spec p 0); [lia|].
    - apply total_ret. by right. }
  intros ch s2 [[-> ->]|H2]; [by apply returns_ret|].
  destruct (_ && _); [by apply returns_ret|].
  eapply make_or_stop; [exact H2|in_stack|]. intros pd s3 _ H3.
  eapply make_or_stop; [exact H3|in_stack|]. intros mr s4 _ H4.
  eapply returns_keeps; [keep|exact H4|]. intros fd s5 H5.
  eapply make_or_stop; [exact H5|in_stack|]. intros xrcd s6 _ H6. by apply returns_ret.
Qed.

Lemma int_mul_keeps x y : preserves keeps (int_mul x y).
Proof. unfold int_mul. keep. Qed.
#[export] Hint Resolve int_mul_keeps : preserves.

Lemma create_qps_returns o c pd xrcd send_cq k s0 s T :
  hwst s0 s T → Forall (λ o, o ∈ T.*1) [(KContext, c); (KXrcd, xrcd); (KPd, pd); (KCq, send_cq)] →
  returns (create_qps o c pd xrcd send_cq k) s (λ r s',
    match r with
    | Some (rs, qs) => length rs = k ∧ length qs = k ∧
        hwst s0 s' (qp_entries c pd xrcd send_cq rs qs ++ T)
    | None => True
    end).
Proof.
  revert s T. induction k as [|k IH]; intros s T Hs HT; cbn [create_qps].
  { by apply returns_ret. }
  assert (∀ e, Forall (λ o, o ∈ (e :: T).*1) [(KContext, c); (KXrcd, xrcd); (KPd, pd); (KCq, send_cq)]) as HT'.
  { intros e. eapply Forall_impl; [exact HT|]. intros x Hx. by right. }
  rewrite !Forall_cons in HT. destruct HT as (Hc & Hx & Hp & Hq & _).
  eapply make_or_stop; [exact Hs|by repeat (apply Forall_cons_2; [done|])|]. intros r s1 _ H1.
  eapply call_or_stop; [keep|exact H1|]. intros s2 H2.
  eapply returns_keeps; [keep|exact H2|]. intros n s3 H3.
  eapply make_or_stop; [exact H3|by repeat (apply Forall_cons_2; [by right|])|]. intros q s4 _ H4.
  eapply call_or_stop; [keep|exact H4|]. intros s5 H5.
  apply returns_bind. eapply returns_mono.
  { eapply IH; [exact H5|]. eapply Forall_impl; [apply (HT' ((KQp, r), []))|].
    intros x [->|Hin]%elem_of_cons; [right; by left|by right; right]. }
  intros [[rs qs]|] s6 H6; apply returns_ret; cbn; [|done].
  destruct H6 as (L1 & L2 & H6). split_and!; [by rewrite L1|by rewrite L2|].
  by rewrite <-(assoc_L app).
Qed.

(** The set-up: the context and its entries. *)
Definition xsetup (o : xopts) (s0 : hw) (T : list (obj * list obj)) (r : option (xctx * list xdest))
    (s' : hw) : Prop :=
  match r with
  | Some (c, l) => hwst s0 s' (xstack c ++ T) ∧ xo c = o ∧
      length l = Z.to_nat (num_clients o) ∧ length (recv_qp c) = Z.to_nat (num_clients o) ∧
      length (send_qp c) = Z.to_nat (num_clients o)
  | None => True
  end.

Lemma init_queues_returns o c ch pd xrcd s0 s T :
  hwst s0 s T →
  Forall (λ o, o ∈ T.*1) ((KContext, c) :: (KXrcd, xrcd) :: (KPd, pd) :: opt_obj KChannel ch) →
  returns (init_queues o c ch pd xrcd) s (λ r s',
    match r with
    | Some (rcq, scq, srq, (rs, qs)) =>
        length rs = Z.to_nat (num_clients o) ∧ length qs = Z.to_nat (num_clients o) ∧
        hwst s0 s' (qp_entries c pd xrcd scq rs qs ++
          ((KSrq, srq), [(KContext, c); (KXrcd, xrcd); (KCq, rcq); (KPd, pd)]) ::
          ((KCq, scq), [(KContext, c)]) ::
          ((KCq, rcq), (KContext, c) :: opt_obj KChannel ch) :: T)
    | None => True
    end).
Proof.
  intros Hs HT. rewrite !Forall_cons in HT. destruct HT as (Hc & Hx & Hp & Hch). unfold init_queues.
  eapply make_or_stop; [exact Hs|by apply Forall_cons_2|]. intros rcq s1 _ H1.
  eapply call_or_stop; [keep|exact H1|]. intros s2 H2.
  eapply make_or_stop; [exact H2|apply Forall_singleton; by right|]. intros scq s3 _ H3.
  eapply make_or_stop; [exact H3| |].
  { repeat (apply Forall_cons_2; [rewrite !fmap_cons, !elem_of_cons; cbn [fst]; tauto|]).
    apply Forall_nil_2. }
  intros srq s4 _ H4. apply returns_bind. eapply returns_mono.
  { eapply create_qps_returns; [exact H4|].
    repeat (apply Forall_cons_2; [rewrite !fmap_cons, !elem_of_cons; cbn [fst]; tauto|]).
    apply Forall_nil_2. }
  intros [[rs qs]|] s5 H5; by apply returns_ret.
Qed.

Lemma xsrq_init_returns o devs dom s0 s T :
  hwst s0 s T → returns (pp_init_ctx o devs dom) s (xsetup o s0 T).
Proof.
  intros Hs. unfold pp_init_ctx.
  apply returns_bind. eapply returns_mono; [by eapply calloc_returns|]. intros a1 s1 H1.
  apply calloc_made in H1. set (T1 := if a1 =? 0 then T else _) in H1.
  apply returns_bind. eapply returns_mono; [by eapply calloc_returns|]. intros a2 s2 H2.
  apply calloc_made in H2. set (T2 := if a2 =? 0 then T1 else _) in H2.
  apply returns_bind. eapply returns_mono; [by eapply calloc_returns|]. intros a3 s3 H3.
  unfold T2, T1 in H3. clear H1 H2 T1 T2. destruct (Z.eqb_spec a1 0) as [|Ha1]; [by apply returns_ret|].
  destruct (Z.eqb_spec a2 0) as [|Ha2]; [by apply returns_ret|].
  destruct (Z.eqb_spec a3 0) as [|Ha3]; [by apply returns_ret|]. cbn [orb].
  destruct H3 as [[? _]|[_ H3]]; [done|].
  apply returns_bind. eapply returns_mono; [by eapply open_device_returns|].
  intros [c|] s4 H4; [|by apply returns_ret].
  eapply returns_keeps; [keep|exact H4|]. intros [lid|] s5 H5; [|by apply returns_ret].
  apply returns_bind. eapply returns_mono; [eapply init_memory_returns; [exact H5|by left]|].
  intros [[[[[[buf ch] pd] mr] fd] xrcd]|] s6 H6; [|by apply returns_ret].
  apply returns_bind. eapply returns_mono.
  { eapply init_queues_returns; [exact H6|].
    repeat (apply Forall_cons_2; [rewrite !fmap_cons, !elem_of_cons, fmap_app, elem_of_app,
      !fmap_cons, !elem_of_cons; cbn [fst]; tauto|]).
    apply Forall_forall. intros x Hx. rewrite !fmap_cons, !elem_of_cons, fmap_app, elem_of_app,
      opt_entry_objs. tauto. }
  intros [[[[rcq scq] srq] [rs qs]]|] s7 H7; apply returns_ret; [|done].
  destruct H7 as (L1 & L2 & H7). split_and!; [|done|by rewrite length_replicate|done..].
  unfold xstack, xstack_queues, xstack_channel, xstack_base.
  cbn [XsrqPingpong.context XsrqPingpong.pd XsrqPingpong.xrcd send_cq recv_cq recv_qp send_qp
    XsrqPingpong.mr xbuf XsrqPingpong.channel XsrqPingpong.srq rem_arr send_arr recv_arr].
  rewrite <-!(assoc_L app). exact H7.
Qed.

(** ** Calls that leave the objects alone *)

Definition xkeeps (s s' : xsrq) : Prop :=
  keeps (x_hw s) (x_hw s') ∧ length (rem_dest s') = length (rem_dest s).

#[global] Instance xkeeps_refl : Reflexive xkeeps.
Proof. intros s. split; done. Qed.
#[global] Instance xkeeps_trans : Transitive xkeeps.
Proof. intros s1 s2 s3 [H1 L1] [H2 L2]. split; [by etrans|congruence]. Qed.

Lemma hard_keeps {A} (m : M hw A) : preserves keeps m → preserves xkeeps (hard m).
Proof. intros H. unfold hard. eapply preserves_zoom_rel; [exact H|]. intros s t Ht. by split. Qed.

Lemma set_peer_keeps i d : preserves xkeeps (set_peer i d).
Proof. intros s. split; [done|]. apply length_insert. Qed.
Lemma peer_keeps i : preserves xkeeps (peer i).
Proof. unfold peer. preserve. Qed.
Lemma int_add_xkeeps x y : preserves xkeeps (int_add x y).
Proof. unfold int_add. preserve. Qed.
Lemma int_mul_xkeeps x y : preserves xkeeps (int_mul x y).
Proof. unfold int_mul. preserve. Qed.
#[export] Hint Resolve set_peer_keeps peer_keeps int_add_xkeeps int_mul_xkeeps : preserves.

Lemma post_all_keeps c k last : preserves keeps c → preserves keeps last → preserves keeps (post_all c k last).
Proof. intros Hc Hl. induction k as [|k IH]; cbn [post_all]; keep. Qed.
Lemma x_post_recv_keeps c n : preserves keeps (pp_post_recv c n).
Proof.
  unfold pp_post_recv. apply preserves_bind; [exact _|keep|]. intros s.
  destruct (0 <=? n); apply post_all_keeps; keep.
Qed.
Lemma x_get_event_keeps c : preserves keeps (get_event c).
Proof. unfold get_event. keep. Qed.
Lemma modify_all_keeps l : preserves keeps (modify_all l).
Proof. induction l as [|[q a] l IH]; cbn [modify_all]; keep. Qed.
Lemma drain_loop_keeps fuel c n : preserves keeps (drain_loop fuel c n).
Proof. revert n. induction fuel as [|fuel IH]; intros n; cbn [drain_loop]; keep. Qed.
#[export] Hint Resolve x_post_recv_keeps x_get_event_keeps modify_all_keeps drain_loop_keeps : preserves.

Ltac keep_x := repeat first
  [ apply hard_keeps; solve [keep] | preserve_step; cbv beta iota ].

Lemma x_post_send_keeps c i : preserves xkeeps (pp_post_send c i).
Proof. unfold pp_post_send. keep_x. Qed.
#[export] Hint Resolve x_post_send_keeps : preserves.
Lemma x_treat_wc_keeps c n w : preserves xkeeps (treat_wc c n w).
Proof. unfold treat_wc. keep_x. Qed.
#[export] Hint Resolve x_treat_wc_keeps : preserves.
Lemma poll_round_keeps fuel c n : preserves xkeeps (poll_round fuel c n).
Proof. revert n. induction fuel as [|fuel IH]; intros n; cbn [poll_round]; keep_x. Qed.
#[export] Hint Resolve poll_round_keeps : preserves.
Lemma recv_loop_keeps fuel c t n ev : preserves xkeeps (recv_loop fuel c t n ev).
Proof. revert n ev. induction fuel as [|fuel IH]; intros n ev; cbn [recv_loop]; keep_x. Qed.
#[export] Hint Resolve recv_loop_keeps : preserves.

Lemma send_local_keeps c fd i r : preserves xkeeps (send_local_dest c fd i r).
Proof. unfold send_local_dest. keep_x. Qed.
Lemma recv_remote_keeps fd i : preserves xkeeps (recv_remote_dest fd i).
Proof. unfold recv_remote_dest. keep_x. Qed.
Lemma connect_qps_keeps c i : preserves xkeeps (connect_qps c i).
Proof. unfold connect_qps. keep_x. Qed.
Lemma recv_ack_keeps i : preserves xkeeps (recv_termination_ack i).
Proof. unfold recv_termination_ack. keep_x. Qed.
Lemma send_ack_keeps i : preserves xkeeps (send_termination_ack i).
Proof. unfold send_termination_ack. keep_x. Qed.
#[export] Hint Resolve send_local_keeps recv_remote_keeps connect_qps_keeps recv_ack_keeps
  send_ack_keeps : preserves.
Lemma accept_clients_keeps c fd rand k i : preserves xkeeps (accept_clients c fd rand k i).
Proof. revert i. induction k as [|k IH]; intros i; cbn [accept_clients]; keep_x. Qed.
Lemma for_clients_keeps f k i : (∀ i, preserves xkeeps (f i)) → preserves xkeeps (for_clients f k i).
Proof. intros Hf. revert i. induction k as [|k IH]; intros i; cbn [for_clients]; keep_x. Qed.
Lemma send_first_keeps c k i : preserves xkeeps (send_first c k i).
Proof. revert i. induction k as [|k IH]; intros i; cbn [send_first]; keep_x. Qed.
#[export] Hint Resolve accept_clients_keeps send_first_keeps : preserves.
Lemma client_termination_keeps : preserves xkeeps pp_client_termination.
Proof. unfold pp_client_termination. keep_x. Qed.
Lemma server_termination_keeps c : preserves xkeeps (pp_server_termination c).
Proof.
  unfold pp_server_termination. cbv zeta. apply preserves_bind; [exact _| |].
  - apply for_clients_keeps. intros i. keep_x.
  - intros e. destruct (e <>z 0); [keep_x|]. apply for_clients_keeps. intros i. keep_x.
Qed.
#[export] Hint Resolve client_termination_keeps server_termination_keeps : preserves.

(** ** Runs over a stack of objects *)

Definition xst (s0 : hw) (S : list (obj * list obj)) (n : nat) (s : xsrq) : Prop :=
  hwst s0 (x_hw s) S ∧ length (rem_dest s) = n.

Section run.
Context {A B : Type} (s0 : hw) (S : list (obj * list obj)) (n : nat).

Lemma returns_xkeeps (m : M xsrq A) (k : A → M xsrq B) s Q :
  preserves xkeeps m → xst s0 S n s → (∀ a s', xst s0 S n s' → returns (k a) s' Q) →
  returns (m ≫= k) s Q.
Proof using.
  intros Hm [Hs Hl] HQ. apply returns_bind. intros a s' E. apply HQ. specialize (Hm s).
  rewrite E in Hm. cbn [snd] in Hm. destruct Hm as [Hk Hl']. split; [by eapply hwst_keeps|congruence].
Qed.

Lemma returns_hard (m : M hw A) s (Q : A → hw → Prop) :
  returns m (x_hw s) Q →
  returns (hard m) s (λ a s', Q a (x_hw s') ∧ rem_dest s' = rem_dest s).
Proof using.
  intros H a s' E. unfold hard, zoom in E. cbn [lget xsrq_hw] in E.
  destruct (m (x_hw s)) as [o t] eqn:Em. injection E as -> <-. by split; [apply H|].
Qed.
End run.

Lemma x_open_socket host port s0 S n s :
  xst s0 S n s → returns (hard (open_socket host port)) s (λ _ s', xst s0 S n s').
Proof.
  intros [Hs Hl]. eapply returns_mono; [apply returns_hard, open_socket_returns, Hs|].
  intros fd s' [H E]. split; [done|congruence].
Qed.

Lemma connect_all_returns c rand s0 S n s :
  xst s0 S n s → returns (connect_all c rand) s (λ _ s', xst s0 S n s').
Proof.
  assert (∀ (m : M xsrq Z) s, preserves xkeeps m → xst s0 S n s →
    returns m s (λ _ s', xst s0 S n s')) as Hrest.
  { intros m s1 Hm [H1 L1] a s2 E. specialize (Hm s1). rewrite E in Hm. cbn [snd] in Hm.
    destruct Hm as [Hk Hl].
    split; [by eapply hwst_keeps|congruence]. }
  intros Hs. unfold connect_all. destruct (x_servername (xo c)) as [h|].
  - unfold pp_client_connect. apply returns_bind. eapply returns_mono; [by apply x_open_socket|].
    intros fd s1 H1. destruct (fd <? 0); (apply Hrest; [|exact H1]); [keep_x|].
    apply preserves_bind; [exact _|keep_x|]. intros e. destruct (e <>z 0); keep_x.
  - apply returns_bind. unfold pp_server_connect. apply returns_bind.
    eapply returns_mono; [by apply x_open_socket|]. intros fd s1 H1.
    destruct (fd <? 0).
    { apply returns_ret. cbn [negb Z.eqb]. by apply returns_ret. }
    eapply returns_mono; [apply Hrest; [|exact H1]|].
    { apply preserves_bind; [exact _|keep_x|]. intros e. destruct (e <>z 0); keep_x. }
    intros e s2 H2. destruct (e <>z 0); [by apply returns_ret|]. apply Hrest; [keep_x|exact H2].
Qed.

(** ** Tearing down *)

Section teardown.
Context (s0 : hw).

Lemma close_step_returns R o deps S (k : M hw Z) s (Q : Z → hw → Prop) :
  hwst s0 s (R ++ (o, deps) :: S) → free_of o R → (∀ s', Q 1 s') →
  (∀ s', hwst s0 s' (R ++ S) → returns k s' Q) → returns (close_step o k) s Q.
Proof using.
  intros Hs HR H1 Hk. unfold close_step.
  eapply (returns_total _ _ _ (λ r s', r = 0 → hwst s0 s' (R ++ S))).
  - eapply (del_total _ deps R); [exact HR|exact Hs|done|]. intros r s' Hr _ _ E. done.
  - intros r s' H. destruct (Z.eqb_spec r 0) as [E|E]; cbn [negb]; [by apply Hk, H|].
    by apply returns_ret.
Qed.

Lemma close_peers_returns c pd xrcd scq qs rs l S (k : M hw Z) s (Q : Z → hw → Prop) :
  length rs = length qs → length l = length qs →
  hwst s0 s (qp_entries c pd xrcd scq rs qs ++ S) → (∀ s', Q 1 s') →
  (∀ s', hwst s0 s' S → returns k s' Q) → returns (close_peers qs rs l k) s Q.
Proof using.
  intros Hr Hl Hs H1 Hk. revert rs l s Hr Hl Hs.
  induction qs as [|q qs IH]; intros [|r rs] [|d l] s Hr Hl Hs; try done.
  { by apply Hk. }
  cbn [qp_entries] in Hs. rewrite <-(assoc_L app) in Hs. cbn [app] in Hs. cbn [close_peers].
  eapply close_step_returns; [exact Hs|apply qp_entries_free|done|]. intros s1 H2.
  eapply close_step_returns; [exact H2|apply qp_entries_free|done|]. intros s2 H3.
  eapply returns_keeps; [|exact H3|].
  { destruct (sockfd d =? 0); keep. }
  intros ? s3 H4. apply IH; [by injection Hr|by injection Hl|done].
Qed.

Lemma release_returns o R S {A} (k : M hw A) s (Q : A → hw → Prop) :
  hwst s0 s (R ++ (o, []) :: S) → memory_only R →
  (∀ s', hwst s0 s' (R ++ S) → returns k s' Q) → returns (release o;; k) s Q.
Proof using.
  intros Hs HR Hk. eapply (returns_total _ _ _ (λ _ s', hwst s0 s' (R ++ S))).
  - eapply (release_total o []); [by apply memory_only_free|exact Hs|done].
  - intros ? s'. apply Hk.
Qed.

Lemma close_domain_keeps fd : preserves keeps (close_domain fd).
Proof using. unfold close_domain. keep. Qed.

Lemma x_close_returns c l T s :
  length (recv_qp c) = length (send_qp c) → length l = length (send_qp c) →
  hwst s0 s (xstack c ++ T) →
  returns (pp_close_ctx c l) s (λ r s', r = 0 → hwst s0 s' T).
Proof using.
  intros Hr Hl Hs. unfold pp_close_ctx. unfold xstack in Hs. rewrite <-!(assoc_L app) in Hs.
  eapply close_peers_returns; [exact Hr|exact Hl|exact Hs|done|]. clear s Hs. intros s Hs.
  cbn [xstack_queues app] in Hs.
  eapply (close_step_returns []); [exact Hs|constructor|done|]. clear s Hs. intros s Hs.
  eapply (close_step_returns [_; _]); [exact Hs| |done|].
  { repeat (apply Forall_cons_2; [cbn; rewrite ?not_elem_of_cons; split_and?|]); [done|apply not_elem_of_nil|done| |apply Forall_nil_2].
    unfold opt_obj. destruct (channel c =? 0); [apply not_elem_of_nil|].
    apply not_elem_of_cons. split; [done|apply not_elem_of_nil]. }
  clear s Hs. intros s Hs.
  eapply returns_keeps; [|exact Hs|].
  { destruct (0 <=? domain_fd c); [apply close_domain_keeps|keep]. }
  clear s Hs. intros e s Hs. destruct (Z.eqb_spec e 0) as [_|He]; cbn [negb]; [|by apply returns_ret].
  eapply (close_step_returns []); [exact Hs|constructor|done|]. clear s Hs. intros s Hs.
  eapply (close_step_returns []); [exact Hs|constructor|done|]. clear s Hs. intros s Hs.
  eapply (close_step_returns []); [exact Hs|constructor|done|]. clear s Hs. intros s Hs.
  eapply (close_step_returns []); [exact Hs|constructor|done|]. clear s Hs. intros s Hs.
  cbv zeta. set (k := close_step (KContext, _) _).
  assert (∀ s, hwst s0 s (xstack_base c ++ T) → returns k s (λ r s', r = 0 → hwst s0 s' T)) as Hbase.
  { clear s Hs. intros s Hs. unfold k. cbn [xstack_base app] in Hs.
    eapply (close_step_returns [_]); [exact Hs| |done|].
    { apply Forall_singleton, not_elem_of_nil. }
    clear s Hs. intros s Hs. do 4 (eapply (release_returns _ []); [exact Hs|constructor|];
      clear s Hs; intros s Hs). by apply returns_ret. }
  cbn [app] in Hs. unfold xstack_channel, opt_entry in Hs. rewrite <-(assoc_L app) in Hs.
  destruct (channel c =? 0); [by apply Hbase|].
  eapply (close_step_returns []); [exact Hs|constructor|done|]. clear s Hs. intros s Hs. by apply Hbase.
Qed.
End teardown.

(** ** Leaving the loop early is never a success *)

Lemma x_treat_wc_rc c n w s : returns (treat_wc c n w) s (λ r _, r ≠ inl 0).
Proof.
  unfold treat_wc. destruct (_ <>z _); [by apply returns_ret|].
  repeat (apply returns_bind; intros ? ? _). by apply returns_ret.
Qed.

Lemma poll_round_rc fuel c n s : returns (poll_round fuel c n) s (λ r _, r ≠ inl 0).
Proof.
  revert n s. induction fuel as [|fuel IH]; intros n s; cbn [poll_round]; [by intros ? ?|].
  apply returns_bind. intros [z|[|w l]] s1 _; [by apply returns_ret..|].
  apply returns_bind. eapply returns_mono; [apply x_treat_wc_rc|].
  intros [rc|n'] s2 H; [by apply returns_ret|apply IH].
Qed.

Lemma recv_loop_rc fuel c t n ev s : returns (recv_loop fuel c t n ev) s (λ r _, r ≠ inl 0).
Proof.
  revert n ev s. induction fuel as [|fuel IH]; intros n ev s; cbn [recv_loop]; [by intros ? ?|].
  destruct (n <? t); [|by apply returns_ret].
  apply returns_bind. intros e s1 _. destruct (e <>z 0); [by apply returns_ret|].
  apply returns_bind. intros n' s2 _. apply returns_bind. intros ? s3 _.
  apply returns_bind. eapply returns_mono; [apply poll_round_rc|].
  intros [rc|n''] s4 H; [by apply returns_ret|apply IH].
Qed.

(** ** A whole run *)

Lemma xsrq_run_returns c rand s0 T s :
  xst s0 (xstack c ++ T) (length (send_qp c)) s → length (recv_qp c) = length (send_qp c) →
  returns (xsrq_run c rand) s (λ r s', r = 0 → hwst s0 (x_hw s') T).
Proof.
  intros Hs Hr. unfold xsrq_run.
  eapply returns_xkeeps; [keep_x|exact Hs|]. intros e s1 H1. destruct (e <>z 0); [by apply returns_ret|].
  apply returns_bind. eapply returns_mono; [by apply connect_all_returns|]. intros e' s2 H2.
  destruct (e' <>z 0); [by apply returns_ret|].
  eapply returns_xkeeps; [keep_x|exact H2|]. intros total s3 H3.
  eapply returns_xkeeps; [keep_x|exact H3|]. intros ? s4 H4.
  apply returns_bind. intros r s5 E5. pose proof (recv_loop_rc _ _ _ _ _ _ _ _ E5) as Hrc.
  assert (xst s0 (xstack c ++ T) (length (send_qp c)) s5) as H5.
  { pose proof (recv_loop_keeps (loop_fuel (x_hw a)) c total 0 0 s4) as Hk. rewrite E5 in Hk.
    cbn [snd] in Hk. destruct Hk as [Hk Hl], H4 as [H4 L4]. split; [by eapply hwst_keeps|congruence]. }
  destruct r as [rc|n]; cbv beta in Hrc.
  { apply returns_ret. intros ->. done. }
  eapply returns_xkeeps; [keep_x|exact H5|]. intros ? s6 H6.
  eapply returns_xkeeps; [keep_x|exact H6|]. intros e2 s7 H7.
  destruct (e2 <>z 0); [by apply returns_ret|].
  eapply returns_xkeeps; [keep_x|exact H7|]. intros ? s8 H8.
  eapply returns_xkeeps; [keep_x|exact H8|]. intros e3 s9 H9.
  destruct (e3 <>z 0); [by apply returns_ret|].
  apply returns_bind. intros s10 s11 [= <- <-]. destruct H9 as [H9 L9].
  apply returns_bind. eapply returns_mono.
  { apply returns_hard. by eapply (x_close_returns s0 c (rem_dest s9) T). }
  intros e4 s12 [H12 _]. apply returns_ret. destruct (Z.eqb_spec e4 0); cbn [negb]; [by intros _; apply H12|done].
Qed.

(** C32: a run of the XRC pingpong that returns 0, server or client, has given
    back every verbs object and every block of memory it made, the queue
    pairs of all its peers included, whatever the device, the peers and the
    allocator answered. *)
Theorem xsrq_gives_back (e : xenv) (s s' : hw)
    (Hst : stacked (Z.of_nat (h_time s)) (h_live s)) (Hrun : main e s = (Done 0, s')) :
  h_live s' = h_live s.
Proof.
  enough (returns (main e) s (λ r s', r = 0 → hwst s s' [])) as H.
  { exact (hs_live _ _ _ (H _ _ Hrun eq_refl)). }
  unfold main. destruct (xsrq_options _ _) as [o|]; [|by apply returns_ret].
  apply returns_bind. eapply returns_mono; [apply xsrq_init_returns, (hwst_refl s Hst)|].
  intros [[c l]|] s1 H1; [|by apply returns_ret]. destruct H1 as (H1 & _ & L1 & L2 & L3).
  intros r s2 E. unfold with_peers in E.
  destruct (xsrq_run c (xe_rand e) (Xsrq s1 l)) as [o' t] eqn:Er. injection E as -> <-.
  eapply (xsrq_run_returns c (xe_rand e) s [] (Xsrq s1 l));
    [split; [exact H1|cbn; congruence]|congruence|exact Er].
Qed.

(** ** A concrete run: a server with two clients *)

Definition demo_xmsg (q p n : Z) : list char :=
  default [] (xdest_msg 17 q (q + 1) p n (gid demo_dest)).
Definition demo_end_msg : list char := TERMINATION_MSG ++ [NUL].
Definition demo_xsrq_hw : hw :=
  Hw (World (λ _, true) (λ _, 0) (λ _, 0) demo_device 0 [Address 3 true (Conn [] [] [])])
    (OS ∅ ∅ (Net [] []
       [AccOk 5 (Conn [InData (demo_xmsg 0xabc 0x123 0x301); InData demo_end_msg] [] []);
        AccOk 6 (Conn [InData (demo_xmsg 0xbbc 0x124 0x302); InData demo_end_msg] [] [])]
       1 [] true)) 0 [] [] []
    [PollWcs [Wc 1 0 0 219]; PollWcs []; PollWcs [Wc 1 0 0 215; Wc 1 0 0 219; Wc 1 0 0 215];
     PollWcs []; PollWcs [Wc 1 0 0 221; Wc 0 0 0 217]] [].
Definition demo_xenv : xenv :=
  XEnv [("c"%char, L "2"); ("n"%char, L "2")] [] (Some [(L "mlx5_0", 1)]) 9 (λ n, 7 + Z.of_nat n).

Lemma xsrq_gives_back_witness : h_live (main demo_xenv demo_xsrq_hw).2 = h_live demo_xsrq_hw.
Proof.
  apply (xsrq_gives_back demo_xenv demo_xsrq_hw); [exact I|]. vm_compute. reflexivity.
Defined.
