(* ===== verification/XsrqProto.v ===== *)
(** * The XRC pingpong, between a server and its clients

    The processes of xsrq_pingpong.c after their set-up: a server and its
    clients, which share an XRC domain.  A message names the shared receive
    queue it is for, whatever queue pair it is sent on, and the device delivers
    it to the process that owns that queue; on its way it says by which queue
    pair it came only to a process with several peers.  A step is the treatment
    of one message by [treat_wc], for which the shared queue holds a receive. *)

From Stdlib Require Import ZifyBool.
From S2P Require Import Prelude CLib OS Gid Verbs Exch Keeps RcPingpong RcLife Setup.
From S2P Require Import SrqPingpong SrqProto XsrqPingpong XsrqLife.

Local Open Scope Z_scope.

(** ** Steps *)

Definition is_send_to (n : Z) (c : hwcall) : Prop :=
  match c with PostSendXrc _ _ _ _ n' => n' = n | _ => False end.

#[global] Instance is_send_to_dec n c : Decision (is_send_to n c).
Proof. unfold is_send_to. destruct c; apply _. Defined.

(** The messages sent to the shared receive queue with number [n]. *)
Definition sends_to (s : hw) (n : Z) : Z := Z.of_nat (length (filter (is_send_to n) (h_calls s))).

(** The number of an end's shared receive queue. *)
Definition srq_number (c : xctx) (a : xsrq) : Z := srq_num (h_dev (h_world (x_hw a))) (srq c).

(** The server with its count, the messages it has received from each client,
    and the clients with their counts. *)
Record conf := Conf {
  srv : xsrq;
  scount : Z;
  recvd : list Z;
  clients : list (xsrq * Z) }.

Section protocol.
Context (cs : xctx) (ccs : list xctx).

Inductive step : conf → conf → Prop :=
  | client_receives x i c a n w a' n' :
      ccs !! i = Some c → clients x !! i = Some (a, n) →
      n < sends_to (x_hw (srv x)) (srq_number c a) → n < srq_recvs (x_hw a) →
      wc_status w = 0 → treat_wc c n w a = (Done (inr n'), a') →
      step x (Conf (srv x) (scount x) (recvd x) (<[i := (a', n')]> (clients x)))
  | server_receives x i a n r q w s' n' :
      clients x !! i = Some (a, n) → recvd x !! i = Some r → recv_qp cs !! i = Some q →
      r < sends_to (x_hw a) (srq_number cs (srv x)) → scount x < srq_recvs (x_hw (srv x)) →
      wc_status w = 0 → wc_qp_num w = qp_num (h_dev (h_world (x_hw (srv x)))) q →
      treat_wc cs (scount x) w (srv x) = (Done (inr n'), s') →
      step x (Conf s' n' (<[i := r + 1]> (recvd x)) (clients x)).

(** [cnt < total]. *)
Definition srv_running (x : conf) : Prop := scount x < num_clients (xo cs) * num_tests (xo cs).
Definition client_running (i : nat) (x : conf) : Prop :=
  ∃ c a n, ccs !! i = Some c ∧ clients x !! i = Some (a, n) ∧ n < num_clients (xo c) * num_tests (xo c).
End protocol.

(** ** One end *)

Record end_ok (c : xctx) (a : xsrq) : Prop := {
  eo_accepts : accepts (x_hw a);
  eo_srq : is_live (KSrq, srq c) (h_live (x_hw a)) = true;
  eo_mr : is_live (KMr, mr c) (h_live (x_hw a)) = true;
  eo_qps : Forall (λ q, is_live (KQp, q) (h_live (x_hw a)) = true) (send_qp c);
  eo_len : Z.of_nat (length (send_qp c)) = num_clients (xo c);
  eo_peers : length (rem_dest a) = length (send_qp c) }.

(** What posting changes. *)
Record posted (a a' : xsrq) (i : nat) (d : xdest) (l : list hwcall) : Prop := {
  po_world : h_world (x_hw a') = h_world (x_hw a);
  po_live : h_live (x_hw a') = h_live (x_hw a);
  po_rem : rem_dest a' = <[i := d]> (rem_dest a);
  po_calls : h_calls (x_hw a') = h_calls (x_hw a) ++ l }.

Lemma posted_ok c a a' i d l : end_ok c a → posted a a' i d l → end_ok c a'.
Proof.
  intros [] [Hw Hl Hr _]. constructor; unfold accepts in *; rewrite ?Hw, ?Hl, ?Hr, ?length_insert; done.
Qed.

(** The message number [k] to the peer [d] of index [i]: its queue pair and
    whether it is signaled. *)
Definition rr_qp (n i k : nat) : nat := (i + k) mod n.
Definition xsend (c : xctx) (s : hw) (i k : nat) (n : Z) : hwcall :=
  PostSendXrc (nth (rr_qp (length (send_qp c)) i k) (send_qp c) 0) (Z.of_nat i)
    (if num_tests (xo c) <=? Z.of_nat k + 1 then IBV_SEND_SIGNALED else 0) (work_list s c) n.

Lemma hard_done {A} (m : M hw A) a (x : A) t : m (x_hw a) = (Done x, t) → hard m a = (Done x, set_x_hw t a).
Proof. intros H. exact (zoom_done (S := xsrq) m a x t H). Qed.

Lemma post_send_ok c a i d :
  end_ok c a → rem_dest a !! i = Some d → 0 ≤ pp_cnt d → num_clients (xo c) + pp_cnt d < int_max →
  ∃ a', pp_post_send c i a = (Done 0, a') ∧
    posted a a' i (set_pp_cnt (pp_cnt d + 1) d)
      [xsend c (x_hw a) i (Z.to_nat (pp_cnt d)) (wrap_u 32 (srqn d))].
Proof.
  intros Ha Hd H0 Hmax. pose proof (lookup_lt_Some _ _ _ Hd) as Hi.
  pose proof (eo_len _ _ Ha) as Hlen. rewrite (eo_peers _ _ Ha) in Hi.
  unfold pp_post_send. rewrite bind_get.
  assert (∀ B (k : xdest → M xsrq B), (peer i ≫= k) a = k d a) as Hpeer.
  { intros B k. unfold peer. by rewrite bind_assoc, bind_get, Hd. }
  rewrite Hpeer. erewrite bind_done by (apply int_add_ok; unfold int_min; lia).
  erewrite bind_done by (apply int_add_ok; unfold int_min; lia).
  erewrite bind_done by reflexivity. cbv zeta.
  set (j := rr_qp (length (send_qp c)) i (Z.to_nat (pp_cnt d))).
  assert (Z.to_nat (Z.rem (Z.of_nat i + pp_cnt d) (num_clients (xo c))) = j) as ->.
  { unfold j, rr_qp. rewrite Z.rem_mod_nonneg, <-Hlen by lia.
    apply Nat2Z.inj. rewrite Nat2Z.inj_mod, Nat2Z.inj_add, !Z2Nat.id; [done|lia|].
    apply Z.mod_pos_bound. lia. }
  assert (j < length (send_qp c))%nat as Hj by (apply Nat.mod_upper_bound; lia).
  destruct (lookup_lt_is_Some_2 _ _ Hj) as [q Hq].
  assert (nth j (send_qp c) 0 = q) as Hnth by (by apply nth_lookup_Some).
  rewrite Hq. cbn [or_fault]. rewrite bind_ret.
  set (a1 := set_rem_dest _ a). set (pc := PostSendXrc _ _ _ _ _).
  assert (call [(KQp, q); (KMr, mr c)] pc (x_hw a1) = (Done 0, logged pc (x_hw a1))) as Ec.
  { apply call_accepted; [exact (eo_accepts _ _ Ha)|]. cbn [forallb a1 set_rem_dest x_hw].
    rewrite (eo_mr _ _ Ha), andb_true_r. pose proof (eo_qps _ _ Ha) as Hqs.
    rewrite Forall_forall in Hqs. rewrite (Hqs q); [done|]. by eapply list_elem_of_lookup_2. }
  rewrite (hard_done _ _ _ _ Ec). eexists. split; [reflexivity|]. constructor; [done..|].
  cbn. unfold xsend. fold j. rewrite Hnth, Z2Nat.id by lia. done.
Qed.

Lemma post_recv_ok c a k :
  end_ok c a →
  ∃ s', pp_post_recv c (Z.of_nat k) (x_hw a) = (Done 0, s') ∧
    h_world s' = h_world (x_hw a) ∧ h_live s' = h_live (x_hw a) ∧
    h_calls s' = h_calls (x_hw a) ++
      replicate k (PostSrqRecv (srq c) ctx_addr (work_list (x_hw a) c)).
Proof.
  intros Ha. unfold pp_post_recv. rewrite bind_get. rewrite (proj2 (Z.leb_le _ _)), Nat2Z.id by lia.
  set (pc := PostSrqRecv _ _ _).
  assert (∀ s, h_world s = h_world (x_hw a) → h_live s = h_live (x_hw a) →
    ∃ s', post_all (call [(KSrq, srq c); (KMr, mr c)] pc) k (mret 0) s = (Done 0, s') ∧
      h_world s' = h_world s ∧ h_live s' = h_live s ∧ h_calls s' = h_calls s ++ replicate k pc) as H.
  { induction k as [|k IH]; intros s Hw Hl; cbn [post_all].
    { exists s. by rewrite app_nil_r. }
    erewrite bind_done.
    2:{ apply call_accepted; [unfold accepts; rewrite Hw; exact (eo_accepts _ _ Ha)|].
        cbn [forallb]. by rewrite Hl, (eo_srq _ _ Ha), (eo_mr _ _ Ha). }
    change (0 <>z 0) with false. cbv iota.
    destruct (IH (logged pc s)) as (s' & E & W & L & C); [done..|].
    exists s'. split; [done|]. split_and!; [done..|]. rewrite C. cbn [logged log tick h_calls replicate].
    by rewrite <-(assoc_L app). }
  destruct (H (x_hw a)) as (s' & E & W & L & C); [done..|]. by exists s'.
Qed.

Lemma work_list_same s s' c : h_world s' = h_world s → work_list s' c = work_list s c.
Proof. intros E. unfold work_list. by rewrite E. Qed.
Lemma xsend_same c s s' i k n : h_world s' = h_world s → xsend c s' i k n = xsend c s i k n.
Proof. intros E. unfold xsend. by rewrite (work_list_same s s'). Qed.

(** The answer to a message from the peer [d] of index [i]. *)
Definition answer (c : xctx) (d : xdest) : xdest :=
  if pp_cnt d <? num_tests (xo c) then set_pp_cnt (pp_cnt d + 1) d else d.
Definition answer_calls (c : xctx) (s : hw) (i : nat) (d : xdest) : list hwcall :=
  PostSrqRecv (srq c) ctx_addr (work_list s c) ::
  if pp_cnt d <? num_tests (xo c)
  then [xsend c s i (Z.to_nat (pp_cnt d)) (wrap_u 32 (srqn d))] else [].

Lemma treat_wc_ok c a n w i d :
  end_ok c a → wc_status w = 0 → find_qp (h_dev (h_world (x_hw a))) c (wc_qp_num w) = i →
  rem_dest a !! i = Some d → 0 ≤ pp_cnt d →
  num_clients (xo c) + num_tests (xo c) < int_max → 0 ≤ n < int_max →
  ∃ a', treat_wc c n w a = (Done (inr (n + 1)), a') ∧
    posted a a' i (answer c d) (answer_calls c (x_hw a) i d).
Proof.
  intros Ha Hw Hi Hd H0 Hmax Hn. unfold treat_wc. rewrite Hw. change (0 <>z 0) with false. cbv iota.
  destruct (post_recv_ok c a 1 Ha) as (s1 & E1 & W1 & L1 & C1).
  rewrite (bind_done _ _ _ _ _ (hard_done (pp_post_recv c 1) a 0 s1 E1)). set (a1 := set_x_hw s1 a).
  rewrite bind_get. cbn [a1 x_hw set_x_hw]. rewrite W1, Hi.
  assert (∀ B (k : xdest → M xsrq B), (peer i ≫= k) a1 = k d a1) as Hpeer.
  { intros B k. unfold peer. rewrite bind_assoc, bind_get. cbn [a1 rem_dest set_x_hw]. by rewrite Hd. }
  rewrite Hpeer. unfold answer, answer_calls.
  assert (end_ok c a1) as Ha1.
  { destruct Ha. constructor; unfold accepts in *; cbn [a1 x_hw set_x_hw rem_dest]; rewrite ?W1, ?L1; done. }
  destruct (Z.ltb_spec (pp_cnt d) (num_tests (xo c))) as [Hlt|Hge].
  - destruct (post_send_ok c a1 i d Ha1) as (a2 & E2 & [W2 L2 R2 C2]); [done|done|lia|].
    rewrite (bind_done _ _ _ _ _ E2).
    erewrite bind_done by (apply int_add_ok; unfold int_min; lia).
    exists a2. split; [done|]. cbn [a1 x_hw set_x_hw rem_dest] in *.
    constructor; [congruence|congruence|done|]. rewrite C2, C1, <-(assoc_L app). cbn [replicate app].
    by rewrite (xsend_same c (x_hw a) s1).
  - rewrite bind_ret. erewrite bind_done by (apply int_add_ok; unfold int_min; lia).
    exists a1. split; [done|]. constructor; [done|done| |done].
    cbn [a1 rem_dest set_x_hw]. by rewrite list_insert_id.
Qed.

(** ** What an end has sent

    [ks] are the numbers of messages sent to each peer and [ns] the peers'
    shared receive queues. *)
Definition sent_to (c : xctx) (s : hw) (i : nat) (k : nat) (n : Z) : list hwcall :=
  (λ j, xsend c s i j n) <$> seq 0 k.
Fixpoint sent_from (c : xctx) (s : hw) (i : nat) (ks : list nat) (ns : list Z) : list hwcall :=
  match ks, ns with
  | k :: ks, n :: ns => sent_to c s i k n ++ sent_from c s (S i) ks ns
  | _, _ => []
  end.

Definition is_xsend (c : hwcall) : Prop :=
  match c with PostSendXrc _ _ _ _ _ => True | _ => False end.
#[global] Instance is_xsend_dec c : Decision (is_xsend c).
Proof. unfold is_xsend. destruct c; apply _. Defined.

(** All the messages sent, in any order. *)
Definition xsends (s : hw) : list hwcall := filter is_xsend (h_calls s).

Lemma sent_from_one c s i0 ks ns i k n :
  ks !! i = Some k → ns !! i = Some n →
  sent_from c s i0 (<[i := S k]> ks) ns ≡ₚ xsend c s (i0 + i) k n :: sent_from c s i0 ks ns.
Proof.
  revert i0 i ns. induction ks as [|k' ks IH]; intros i0 i [|n' ns] Hk Hn; try done.
  destruct i as [|i]; simpl in Hk, Hn; cbn [insert list_insert sent_from].
  - injection Hk as ->. injection Hn as ->. unfold sent_to. rewrite seq_S, fmap_app, Nat.add_0_r.
    cbn [fmap list_fmap]. rewrite Nat.add_0_l. by rewrite <-Permutation_middle, app_nil_r.
  - rewrite (IH (S i0) i ns Hk Hn). rewrite Permutation_middle, Nat.add_succ_comm. done.
Qed.

Lemma sends_to_xsends s n : sends_to s n = Z.of_nat (length (filter (is_send_to n) (xsends s))).
Proof.
  unfold sends_to, xsends. rewrite list_filter_filter_l; [done|]. by intros [].
Qed.

Lemma sends_to_perm s n l : xsends s ≡ₚ l → sends_to s n = Z.of_nat (length (filter (is_send_to n) l)).
Proof. intros H. rewrite sends_to_xsends. by rewrite H. Qed.

Lemma sent_to_count c s i k n n' :
  length (filter (is_send_to n') (sent_to c s i k n)) = if decide (n = n') then k else 0%nat.
Proof.
  unfold sent_to. generalize 0%nat at 1 as j. induction k as [|k IH]; intros j; [by case_decide|].
  cbn [seq]. rewrite fmap_cons. destruct (decide (n = n')) as [->|Hne].
  - rewrite filter_cons_True by done. cbn [length]. by rewrite IH, ?decide_True by done.
  - rewrite filter_cons_False by done. by rewrite IH, ?decide_False by done.
Qed.

(** Distinct queues: what is counted for the queue of peer [i] is what was sent
    to it. *)
Lemma sent_from_other c s i0 ks ns n :
  n ∉ ns → filter (is_send_to n) (sent_from c s i0 ks ns) = [].
Proof.
  revert i0 ns. induction ks as [|k ks IH]; intros i0 [|n' ns] Hn; try done.
  apply not_elem_of_cons in Hn as [H1 H2]. cbn [sent_from]. rewrite filter_app, IH by done.
  rewrite app_nil_r. apply nil_length_inv. rewrite sent_to_count. by rewrite decide_False.
Qed.

Lemma sent_from_count c s i0 ks ns i k n :
  NoDup ns → ks !! i = Some k → ns !! i = Some n →
  length (filter (is_send_to n) (sent_from c s i0 ks ns)) = k.
Proof.
  intros Hnd. revert i0 i ks. induction Hnd as [|n' ns Hn' _ IH]; intros i0 i [|k' ks] Hk Hn; try done.
  cbn [sent_from]. rewrite filter_app, length_app, sent_to_count.
  destruct i as [|i]; simpl in Hk, Hn.
  - injection Hk as ->. injection Hn as ->. rewrite decide_True by done.
    rewrite sent_from_other by done. simpl. lia.
  - rewrite decide_False.
    2:{ intros ->. apply Hn'. by eapply list_elem_of_lookup_2. }
    by rewrite (IH _ i).
Qed.

(** ** The invariant of one end *)

Definition cnts (a : xsrq) : list nat := (λ d, Z.to_nat (pp_cnt d)) <$> rem_dest a.
Definition srqns (a : xsrq) : list Z := (λ d, wrap_u 32 (srqn d)) <$> rem_dest a.

(** [n] messages were received: a receive was posted again for each, and what
    was sent is [sent_from]. *)
Record end_inv (c : xctx) (a : xsrq) (n : Z) : Prop := {
  ei_ok : end_ok c a;
  ei_sent : xsends (x_hw a) ≡ₚ sent_from c (x_hw a) 0 (cnts a) (srqns a);
  ei_nodup : NoDup (srqns a);
  ei_pos : Forall (λ d, 0 ≤ pp_cnt d ≤ num_tests (xo c)) (rem_dest a);
  ei_recvs : srq_recvs (x_hw a) = num_clients (xo c) + n }.

Lemma sent_from_same c s s' i ks ns :
  h_world s' = h_world s → sent_from c s' i ks ns = sent_from c s i ks ns.
Proof.
  intros E. revert i ns. induction ks as [|k ks IH]; intros i [|n ns]; try done.
  cbn [sent_from]. rewrite IH. f_equal. unfold sent_to. apply list_fmap_ext. intros. by apply xsend_same.
Qed.

Lemma end_sends c a n i d :
  end_inv c a n → rem_dest a !! i = Some d → sends_to (x_hw a) (wrap_u 32 (srqn d)) = pp_cnt d.
Proof.
  intros [_ Hs Hn Hp _] Hd. rewrite (sends_to_perm _ _ _ Hs).
  rewrite (sent_from_count _ _ _ _ _ i (Z.to_nat (pp_cnt d)) _ Hn).
  - rewrite Z2Nat.id; [done|]. rewrite Forall_forall in Hp. apply (Hp d). by eapply list_elem_of_lookup_2.
  - unfold cnts. by rewrite list_lookup_fmap, Hd.
  - unfold srqns. by rewrite list_lookup_fmap, Hd.
Qed.

(** A message more to a peer. *)
Lemma sent_more c a a' i d :
  rem_dest a !! i = Some d → 0 ≤ pp_cnt d → h_world (x_hw a') = h_world (x_hw a) →
  rem_dest a' = <[i := set_pp_cnt (pp_cnt d + 1) d]> (rem_dest a) →
  srqns a' = srqns a ∧
  sent_from c (x_hw a') 0 (cnts a') (srqns a') ≡ₚ
    xsend c (x_hw a) i (Z.to_nat (pp_cnt d)) (wrap_u 32 (srqn d)) ::
    sent_from c (x_hw a) 0 (cnts a) (srqns a).
Proof.
  intros Hd H0 Hw Hr.
  assert (srqns a' = srqns a) as Es.
  { unfold srqns. rewrite Hr, list_fmap_insert. cbn [srqn set_pp_cnt].
    apply list_insert_id. by rewrite list_lookup_fmap, Hd. }
  split; [done|]. rewrite (sent_from_same _ _ _ _ _ _ Hw), Es.
  assert (cnts a' = <[i := S (Z.to_nat (pp_cnt d))]> (cnts a)) as ->.
  { unfold cnts. rewrite Hr, list_fmap_insert. cbn [pp_cnt set_pp_cnt]. by rewrite Z2Nat.inj_add by lia; rewrite Nat.add_1_r. }
  rewrite (sent_from_one c _ 0 (cnts a) (srqns a) i (Z.to_nat (pp_cnt d)) (wrap_u 32 (srqn d))); [done|..];
    unfold cnts, srqns; by rewrite list_lookup_fmap, Hd.
Qed.

Lemma treat_inv c a n w i d :
  end_inv c a n → wc_status w = 0 → find_qp (h_dev (h_world (x_hw a))) c (wc_qp_num w) = i →
  rem_dest a !! i = Some d → num_clients (xo c) + num_tests (xo c) < int_max → 0 ≤ n < int_max →
  ∃ a', treat_wc c n w a = (Done (inr (n + 1)), a') ∧ end_inv c a' (n + 1) ∧
    rem_dest a' = <[i := answer c d]> (rem_dest a) ∧ h_world (x_hw a') = h_world (x_hw a).
Proof.
  intros [Ha Hs Hn Hp Hr] Hw Hi Hd Hmax Hnn.
  assert (0 ≤ pp_cnt d ≤ num_tests (xo c)) as Hd0.
  { rewrite Forall_forall in Hp. apply Hp. by eapply list_elem_of_lookup_2. }
  destruct (treat_wc_ok c a n w i d Ha Hw Hi Hd) as (a' & E & Hpo); [lia|done|done|].
  pose proof Hpo as [W L R C]. exists a'. split_and!; [done| |done|done].
  pose proof (posted_ok _ _ _ _ _ _ Ha Hpo) as Ha'.
  assert (srq_recvs (x_hw a') = num_clients (xo c) + (n + 1)) as Hr'.
  { destruct (calls_logged _ _ _ C) as [_ E2]. rewrite E2, Hr. unfold answer_calls.
    rewrite filter_cons_True by done.
    destruct (_ <? _); rewrite ?filter_cons_False by (cbn; tauto); cbn [length filter]; simpl; lia. }
  assert (xsends (x_hw a') = xsends (x_hw a) ++ filter is_xsend (answer_calls c (x_hw a) i d)) as Ex.
  { unfold xsends. by rewrite C, filter_app. }
  assert (Forall (λ d, 0 ≤ pp_cnt d ≤ num_tests (xo c)) (rem_dest a')) as Hp'.
  { rewrite R. apply Forall_insert; [done|]. unfold answer.
    destruct (Z.ltb_spec (pp_cnt d) (num_tests (xo c))); cbn [pp_cnt set_pp_cnt]; lia. }
  unfold answer, answer_calls in *. rewrite filter_cons_False in Ex by (cbn; tauto).
  destruct (Z.ltb_spec (pp_cnt d) (num_tests (xo c))) as [Hlt|Hge].
  - destruct (sent_more c a a' i d Hd (proj1 Hd0) W R) as [Es Hp1].
    constructor; [done| |by rewrite Es|done|done]. rewrite Hp1, Ex, filter_cons_True by done.
    rewrite Hs. by rewrite <-Permutation_cons_append.
  - rewrite list_insert_id in R by done. assert (cnts a' = cnts a ∧ srqns a' = srqns a) as [Ec Es].
    { unfold cnts, srqns. by rewrite R. }
    constructor; [done| |by rewrite Es|done|done].
    by rewrite Ex, Ec, Es, app_nil_r, (sent_from_same _ _ _ _ _ _ W).
Qed.

(** ** All of them *)

(** What a client and the server know of each other: [d] is the client's entry
    at the server, [e] the server's at the client, [r] the messages the server
    has received from it, [n] those the client has received. *)
Record link (T : Z) (cs c : xctx) (s a : xsrq) (n r : Z) (d e : xdest) : Prop := {
  lk_end : end_inv c a n;
  lk_one : num_clients (xo c) = 1;
  lk_tests : num_tests (xo c) = T;
  lk_rem : rem_dest a = [e];
  lk_to_client : wrap_u 32 (srqn d) = srq_number c a;
  lk_to_server : wrap_u 32 (srqn e) = srq_number cs s;
  lk_client_cnt : pp_cnt e = n;
  lk_server_cnt : pp_cnt d = Z.min T (r + 1);
  lk_order : 0 ≤ r ≤ n ∧ n ≤ pp_cnt d }.

Record conf_inv (cs : xctx) (ccs : list xctx) (x : conf) : Prop := {
  ci_srv : end_inv cs (srv x) (scount x);
  ci_count : scount x = zsum (recvd x);
  ci_ctxs : length ccs = length (send_qp cs);
  ci_recvs : length (recvd x) = length (send_qp cs);
  ci_clients : length (clients x) = length (send_qp cs);
  ci_rqps : length (recv_qp cs) = length (send_qp cs);
  ci_nums : NoDup (qp_num (h_dev (h_world (x_hw (srv x)))) <$> recv_qp cs);
  ci_range : Forall (λ q, 0 ≤ qp_num (h_dev (h_world (x_hw (srv x)))) q < 2 ^ 32) (recv_qp cs);
  ci_link : ∀ i c a n, ccs !! i = Some c → clients x !! i = Some (a, n) →
    ∃ d r e, rem_dest (srv x) !! i = Some d ∧ recvd x !! i = Some r ∧
      link (num_tests (xo cs)) cs c (srv x) a n r d e }.

Lemma zsum_bounds l lo hi :
  Forall (λ z, lo ≤ z ≤ hi) l → Z.of_nat (length l) * lo ≤ zsum l ≤ Z.of_nat (length l) * hi.
Proof. induction 1 as [|z l H _ IH]; [done|]. unfold zsum in *. cbn [length foldr]. lia. Qed.

Lemma zsum_lt l i z hi :
  Forall (λ z, 0 ≤ z ≤ hi) l → l !! i = Some z → z < hi → zsum l < Z.of_nat (length l) * hi.
Proof.
  intros H Hi Hz. pose proof (zsum_insert l i z hi Hi) as E.
  assert (Forall (λ z, 0 ≤ z ≤ hi) (<[i := hi]> l)) as H'.
  { apply Forall_insert; [done|]. rewrite Forall_forall in H. pose proof (H z) as Hz0.
    specialize (Hz0 ltac:(by eapply list_elem_of_lookup_2)). lia. }
  apply zsum_bounds in H'. rewrite length_insert in H'. lia.
Qed.

Lemma x_find_qp_own c s i q :
  end_ok c s → length (recv_qp c) = length (send_qp c) →
  NoDup (qp_num (h_dev (h_world (x_hw s))) <$> recv_qp c) →
  Forall (λ q, 0 ≤ qp_num (h_dev (h_world (x_hw s))) q < 2 ^ 32) (recv_qp c) →
  recv_qp c !! i = Some q →
  find_qp (h_dev (h_world (x_hw s))) c (qp_num (h_dev (h_world (x_hw s))) q) = i.
Proof.
  intros Ha Hl Hn Hr Hq. unfold find_qp. pose proof (eo_len _ _ Ha) as Hlen.
  pose proof (lookup_lt_Some _ _ _ Hq) as Hi. destruct (Z.eqb_spec (num_clients (xo c)) 1); [lia|].
  assert (0 ≤ qp_num (h_dev (h_world (x_hw s))) q < 2 ^ 32) as Hq32.
  { rewrite Forall_forall in Hr. apply Hr. by eapply list_elem_of_lookup_2. }
  rewrite wrap_u_of_s by done.
  assert (list_find (λ q', qp_num (h_dev (h_world (x_hw s))) q' =
    qp_num (h_dev (h_world (x_hw s))) q) (recv_qp c) = Some (i, q)) as ->; [|done].
  apply list_find_Some. split_and!; [done|done|]. intros j y Hj Hji Hy.
  assert (j = i); [|lia]. eapply (NoDup_lookup _ j i _ Hn); rewrite list_lookup_fmap, ?Hj, ?Hq; [done|].
  cbn. by rewrite Hy.
Qed.

(** The messages received by all the processes. *)
Definition received (x : conf) : Z := scount x + zsum (clients x).*2.

Section run.
Context (cs : xctx) (ccs : list xctx).
Context (HT : 1 ≤ num_tests (xo cs)) (HN : 1 ≤ num_clients (xo cs)).
Context (Hsum : num_clients (xo cs) + num_tests (xo cs) < int_max).
Context (Hprod : num_clients (xo cs) * num_tests (xo cs) ≤ int_max).

Lemma conf_at x i :
  conf_inv cs ccs x → (i < length (send_qp cs))%nat →
  ∃ c a n d r e q, ccs !! i = Some c ∧ clients x !! i = Some (a, n) ∧
    rem_dest (srv x) !! i = Some d ∧ recvd x !! i = Some r ∧ recv_qp cs !! i = Some q ∧
    link (num_tests (xo cs)) cs c (srv x) a n r d e.
Proof using.
  intros [_ _ L1 _ L2 L3 _ _ Hl] Hi.
  destruct (lookup_lt_is_Some_2 ccs i ltac:(lia)) as [c Hc].
  destruct (lookup_lt_is_Some_2 (clients x) i ltac:(lia)) as [[a n] Ha].
  destruct (lookup_lt_is_Some_2 (recv_qp cs) i ltac:(lia)) as [q Hq].
  destruct (Hl i c a n Hc Ha) as (d & r & e & Hd & Hr & Hk). by exists c, a, n, d, r, e, q.
Qed.

Lemma recvd_bounds x : conf_inv cs ccs x → Forall (λ r, 0 ≤ r ≤ num_tests (xo cs)) (recvd x).
Proof using.
  intros Hx. apply Forall_lookup. intros i r Hr.
  assert (i < length (send_qp cs))%nat as Hi.
  { rewrite <-(ci_recvs _ _ _ Hx). by eapply lookup_lt_Some. }
  destruct (conf_at x i Hx Hi) as (c & a & n & d & r' & e & q & _ & _ & _ & Hr' & _ & Hk).
  rewrite Hr in Hr'. injection Hr' as <-. destruct Hk. lia.
Qed.

Lemma clients_bounds x : conf_inv cs ccs x → Forall (λ n, 0 ≤ n ≤ num_tests (xo cs)) (clients x).*2.
Proof using HT.
  intros Hx. apply Forall_lookup. intros i n Hn. rewrite list_lookup_fmap in Hn.
  destruct (clients x !! i) as [[a n']|] eqn:Ha; [|done]. injection Hn as <-.
  assert (i < length (send_qp cs))%nat as Hi.
  { rewrite <-(ci_clients _ _ _ Hx). by eapply lookup_lt_Some. }
  destruct (conf_at x i Hx Hi) as (c & a' & n & d & r' & e & q & _ & Ha' & _ & _ & _ & Hk).
  rewrite Ha in Ha'. injection Ha' as <- <-. destruct Hk. cbn [snd]. lia.
Qed.

Lemma num_clients_len x : conf_inv cs ccs x → num_clients (xo cs) = Z.of_nat (length (send_qp cs)).
Proof using. intros Hx. by rewrite (eo_len _ _ (ei_ok _ _ _ (ci_srv _ _ _ Hx))). Qed.

Lemma received_bound x :
  conf_inv cs ccs x → received x ≤ 2 * (num_clients (xo cs) * num_tests (xo cs)).
Proof using HT.
  intros Hx. unfold received. rewrite (ci_count _ _ _ Hx).
  pose proof (zsum_bounds _ _ _ (recvd_bounds x Hx)). pose proof (zsum_bounds _ _ _ (clients_bounds x Hx)).
  rewrite length_fmap, (ci_clients _ _ _ Hx) in *. rewrite (ci_recvs _ _ _ Hx) in *.
  rewrite (num_clients_len x Hx). lia.
Qed.

(** What the server may take: the client's last answer. *)
Lemma link_server c s a n r d e :
  link (num_tests (xo cs)) cs c s a n r d e →
  sends_to (x_hw a) (srq_number cs s) = n ∧ srq_recvs (x_hw a) = 1 + n.
Proof using.
  intros [He H1 _ Hr _ Ht Hn _ _]. split.
  - rewrite <-Ht, <-Hn. apply (end_sends c a n 0 e He). by rewrite Hr.
  - rewrite (ei_recvs _ _ _ He). lia.
Qed.

Lemma client_treats x i c a n w d r e :
  conf_inv cs ccs x → ccs !! i = Some c → clients x !! i = Some (a, n) →
  link (num_tests (xo cs)) cs c (srv x) a n r d e → n < pp_cnt d → wc_status w = 0 →
  ∃ a', treat_wc c n w a = (Done (inr (n + 1)), a') ∧
    link (num_tests (xo cs)) cs c (srv x) a' (n + 1) r d (set_pp_cnt (n + 1) e).
Proof using HT Hsum HN.
  intros Hx Hc Ha [He H1 Ht Hr Hc1 Hs1 Hn Hd Ho] Hlt Hw.
  assert (find_qp (h_dev (h_world (x_hw a))) c (wc_qp_num w) = 0%nat) as Hf.
  { unfold find_qp. by rewrite H1. }
  destruct (treat_inv c a n w 0 e He Hw Hf) as (a' & E & He' & Er & Ew); [by rewrite Hr|lia|lia|].
  exists a'. split; [done|]. rewrite Hr in Er. unfold answer in Er.
  rewrite (proj2 (Z.ltb_lt _ _)) in Er by lia. cbn in Er. rewrite Hn in Er.
  constructor; cbn [pp_cnt set_pp_cnt srqn]; try done; [|lia].
  rewrite Hc1. unfold srq_number. by rewrite Ew.
Qed.

Lemma server_treats x i a n r q w c d e :
  conf_inv cs ccs x → rem_dest (srv x) !! i = Some d → recvd x !! i = Some r →
  recv_qp cs !! i = Some q → link (num_tests (xo cs)) cs c (srv x) a n r d e → r < n →
  wc_status w = 0 → wc_qp_num w = qp_num (h_dev (h_world (x_hw (srv x)))) q →
  scount x < num_clients (xo cs) * num_tests (xo cs) ∧
  ∃ s', treat_wc cs (scount x) w (srv x) = (Done (inr (scount x + 1)), s') ∧
    end_inv cs s' (scount x + 1) ∧ h_world (x_hw s') = h_world (x_hw (srv x)) ∧
    rem_dest s' = <[i := answer cs d]> (rem_dest (srv x)) ∧
    link (num_tests (xo cs)) cs c s' a n (r + 1) (answer cs d) e.
Proof using HT Hsum HN Hprod.
  intros Hx Hd Hr Hq Hk Hlt Hw Hwq.
  pose proof Hk as [He H1 Ht Hre Hc1 Hs1 Hn Hpd Ho].
  assert (scount x < num_clients (xo cs) * num_tests (xo cs)) as Hrun.
  { rewrite (num_clients_len x Hx), (ci_count _ _ _ Hx), <-(ci_recvs _ _ _ Hx).
    eapply zsum_lt; [by apply recvd_bounds|exact Hr|lia]. }
  assert (0 ≤ scount x) as H0.
  { rewrite (ci_count _ _ _ Hx). pose proof (zsum_bounds _ _ _ (recvd_bounds x Hx)). lia. }
  split; [done|].
  destruct (treat_inv cs (srv x) (scount x) w i d (ci_srv _ _ _ Hx) Hw) as (s' & E & He' & Er & Ew);
    [|done|lia|lia|].
  { rewrite Hwq. destruct Hx. by apply x_find_qp_own; [apply ci_srv0|..]. }
  exists s'. split_and!; [done..|]. unfold answer.
  destruct (Z.ltb_spec (pp_cnt d) (num_tests (xo cs)));
    constructor; cbn [pp_cnt set_pp_cnt srqn]; try done; try lia; unfold srq_number; by rewrite Ew.
Qed.

Lemma link_same T c s s' a n r d e :
  link T cs c s a n r d e → h_world (x_hw s') = h_world (x_hw s) → link T cs c s' a n r d e.
Proof using. intros [] E. constructor; try done. unfold srq_number in *. by rewrite E. Qed.

(** Who moves in a step is in its loop. *)
Definition moves (x y : conf) : Prop :=
  (scount y = scount x + 1 ∧ srv_running cs x) ∨
  (srv y = srv x ∧ ∃ i, client_running ccs i x ∧ ∀ j, j ≠ i → clients y !! j = clients x !! j).

Lemma conf_step x y :
  conf_inv cs ccs x → step cs ccs x y →
  conf_inv cs ccs y ∧ received y = received x + 1 ∧ moves x y.
Proof using HT Hsum HN Hprod.
  intros Hx Hs. destruct Hs as [x i c a n w a' n' Hc Ha Hlt Hrc Hw E|x i a n r q w s' n' Ha Hr Hq Hlt Hrc Hw Hwq E].
  - pose proof Hx as [I1 I2 I3 I4 I5 I6 I7 I8 Hl].
    destruct (Hl i c a n Hc Ha) as (d & r & e & Hd & Hr & Hk).
    rewrite <-(lk_to_client _ _ _ _ _ _ _ _ _ Hk), (end_sends _ _ _ _ _ I1 Hd) in Hlt.
    destruct (client_treats x i c a n w d r e Hx Hc Ha Hk Hlt Hw) as (a1 & E1 & Hk1).
    rewrite E1 in E. injection E as <- <-. split_and!.
    + constructor; cbn [srv scount recvd clients]; try done; [by rewrite length_insert|].
      intros j c' a2 n2 Hc' Ha2. destruct (decide (j = i)) as [->|Hne].
      * rewrite list_lookup_insert_eq in Ha2 by (by eapply lookup_lt_Some).
        injection Ha2 as <- <-. rewrite Hc in Hc'. injection Hc' as <-. by exists d, r, (set_pp_cnt (n + 1) e).
      * rewrite list_lookup_insert_ne in Ha2 by done. by eapply Hl.
    + unfold received. cbn [scount clients]. rewrite list_fmap_insert. cbn [snd].
      rewrite (zsum_insert _ i n); [lia|]. by rewrite list_lookup_fmap, Ha.
    + right. split; [done|]. exists i. split.
      * exists c, a, n. split_and!; [done..|]. destruct Hk. lia.
      * intros j Hj. cbn [clients]. by rewrite list_lookup_insert_ne.
  - pose proof (lookup_lt_Some _ _ _ Ha) as Hi. rewrite (ci_clients _ _ _ Hx) in Hi.
    destruct (conf_at x i Hx Hi) as (c & a0 & n0 & d & r0 & e & q0 & Hc & Ha0 & Hd & Hr0 & Hq0 & Hk).
    rewrite Ha in Ha0. injection Ha0 as <- <-. rewrite Hr in Hr0. injection Hr0 as <-.
    rewrite Hq in Hq0. injection Hq0 as <-.
    destruct (link_server _ _ _ _ _ _ _ Hk) as [Es _]. rewrite Es in Hlt.
    destruct (server_treats x i a n r q w c d e Hx Hd Hr Hq Hk Hlt Hw Hwq)
      as (Hrun & s1 & E1 & He1 & Ew1 & Er1 & Hk1).
    rewrite E1 in E. injection E as <- <-. split_and!.
    + pose proof Hx as [I1 I2 I3 I4 I5 I6 I7 I8 Hl].
      constructor; cbn [srv scount recvd clients]; try done; rewrite ?Ew1, ?length_insert; try done.
      * rewrite (zsum_insert _ _ _ _ Hr), I2. lia.
      * intros j c' a2 n2 Hc' Ha2. destruct (decide (j = i)) as [->|Hne].
        -- rewrite Hc in Hc'. injection Hc' as <-. rewrite Ha in Ha2. injection Ha2 as <- <-.
           exists (answer cs d), (r + 1), e. split; [|split; [|done]].
           ++ rewrite Er1. apply list_lookup_insert_eq. by eapply lookup_lt_Some.
           ++ apply list_lookup_insert_eq. by eapply lookup_lt_Some.
        -- destruct (Hl j c' a2 n2 Hc' Ha2) as (d' & r' & e' & Hd' & Hr' & Hk').
           exists d', r', e'. rewrite Er1, !list_lookup_insert_ne by done.
           split_and!; [done..|]. by eapply link_same.
    + unfold received. cbn [scount clients]. lia.
    + left. done.
Qed.

Lemma conf_run n x y :
  conf_inv cs ccs x → nsteps (step cs ccs) n x y →
  conf_inv cs ccs y ∧ received y = received x + Z.of_nat n.
Proof using HT Hsum HN Hprod.
  intros Hx Hn. induction Hn as [x|n x z y Hs _ IH]; [split; [done|lia]|].
  destruct (conf_step _ _ Hx Hs) as (Hz & E & _). destruct (IH Hz) as [Hy E']. split; [done|lia].
Qed.

(** ** Progress *)

(** A client and the server are not both waiting for the other. *)
Lemma pair_progress x i c a n r d e :
  conf_inv cs ccs x → ccs !! i = Some c → clients x !! i = Some (a, n) →
  rem_dest (srv x) !! i = Some d → recvd x !! i = Some r →
  link (num_tests (xo cs)) cs c (srv x) a n r d e → n < num_tests (xo cs) ∨ r < num_tests (xo cs) →
  ∃ y, step cs ccs x y.
Proof using HT Hsum HN Hprod.
  intros Hx Hc Ha Hd Hr Hk Hnr.
  destruct (link_server _ _ _ _ _ _ _ Hk) as [Es Erv].
  destruct (Z.lt_ge_cases n (pp_cnt d)) as [Hlt|Hge].
  - destruct (client_treats x i c a n (Wc 0 0 0 0) d r e Hx Hc Ha Hk Hlt eq_refl) as (a' & E & _).
    eexists. eapply (client_receives _ _ x i c a n (Wc 0 0 0 0) a' _ Hc Ha); [| |reflexivity|exact E].
    + rewrite <-(lk_to_client _ _ _ _ _ _ _ _ _ Hk), (end_sends _ _ _ _ _ (ci_srv _ _ _ Hx) Hd). done.
    + lia.
  - assert (i < length (send_qp cs))%nat as Hi.
    { rewrite <-(ci_recvs _ _ _ Hx). by eapply lookup_lt_Some. }
    destruct (lookup_lt_is_Some_2 (recv_qp cs) i) as [q Hq]; [by rewrite (ci_rqps _ _ _ Hx)|].
    assert (r < n) as Hrn by (destruct Hk; lia).
    destruct (server_treats x i a n r q (Wc 0 0 0 (qp_num (h_dev (h_world (x_hw (srv x)))) q))
      c d e Hx Hd Hr Hq Hk Hrn eq_refl eq_refl) as (Hrun & s' & E & _).
    eexists. eapply (server_receives _ _ x i a n r q
      (Wc 0 0 0 (qp_num (h_dev (h_world (x_hw (srv x)))) q)) s' _ Ha Hr Hq); [| |done|done|exact E].
    + by rewrite Es.
    + rewrite (ei_recvs _ _ _ (ci_srv _ _ _ Hx)). lia.
Qed.

Lemma zsum_all l hi : Forall (λ z, z ≤ hi) l → (∀ i z, l !! i = Some z → hi ≤ z) → zsum l = Z.of_nat (length l) * hi.
Proof using.
  intros Hl Hi. enough (l = replicate (length l) hi) as E.
  { rewrite E at 1. apply zsum_replicate. }
  symmetry. apply replicate_as_elem_of. split; [done|]. intros z Hz.
  rewrite Forall_forall in Hl. specialize (Hl z Hz).
  apply list_elem_of_lookup in Hz as [i Hz]. specialize (Hi i z Hz). lia.
Qed.

Lemma conf_progress x :
  conf_inv cs ccs x → srv_running cs x ∨ (∃ i, client_running ccs i x) → ∃ y, step cs ccs x y.
Proof using HT Hsum HN Hprod.
  intros Hx [Hrun|(i & c & a & n & Hc & Ha & Hrun)].
  - destruct (decide (Exists (λ r, r < num_tests (xo cs)) (recvd x))) as [Hex|Hall].
    + apply Exists_exists in Hex as (r & Hin & Hr). apply list_elem_of_lookup in Hin as [i Hi].
      destruct (conf_at x i Hx) as (c & a & n & d & r' & e & q & Hc & Ha & Hd & Hr' & _ & Hk).
      { rewrite <-(ci_recvs _ _ _ Hx). by eapply lookup_lt_Some. }
      rewrite Hi in Hr'. injection Hr' as <-. eapply pair_progress; try done. by right.
    + exfalso. unfold srv_running in Hrun. rewrite (ci_count _ _ _ Hx) in Hrun.
      rewrite (zsum_all (recvd x) (num_tests (xo cs))) in Hrun.
      * rewrite (ci_recvs _ _ _ Hx), <-(num_clients_len x Hx) in Hrun. lia.
      * eapply Forall_impl; [by apply recvd_bounds|]. cbv beta. lia.
      * intros i r Hr. destruct (Z.lt_ge_cases r (num_tests (xo cs))) as [Hlt|Hge]; [|done].
        exfalso. apply Hall, Exists_exists. exists r. split; [by eapply list_elem_of_lookup_2|done].
  - destruct (conf_at x i Hx) as (c' & a' & n' & d & r & e & q & Hc' & Ha' & Hd & Hr & _ & Hk).
    { rewrite <-(ci_clients _ _ _ Hx). by eapply lookup_lt_Some. }
    rewrite Hc in Hc'. injection Hc' as <-. rewrite Ha in Ha'. injection Ha' as <- <-.
    eapply pair_progress; try done. left. destruct Hk. lia.
Qed.
End run.

(** ** Launching *)

(** An end after the exchange of addresses, its receives posted. *)
Record fresh (c : xctx) (a : xsrq) : Prop := {
  fr_ok : end_ok c a;
  fr_sends : xsends (x_hw a) = [];
  fr_recvs : srq_recvs (x_hw a) = num_clients (xo c);
  fr_cnt : Forall (λ d, pp_cnt d = 0) (rem_dest a);
  fr_nodup : NoDup (srqns a) }.

(** A client and the server know each other's shared receive queues. *)
Record introduced (cs c : xctx) (s a : xsrq) (d : xdest) : Prop := {
  in_fresh : fresh c a;
  in_one : num_clients (xo c) = 1;
  in_tests : num_tests (xo c) = num_tests (xo cs);
  in_to_client : wrap_u 32 (srqn d) = srq_number c a;
  in_to_server : Forall (λ e, wrap_u 32 (srqn e) = srq_number cs s) (rem_dest a) }.

Record ready (cs : xctx) (ccs : list xctx) (s : xsrq) (l : list xsrq) : Prop := {
  rd_server : fresh cs s;
  rd_ctxs : length ccs = length (send_qp cs);
  rd_clients : length l = length (send_qp cs);
  rd_rqps : length (recv_qp cs) = length (send_qp cs);
  rd_sqps : NoDup (send_qp cs);
  rd_nums : NoDup (qp_num (h_dev (h_world (x_hw s))) <$> recv_qp cs);
  rd_range : Forall (λ q, 0 ≤ qp_num (h_dev (h_world (x_hw s))) q < 2 ^ 32) (recv_qp cs);
  rd_peers : ∀ i c a d, ccs !! i = Some c → l !! i = Some a → rem_dest s !! i = Some d →
    introduced cs c s a d }.

(** The start: the server has sent its first messages. *)
Definition start (s : xsrq) (l : list xsrq) : conf :=
  Conf s 0 (replicate (length l) 0) ((λ a, (a, 0)) <$> l).

Lemma sent_from_none c s i l ns :
  Forall (λ d, pp_cnt d = 0) l → sent_from c s i ((λ d, Z.to_nat (pp_cnt d)) <$> l) ns = [].
Proof.
  intros H. revert i ns. induction H as [|d l Hd _ IH]; intros i [|n ns]; try done.
  cbn [fmap list_fmap sent_from]. rewrite Hd. apply IH.
Qed.

Lemma fresh_inv c a : 1 ≤ num_tests (xo c) → fresh c a → end_inv c a 0.
Proof.
  intros HT [H1 H2 H3 H4 H5]. constructor; try done; [| |lia].
  - rewrite H2. unfold cnts. by rewrite sent_from_none.
  - eapply Forall_impl; [exact H4|]. cbv beta. lia.
Qed.

Lemma send_inv c a n i d :
  end_inv c a n → rem_dest a !! i = Some d → pp_cnt d < num_tests (xo c) →
  num_clients (xo c) + num_tests (xo c) < int_max →
  ∃ a', pp_post_send c i a = (Done 0, a') ∧ end_inv c a' n ∧ h_world (x_hw a') = h_world (x_hw a) ∧
    rem_dest a' = <[i := set_pp_cnt (pp_cnt d + 1) d]> (rem_dest a).
Proof.
  intros [Ha Hs Hn Hp Hr] Hd Hlt Hmax.
  assert (0 ≤ pp_cnt d) as Hd0.
  { rewrite Forall_forall in Hp. apply (Hp d). by eapply list_elem_of_lookup_2. }
  destruct (post_send_ok c a i d Ha Hd) as (a' & E & Hpo); [done|lia|].
  pose proof Hpo as [W L R C]. exists a'. split_and!; [done| |done|done].
  destruct (sent_more c a a' i d Hd Hd0 W R) as [Es Hp1]. constructor.
  - by eapply posted_ok.
  - rewrite Hp1. unfold xsends. rewrite C, filter_app, filter_cons_True by done.
    fold (xsends (x_hw a)). rewrite Hs. by rewrite <-Permutation_cons_append.
  - by rewrite Es.
  - rewrite R. apply Forall_insert; [done|]. cbn [pp_cnt set_pp_cnt]. lia.
  - destruct (calls_logged _ _ _ C) as [_ E2]. rewrite E2, Hr.
    rewrite filter_cons_False by (cbn; tauto). simpl. lia.
Qed.

Lemma send_first_ok c k i a :
  1 ≤ num_tests (xo c) → num_clients (xo c) + num_tests (xo c) < int_max → end_inv c a 0 →
  (i + k = length (rem_dest a))%nat → (∀ j d, (i ≤ j)%nat → rem_dest a !! j = Some d → pp_cnt d = 0) →
  ∃ a', send_first c k i a = (Done tt, a') ∧ end_inv c a' 0 ∧ h_world (x_hw a') = h_world (x_hw a) ∧
    ∀ j d, rem_dest a !! j = Some d →
      rem_dest a' !! j = Some (if decide (i ≤ j)%nat then set_pp_cnt 1 d else d).
Proof.
  intros HT Hmax. revert i a. induction k as [|k IH]; intros i a Ha Hl H0; cbn [send_first].
  { exists a. split_and!; [done..|]. intros j d Hj. rewrite decide_False; [done|].
    apply lookup_lt_Some in Hj. lia. }
  destruct (lookup_lt_is_Some_2 (rem_dest a) i ltac:(lia)) as [d Hd].
  pose proof (H0 i d ltac:(lia) Hd) as Hd0.
  destruct (send_inv c a 0 i d Ha Hd) as (a1 & E1 & Ha1 & W1 & R1); [lia|done|].
  rewrite (bind_done _ _ _ _ _ E1).
  destruct (IH (S i) a1) as (a2 & E2 & Ha2 & W2 & R2); [done|rewrite R1, length_insert; lia| |].
  { intros j d' Hj. rewrite R1, list_lookup_insert_ne by lia. apply H0. lia. }
  exists a2. split_and!; [done|done|congruence|]. intros j d' Hj. rewrite Hd0 in R1.
  destruct (decide (j = i)) as [->|Hne].
  - rewrite decide_True by done. rewrite Hd in Hj. injection Hj as <-.
    rewrite (R2 i (set_pp_cnt 1 d)); [by rewrite decide_False by lia|].
    rewrite R1. apply list_lookup_insert_eq. lia.
  - rewrite (R2 j d'); [|by rewrite R1, list_lookup_insert_ne].
    destruct (decide (i ≤ j)%nat); [rewrite decide_True by lia|rewrite decide_False by lia]; done.
Qed.

Lemma launch_conf cs ccs s l :
  1 ≤ num_tests (xo cs) → num_clients (xo cs) + num_tests (xo cs) < int_max → ready cs ccs s l →
  ∃ s', send_first cs (Z.to_nat (num_clients (xo cs))) 0 s = (Done tt, s') ∧
    conf_inv cs ccs (start s' l) ∧ received (start s' l) = 0.
Proof.
  intros HT Hmax [Hs L1 L2 L3 _ Hnd Hrg Hl]. pose proof (fresh_inv _ _ HT Hs) as Hi.
  pose proof (fr_ok _ _ Hs) as Hok.
  destruct (send_first_ok cs (Z.to_nat (num_clients (xo cs))) 0 s HT Hmax Hi)
    as (s' & E & Hi' & W & R).
  { rewrite <-(eo_len _ _ Hok), (eo_peers _ _ Hok). lia. }
  { intros j d _ Hd. pose proof (fr_cnt _ _ Hs) as Hc. rewrite Forall_forall in Hc. apply Hc.
    by eapply list_elem_of_lookup_2. }
  exists s'. split; [done|]. split.
  - constructor; unfold start; cbn [srv scount recvd clients]; rewrite ?length_replicate, ?length_fmap, ?W; try done.
    { rewrite zsum_replicate. lia. }
    intros i c a n Hc Ha. rewrite list_lookup_fmap in Ha. destruct (l !! i) as [a'|] eqn:Ha'; [|done].
    injection Ha as -> <-.
    assert (i < length (rem_dest s))%nat as [d Hd]%lookup_lt_is_Some_2.
    { rewrite (eo_peers _ _ Hok), <-L2. by eapply lookup_lt_Some. }
    destruct (Hl i c a d Hc Ha' Hd) as [Hf H1 Ht Hto Hfr].
    pose proof (eo_peers _ _ (fr_ok _ _ Hf)) as Hlen. pose proof (eo_len _ _ (fr_ok _ _ Hf)) as Hlen'.
    pose proof (fr_cnt _ _ Hf) as Hcnt. destruct (rem_dest a) as [|e [|e' rest]] eqn:Er; simpl in Hlen; [lia| |lia].
    exists (set_pp_cnt 1 d), 0, e. split; [by rewrite (R i d Hd)|]. split.
    { apply lookup_replicate. split; [done|]. by eapply lookup_lt_Some. }
    apply Forall_cons in Hcnt as [Hcnt _], Hfr as [Hfr _].
    constructor; cbn [pp_cnt set_pp_cnt srqn]; try done; try lia.
    + apply fresh_inv; [lia|done].
    + unfold srq_number in *. by rewrite W.
  - unfold received, start. cbn [scount clients]. rewrite <-list_fmap_compose.
    assert (snd ∘ (λ a : xsrq, (a, 0)) <$> l = replicate (length l) 0) as ->.
    { clear. induction l as [|a l IH]; [done|]. cbn [length replicate]. by rewrite <-IH. }
    rewrite zsum_replicate. lia.
Qed.

(** C1: a server and any number of clients that have met, each with its
    receives posted: the server's first messages are accepted, and in whatever
    order the messages are then delivered, at most [2 num_clients num_tests]
    of them are treated; there is one to treat exactly as long as some process
    is in its loop, and whoever takes one is in its loop: no process waits for
    ever, none is left with a message, and no post is refused. *)
Theorem xsrq_completes (cs : xctx) (ccs : list xctx) (s : xsrq) (l : list xsrq)
    (HT : 1 ≤ num_tests (xo cs)) (HN : 1 ≤ num_clients (xo cs))
    (Hsum : num_clients (xo cs) + num_tests (xo cs) < int_max)
    (Hprod : num_clients (xo cs) * num_tests (xo cs) ≤ int_max) (Hr : ready cs ccs s l) :
  ∃ s', send_first cs (Z.to_nat (num_clients (xo cs))) 0 s = (Done tt, s') ∧
    ∀ n x, nsteps (step cs ccs) n (start s' l) x →
      Z.of_nat n ≤ 2 * (num_clients (xo cs) * num_tests (xo cs)) ∧
      ((∃ y, step cs ccs x y) ↔ srv_running cs x ∨ ∃ i, client_running ccs i x) ∧
      (∀ y, step cs ccs x y → moves cs ccs x y).
Proof.
  destruct (launch_conf cs ccs s l HT Hsum Hr) as (s' & E & Hi & E0). exists s'. split; [done|].
  intros n x Hn. destruct (conf_run cs ccs HT HN Hsum Hprod n _ x Hi Hn) as [Hx Ex].
  pose proof (received_bound cs ccs HT x Hx). split; [lia|]. split.
  - split; [|by apply conf_progress]. intros [y Hy].
    destruct (conf_step cs ccs HT HN Hsum Hprod x y Hx Hy) as (_ & _ & [[_ H1]|(_ & i & H1 & _)]);
      [by left|right; by exists i].
  - intros y Hy. by apply (conf_step cs ccs HT HN Hsum Hprod).
Qed.

(** ** Round robin *)

(** The messages sent on the queue pair [q], and those of them that are
    signaled. *)
Definition is_send_by (q : Z) (c : hwcall) : Prop :=
  match c with PostSendXrc q' _ _ _ _ => q' = q | _ => False end.
Definition is_signaled_by (q : Z) (c : hwcall) : Prop :=
  match c with PostSendXrc q' _ f _ _ => q' = q ∧ f = IBV_SEND_SIGNALED | _ => False end.
#[global] Instance is_send_by_dec q c : Decision (is_send_by q c).
Proof. unfold is_send_by. destruct c; apply _. Defined.
#[global] Instance is_signaled_by_dec q c : Decision (is_signaled_by q c).
Proof. unfold is_signaled_by. destruct c; apply _. Defined.

Definition sends_by (s : hw) (q : Z) : Z := Z.of_nat (length (filter (is_send_by q) (h_calls s))).
Definition signaled_by (s : hw) (q : Z) : Z := Z.of_nat (length (filter (is_signaled_by q) (h_calls s))).

(** The pairs (peer, number of the message) of a selection, [ks] messages
    having gone to the peers from [i] on. *)
Fixpoint hits (φ : nat → nat → bool) (i : nat) (ks : list nat) : nat :=
  match ks with
  | [] => 0%nat
  | k :: ks => (length (filter (λ j, φ i j = true) (seq 0 k)) + hits φ (S i) ks)%nat
  end.

Lemma sent_to_hits (P : hwcall → Prop) `{!∀ c, Decision (P c)} φ c s i j k n :
  (∀ j, P (xsend c s i j n) ↔ φ j = true) →
  length (filter P ((λ j, xsend c s i j n) <$> seq j k)) = length (filter (λ j, φ j = true) (seq j k)).
Proof.
  intros HP. revert j. induction k as [|k IH]; intros j; [done|]. cbn [seq]. rewrite fmap_cons.
  destruct (decide (φ j = true)) as [E|E].
  - rewrite !filter_cons_True; [|done|by apply HP]. cbn [length]. by rewrite IH.
  - rewrite !filter_cons_False; [|done|by rewrite HP]. apply IH.
Qed.

Lemma sent_from_hits (P : hwcall → Prop) `{!∀ c, Decision (P c)} φ c s i ks ns :
  length ks = length ns → (∀ i j n, (i < length (send_qp c))%nat → P (xsend c s i j n) ↔ φ i j = true) →
  (i + length ks ≤ length (send_qp c))%nat →
  length (filter P (sent_from c s i ks ns)) = hits φ i ks.
Proof.
  intros Hl HP. revert i ns Hl. induction ks as [|k ks IH]; intros i [|n ns] Hl Hi; try done.
  cbn [sent_from hits]. simpl in Hi. rewrite filter_app, length_app, (IH (S i)); [|by injection Hl|lia].
  f_equal. apply sent_to_hits. intros j. apply HP. lia.
Qed.

Lemma hits_mono φ i ks ks' :
  Forall2 le ks ks' → (hits φ i ks ≤ hits φ i ks')%nat.
Proof.
  intros H. revert i. induction H as [|k k' ks ks' Hk _ IH]; intros i; [done|]. cbn [hits].
  specialize (IH (S i)). enough (length (filter (λ j, φ i j = true) (seq 0 k)) ≤
    length (filter (λ j, φ i j = true) (seq 0 k')))%nat by lia.
  replace k' with (k + (k' - k))%nat by lia. rewrite seq_app, filter_app, length_app. lia.
Qed.

(** Everybody gets one message more. *)
Lemma hits_more φ i n k :
  hits φ i (replicate n (S k)) =
  (hits φ i (replicate n k) + length (filter (λ j, φ j k = true) (seq i n)))%nat.
Proof.
  revert i. induction n as [|n IH]; intros i; [done|]. cbn [replicate hits].
  change (seq i (S n)) with (i :: seq (S i) n). rewrite IH, (seq_S k 0), filter_app, length_app, Nat.add_0_l. rewrite (filter_cons _ i), (filter_cons _ k).
  destruct (decide (φ i k = true)); cbn [length]; rewrite filter_nil; simpl; lia.
Qed.

Lemma hits_zero φ i n m : (∀ i k, (k < m)%nat → φ i k = false) → hits φ i (replicate n m) = 0%nat.
Proof.
  intros Hφ. revert i. induction n as [|n IH]; intros i; [done|]. cbn [replicate hits]. rewrite IH.
  assert (filter (λ k, φ i k = true) (seq 0 m) = []) as ->; [|done].
  assert (Forall (λ k, (k < m)%nat) (seq 0 m)) as Hs.
  { apply Forall_forall. intros k Hk%elem_of_seq. lia. }
  induction Hs as [|k l Hk _ IHs]; [done|]. by rewrite filter_cons_False by (by rewrite Hφ).
Qed.

(** In a turn each queue pair is used once. *)
Lemma one_turn n j k :
  (j < n)%nat → length (filter (λ i, (rr_qp n i k =? j)%nat = true) (seq 0 n)) = 1%nat.
Proof.
  intros Hj. set (i0 := ((j + (n - k mod n)) mod n)%nat).
  assert (filter (λ i, (rr_qp n i k =? j)%nat = true) (seq 0 n) ≡ₚ [i0]) as ->; [|done].
  apply NoDup_Permutation; [apply NoDup_filter, NoDup_seq|apply NoDup_singleton|].
  intros i. rewrite list_elem_of_filter, elem_of_seq, list_elem_of_singleton, Nat.eqb_eq.
  unfold rr_qp, i0. pose proof (Nat.mod_upper_bound k n ltac:(lia)) as Hk.
  assert (∀ i, (i + k) mod n = (i + k mod n) mod n)%nat as Emod.
  { intros i'. by rewrite Nat.Div0.add_mod_idemp_r. }
  split.
  - intros [<- Hi]. rewrite Emod. destruct (Nat.lt_ge_cases (i + k mod n) n) as [Hlt|Hge].
    + rewrite (Nat.mod_small (i + k mod n)) by done.
      replace (i + k mod n + (n - k mod n))%nat with (i + 1 * n)%nat by lia.
      rewrite Nat.Div0.mod_add. by rewrite Nat.mod_small by lia.
    + assert ((i + k mod n) mod n = i + k mod n - n)%nat as ->.
      { symmetry. apply (Nat.mod_unique _ _ 1); lia. }
      replace (i + k mod n - n + (n - k mod n))%nat with i by lia. by rewrite Nat.mod_small by lia.
  - intros ->. split; [|split; [lia|apply Nat.mod_upper_bound; lia]].
    rewrite Emod, Nat.Div0.add_mod_idemp_l.
    replace (j + (n - k mod n) + k mod n)%nat with (j + 1 * n)%nat by lia.
    rewrite Nat.Div0.mod_add. by apply Nat.mod_small.
Qed.

Lemma all_turns n j t :
  (j < n)%nat → hits (λ i k, rr_qp n i k =? j)%nat 0 (replicate n t) = t.
Proof.
  intros Hj. induction t as [|t IH].
  - apply hits_zero. intros. lia.
  - rewrite hits_more, IH, one_turn by done. lia.
Qed.

Lemma last_turn n j t :
  (j < n)%nat → hits (λ i k, (rr_qp n i k =? j)%nat && (S t <=? k + 1)%nat) 0 (replicate n (S t)) = 1%nat.
Proof.
  intros Hj. rewrite hits_more.
  rewrite hits_zero by (intros; lia). rewrite Nat.add_0_l. etrans; [|exact (one_turn n j t Hj)].
  f_equal. apply list_filter_iff.
  intros i. rewrite (proj2 (Nat.leb_le (S t) (t + 1))) by lia. by rewrite andb_true_r.
Qed.

(** What an end has sent on the queue pair [q], of index [j]. *)
Lemma end_hits c a n j q :
  end_inv c a n → NoDup (send_qp c) → send_qp c !! j = Some q →
  sends_by (x_hw a) q =
    Z.of_nat (hits (λ i k, rr_qp (length (send_qp c)) i k =? j)%nat 0 (cnts a)) ∧
  signaled_by (x_hw a) q =
    Z.of_nat (hits (λ i k, (rr_qp (length (send_qp c)) i k =? j)%nat &&
                           (Z.to_nat (num_tests (xo c)) <=? k + 1)%nat) 0 (cnts a)).
Proof.
  intros [Ha Hs _ _ _] Hnd Hq. pose proof (eo_peers _ _ Ha) as Hl.
  assert (length (cnts a) = length (send_qp c)) as Hlc by (unfold cnts; by rewrite length_fmap).
  assert (length (cnts a) = length (srqns a)) as Hls by (unfold cnts, srqns; by rewrite !length_fmap).
  assert (∀ i k, (i < length (send_qp c))%nat →
    nth (rr_qp (length (send_qp c)) i k) (send_qp c) 0 = q ↔ rr_qp (length (send_qp c)) i k = j) as Hnth.
  { intros i k Hi. split; [|intros ->; by apply nth_lookup_Some].
    intros E. assert (rr_qp (length (send_qp c)) i k < length (send_qp c))%nat as Hr.
    { apply Nat.mod_upper_bound. lia. }
    destruct (lookup_lt_is_Some_2 _ _ Hr) as [q' Hq']. pose proof (nth_lookup_Some _ _ 0 _ Hq') as E'.
    eapply NoDup_lookup; [exact Hnd| |exact Hq]. congruence. }
  assert (∀ (P : hwcall → Prop) `{!∀ c, Decision (P c)} φ, (∀ c, P c → is_xsend c) →
    (∀ i k n, (i < length (send_qp c))%nat → P (xsend c (x_hw a) i k n) ↔ φ i k = true) →
    length (filter P (h_calls (x_hw a))) = hits φ 0 (cnts a)) as Hcount.
  { intros P HD φ HP Hφ. rewrite <-(sent_from_hits P φ c (x_hw a) 0 (cnts a) (srqns a)); [|done|done|lia].
    rewrite <-Hs. unfold xsends. rewrite list_filter_filter_l; done. }
  unfold sends_by, signaled_by. split; f_equal; apply Hcount; try (by intros []); intros i k n' Hi;
    unfold xsend; cbn [is_send_by is_signaled_by]; rewrite (Hnth i k Hi).
  - by rewrite Nat.eqb_eq.
  - rewrite andb_true_iff, Nat.eqb_eq, Nat.leb_le.
    destruct (Z.leb_spec (num_tests (xo c)) (Z.of_nat k + 1)); unfold IBV_SEND_SIGNALED; split; intros []; split; lia.
Qed.

Lemma end_turns c a n q :
  end_inv c a n → NoDup (send_qp c) → q ∈ send_qp c → 1 ≤ num_tests (xo c) →
  sends_by (x_hw a) q ≤ num_tests (xo c) ∧
  (Forall (λ d, pp_cnt d = num_tests (xo c)) (rem_dest a) →
   sends_by (x_hw a) q = num_tests (xo c) ∧ signaled_by (x_hw a) q = 1).
Proof.
  intros Hi Hnd [j Hq]%list_elem_of_lookup HT. pose proof (lookup_lt_Some _ _ _ Hq) as Hj.
  destruct (end_hits c a n j q Hi Hnd Hq) as [E1 E2].
  set (m := length (send_qp c)) in *. set (t := Z.to_nat (num_tests (xo c))) in *.
  assert (length (cnts a) = m) as Hl.
  { unfold cnts. rewrite length_fmap. apply (eo_peers _ _ (ei_ok _ _ _ Hi)). }
  split.
  - rewrite E1. enough (hits (λ i k, rr_qp m i k =? j)%nat 0 (cnts a) ≤ t)%nat by lia.
    rewrite <-(all_turns m j t Hj). apply hits_mono, Forall2_same_length_lookup_2.
    { by rewrite length_replicate. }
    intros i x y Hx Hy. apply lookup_replicate in Hy as [-> _].
    unfold cnts in Hx. rewrite list_lookup_fmap in Hx. destruct (rem_dest a !! i) as [d|] eqn:Hd; [|done].
    injection Hx as <-. pose proof (ei_pos _ _ _ Hi) as Hp. rewrite Forall_forall in Hp.
    specialize (Hp d ltac:(by eapply list_elem_of_lookup_2)). lia.
  - intros Hall. assert (cnts a = replicate m t) as Ec.
    { symmetry. apply replicate_as_elem_of. split; [done|]. unfold cnts.
      intros x (d & -> & Hd)%list_elem_of_fmap. rewrite Forall_forall in Hall. by rewrite (Hall d Hd). }
    rewrite E1, E2, Ec, all_turns by done. split; [lia|].
    replace t with (S (t - 1)) by lia. by rewrite last_turn.
Qed.

(** In such a run no queue pair ever carries more than [num_tests]
    messages (so its send queue, of [num_clients num_tests] entries, is never
    full), and when a process has left its loop each of its queue pairs has
    carried exactly [num_tests], the last one and no other being signaled: the
    completions the process then waits for are those that will come. *)
Theorem xsrq_round_robin (cs : xctx) (ccs : list xctx) (s s' : xsrq) (l : list xsrq) (x : conf)
    (HT : 1 ≤ num_tests (xo cs)) (HN : 1 ≤ num_clients (xo cs))
    (Hsum : num_clients (xo cs) + num_tests (xo cs) < int_max)
    (Hprod : num_clients (xo cs) * num_tests (xo cs) ≤ int_max) (Hr : ready cs ccs s l)
    (Hs : send_first cs (Z.to_nat (num_clients (xo cs))) 0 s = (Done tt, s'))
    (Hx : rtc (step cs ccs) (start s' l) x) :
  (∀ q, q ∈ send_qp cs →
     sends_by (x_hw (srv x)) q ≤ num_tests (xo cs) ∧
     (¬ srv_running cs x →
      sends_by (x_hw (srv x)) q = num_tests (xo cs) ∧ signaled_by (x_hw (srv x)) q = 1)) ∧
  (∀ i c a n q, ccs !! i = Some c → clients x !! i = Some (a, n) → send_qp c = [q] →
     sends_by (x_hw a) q ≤ num_tests (xo cs) ∧
     (¬ client_running ccs i x →
      sends_by (x_hw a) q = num_tests (xo cs) ∧ signaled_by (x_hw a) q = 1)).
Proof.
  destruct (launch_conf cs ccs s l HT Hsum Hr) as (s1 & E & Hi & _).
  rewrite Hs in E. injection E as <-. apply rtc_nsteps in Hx as [m Hm].
  destruct (conf_run cs ccs HT HN Hsum Hprod m _ x Hi Hm) as [Hx _]. split.
  - intros q Hq. destruct (end_turns cs (srv x) (scount x) q (ci_srv _ _ _ Hx) (rd_sqps _ _ _ _ Hr) Hq HT)
      as [H1 H2]. split; [done|]. intros Hrun. apply H2, Forall_lookup. intros i d Hd.
    destruct (conf_at cs ccs x i Hx) as (c & a & n & d' & r & e & q' & _ & _ & Hd' & Hr' & _ & Hk).
    { rewrite <-(eo_peers _ _ (ei_ok _ _ _ (ci_srv _ _ _ Hx))). by eapply lookup_lt_Some. }
    rewrite Hd in Hd'. injection Hd' as <-. destruct (Z.lt_ge_cases r (num_tests (xo cs))) as [Hlt|Hge].
    + exfalso. apply Hrun. unfold srv_running.
      rewrite (num_clients_len cs ccs x Hx), (ci_count _ _ _ Hx), <-(ci_recvs _ _ _ Hx).
      eapply zsum_lt; [by eapply recvd_bounds|exact Hr'|done].
    + destruct Hk. lia.
  - intros i c a n q Hc Ha Hq.
    destruct (conf_at cs ccs x i Hx) as (c' & a' & n' & d & r & e & q' & Hc' & Ha' & _ & _ & _ & Hk).
    { rewrite <-(ci_clients _ _ _ Hx). by eapply lookup_lt_Some. }
    rewrite Hc in Hc'. injection Hc' as <-. rewrite Ha in Ha'. injection Ha' as <- <-.
    pose proof Hk as [He H1 Ht Hrem _ _ Hn Hsc Ho]. rewrite <-Ht in *.
    destruct (end_turns c a n q He) as [H2 H3]; [rewrite Hq; apply NoDup_singleton|rewrite Hq; by left|done|].
    split; [done|]. intros Hrun. apply H3. rewrite Hrem. apply Forall_cons_2; [|apply Forall_nil_2].
    rewrite Hn. destruct (Z.lt_ge_cases n (num_tests (xo c))) as [Hlt|Hge]; [|lia].
    exfalso. apply Hrun. exists c, a, n. split_and!; [done..|]. lia.
Qed.

(** ** A server and two clients *)

(** A process whose device numbers its shared receive queues from [k] on, and
    which finds the address messages [ms] of its peers on its sockets. *)
Definition demo_host (k : Z) (ms : list (list char)) : hw :=
  let conns := (λ m, Conn [InData m] [] []) <$> ms in
  Hw (World (λ _, true) (λ _, 0) (λ _, 0)
        (Device 3 3 3 0 0 64 17 false 3 (λ _, replicate 16 0) (λ p, 100 + p) (λ p, 200 + p) (λ p, k + p))
        0 [Address 3 true (hd (Conn [] [] []) conns)])
    (OS ∅ ∅ (Net [] [] (AccOk 5 <$> conns) 1 [] true)) 0 [] [] [] [] [].
Definition demo_join (server : option cstr) (k n : Z) (ms : list (list char)) : xctx * xsrq :=
  let o := XOpts 18515 None server 1 4096 IBV_MTU_1024 n 3 0 (-1) false false in
  match pp_init_ctx o (Some [(L "mlx5_0", 1)]) 9 (demo_host k ms) with
  | (Done (Some (c, l)), s) =>
      (c, ((hard (pp_post_recv c n);;
            match server with
            | Some h => pp_client_connect c h 18515 (λ i, 7)
            | None => pp_server_connect c 18515 (λ i, 7)
            end) (Xsrq s l)).2)
  | (_, s) => (XCtx o 0 0 0 0 0 0 0 0 0 0 0 0 0 [] [] 0, Xsrq s [])
  end.

(** Every set-up allocates in the same order: the queue pairs of index 0 have
    the numbers 215 and 217, the shared receive queue the address 14. *)
Definition demo_peer_msg (k : Z) : list char :=
  default [] (xdest_msg 17 215 217 7 (k + 14) (replicate 16 0)).
Definition demo_server : xctx * xsrq := demo_join None 300 2 [demo_peer_msg 400; demo_peer_msg 500].
Definition demo_client (k : Z) : xctx * xsrq := demo_join (Some (L "host")) k 1 [demo_peer_msg 300].


(** What a concrete end is checked for. *)
Definition fresh_check (c : xctx) (a : xsrq) : bool :=
  let live o := is_live o (h_live (x_hw a)) in
  live (KSrq, srq c) && live (KMr, mr c) && forallb (λ q, live (KQp, q)) (send_qp c) &&
  (Z.of_nat (length (send_qp c)) =? num_clients (xo c)) &&
  bool_decide (length (rem_dest a) = length (send_qp c)) &&
  bool_decide (length (xsends (x_hw a)) = 0%nat) &&
  (srq_recvs (x_hw a) =? num_clients (xo c)) &&
  forallb (λ d, pp_cnt d =? 0) (rem_dest a) && bool_decide (NoDup (srqns a)).

Lemma fresh_checked c a : accepts (x_hw a) → fresh_check c a = true → fresh c a.
Proof.
  unfold fresh_check. intros Ha H. repeat (apply andb_true_iff in H; destruct H as [H ?]).
  repeat match goal with
         | E : bool_decide _ = true |- _ => apply bool_decide_eq_true in E
         | E : (_ =? _)%Z = true |- _ => apply Z.eqb_eq in E
         | E : forallb _ _ = true |- _ => rewrite forallb_forall in E
         end.
  constructor; [constructor| | | |]; try done.
  - apply Forall_forall. intros q Hq%list_elem_of_In. auto.
  - by apply nil_length_inv.
  - apply Forall_forall. intros d Hd%list_elem_of_In. apply Z.eqb_eq. auto.
Qed.

Lemma demo_fresh p w :
  h_world (x_hw p.2) = w → (∀ n, h_int w n = 0) → fresh_check p.1 p.2 = true → fresh p.1 p.2.
Proof. intros <- H. by apply fresh_checked. Qed.

Lemma demo_client_fresh k : k = 400 ∨ k = 500 → fresh (demo_client k).1 (demo_client k).2.
Proof.
  intros [-> | ->]; (eapply demo_fresh; [vm_compute; reflexivity|done|vm_compute; reflexivity]).
Qed.

Lemma two_peers (P : xctx → xsrq → xdest → Prop) c1 c2 a1 a2 d1 d2 :
  P c1 a1 d1 → P c2 a2 d2 →
  ∀ i c a d, [c1; c2] !! i = Some c → [a1; a2] !! i = Some a → [d1; d2] !! i = Some d → P c a d.
Proof.
  intros H1 H2 [|[|i]] c a d; simpl; [| |done]; intros [= <-] [= <-] [= <-]; done.
Qed.

Lemma demo_xsrq_ready :
  ready demo_server.1 [(demo_client 400).1; (demo_client 500).1] demo_server.2
    [(demo_client 400).2; (demo_client 500).2].
Proof.
  constructor.
  1: { eapply demo_fresh; [vm_compute; reflexivity|done|vm_compute; reflexivity]. }
  1-3: vm_compute; reflexivity.
  1-3: apply (bool_decide_unpack _); vm_compute; exact I.
  assert (rem_dest demo_server.2 =
    [nth 0 (rem_dest demo_server.2) no_dest; nth 1 (rem_dest demo_server.2) no_dest]) as ->
    by (vm_compute; reflexivity).
  apply two_peers; constructor.
  1, 6: apply demo_client_fresh; tauto.
  1-3, 5-7: vm_compute; reflexivity.
  all: apply (bool_decide_unpack _); vm_compute; exact I.
Qed.

Lemma xsrq_completes_witness :
  ∃ s', send_first demo_server.1 (Z.to_nat (num_clients (xo demo_server.1))) 0 demo_server.2
      = (Done tt, s') ∧
    ∀ n x, nsteps (step demo_server.1 [(demo_client 400).1; (demo_client 500).1]) n
             (start s' [(demo_client 400).2; (demo_client 500).2]) x →
      Z.of_nat n ≤ 2 * (num_clients (xo demo_server.1) * num_tests (xo demo_server.1)) ∧
      ((∃ y, step demo_server.1 [(demo_client 400).1; (demo_client 500).1] x y) ↔
         srv_running demo_server.1 x ∨
         ∃ i, client_running [(demo_client 400).1; (demo_client 500).1] i x) ∧
      (∀ y, step demo_server.1 [(demo_client 400).1; (demo_client 500).1] x y →
         moves demo_server.1 [(demo_client 400).1; (demo_client 500).1] x y).
Proof.
  apply xsrq_completes; [vm_compute; discriminate..|vm_compute; reflexivity|vm_compute; discriminate|].
  apply demo_xsrq_ready.
Defined.

Definition demo_launched : xsrq := (send_first demo_server.1 2 0 demo_server.2).2.

Lemma xsrq_round_robin_witness :
  let x := start demo_launched [(demo_client 400).2; (demo_client 500).2] in
  (∀ q, q ∈ send_qp demo_server.1 →
     sends_by (x_hw (srv x)) q ≤ num_tests (xo demo_server.1) ∧
     (¬ srv_running demo_server.1 x →
      sends_by (x_hw (srv x)) q = num_tests (xo demo_server.1) ∧ signaled_by (x_hw (srv x)) q = 1)) ∧
  (∀ i c a n q, [(demo_client 400).1; (demo_client 500).1] !! i = Some c →
     clients x !! i = Some (a, n) → send_qp c = [q] →
     sends_by (x_hw a) q ≤ num_tests (xo demo_server.1) ∧
     (¬ client_running [(demo_client 400).1; (demo_client 500).1] i x →
      sends_by (x_hw a) q = num_tests (xo demo_server.1) ∧ signaled_by (x_hw a) q = 1)).
Proof.
  cbv zeta.
  refine (xsrq_round_robin demo_server.1 [(demo_client 400).1; (demo_client 500).1] demo_server.2
            demo_launched [(demo_client 400).2; (demo_client 500).2] _ _ _ _ _ demo_xsrq_ready _ _).
  1, 2: vm_compute; discriminate.
  1: vm_compute; reflexivity.
  1: vm_compute; discriminate.
  - vm_compute. reflexivity.
  - apply rtc_refl.
Defined.
