(* ===== verification/XsrqMeet.v ===== *)
(** * The XRC pingpong: meeting

    The address message of xsrq_pingpong.c, the exchange between a server and
    its clients, and what it establishes: the queue pairs of both sides are
    connected to each other and each side knows the other's shared receive
    queue, which is where [XsrqProto] starts. *)

From Stdlib Require Import ZifyBool.
From S2P Require Import Prelude CLib OS Gid Verbs Exch Keeps RcPingpong RcLife Setup.
From S2P Require Import SrqPingpong SrqProto XsrqPingpong XsrqLife XsrqProto.

Local Open Scope Z_scope.

(** ** The message *)

Definition fields_text (l : list (nat * Z)) : cstr := l ≫= λ f, show_hex f.1 f.2 ++ L ":".

Lemma scan_fields_text l r :
  Forall (λ f : nat * Z, (2 ≤ f.1)%nat ∧ 0 ≤ f.2 < 2 ^ 31) l →
  scan_fields (length l) (fields_text l ++ r) = Some (l.*2, r).
Proof.
  induction 1 as [|[w z] l [Hw Hz] _ IH]; [done|]. cbn [fst snd] in *.
  unfold fields_text. cbn [length mbind list_bind scan_fields fst snd]. rewrite <-!(assoc_L app).
  rewrite scan_colon by lia. cbn [mbind option_bind].
  change (skip_colon (L ":" ++ ?r)) with (Some r). cbn [mbind option_bind].
  fold (fields_text l). rewrite IH. cbn [mbind option_bind fmap list_fmap].
  rewrite wrap_s_int; [done|]. unfold is_int, int_min, int_max. lia.
Qed.

(** What the fields of the message are in range of. *)
Record xaddr_ok (lid rq sq psn n : Z) (g : list Z) : Prop := {
  xa_lid : 0 ≤ lid < 2 ^ 16;
  xa_rq : 0 ≤ rq < 2 ^ 24;
  xa_sq : 0 ≤ sq < 2 ^ 24;
  xa_psn : 0 ≤ psn < 2 ^ 24;
  xa_srqn : 0 ≤ n < 2 ^ 24;
  xa_gid : gid_ok g }.

Definition xfields (lid rq sq psn n : Z) : list (nat * Z) :=
  [(4%nat, lid); (6%nat, rq); (6%nat, sq); (6%nat, psn); (6%nat, n)].

Lemma xdest_text_fields lid rq sq psn n g :
  xdest_text lid rq sq psn n g = fields_text (xfields lid rq sq psn n) ++ gid_to_wire_gid g.
Proof. unfold xdest_text, fields_text, xfields. cbn [mbind list_bind fst snd]. by rewrite <-!(assoc_L app). Qed.

Lemma xdest_text_length lid rq sq psn n g :
  xaddr_ok lid rq sq psn n g → strlen (xdest_text lid rq sq psn n g) = 65.
Proof.
  intros [H1 H2 H3 H4 H5 Hg]. unfold strlen, xdest_text. rewrite !length_app, gid_wire_32 by done.
  by rewrite !show_hex_length; (done || lia).
Qed.

Definition xaddr_bytes (lid rq sq psn n : Z) (g : list Z) : list char :=
  xdest_text lid rq sq psn n g ++ [NUL].

Lemma xdest_msg_ok lid rq sq psn n g :
  xaddr_ok lid rq sq psn n g →
  xdest_msg lid rq sq psn n g = Some (xaddr_bytes lid rq sq psn n g) ∧
  strlen (xaddr_bytes lid rq sq psn n g) = XMSG_SIZE.
Proof.
  intros H. pose proof (xdest_text_length _ _ _ _ _ _ H) as Hl. split.
  - unfold xdest_msg. by rewrite Hl.
  - unfold xaddr_bytes, strlen in *. by rewrite length_app, Nat2Z.inj_add, Hl.
Qed.

(** The entry the message fills. *)
Definition entry_of (d : xdest) (lid rq sq psn n : Z) (g : list Z) : xdest :=
  XDest g lid rq sq (recv_psn d) psn n (pp_cnt d) (sockfd d).

Lemma scan_xdest_ok lid rq sq psn n g d :
  xaddr_ok lid rq sq psn n g →
  scan_xdest (xaddr_bytes lid rq sq psn n g) d = Done (entry_of d lid rq sq psn n g).
Proof.
  intros H. pose proof H as [H1 H2 H3 H4 H5 Hg]. unfold scan_xdest, xaddr_bytes.
  assert (no_nul (xdest_text lid rq sq psn n g)) as Hn.
  { unfold xdest_text, no_nul. rewrite !Forall_app.
    repeat split; try (by apply digits_no_nul, show_hex_digits);
      try (by apply digits_no_nul, gid_wire_digits); by repeat constructor. }
  rewrite (cstr_at_app _ [] Hn), xdest_text_fields.
  change 5%nat with (length (xfields lid rq sq psn n)). rewrite scan_fields_text.
  2:{ repeat (apply Forall_cons_2; [cbn [fst snd]; lia|]). apply Forall_nil_2. }
  cbn [xfields fmap list_fmap snd].
  pose proof (digits_no_space _ (gid_wire_digits g)) as Hsp. rewrite skip_space_digits by done.
  rewrite <-(app_nil_r (gid_to_wire_gid g)) at 1. rewrite break_app by done.
  unfold strlen. rewrite (gid_wire_32 _ Hg). change (GID_SIZE <=? Z.of_nat 32) with false. cbv iota.
  unfold store_gid. destruct (gid_to_wire_gid g) as [|c t] eqn:E.
  { by apply (f_equal length) in E; rewrite gid_wire_32 in E. }
  rewrite <-E, wire_gid_roundtrip by done. done.
Qed.

(** The address message of the XRC program: any LID, 24-bit queue pair
    numbers, packet sequence number and shared receive queue number, and any
    GID, fit the 66 bytes exactly, and the entry the other end fills has these
    values, its own fields left alone. *)
Theorem xsrq_dest_roundtrip (lid rq sq psn n : Z) (g : list Z) (d : xdest)
    (H : xaddr_ok lid rq sq psn n g) :
  ∃ msg, xdest_msg lid rq sq psn n g = Some msg ∧ strlen msg = XMSG_SIZE ∧
    scan_xdest msg d = Done (XDest g lid rq sq (recv_psn d) psn n (pp_cnt d) (sockfd d)).
Proof.
  destruct (xdest_msg_ok _ _ _ _ _ _ H) as [H1 H2]. eexists. split; [exact H1|]. split; [exact H2|].
  by apply scan_xdest_ok.
Qed.

Lemma xsrq_dest_roundtrip_witness :
  ∃ msg, xdest_msg 17 0xabc 0xabd 0x123 0x301 (gid demo_dest) = Some msg ∧ strlen msg = XMSG_SIZE ∧
    scan_xdest msg no_dest = Done (XDest (gid demo_dest) 17 0xabc 0xabd 0 0x123 0x301 0 0).
Proof.
  apply (xsrq_dest_roundtrip 17 0xabc 0xabd 0x123 0x301 (gid demo_dest) no_dest).
  constructor; [lia..|]. exact (dgid_ok _ demo_dest_ok).
Defined.

(** ** Addresses *)





(** ** Steps that post nothing *)

Record quiet (s s' : hw) : Prop := {
  qt_world : h_world s' = h_world s;
  qt_live : h_live s' = h_live s;
  qt_calls : ∃ l, h_calls s' = h_calls s ++ l ∧ Forall (λ c, ¬ is_xsend c ∧ ¬ is_srq_recv c) l }.

#[global] Instance quiet_refl : Reflexive quiet.
Proof. intros s. constructor; [done..|]. exists []. by rewrite app_nil_r. Qed.
#[global] Instance quiet_trans : Transitive quiet.
Proof.
  intros s1 s2 s3 [W1 L1 (l1 & C1 & Q1)] [W2 L2 (l2 & C2 & Q2)]. constructor; [congruence..|].
  exists (l1 ++ l2). split; [by rewrite C2, C1, <-(assoc_L app)|by apply Forall_app].
Qed.




(** ** One end, one peer *)





Section talk.
Context (c : xctx) (i : nat) (fd : Z) (o : os).



End talk.










(** ** A server and its clients *)
















(** ** A server and two clients that meet *)

#[global] Instance stacked_dec t l : Decision (stacked t l).
Proof. revert t. induction l as [|[o deps] l IH]; intros t; cbn [stacked]; apply _. Defined.












