(* ===== verification/PmMpi.v ===== *)
(** * The process manager over MPI (pmi_wrapper_mpi.c)

    Names are published into a local archive; a barrier gathers the local
    archives of all ranks into everybody's global archive, where they are
    looked up.  The MPI library is a parameter ([mpi_env]): what each call
    returns, and which allocations succeed. *)

From Stdlib Require Import ZifyBool.
From S2P Require Import Prelude CLib.

Local Open Scope Z_scope.

(** ** Memory

    A cell that was never written is [None]. *)
Abbreviation mem := (list (option char)).

Definition STRING_LIMIT : Z := 256.

(** The C string at the start of [m]. *)
Fixpoint read_str (m : mem) : outcome cstr :=
  match m with
  | [] => Fault OutOfBounds
  | None :: _ => Fault Uninitialised
  | Some c :: m =>
      if c =c NUL then Done []
      else match read_str m with
           | Done s => Done (c :: s)
           | Exited z => Exited z
           | Fault f => Fault f
           | Hang => Hang
           end
  end.

(** A C string in memory. *)
Definition str_mem (s : cstr) : mem := (Some <$> s) ++ [Some NUL].

(** [strcpy] into the block [dst]. *)
Definition strcpy (dst : mem) (s : cstr) : outcome mem :=
  if (length dst <=? length s)%nat then Fault OutOfBounds
  else Done (str_mem s ++ drop (S (length s)) dst).

(** [memcpy (dst + off, src, n)]. *)
Definition memcpy (dst : mem) (off : nat) (src : mem) (n : nat) : outcome mem :=
  if (length src <? n)%nat || (length dst <? off + n)%nat then Fault OutOfBounds
  else Done (take off dst ++ take n src ++ drop (off + n) dst).

(** ** Data *)

(** The addresses of two blocks of [STRING_LIMIT] bytes. *)
Record Entry_t := Entry { e_key : Z; e_value : Z }.

(** [a_ptr] is the array, of [a_capacity] entries, or NULL. *)
Record Archive_t := Archive {
  a_ptr : option (list (option Entry_t));
  a_size : Z;
  a_capacity : Z }.

(** The static variables, the heap, the number of allocations and of
    collective calls so far. *)
Record pm_mpi := PmMpi {
  l_archive : Archive_t;
  g_archive : Archive_t;
  heap : gmap Z mem;
  allocs : nat;
  calls : nat }.

Definition no_archive : Archive_t := Archive None 0 0.
Definition pm_start : pm_mpi := PmMpi no_archive no_archive ∅ 0 0.

Definition set_heap (h : gmap Z mem) (s : pm_mpi) : pm_mpi :=
  PmMpi (l_archive s) (g_archive s) h (allocs s) (calls s).
Definition tick_alloc (s : pm_mpi) : pm_mpi :=
  PmMpi (l_archive s) (g_archive s) (heap s) (S (allocs s)) (calls s).
Definition tick_call (s : pm_mpi) : pm_mpi :=
  PmMpi (l_archive s) (g_archive s) (heap s) (allocs s) (S (calls s)).

(** [&l_archive] and [&g_archive]. *)
Inductive which := Local | Global.
Definition the_archive (w : which) (s : pm_mpi) : Archive_t :=
  match w with Local => l_archive s | Global => g_archive s end.
Definition set_archive (w : which) (a : Archive_t) (s : pm_mpi) : pm_mpi :=
  match w with
  | Local => PmMpi a (g_archive s) (heap s) (allocs s) (calls s)
  | Global => PmMpi (l_archive s) a (heap s) (allocs s) (calls s)
  end.

(** What the MPI library and the allocator do: which allocation succeeds, and
    the results of the calls; a collective call is known by its number. *)
Record mpi_env := MpiEnv {
  env_alloc : nat → bool;
  env_rank : Z;
  env_size : Z;
  env_initialized : Z;
  env_allgather : nat → Z → list Z;
  env_allgatherv : nat → mem → list Z → list Z → mem → mem }.

Section wrapper.
Context (W : mpi_env).

(** An allocation: whether it succeeds. *)
Definition alloc : M pm_mpi bool :=
  s ← get; modify tick_alloc;; mret (env_alloc W (allocs s)).

(** [malloc] of a block that stays: its address. *)
Definition malloc (n : Z) : M pm_mpi (option Z) :=
  ok ← alloc;
  s ← get;
  if negb ok then mret None
  else
    let p := Z.of_nat (allocs s) in
    modify (set_heap (<[p := replicate (Z.to_nat n) None]> (heap s)));;
    mret (Some p).

(** [malloc] of a buffer of the caller: [None] for NULL. *)
Definition malloc_buf (n : Z) : M pm_mpi (option mem) :=
  ok ← alloc; mret (if ok : bool then Some (replicate (Z.to_nat n) None) else None).

Definition load (p : Z) : M pm_mpi mem := s ← get; or_fault UseAfterFree (heap s !! p).

Definition free (p : Z) : M pm_mpi () :=
  load p;; modify (λ s, set_heap (delete p (heap s)) s).

(** ** Archives *)

Definition archive_init (w : which) : M pm_mpi () :=
  ok ← alloc;
  if ok : bool then modify (set_archive w (Archive (Some (replicate 8 None)) 0 8))
  else modify (set_archive w (Archive None 0 8));; exit_ 1.

(** [archive->ptr[i]]. *)
Definition entry (w : which) (i : nat) : M pm_mpi Entry_t :=
  s ← get;
  l ← or_fault NullDeref (a_ptr (the_archive w s));
  e ← or_fault OutOfBounds (l !! i);
  or_fault Uninitialised e.

(** The entries from [i] on, [k] being left. *)
Fixpoint free_entries (w : which) (k i : nat) : M pm_mpi () :=
  match k with
  | O => mret tt
  | S k => e ← entry w i; free (e_key e);; free (e_value e);; free_entries w k (S i)
  end.

Definition archive_fina (w : which) : M pm_mpi () :=
  s ← get;
  free_entries w (Z.to_nat (a_size (the_archive w s))) 0;;
  modify (set_archive w no_archive).

Definition archive_clear (w : which) : M pm_mpi () :=
  modify (λ s, let a := the_archive w s in set_archive w (Archive (a_ptr a) 0 (a_capacity a)) s).

(** [realloc] of the array to [n] entries. *)
Definition grow (w : which) : M pm_mpi () :=
  s ← get;
  let a := the_archive w s in
  if a_size a =? a_capacity a then
    c ← int_mul (a_capacity a) 2;
    ok ← alloc;
    if ok : bool then
      modify (set_archive w (Archive (Some (resize (Z.to_nat c) None (default [] (a_ptr a)))) (a_size a) c))
    else modify (set_archive w (Archive None (a_size a) c));; exit_ 1
  else mret tt.

(** [malloc (STRING_LIMIT)] and [strcpy] from [src]. *)
Definition copy_str (src : mem) : M pm_mpi Z :=
  p ← malloc STRING_LIMIT;
  p ← or_fault NullDeref p;
  t ← lift (read_str src);
  b ← load p;
  b ← lift (strcpy b t);
  modify (λ s, set_heap (<[p := b]> (heap s)) s);;
  mret p.

Definition archive_push (w : which) (key value : mem) : M pm_mpi () :=
  grow w;;
  key_in ← copy_str key;
  value_in ← copy_str value;
  s ← get;
  let a := the_archive w s in
  l ← or_fault NullDeref (a_ptr a);
  l ← or_fault OutOfBounds
        (if Z.to_nat (a_size a) <? length l
         then Some (<[Z.to_nat (a_size a) := Some (Entry key_in value_in)]> l) else None)%nat;
  n ← int_add (a_size a) 1;
  modify (set_archive w (Archive (Some l) n (a_capacity a))).

Fixpoint search_entries (w : which) (key : cstr) (k i : nat) : M pm_mpi (option Z) :=
  match k with
  | O => mret None
  | S k =>
      e ← entry w i;
      b ← load (e_key e);
      t ← lift (read_str b);
      if str_eq t key then mret (Some (e_value e)) else search_entries w key k (S i)
  end.

Definition archive_search (w : which) (key : cstr) : M pm_mpi (option Z) :=
  s ← get; search_entries w key (Z.to_nat (a_size (the_archive w s))) 0.

(** ** The interface *)

Definition lcm_pm_initialize : M pm_mpi () := archive_init Local;; archive_init Global.
Definition lcm_pm_initialized : M pm_mpi Z := mret (env_initialized W).
Definition lcm_pm_get_rank : M pm_mpi Z := mret (env_rank W).
Definition lcm_pm_get_size : M pm_mpi Z := mret (env_size W).

Definition lcm_pm_publish (key value : cstr) : M pm_mpi () :=
  archive_push Local (str_mem key) (str_mem value).

(** [room] is the size of the caller's buffer. *)
Definition lcm_pm_getname (key : cstr) (room : Z) : M pm_mpi cstr :=
  ret ← archive_search Global key;
  p ← or_fault NullDeref ret;
  b ← load p;
  t ← lift (read_str b);
  if room <=? strlen t then fault_ OutOfBounds else mret t.

(** ** The barrier *)

(** The sum of the counts, from [acc] on. *)
Fixpoint sum_counts (acc : Z) (l : list Z) : M pm_mpi Z :=
  match l with
  | [] => mret acc
  | c :: l => acc ← int_add acc c; sum_counts acc l
  end.

Fixpoint scale_counts (l : list Z) : M pm_mpi (list Z) :=
  match l with
  | [] => mret []
  | c :: l => c ← int_mul c (STRING_LIMIT * 2); l ← scale_counts l; mret (c :: l)
  end.

Fixpoint assemble_displs (current : Z) (l : list Z) : M pm_mpi (list Z) :=
  match l with
  | [] => mret []
  | c :: l => next ← int_add current c; l ← assemble_displs next l; mret (current :: l)
  end.

(** The send buffer, from the entry [i] on. *)
Fixpoint assemble_src (src : option mem) (k i : nat) : M pm_mpi (option mem) :=
  match k with
  | O => mret src
  | S k =>
      e ← entry Local i;
      b ← or_fault NullDeref src;
      kb ← load (e_key e);
      b ← lift (memcpy b (2 * i * Z.to_nat STRING_LIMIT) kb (Z.to_nat STRING_LIMIT));
      vb ← load (e_value e);
      b ← lift (memcpy b ((2 * i + 1) * Z.to_nat STRING_LIMIT) vb (Z.to_nat STRING_LIMIT));
      assemble_src (Some b) k (S i)
  end.

(** The data of the receive buffer, from the pair [i] on. *)
Fixpoint push_all (dst : option mem) (k i : nat) : M pm_mpi () :=
  match k with
  | O => mret tt
  | S k =>
      b ← or_fault NullDeref dst;
      archive_push Global (drop (2 * i * Z.to_nat STRING_LIMIT) b)
        (drop ((2 * i + 1) * Z.to_nat STRING_LIMIT) b);;
      push_all dst k (S i)
  end.

(** [MPI_Allgather] of one [int], into a buffer that may be NULL. *)
Definition allgather (count : Z) (buf : bool) : M pm_mpi (list Z) :=
  if negb buf then fault_ NullDeref
  else s ← get; modify tick_call;; mret (env_allgather W (calls s) count).

(** [MPI_Allgatherv]; a buffer of no bytes may be NULL. *)
Definition allgatherv (src : option mem) (counts displs : list Z) (dst : option mem) (total : Z)
    : M pm_mpi (option mem) :=
  s ← get;
  modify tick_call;;
  match dst with
  | Some b => mret (Some (env_allgatherv W (calls s) (default [] src) counts displs b))
  | None => if total =? 0 then mret None else fault_ NullDeref
  end.

Definition lcm_pm_barrier : M pm_mpi () :=
  size ← lcm_pm_get_size;
  s ← get;
  let my_count := a_size (l_archive s) in
  count_buf ← alloc;
  counts ← allgather my_count count_buf;
  total_count ← sum_counts 0 counts;
  n ← int_mul my_count STRING_LIMIT;
  n ← int_mul n 2;
  src_buf ← malloc_buf n;
  n ← int_mul total_count STRING_LIMIT;
  n ← int_mul n 2;
  dst_buf ← malloc_buf n;
  counts ← scale_counts counts;
  displs_buf ← alloc;
  displs ← (if negb displs_buf && (0 <? size) then fault_ NullDeref else assemble_displs 0 counts);
  src_buf ← assemble_src src_buf (Z.to_nat my_count) 0;
  dst_buf ← allgatherv src_buf counts displs dst_buf n;
  push_all dst_buf (Z.to_nat total_count) 0;;
  archive_clear Local.

Definition lcm_pm_finalize : M pm_mpi () := archive_fina Local;; archive_fina Global.
End wrapper.
