(* ===== verification/PmMpiSpec.v ===== *)
(** * The process manager over MPI: what it promises

    The archives represent lists of pairs: publishing appends to the local
    list, a barrier appends the local lists of all ranks, in the order of the
    ranks, to everybody's global list, and a name is looked up in the global
    list, the first pair winning.  The blocks of the local archive are not
    given back by the barrier. *)

From Stdlib Require Import ZifyBool.
From S2P Require Import Prelude CLib PmMpi.

Local Open Scope Z_scope.

(** ** Blocks *)

Abbreviation kv := (cstr * cstr)%type.

(** What fits the blocks. *)
Definition kv_ok (p : kv) : Prop :=
  no_nul p.1 ∧ no_nul p.2 ∧ strlen p.1 < STRING_LIMIT ∧ strlen p.2 < STRING_LIMIT.

#[global] Instance kv_ok_dec p : Decision (kv_ok p).
Proof. unfold kv_ok. apply _. Defined.

(** A block that holds the string [t]. *)
Definition block (b : mem) (t : cstr) : Prop :=
  length b = Z.to_nat STRING_LIMIT ∧ ∃ tail, b = str_mem t ++ tail.

Lemma read_str_mem t tail : no_nul t → read_str (str_mem t ++ tail) = Done t.
Proof.
  induction 1 as [|c t Hc _ IH]; [done|].
  cbn [str_mem fmap list_fmap app read_str]. rewrite char_eqb_ne by done.
  unfold str_mem in IH. by rewrite IH.
Qed.

Lemma read_block b t r : no_nul t → block b t → read_str (b ++ r) = Done t.
Proof. intros Hn [_ [tail ->]]. rewrite <-(assoc_L app). by apply read_str_mem. Qed.

Lemma str_mem_length t : length (str_mem t) = S (length t).
Proof. unfold str_mem. rewrite length_app, length_fmap. cbn [length]. lia. Qed.

Lemma strcpy_ok b t :
  length b = Z.to_nat STRING_LIMIT → strlen t < STRING_LIMIT →
  ∃ b', strcpy b t = Done b' ∧ block b' t.
Proof.
  unfold strlen. intros Hb Ht. unfold strcpy.
  destruct (Nat.leb_spec (length b) (length t)); [lia|]. eexists. split; [done|]. split; [|by eexists].
  rewrite length_app, str_mem_length, length_drop. lia.
Qed.

Lemma memcpy_ok dst off src n :
  (n ≤ length src)%nat → (off + n ≤ length dst)%nat →
  memcpy dst off src n = Done (take off dst ++ take n src ++ drop (off + n) dst).
Proof.
  intros H1 H2. unfold memcpy. destruct (Nat.ltb_spec (length src) n); [lia|].
  destruct (Nat.ltb_spec (length dst) (off + n)); [lia|]. done.
Qed.

(** ** The representation of an archive *)

Definition str_at (h : gmap Z mem) (p : Z) (t : cstr) : Prop := ∃ b, h !! p = Some b ∧ block b t.
Definition entry_at (h : gmap Z mem) (e : Entry_t) (p : kv) : Prop :=
  str_at h (e_key e) p.1 ∧ str_at h (e_value e) p.2 ∧ kv_ok p.

Record archive_rep (h : gmap Z mem) (a : Archive_t) (es : list Entry_t) (l : list kv) : Prop := {
  ar_size : a_size a = Z.of_nat (length l);
  ar_cap : 1 ≤ a_capacity a;
  ar_fits : a_size a ≤ a_capacity a;
  ar_slots : ∃ slots, a_ptr a = Some slots ∧ length slots = Z.to_nat (a_capacity a) ∧
    take (length es) slots = Some <$> es;
  ar_entries : Forall2 (entry_at h) es l }.

Definition addrs (es : list Entry_t) : list Z := es ≫= λ e, [e_key e; e_value e].

(** One of two, by archive. *)
Definition upd {A} (w : which) (x : A) (f : which → A) : which → A :=
  λ w', match w, w' with Local, Local | Global, Global => x | _, _ => f w' end.

Lemma upd_same {A} w (x : A) f : upd w x f w = x.
Proof. by destruct w. Qed.

(** The archives own the blocks [es] and represent the lists [ls]; [k] more
    blocks are in the heap. *)
Record owns (s : pm_mpi) (es : which → list Entry_t) (ls : which → list kv) (k : nat) : Prop := {
  ow_rep : ∀ w, archive_rep (heap s) (the_archive w s) (es w) (ls w);
  ow_nodup : NoDup (addrs (es Local) ++ addrs (es Global));
  ow_fresh : ∀ p b, heap s !! p = Some b → p ≤ Z.of_nat (allocs s);
  ow_size : size (heap s) = (2 * (length (ls Local) + length (ls Global)) + k)%nat }.

(** The abstract state: the global list, the local one, the blocks that
    nothing refers to. *)
Definition lists (l g : list kv) (w : which) : list kv := match w with Local => l | Global => g end.
Definition kvs (s : pm_mpi) (g l : list kv) (k : nat) : Prop := ∃ es, owns s es (lists l g) k.

Lemma rep_length h a es l : archive_rep h a es l → length es = length l.
Proof. intros H. by eapply Forall2_length, ar_entries. Qed.

(** The array holds the entries [es]. *)
Definition holds (a : Archive_t) (es : list Entry_t) : Prop :=
  ∃ slots, a_ptr a = Some slots ∧ take (length es) slots = Some <$> es.

Lemma rep_holds h a es l : archive_rep h a es l → holds a es.
Proof. intros [_ _ _ (slots & H1 & _ & H2) _]. by exists slots. Qed.

Lemma entry_ok w s es i e : holds (the_archive w s) es → es !! i = Some e → entry w i s = (Done e, s).
Proof.
  intros (slots & H1 & H2) He. unfold entry. rewrite bind_get, H1. cbn [or_fault].
  pose proof (lookup_lt_Some _ _ _ He). rewrite bind_ret.
  by rewrite <-(lookup_take_lt slots (length es)), H2, list_lookup_fmap, He.
Qed.

Lemma load_ok p b s : heap s !! p = Some b → load p s = (Done b, s).
Proof. intros H. unfold load. by rewrite bind_get, H. Qed.

(** A block that is added elsewhere leaves the entries alone. *)
Lemma entries_mono h h' es l : h ⊆ h' → Forall2 (entry_at h) es l → Forall2 (entry_at h') es l.
Proof.
  intros Hs H. eapply Forall2_impl; [exact H|]. intros e p ((b1 & H1 & B1) & (b2 & H2 & B2) & Hk).
  split_and!; [exists b1|exists b2|done]; (split; [|done]); by eapply lookup_weaken.
Qed.

Lemma rep_mono h h' a es l : h ⊆ h' → archive_rep h a es l → archive_rep h' a es l.
Proof. intros Hs []. constructor; [done..|]. by eapply entries_mono. Qed.

Lemma rep_addrs h a es l p : archive_rep h a es l → p ∈ addrs es → is_Some (h !! p).
Proof.
  intros H. unfold addrs. rewrite list_elem_of_bind. intros (e & Hp & [i He]%list_elem_of_lookup).
  destruct (Forall2_lookup_l _ _ _ _ _ (ar_entries _ _ _ _ H) He) as (q & _ & (b1 & H1 & _) & (b2 & H2 & _) & _).
  apply elem_of_cons in Hp as [-> |Hp%list_elem_of_singleton]; [by exists b1|subst p; by exists b2].
Qed.

(** ** Steps *)

Lemma the_set_same w a s : the_archive w (set_archive w a s) = a.
Proof. by destruct w. Qed.
Lemma the_set_ne w w' a s : w' ≠ w → the_archive w' (set_archive w a s) = the_archive w' s.
Proof. by destruct w, w'. Qed.
Lemma set_archive_frame w a s :
  heap (set_archive w a s) = heap s ∧ allocs (set_archive w a s) = allocs s ∧
  calls (set_archive w a s) = calls s.
Proof. by destruct w. Qed.
#[global] Instance which_eq_dec : EqDecision which.
Proof. solve_decision. Defined.

(** Another array for the same entries. *)
Lemma owns_set w a s es ls k :
  owns s es ls k → archive_rep (heap s) a (es w) (ls w) → owns (set_archive w a s) es ls k.
Proof.
  intros [H1 H2 H3 H4] Ha. destruct (set_archive_frame w a s) as (E1 & E2 & E3).
  constructor; rewrite ?E1, ?E2; [|done..]. intros w'.
  destruct (decide (w' = w)) as [-> |Hw]; [by rewrite the_set_same|by rewrite the_set_ne].
Qed.

Lemma owns_tick s es ls k : owns s es ls k → owns (tick_alloc s) es ls k.
Proof.
  intros [H1 H2 H3 H4]. constructor; [by intros []; [apply (H1 Local)|apply (H1 Global)]|done| |done].
  intros p b Hp. cbn [tick_alloc allocs]. pose proof (H3 p b Hp). lia.
Qed.

Section steps.
Context (W : mpi_env) (Halloc : ∀ n, env_alloc W n = true).

Lemma alloc_ok s : alloc W s = (Done true, tick_alloc s).
Proof using Halloc. unfold alloc. rewrite bind_get. erewrite bind_done by reflexivity. by rewrite Halloc. Qed.

Lemma malloc_ok s :
  let p := Z.of_nat (S (allocs s)) in
  malloc W STRING_LIMIT s =
  (Done (Some p), set_heap (<[p := replicate (Z.to_nat STRING_LIMIT) None]> (heap s)) (tick_alloc s)).
Proof using Halloc. cbv zeta. unfold malloc. by rewrite (bind_done _ _ _ _ _ (alloc_ok s)), bind_get. Qed.

Lemma malloc_buf_ok n s :
  malloc_buf W n s = (Done (Some (replicate (Z.to_nat n) None)), tick_alloc s).
Proof using Halloc. unfold malloc_buf. by rewrite (bind_done _ _ _ _ _ (alloc_ok s)). Qed.

(** The heap after a string was copied into a new block. *)
Record copied (s s' : pm_mpi) (p : Z) (t : cstr) : Prop := {
  cp_fresh : heap s !! p = None → str_at (heap s') p t ∧ heap s ⊆ heap s' ∧
    size (heap s') = S (size (heap s));
  cp_heap : ∀ q b, heap s' !! q = Some b → q = p ∨ heap s !! q = Some b;
  cp_addr : p = Z.of_nat (S (allocs s));
  cp_allocs : allocs s' = S (allocs s);
  cp_archives : ∀ w, the_archive w s' = the_archive w s;
  cp_calls : calls s' = calls s }.

Lemma copy_str_ok src t s :
  read_str src = Done t → strlen t < STRING_LIMIT →
  ∃ p s', copy_str W src s = (Done p, s') ∧ copied s s' p t.
Proof using Halloc.
  intros Hr Ht. set (p := Z.of_nat (S (allocs s))).
  set (b0 := replicate (Z.to_nat STRING_LIMIT) (None : option char)).
  destruct (strcpy_ok b0 t) as (b & Eb & Hb); [by unfold b0; rewrite length_replicate|done|].
  exists p, (set_heap (<[p := b]> (<[p := b0]> (heap s))) (tick_alloc s)). split.
  - unfold copy_str. rewrite (bind_done _ _ _ _ _ (malloc_ok s)). cbn [or_fault]. rewrite bind_ret.
    rewrite Hr. erewrite bind_done by reflexivity.
    rewrite (bind_done _ _ _ _ _ (load_ok p b0 (set_heap (<[p := b0]> (heap s)) (tick_alloc s))
      (lookup_insert_eq _ _ _))).
    rewrite Eb. erewrite bind_done by reflexivity. done.
  - constructor; cbn [heap set_heap tick_alloc allocs calls]; try done; rewrite ?insert_insert_eq.
    + intros Hn. split; [exists b; split; [apply lookup_insert_eq|done]|].
      split; [by apply insert_subseteq|]. by apply map_size_insert_None.
    + intros q c. destruct (decide (q = p)) as [->|Hq]; [by left|]. rewrite lookup_insert_ne by done. by right.
Qed.

Lemma copy_str_long src t s :
  read_str src = Done t → STRING_LIMIT ≤ strlen t → ∃ s', copy_str W src s = (Fault OutOfBounds, s').
Proof using Halloc.
  intros Hr Ht. set (p := Z.of_nat (S (allocs s))).
  set (b0 := replicate (Z.to_nat STRING_LIMIT) (None : option char)).
  exists (set_heap (<[p := b0]> (heap s)) (tick_alloc s)).
  unfold copy_str. rewrite (bind_done _ _ _ _ _ (malloc_ok s)). cbn [or_fault]. rewrite bind_ret.
  rewrite Hr. erewrite bind_done by reflexivity.
  rewrite (bind_done _ _ _ _ _ (load_ok p b0 (set_heap (<[p := b0]> (heap s)) (tick_alloc s))
    (lookup_insert_eq _ _ _))).
  unfold strcpy, strlen in *. rewrite (proj2 (Nat.leb_le _ _)); [done|].
  unfold b0. rewrite length_replicate. lia.
Qed.

Lemma grow_ok w s es ls k :
  owns s es ls k → 2 * Z.of_nat (S (length (ls w))) ≤ int_max →
  ∃ s', grow W w s = (Done tt, s') ∧ owns s' es ls k ∧ calls s' = calls s ∧
    a_size (the_archive w s') < a_capacity (the_archive w s').
Proof using Halloc.
  intros Ho Hn. pose proof (ow_rep _ _ _ _ Ho w) as Hr.
  pose proof (rep_length _ _ _ _ Hr) as Hel.
  destruct Hr as [Hsz Hcap Hfit (slots & Hp & Hl & Ht) Hes]. unfold grow. rewrite bind_get.
  destruct (Z.eqb_spec (a_size (the_archive w s)) (a_capacity (the_archive w s))) as [Heq|Hne].
  2:{ exists s. split; [done|]. split; [done|]. split; [done|lia]. }
  rewrite (bind_done _ _ _ _ _ (int_mul_ok (a_capacity (the_archive w s)) 2 s ltac:(unfold int_min; lia))).
  rewrite (bind_done _ _ _ _ _ (alloc_ok s)). rewrite Hp. change (default [] (Some slots)) with slots.
  set (a := Archive _ _ _). exists (set_archive w a (tick_alloc s)). split; [done|].
  rewrite the_set_same. cbn [a a_size a_capacity]. split; [|split; [by destruct w|lia]].
  apply owns_set; [by apply owns_tick|]. constructor; cbn [a a_ptr a_size a_capacity]; [done|lia..| |done].
  eexists. split; [done|]. rewrite length_resize. split; [done|].
  rewrite resize_ge by lia. rewrite take_app_le by lia. done.
Qed.

Lemma owns_unused s es ls k p :
  owns s es ls k → Z.of_nat (allocs s) < p →
  heap s !! p = None ∧ p ∉ addrs (es Local) ++ addrs (es Global).
Proof using.
  intros H Hp. assert (heap s !! p = None) as Hn.
  { destruct (heap s !! p) as [b|] eqn:E; [|done]. pose proof (ow_fresh _ _ _ _ H p b E). lia. }
  split; [done|]. intros [Hin|Hin]%elem_of_app.
  - destruct (rep_addrs _ _ _ _ _ (ow_rep _ _ _ _ H Local) Hin). congruence.
  - destruct (rep_addrs _ _ _ _ _ (ow_rep _ _ _ _ H Global) Hin). congruence.
Qed.

Lemma addrs_upd w e es :
  addrs (upd w (es w ++ [e]) es Local) ++ addrs (upd w (es w ++ [e]) es Global) ≡ₚ
  e_key e :: e_value e :: addrs (es Local) ++ addrs (es Global).
Proof using.
  unfold addrs. destruct w; cbn [upd]; rewrite bind_app; cbn [mbind list_bind app].
  - rewrite <-(assoc_L app). cbn [app]. by rewrite <-!Permutation_middle.
  - rewrite (assoc_L app). by rewrite (Permutation_app_comm _ [_; _]).
Qed.

Lemma rep_push h a es l slots e p :
  archive_rep h a es l → a_size a < a_capacity a → a_ptr a = Some slots → entry_at h e p →
  archive_rep h (Archive (Some (<[Z.to_nat (a_size a) := Some e]> slots)) (a_size a + 1) (a_capacity a))
    (es ++ [e]) (l ++ [p]).
Proof using.
  intros Hr Hlt Hp He. pose proof (rep_length _ _ _ _ Hr) as Hel.
  destruct Hr as [Hsz Hcap Hfit (slots' & Hp' & Hl & Ht) Hes].
  rewrite Hp in Hp'. injection Hp' as <-.
  assert (Z.to_nat (a_size a) = length es) as En by lia.
  constructor; cbn [a_ptr a_size a_capacity]; [rewrite length_app; cbn [length]; lia|lia..| |].
  - eexists. split; [done|]. rewrite length_insert. split; [done|].
    rewrite length_app, fmap_app, Nat.add_1_r, En. cbn [length].
    rewrite (take_S_r _ _ (Some e)) by (apply list_lookup_insert_eq; lia).
    rewrite take_insert_ge by lia. by rewrite Ht.
  - apply Forall2_app; [done|]. by apply Forall2_cons.
Qed.

Lemma push_ok w km vm kt vt s es ls k :
  owns s es ls k → 2 * Z.of_nat (S (length (ls w))) ≤ int_max →
  read_str km = Done kt → read_str vm = Done vt → kv_ok (kt, vt) →
  ∃ s' e, archive_push W w km vm s = (Done tt, s') ∧
    owns s' (upd w (es w ++ [e]) es) (upd w (ls w ++ [(kt, vt)]) ls) k ∧ calls s' = calls s.
Proof using Halloc.
  intros Ho Hn Hk Hv Hkv. pose proof Hkv as (_ & _ & Hkl & Hvl).
  destruct (grow_ok w s es ls k Ho Hn) as (s1 & E1 & O1 & C1 & Hlt).
  destruct (copy_str_ok km kt s1 Hk Hkl) as (p1 & s2 & E2 & [F1 G1 A1 N1 R1 K1]).
  destruct (copy_str_ok vm vt s2 Hv Hvl) as (p2 & s3 & E3 & [F2 G2 A2 N2 R2 K2]).
  destruct (owns_unused s1 es ls k p1 O1 ltac:(lia)) as [U1 V1].
  destruct (owns_unused s1 es ls k p2 O1 ltac:(lia)) as [U2 V2].
  destruct (F1 U1) as (B1 & S1 & Z1).
  assert (heap s2 !! p2 = None) as U2'.
  { destruct (heap s2 !! p2) as [b|] eqn:E; [|done]. destruct (G1 p2 b E); [lia|congruence]. }
  destruct (F2 U2') as (B2 & S2 & Z2). set (e := Entry p1 p2).
  pose proof (ow_rep _ _ _ _ O1 w) as Hr. pose proof Hr as [_ _ _ (slots & Hp & Hl & _) _].
  assert (∀ w', the_archive w' s3 = the_archive w' s1) as Ra by (intros w'; by rewrite R2, R1).
  assert (entry_at (heap s3) e (kt, vt)) as He.
  { split_and!; [|done|done]. destruct B1 as (b & Hb & ?). exists b. split; [by eapply lookup_weaken|done]. }
  assert (heap s1 ⊆ heap s3) as Hs13 by (by etrans).
  set (a := Archive (Some (<[Z.to_nat (a_size (the_archive w s1)) := Some e]> slots))
    (a_size (the_archive w s1) + 1) (a_capacity (the_archive w s1))).
  assert (archive_rep (heap s3) a (es w ++ [e]) (ls w ++ [(kt, vt)])) as Hr'.
  { apply rep_push; [by eapply rep_mono|done..]. }
  destruct (set_archive_frame w a s3) as (D1 & D2 & D3).
  exists (set_archive w a s3), e. split; [|split; [|congruence]].
  - unfold archive_push. rewrite (bind_done _ _ _ _ _ E1), (bind_done _ _ _ _ _ E2), (bind_done _ _ _ _ _ E3).
    rewrite bind_get, Ra, Hp. cbn [or_fault]. rewrite bind_ret.
    rewrite (proj2 (Nat.ltb_lt _ _)) by (pose proof (ar_size _ _ _ _ Hr); lia).
    cbn [or_fault]. rewrite bind_ret.
    rewrite (bind_done _ _ _ _ _ (int_add_ok (a_size (the_archive w s1)) 1 s3
      ltac:(pose proof (ar_size _ _ _ _ Hr); unfold int_min; lia))). done.
  - constructor; rewrite ?D1, ?D2.
    + intros w'. destruct (decide (w' = w)) as [-> |Hw].
      * by rewrite the_set_same, !upd_same.
      * rewrite the_set_ne, Ra by done. eapply rep_mono; [exact Hs13|].
        destruct w, w'; (done || apply (ow_rep _ _ _ _ O1)).
    + rewrite addrs_upd. cbn [e e_key e_value]. apply NoDup_cons. split.
      * intros [Hq|Hq]%elem_of_cons; [lia|done].
      * apply NoDup_cons. split; [done|apply (ow_nodup _ _ _ _ O1)].
    + intros q b Hq. destruct (G2 q b Hq) as [-> |Hq2]; [lia|].
      destruct (G1 q b Hq2) as [-> |Hq1]; [lia|]. pose proof (ow_fresh _ _ _ _ O1 q b Hq1). lia.
    + rewrite Z2, Z1, (ow_size _ _ _ _ O1). destruct w; cbn [upd]; rewrite length_app; cbn [length]; lia.
Qed.
End steps.

(** ** Looking a name up *)

Fixpoint first_value (key : cstr) (l : list kv) : option cstr :=
  match l with
  | [] => None
  | (k, v) :: l => if str_eq k key then Some v else first_value key l
  end.

Lemma load_str p t s : str_at (heap s) p t → no_nul t →
  ∃ b, load p s = (Done b, s) ∧ read_str b = Done t.
Proof.
  intros (b & Hb & Hbl) Hn. exists b. split; [by apply load_ok|].
  rewrite <-(app_nil_r b). by apply read_block.
Qed.

Lemma search_ok w s es l key n i :
  archive_rep (heap s) (the_archive w s) es l → (i + n = length l)%nat →
  ∃ p, search_entries w key n i s = (Done p, s) ∧
    match first_value key (drop i l) with
    | Some v => ∃ q, p = Some q ∧ str_at (heap s) q v ∧ no_nul v
    | None => p = None
    end.
Proof.
  intros Hr. revert i. induction n as [|n IH]; intros i Hi; cbn [search_entries].
  { exists None. split; [done|]. by rewrite drop_ge by lia. }
  destruct (lookup_lt_is_Some_2 l i ltac:(lia)) as [[k v] Hp].
  destruct (Forall2_lookup_r _ _ _ _ _ (ar_entries _ _ _ _ Hr) Hp) as (e & He & Hk & Hv & Hkv).
  rewrite (bind_done _ _ _ _ _ (entry_ok w s es i e (rep_holds _ _ _ _ Hr) He)).
  destruct (load_str (e_key e) k s Hk (proj1 Hkv)) as (b & Eb & Rb).
  rewrite (bind_done _ _ _ _ _ Eb), Rb. erewrite bind_done by reflexivity.
  rewrite (drop_S _ _ _ Hp). cbn [first_value].
  destruct (str_eq k key); [|apply IH; lia].
  eexists. split; [done|]. exists (e_value e). split_and!; [done|done|apply Hkv].
Qed.

Lemma getname_ok s g l k key room :
  kvs s g l k →
  lcm_pm_getname key room s =
    (match first_value key g with
     | Some v => if room <=? strlen v then Fault OutOfBounds else Done v
     | None => Fault NullDeref
     end, s).
Proof.
  intros [es Ho]. pose proof (ow_rep _ _ _ _ Ho Global) as Hr.
  destruct (search_ok Global s (es Global) g key (length g) 0 Hr eq_refl) as (p & E & Hp).
  unfold lcm_pm_getname, archive_search. rewrite bind_assoc, bind_get.
  rewrite (ar_size _ _ _ _ Hr). cbn [lists]. rewrite Nat2Z.id. rewrite (bind_done _ _ _ _ _ E).
  rewrite drop_0 in Hp. destruct (first_value key g) as [v|]; [|by subst p].
  destruct Hp as (q & -> & Hq & Hn). cbn [or_fault]. rewrite bind_ret.
  destruct (load_str q v s Hq Hn) as (b & Eb & Rb). rewrite (bind_done _ _ _ _ _ Eb), Rb.
  erewrite bind_done by reflexivity. by destruct (room <=? strlen v).
Qed.

(** ** Giving back *)

Definition without (ps : list Z) (h : gmap Z mem) : gmap Z mem := foldl (λ h p, delete p h) h ps.

Lemma without_lookup ps h q : q ∉ ps → without ps h !! q = h !! q.
Proof.
  revert h. induction ps as [|p ps IH]; intros h Hq; [done|]. cbn [without foldl].
  apply not_elem_of_cons in Hq as [Hq1 Hq2]. unfold without in IH. rewrite IH by done.
  by apply lookup_delete_ne.
Qed.

Lemma without_size ps h :
  NoDup ps → (∀ p, p ∈ ps → is_Some (h !! p)) → (size (without ps h) + length ps)%nat = size h.
Proof.
  revert h. induction ps as [|p ps IH]; intros h Hn Hp; cbn [length]; [cbn; lia|].
  apply NoDup_cons in Hn as [Hn1 Hn2]. cbn [without foldl]. fold (without ps (delete p h)).
  destruct (Hp p ltac:(by left)) as [b Hb]. specialize (IH (delete p h) Hn2).
  assert (size h = S (size (delete p h))) as ->; [|rewrite <-IH; [lia|]].
  - rewrite <-(insert_delete_id h p b Hb) at 1. by apply map_size_insert_None, lookup_delete_eq.
  - intros q Hq. rewrite lookup_delete_ne by (intros ->; done). apply Hp. by right.
Qed.

Lemma free_ok p s b : heap s !! p = Some b → free p s = (Done tt, set_heap (delete p (heap s)) s).
Proof. intros H. unfold free. by rewrite (bind_done _ _ _ _ _ (load_ok p b s H)). Qed.

Lemma free_entries_ok w es n i s :
  holds (the_archive w s) es → (i + n = length es)%nat → NoDup (addrs (drop i es)) →
  (∀ p, p ∈ addrs (drop i es) → is_Some (heap s !! p)) →
  free_entries w n i s = (Done tt, set_heap (without (addrs (drop i es)) (heap s)) s).
Proof.
  revert i s. induction n as [|n IH]; intros i s Hh Hi Hn Hp; cbn [free_entries].
  { rewrite drop_ge by lia. by destruct s. }
  destruct (lookup_lt_is_Some_2 es i ltac:(lia)) as [e He].
  rewrite (bind_done _ _ _ _ _ (entry_ok w s es i e Hh He)).
  rewrite (drop_S _ _ _ He) in *. unfold addrs in Hn, Hp. cbn [mbind list_bind app] in Hn, Hp.
  fold (addrs (drop (S i) es)) in Hn, Hp.
  apply NoDup_cons in Hn as [Hn1 Hn]. pose proof Hn as [Hn2 Hn3]%NoDup_cons.
  destruct (Hp (e_key e)) as [b1 H1]; [by left|]. rewrite (bind_done _ _ _ _ _ (free_ok _ _ _ H1)).
  set (s1 := set_heap _ s). destruct (Hp (e_value e)) as [b2 H2]; [by right; left|].
  assert (heap s1 !! e_value e = Some b2) as H2'.
  { cbn [s1 heap set_heap]. rewrite lookup_delete_ne; [done|]. intros E. apply Hn1, elem_of_cons. by left. }
  rewrite (bind_done _ _ _ _ _ (free_ok _ _ _ H2')). rewrite IH.
  - done.
  - by destruct w.
  - lia.
  - done.
  - intros q Hq. cbn [heap set_heap s1].
    rewrite !lookup_delete_ne; [apply Hp; by right; right|..].
    + intros E. apply Hn1. rewrite E. by right.
    + intros E. apply Hn2. by rewrite E.
Qed.

Lemma addrs_length es : length (addrs es) = (2 * length es)%nat.
Proof.
  induction es as [|e es IH]; [done|].
  change (addrs (e :: es)) with (e_key e :: e_value e :: addrs es). cbn [length]. lia.
Qed.

(** What [lcm_pm_finalize] leaves in the heap is what nothing refers to. *)
Lemma finalize_ok s g l k :
  kvs s g l k →
  ∃ s', lcm_pm_finalize s = (Done tt, s') ∧ size (heap s') = k ∧
    l_archive s' = no_archive ∧ g_archive s' = no_archive.
Proof.
  intros [es Ho]. pose proof (ow_rep _ _ _ _ Ho Local) as Hl. pose proof (ow_rep _ _ _ _ Ho Global) as Hg.
  cbn [the_archive lists] in Hl, Hg.
  pose proof (ow_nodup _ _ _ _ Ho) as Hn. apply NoDup_app in Hn as (N1 & N12 & N2).
  assert (∀ w, Z.to_nat (a_size (the_archive w s)) = length (es w)) as Hsz.
  { intros w. rewrite (ar_size _ _ _ _ (ow_rep _ _ _ _ Ho w)), Nat2Z.id.
    by rewrite (rep_length _ _ _ _ (ow_rep _ _ _ _ Ho w)). }
  unfold lcm_pm_finalize, archive_fina. rewrite bind_assoc, bind_get, Hsz, bind_assoc.
  rewrite (bind_done _ _ _ _ _ (free_entries_ok Local (es Local) _ 0 s (rep_holds _ _ _ _ Hl) eq_refl
    N1 (λ p, rep_addrs _ _ _ _ _ Hl))). rewrite drop_0.
  erewrite bind_done by reflexivity. rewrite bind_get. cbn [the_archive g_archive set_archive set_heap].
  rewrite (Hsz Global : Z.to_nat (a_size (g_archive s)) = _). set (s1 := PmMpi no_archive _ _ _ _).
  assert (∀ p, p ∈ addrs (es Global) → is_Some (heap s1 !! p)) as Hp1.
  { intros p Hp. cbn [s1 heap set_heap]. rewrite without_lookup.
    - by eapply rep_addrs.
    - intros Hq. by apply (N12 p). }
  rewrite (bind_done _ _ _ _ _ (free_entries_ok Global (es Global) _ 0 s1 (rep_holds _ _ _ _ Hg) eq_refl N2 Hp1)).
  eexists. split; [reflexivity|]. split_and!; [|done|done].
  cbn [heap set_archive set_heap s1]. rewrite drop_0.
  pose proof (without_size _ _ N2 Hp1) as E2. cbn [s1 heap set_heap] in E2.
  pose proof (without_size _ _ N1 (λ p, rep_addrs _ _ _ _ p Hl)) as E1.
  pose proof (ow_size _ _ _ _ Ho) as E. cbn [lists] in E.
  rewrite !addrs_length in *. rewrite (rep_length _ _ _ _ Hl) in *. rewrite (rep_length _ _ _ _ Hg) in *. lia.
Qed.

(** ** What a rank sends *)

Definition local_entries (s : pm_mpi) : list Entry_t :=
  omap id (take (Z.to_nat (a_size (l_archive s))) (default [] (a_ptr (l_archive s)))).
Definition pair_bytes (h : gmap Z mem) (e : Entry_t) : mem :=
  default [] (h !! e_key e) ++ default [] (h !! e_value e).
Definition sent (s : pm_mpi) : mem := local_entries s ≫= pair_bytes (heap s).

(** The bytes [b] are the pairs [l], in blocks. *)
Fixpoint carries (b : mem) (l : list kv) : Prop :=
  match l with
  | [] => b = []
  | p :: l => ∃ b1 b2 r, b = b1 ++ b2 ++ r ∧ block b1 p.1 ∧ block b2 p.2 ∧ kv_ok p ∧ carries r l
  end.

Lemma carries_app b1 b2 l1 l2 : carries b1 l1 → carries b2 l2 → carries (b1 ++ b2) (l1 ++ l2).
Proof.
  intros H H2. revert b1 H. induction l1 as [|p l1 IH]; intros b1 H.
  - cbn [carries] in H. by subst b1.
  - destruct H as (c1 & c2 & r & -> & B1 & B2 & Hk & Hr). cbn [app carries].
    exists c1, c2, (r ++ b2). rewrite <-!(assoc_L app). split; [done|]. split_and!; [done..|]. by apply IH.
Qed.

Lemma carries_length b l : carries b l → length b = (512 * length l)%nat.
Proof.
  revert b. induction l as [|p l IH]; intros b H; cbn [carries] in H.
  - by subst b.
  - destruct H as (c1 & c2 & r & -> & [L1 _] & [L2 _] & _ & Hr). rewrite !length_app, L1, L2, (IH r Hr).
    change (Z.to_nat STRING_LIMIT) with 256%nat. cbn [length]. lia.
Qed.

Lemma entries_carry h es l : Forall2 (entry_at h) es l → carries (es ≫= pair_bytes h) l.
Proof.
  induction 1 as [|e p es l ((b1 & H1 & B1) & (b2 & H2 & B2) & Hk) _ IH]; [done|].
  cbn [carries mbind list_bind]. exists b1, b2, (es ≫= pair_bytes h).
  unfold pair_bytes at 1. rewrite H1, H2. cbn [default from_option id]. by rewrite <-(assoc_L app).
Qed.

Lemma local_entries_eq s es ls k : owns s es ls k → local_entries s = es Local.
Proof.
  intros H. pose proof (ow_rep _ _ _ _ H Local) as Hr. cbn [the_archive] in Hr.
  destruct (rep_holds _ _ _ _ Hr) as (slots & H1 & H2).
  unfold local_entries. rewrite H1, (ar_size _ _ _ _ Hr), Nat2Z.id, <-(rep_length _ _ _ _ Hr).
  cbn [default from_option id]. rewrite H2. clear. induction (es Local) as [|e l IH]; [done|].
  cbn. by f_equal.
Qed.

Lemma sent_carries s es ls k : owns s es ls k → carries (sent s) (ls Local).
Proof.
  intros H. unfold sent. rewrite (local_entries_eq _ _ _ _ H). apply entries_carry.
  apply (ar_entries _ _ _ _ (ow_rep _ _ _ _ H Local)).
Qed.

Lemma assemble_src_ok s es l n i b :
  archive_rep (heap s) (l_archive s) es l → (i + n = length l)%nat → length b = (512 * length l)%nat →
  assemble_src (Some b) n i s = (Done (Some (take (512 * i) b ++ (drop i es ≫= pair_bytes (heap s)))), s).
Proof.
  intros Hr. revert i b. induction n as [|n IH]; intros i b Hi Hb; cbn [assemble_src].
  { rewrite (drop_ge es) by (rewrite (rep_length _ _ _ _ Hr); lia).
    cbn [mbind list_bind]. by rewrite app_nil_r, take_ge by lia. }
  destruct (lookup_lt_is_Some_2 l i ltac:(lia)) as [p Hp].
  destruct (Forall2_lookup_r _ _ _ _ _ (ar_entries _ _ _ _ Hr) Hp) as (e & He & (b1 & H1 & B1) & (b2 & H2 & B2) & _).
  rewrite (bind_done _ _ _ _ _ (entry_ok Local s es i e (rep_holds _ _ _ _ Hr) He)).
  cbn [or_fault]. rewrite bind_ret. destruct B1 as [L1 _], B2 as [L2 _].
  change (Z.to_nat STRING_LIMIT) with 256%nat in *.
  rewrite (bind_done _ _ _ _ _ (load_ok _ _ _ H1)).
  rewrite memcpy_ok by lia. erewrite bind_done by reflexivity.
  rewrite (bind_done _ _ _ _ _ (load_ok _ _ _ H2)).
  rewrite memcpy_ok by (rewrite ?length_app, ?length_take, ?length_drop; lia).
  erewrite bind_done by reflexivity. rewrite !(take_ge _ 256) by lia.
  set (c := take _ (take _ b ++ _) ++ _).
  assert (length c = 512 * length l)%nat as Hc.
  { unfold c. rewrite !length_app, !length_take, !length_drop, !length_app, !length_take, !length_drop. lia. }
  assert (take (512 * S i) c = take (512 * i) b ++ b1 ++ b2) as Ht.
  { unfold c. rewrite !(assoc_L app). rewrite take_app_le.
    2:{ rewrite !length_app, !length_take, !length_app, !length_take, length_drop. lia. }
    rewrite take_ge by (rewrite !length_app, !length_take, !length_app, !length_take, length_drop; lia).
    f_equal. rewrite take_app_le by (rewrite length_app, length_take; lia).
    rewrite take_ge by (rewrite length_app, length_take; lia). f_equal. f_equal. lia. }
  rewrite IH by (done || lia). rewrite Ht, (drop_S _ _ _ He). cbn [mbind list_bind].
  unfold pair_bytes at 2. rewrite H1, H2. cbn [default from_option id].
  by rewrite <-!(assoc_L app).
Qed.

(** ** What everybody receives *)

(** [MPI_Allgatherv] as its documentation has it: the block of each rank at its
    displacement in the receive buffer. *)
Fixpoint scatter (bs : list mem) (counts displs : list Z) (dst : mem) : mem :=
  match bs, counts, displs with
  | b :: bs, n :: counts, d :: displs =>
      scatter bs counts displs
        (take (Z.to_nat d) dst ++ take (Z.to_nat n) b ++ drop (Z.to_nat d + Z.to_nat n) dst)
  | _, _, _ => dst
  end.

Fixpoint offsets (d : nat) (ns : list nat) : list nat :=
  match ns with [] => [] | n :: ns => d :: offsets (d + n) ns end.

Lemma scatter_concat bs d dst :
  length dst = (d + length (concat bs))%nat →
  scatter bs (Z.of_nat <$> (length <$> bs)) (Z.of_nat <$> offsets d (length <$> bs)) dst =
  take d dst ++ concat bs.
Proof.
  revert d dst. induction bs as [|b bs IH]; intros d dst Hl; cbn [concat scatter offsets fmap list_fmap] in *.
  { rewrite app_nil_r, take_ge; [done|cbn [length] in Hl; lia]. }
  rewrite length_app in Hl. rewrite !Nat2Z.id, (take_ge b) by lia.
  rewrite IH by (rewrite !length_app, length_take, length_drop; lia).
  rewrite (assoc_L app (take d dst)), take_app_le by (rewrite length_app, length_take; lia).
  rewrite take_ge by (rewrite length_app, length_take; lia). by rewrite <-(assoc_L app).
Qed.

Lemma sum_counts_ok acc ns s :
  Z.of_nat (acc + sum_list ns) ≤ int_max →
  sum_counts (Z.of_nat acc) (Z.of_nat <$> ns) s = (Done (Z.of_nat (acc + sum_list ns)), s).
Proof.
  revert acc. induction ns as [|n ns IH]; intros acc H; cbn [sum_counts fmap list_fmap sum_list_with id] in *.
  { by rewrite Nat.add_0_r. }
  rewrite (bind_done _ _ _ _ _ (int_add_ok (Z.of_nat acc) (Z.of_nat n) s ltac:(unfold int_min; lia))).
  rewrite <-Nat2Z.inj_add. etrans; [apply IH; lia|]. do 2 f_equal. lia.
Qed.

Lemma scale_counts_ok ns s :
  512 * Z.of_nat (sum_list ns) ≤ int_max →
  scale_counts (Z.of_nat <$> ns) s = (Done (Z.of_nat <$> (Nat.mul 512 <$> ns)), s).
Proof.
  induction ns as [|n ns IH]; intros H; cbn [scale_counts fmap list_fmap sum_list_with id] in *; [done|].
  change (STRING_LIMIT * 2) with 512.
  rewrite (bind_done _ _ _ _ _ (int_mul_ok (Z.of_nat n) 512 s ltac:(unfold int_min; lia))).
  rewrite (bind_done _ _ _ _ _ (IH ltac:(lia))). unfold mret, M_ret. do 3 f_equal. lia.
Qed.

Lemma assemble_displs_ok d ns s :
  Z.of_nat (d + sum_list ns) ≤ int_max →
  assemble_displs (Z.of_nat d) (Z.of_nat <$> ns) s = (Done (Z.of_nat <$> offsets d ns), s).
Proof.
  revert d. induction ns as [|n ns IH]; intros d H; cbn [assemble_displs offsets fmap list_fmap sum_list_with id] in *; [done|].
  rewrite (bind_done _ _ _ _ _ (int_add_ok (Z.of_nat d) (Z.of_nat n) s ltac:(unfold int_min; lia))).
  rewrite <-Nat2Z.inj_add. by rewrite (bind_done _ _ _ _ _ (IH (d + n)%nat ltac:(lia))).
Qed.

(** ** The operations *)

Lemma owns_ext s es es' ls ls' k :
  owns s es ls k → (∀ w, es w = es' w) → (∀ w, ls w = ls' w) → owns s es' ls' k.
Proof.
  intros [H1 H2 H3 H4] E1 E2. constructor; rewrite <-?E1, <-?E2; [|done..].
  intros w. rewrite <-E1, <-E2. apply H1.
Qed.

(** The pairs [l] published in order. *)
Fixpoint publish_all (W : mpi_env) (l : list kv) : M pm_mpi () :=
  match l with
  | [] => mret tt
  | p :: l => lcm_pm_publish W p.1 p.2;; publish_all W l
  end.

Section operations.
Context (W : mpi_env) (Halloc : ∀ n, env_alloc W n = true).

Lemma initialize_ok : ∃ s, lcm_pm_initialize W pm_start = (Done tt, s) ∧ kvs s [] [] 0 ∧ calls s = 0%nat.
Proof using Halloc.
  unfold lcm_pm_initialize, archive_init.
  rewrite bind_assoc, (bind_done _ _ _ _ _ (alloc_ok W Halloc _)). cbv iota.
  erewrite bind_done by reflexivity. rewrite (bind_done _ _ _ _ _ (alloc_ok W Halloc _)). cbv iota.
  eexists. split; [reflexivity|]. split; [|done]. exists (λ _, []). constructor.
  - intros []; (constructor; cbn; [done|lia|lia|by eexists|by apply Forall2_nil]).
  - apply NoDup_nil_2.
  - intros p b. cbn. by rewrite lookup_empty.
  - done.
Qed.

Lemma publish_ok s g l k p :
  kvs s g l k → kv_ok p → 2 * Z.of_nat (S (length l)) ≤ int_max →
  ∃ s', lcm_pm_publish W p.1 p.2 s = (Done tt, s') ∧ kvs s' g (l ++ [p]) k ∧ calls s' = calls s.
Proof using Halloc.
  intros [es Ho] Hk Hn. pose proof Hk as (N1 & N2 & _ & _).
  destruct (push_ok W Halloc Local (str_mem p.1) (str_mem p.2) p.1 p.2 s es (lists l g) k Ho Hn)
    as (s' & e & E & O' & C); [by rewrite <-(app_nil_r (str_mem _)), read_str_mem..|done|].
  exists s'. split; [exact E|]. split; [|done]. exists (upd Local (es Local ++ [e]) es).
  destruct p. eapply owns_ext; [exact O'|done|by intros []].
Qed.

Lemma publish_all_ok s g l0 l k :
  kvs s g l0 k → Forall kv_ok l → 2 * Z.of_nat (S (length (l0 ++ l))) ≤ int_max →
  ∃ s', publish_all W l s = (Done tt, s') ∧ kvs s' g (l0 ++ l) k ∧ calls s' = calls s.
Proof using Halloc.
  intros Hs Hl. revert s l0 Hs. induction Hl as [|p l Hp _ IH]; intros s l0 Hs Hn; cbn [publish_all].
  { exists s. by rewrite app_nil_r. }
  rewrite length_app in Hn. cbn [length] in Hn.
  destruct (publish_ok s g l0 k p Hs Hp ltac:(lia)) as (s1 & E1 & K1 & C1).
  destruct (IH s1 (l0 ++ [p]) K1) as (s2 & E2 & K2 & C2).
  { rewrite !length_app. cbn [length]. lia. }
  exists s2. rewrite (bind_done _ _ _ _ _ E1). split; [done|]. rewrite <-(assoc_L app) in K2. by rewrite C2.
Qed.

Lemma push_all_ok b l i s es ls k :
  owns s es ls k → carries (drop (512 * i) b) l →
  2 * Z.of_nat (S (length (ls Global) + length l)) ≤ int_max →
  ∃ s' es', push_all W (Some b) (length l) i s = (Done tt, s') ∧
    owns s' es' (upd Global (ls Global ++ l) ls) k ∧ calls s' = calls s.
Proof using Halloc.
  revert i s es ls. induction l as [|p l IH]; intros i s es ls Ho Hb Hn; cbn [length push_all].
  { exists s, es. split; [done|]. split; [|done]. rewrite app_nil_r.
    eapply owns_ext; [exact Ho|done|by intros []]. }
  cbn [carries] in Hb. destruct Hb as (b1 & b2 & r & Eb & B1 & B2 & Hk & Hr).
  cbn [or_fault]. rewrite bind_ret. change (Z.to_nat STRING_LIMIT) with 256%nat.
  replace (2 * i * 256)%nat with (512 * i)%nat by lia.
  replace ((2 * i + 1) * 256)%nat with (512 * i + 256)%nat by lia.
  pose proof (proj1 B1) as L1. pose proof (proj1 B2) as L2. change (Z.to_nat STRING_LIMIT) with 256%nat in L1, L2.
  assert (drop (512 * i + 256) b = b2 ++ r) as Eb2.
  { rewrite <-drop_drop, Eb, drop_app_ge by lia. by rewrite L1. }
  assert (drop (512 * S i) b = r) as Er.
  { replace (512 * S i)%nat with (512 * i + 256 + 256)%nat by lia.
    rewrite <-drop_drop, Eb2, drop_app_ge by lia. by rewrite L2, Nat.sub_diag. }
  rewrite Eb, Eb2. pose proof Hk as (N1 & N2 & _ & _). cbn [length] in Hn.
  destruct (push_ok W Halloc Global (b1 ++ b2 ++ r) (b2 ++ r) p.1 p.2 s es ls k Ho) as (s1 & e & E1 & O1 & C1);
    [lia|by apply read_block..|done|]. rewrite (bind_done _ _ _ _ _ E1).
  destruct (IH (S i) s1 _ _ O1) as (s2 & es2 & E2 & O2 & C2).
  { by rewrite Er. }
  { cbn [upd]. rewrite length_app. cbn [length]. lia. }
  exists s2, es2. split; [done|]. split; [|congruence].
  eapply owns_ext; [exact O2|done|]. intros []; [done|]. cbn [upd].
  rewrite <-(assoc_L app). destruct p. done.
Qed.

(** The blocks of the local archive are left behind. *)
Lemma clear_ok s es g l k :
  owns s es (lists l g) k →
  ∃ s', archive_clear Local s = (Done tt, s') ∧ kvs s' g [] (k + 2 * length l) ∧ calls s' = calls s.
Proof using.
  intros Ho. eexists. split; [reflexivity|]. split; [|done]. exists (upd Local [] es).
  pose proof (ow_rep _ _ _ _ Ho Local) as Hl. cbn [the_archive lists] in Hl.
  constructor.
  - intros []; [|apply (ow_rep _ _ _ _ Ho Global)]. destruct Hl as [H1 H2 H3 (slots & H4 & H5 & _) _].
    constructor; cbn; [done|lia|lia|by eexists|by apply Forall2_nil].
  - cbn [upd]. pose proof (ow_nodup _ _ _ _ Ho) as Hn. by apply NoDup_app in Hn as (_ & _ & Hn).
  - apply (ow_fresh _ _ _ _ Ho).
  - cbn. rewrite (ow_size _ _ _ _ Ho). cbn [lists]. lia.
Qed.
End operations.

(** ** The barrier *)

(** The library delivers to the rank in the state [s] what the ranks in the
    states [ss] send, and memory does not run out. *)
Record delivers (W : mpi_env) (ss : list pm_mpi) (s : pm_mpi) : Prop := {
  dl_alloc : ∀ n, env_alloc W n = true;
  dl_gather : env_allgather W (calls s) (a_size (l_archive s)) = (λ t, a_size (l_archive t)) <$> ss;
  dl_gatherv : ∀ counts displs dst,
    env_allgatherv W (S (calls s)) (sent s) counts displs dst = scatter (sent <$> ss) counts displs dst }.

(** The other ranks have published the lists [ls]. *)
Definition ready_with (ss : list pm_mpi) (ls : list (list kv)) : Prop :=
  Forall2 (λ t l, ∃ g k, kvs t g l k) ss ls.

Lemma ready_sizes ss ls :
  ready_with ss ls →
  (λ t, a_size (l_archive t)) <$> ss = Z.of_nat <$> (length <$> ls) ∧
  length <$> (sent <$> ss) = Nat.mul 512 <$> (length <$> ls) ∧
  carries (concat (sent <$> ss)) (concat ls).
Proof.
  induction 1 as [|t l ss ls (g & k & es & Ho) _ (IH1 & IH2 & IH3)]; [done|].
  pose proof (sent_carries _ _ _ _ Ho) as Hc. cbn [lists] in Hc. cbn [fmap list_fmap concat].
  split_and!.
  - f_equal; [|exact IH1]. apply (ar_size _ _ _ _ (ow_rep _ _ _ _ Ho Local)).
  - f_equal; [|exact IH2]. by apply carries_length.
  - by apply carries_app.
Qed.

Lemma sum_list_concat {A} (ls : list (list A)) : sum_list (length <$> ls) = length (concat ls).
Proof. induction ls as [|l ls IH]; [done|]. cbn in *. rewrite length_app. unfold id in *. lia. Qed.

Lemma length_concat_le {A} (ls : list (list A)) i l : ls !! i = Some l → (length l ≤ length (concat ls))%nat.
Proof.
  revert i. induction ls as [|x ls IH]; intros [|i] H; cbn in *; [done|done|..]; rewrite length_app.
  - injection H as ->. lia.
  - specialize (IH i H). lia.
Qed.

Lemma sum_list_mul n ns : sum_list (Nat.mul n <$> ns) = (n * sum_list ns)%nat.
Proof. induction ns as [|m ns IH]; cbn in *; unfold id in *; lia. Qed.

Lemma allgather_ok W n s :
  allgather W n true s = (Done (env_allgather W (calls s) n), tick_call s).
Proof. done. Qed.

Lemma owns_call s es ls k : owns s es ls k → owns (tick_call s) es ls k.
Proof. intros [H1 H2 H3 H4]. constructor; [|done..]. by intros []; [apply (H1 Local)|apply (H1 Global)]. Qed.

Lemma sent_same s s' :
  l_archive s' = l_archive s → heap s' = heap s → sent s' = sent s.
Proof. intros E1 E2. unfold sent, local_entries. by rewrite E1, E2. Qed.

(** From the send buffer on. *)
Lemma deliver_ok W ss ls g l k s es :
  (∀ n, env_alloc W n = true) → ready_with ss ls → owns s es (lists l g) k →
  (∀ counts displs dst,
     env_allgatherv W (calls s) (sent s) counts displs dst = scatter (sent <$> ss) counts displs dst) →
  2 * Z.of_nat (S (length g + length (concat ls))) ≤ int_max →
  ∃ s', (src_buf ← assemble_src (Some (replicate (512 * length l) None)) (length l) 0;
         dst_buf ← allgatherv W src_buf (Z.of_nat <$> (Nat.mul 512 <$> (length <$> ls)))
                     (Z.of_nat <$> offsets 0 (Nat.mul 512 <$> (length <$> ls)))
                     (Some (replicate (512 * length (concat ls)) None))
                     (512 * Z.of_nat (length (concat ls)));
         push_all W dst_buf (length (concat ls)) 0;;
         archive_clear Local) s = (Done tt, s') ∧
    kvs s' (g ++ concat ls) [] (k + 2 * length l) ∧ calls s' = S (calls s).
Proof.
  intros Ha Hr Ho Hd Hn. destruct (ready_sizes ss ls Hr) as (_ & Hl & Hc).
  pose proof (ow_rep _ _ _ _ Ho Local) as Hrep. cbn [the_archive lists] in Hrep.
  rewrite (bind_done _ _ _ _ _ (assemble_src_ok s (es Local) l (length l) 0 _ Hrep eq_refl
    (length_replicate _ _))). rewrite drop_0. rewrite Nat.mul_0_r. cbn [take app].
  unfold allgatherv. rewrite bind_assoc, bind_get, bind_assoc. erewrite bind_done by reflexivity.
  rewrite bind_ret. cbn [default from_option id].
  assert (es Local ≫= pair_bytes (heap s) = sent s) as ->.
  { unfold sent. by rewrite (local_entries_eq _ _ _ _ Ho). }
  rewrite Hd, <-Hl, scatter_concat.
  2:{ rewrite length_replicate, (carries_length _ _ Hc). lia. }
  cbn [take app].
  destruct (push_all_ok W Ha (concat (sent <$> ss)) (concat ls) 0 (tick_call s) es (lists l g) k)
    as (s1 & es1 & E1 & O1 & C1); [by apply owns_call|by rewrite drop_0|done|].
  rewrite (bind_done _ _ _ _ _ E1).
  destruct (clear_ok s1 es1 (g ++ concat ls) l k) as (s2 & E2 & K2 & C2).
  { eapply owns_ext; [exact O1|done|by intros []]. }
  exists s2. split; [done|]. split; [done|]. by rewrite C2, C1.
Qed.

Lemma barrier_ok (W : mpi_env) (ss : list pm_mpi) (ls : list (list kv)) (g l : list kv) (k : nat)
    (s : pm_mpi) :
  ready_with ss ls → kvs s g l k → s ∈ ss → delivers W ss s →
  512 * Z.of_nat (length (concat ls)) ≤ int_max →
  2 * Z.of_nat (S (length g + length (concat ls))) ≤ int_max →
  ∃ s', lcm_pm_barrier W s = (Done tt, s') ∧ kvs s' (g ++ concat ls) [] (k + 2 * length l) ∧
    calls s' = S (S (calls s)).
Proof.
  intros Hr [es Ho] Hin [Ha Hg Hv] Hn1 Hn2. destruct (ready_sizes ss ls Hr) as (Hsz & _ & _).
  pose proof (ow_rep _ _ _ _ Ho Local) as Hrep. cbn [the_archive lists] in Hrep.
  pose proof (ar_size _ _ _ _ Hrep) as Es.
  assert (length l ≤ length (concat ls))%nat as Hle.
  { apply list_elem_of_lookup in Hin as [i Hi].
    assert ((length <$> ls) !! i = Some (length l)) as Hx.
    { apply (f_equal (lookup i)) in Hsz. rewrite !list_lookup_fmap, Hi in Hsz. cbn [fmap option_fmap option_map] in Hsz.
      rewrite Es in Hsz. rewrite list_lookup_fmap. destruct (ls !! i) as [l'|]; cbn in Hsz |- *; [|done].
      injection Hsz as Hsz. f_equal. lia. }
    rewrite list_lookup_fmap in Hx. apply fmap_Some in Hx as (l' & Hl' & ->). by eapply length_concat_le. }
  pose proof (sum_counts_ok 0 (length <$> ls) (tick_call (tick_alloc s))
    ltac:(rewrite sum_list_concat; lia)) as E1.
  rewrite sum_list_concat in E1. change (0 + length (concat ls))%nat with (length (concat ls)) in E1.
  set (s1 := tick_call (tick_alloc s)) in *. set (s2 := tick_alloc (tick_alloc s1)). set (s3 := tick_alloc s2).
  destruct (deliver_ok W ss ls g l k s3 es Ha Hr) as (s' & E & K).
  { by do 2 apply owns_tick; apply owns_tick, owns_call, owns_tick. }
  { intros counts displs dst. rewrite (sent_same s s3) by done. apply Hv. }
  { done. }
  exists s'. split; [|done]. rewrite <-E.
  unfold lcm_pm_barrier, lcm_pm_get_size. rewrite bind_ret, bind_get. cbv zeta. rewrite Es.
  rewrite (bind_done _ _ _ _ _ (alloc_ok W Ha s)), (bind_done _ _ _ _ _ (allgather_ok W _ _)).
  change (calls (tick_alloc s)) with (calls s). rewrite <-Es, Hg, Es, Hsz.
  rewrite (bind_done _ _ _ _ _ E1). change STRING_LIMIT with 256.
  rewrite (bind_done _ _ _ _ _ (int_mul_ok (Z.of_nat (length l)) 256 s1 ltac:(unfold int_min; lia))).
  rewrite (bind_done _ _ _ _ _ (int_mul_ok (Z.of_nat (length l) * 256) 2 s1 ltac:(unfold int_min; lia))).
  rewrite (bind_done _ _ _ _ _ (malloc_buf_ok W Ha _ s1)).
  rewrite (bind_done _ _ _ _ _ (int_mul_ok (Z.of_nat (length (concat ls))) 256 (tick_alloc s1) ltac:(unfold int_min; lia))).
  rewrite (bind_done _ _ _ _ _ (int_mul_ok (Z.of_nat (length (concat ls)) * 256) 2 (tick_alloc s1) ltac:(unfold int_min; lia))).
  rewrite (bind_done _ _ _ _ _ (malloc_buf_ok W Ha _ (tick_alloc s1))).
  fold s2. rewrite (bind_done _ _ _ _ _ (scale_counts_ok (length <$> ls) s2
    ltac:(rewrite sum_list_concat; lia))).
  rewrite (bind_done _ _ _ _ _ (alloc_ok W Ha s2)). fold s3. cbn [negb andb].
  rewrite (bind_done _ _ _ _ _ (assemble_displs_ok 0 (Nat.mul 512 <$> (length <$> ls)) s3
    ltac:(rewrite sum_list_mul, sum_list_concat; lia))).
  rewrite !Nat2Z.id.
  replace (Z.to_nat (Z.of_nat (length l) * 256 * 2)) with (512 * length l)%nat by lia.
  replace (Z.to_nat (Z.of_nat (length (concat ls)) * 256 * 2)) with (512 * length (concat ls))%nat by lia.
  replace (Z.of_nat (length (concat ls)) * 256 * 2) with (512 * Z.of_nat (length (concat ls))) by lia.
  done.
Qed.

(** C31: the wrapper over MPI refines a store of pairs, a global list and a
    local one: publishing appends to the local list; a barrier that all ranks
    enter appends their local lists in the order of the ranks to the global
    one and empties the local one; a name is looked up in the global list, the
    first pair winning, a missing name being a NULL dereference and a value
    without room an overflow; at the end the blocks that each barrier left
    behind, two for each pair published, are all that is not given back. *)
Theorem mpi_refines (W : mpi_env) (s : pm_mpi) (g l : list kv) (k : nat)
    (Halloc : ∀ n, env_alloc W n = true) (Hs : kvs s g l k) :
  (∀ p, kv_ok p → 2 * Z.of_nat (S (length l)) ≤ int_max →
     ∃ s', lcm_pm_publish W p.1 p.2 s = (Done tt, s') ∧ kvs s' g (l ++ [p]) k) ∧
  (∀ ss ls, ready_with ss ls → s ∈ ss → delivers W ss s →
     512 * Z.of_nat (length (concat ls)) ≤ int_max →
     2 * Z.of_nat (S (length g + length (concat ls))) ≤ int_max →
     ∃ s', lcm_pm_barrier W s = (Done tt, s') ∧ kvs s' (g ++ concat ls) [] (k + 2 * length l)) ∧
  (∀ key room, lcm_pm_getname key room s =
     (match first_value key g with
      | Some v => if room <=? strlen v then Fault OutOfBounds else Done v
      | None => Fault NullDeref
      end, s)) ∧
  ∃ s', lcm_pm_finalize s = (Done tt, s') ∧ size (heap s') = k.
Proof.
  split_and!.
  - intros p Hp Hn. destruct (publish_ok W Halloc s g l k p Hs Hp Hn) as (s' & E & K & _). by exists s'.
  - intros ss ls H1 H2 H3 H4 H5. destruct (barrier_ok W ss ls g l k s) as (s' & E & K & _); try done. by exists s'.
  - intros key room. by apply (getname_ok s g l k).
  - destruct (finalize_ok s g l k Hs) as (s' & E & K & _). by exists s'.
Qed.

(** The state of a rank that has published [l]. *)
Definition published (W : mpi_env) (l : list kv) : pm_mpi :=
  ((lcm_pm_initialize W;; publish_all W l) pm_start).2.

Lemma published_ok W l :
  (∀ n, env_alloc W n = true) → Forall kv_ok l → 2 * Z.of_nat (S (length l)) ≤ int_max →
  (lcm_pm_initialize W;; publish_all W l) pm_start = (Done tt, published W l) ∧ kvs (published W l) [] l 0.
Proof.
  intros Ha Hl Hn. destruct (initialize_ok W Ha) as (s & E & K & _).
  destruct (publish_all_ok W Ha s [] [] l 0 K Hl Hn) as (s' & E' & K' & _).
  assert ((lcm_pm_initialize W;; publish_all W l) pm_start = (Done tt, s')) as Eq.
  { by rewrite (bind_done _ _ _ _ _ E). }
  unfold published. by rewrite Eq.
Qed.

(** C30: the exchange that starts a job over MPI: every rank publishes its
    pairs and enters the barrier; then every rank finds what any rank has
    published, and ends with a leak of two blocks for each of its own pairs. *)
Theorem mpi_exchange (Ws : list mpi_env) (ls : list (list kv))
    (Hlen : length Ws = length ls) (Hk : Forall (Forall kv_ok) ls)
    (Hn : 512 * Z.of_nat (length (concat ls)) ≤ int_max)
    (Hd : ∀ r W l, Ws !! r = Some W → ls !! r = Some l →
       delivers W (zip_with published Ws ls) (published W l)) :
  ∀ r W l, Ws !! r = Some W → ls !! r = Some l →
  ∃ s s', (lcm_pm_initialize W;; publish_all W l) pm_start = (Done tt, s) ∧
    lcm_pm_barrier W s = (Done tt, s') ∧
    (∀ key room, lcm_pm_getname key room s' =
       (match first_value key (concat ls) with
        | Some v => if room <=? strlen v then Fault OutOfBounds else Done v
        | None => Fault NullDeref
        end, s')) ∧
    ∃ s'', lcm_pm_finalize s' = (Done tt, s'') ∧ size (heap s'') = (2 * length l)%nat.
Proof.
  assert (∀ r W l, Ws !! r = Some W → ls !! r = Some l →
    (lcm_pm_initialize W;; publish_all W l) pm_start = (Done tt, published W l) ∧
    kvs (published W l) [] l 0) as Hp.
  { intros r W l HW Hl. rewrite Forall_lookup in Hk.
    apply published_ok; [apply (dl_alloc _ _ _ (Hd r W l HW Hl))|by apply (Hk r)|].
    pose proof (length_concat_le ls r l Hl). unfold int_max in *; lia. }
  assert (ready_with (zip_with published Ws ls) ls) as Hr.
  { apply Forall2_same_length_lookup. split; [rewrite length_zip_with; lia|].
    intros i t l Ht Hl. apply lookup_zip_with_Some in Ht as (W & l' & -> & HW & Hl').
    rewrite Hl in Hl'. injection Hl' as <-. exists [], 0%nat. by apply (Hp i). }
  intros r W l HW Hl. destruct (Hp r W l HW Hl) as [E K]. exists (published W l).
  destruct (barrier_ok W (zip_with published Ws ls) ls [] l 0 (published W l) Hr K) as (s' & E' & K' & _).
  { apply list_elem_of_lookup. exists r. apply lookup_zip_with_Some. by exists W, l. }
  { by apply (Hd r). }
  { done. }
  { cbn [length]. unfold int_max in *. lia. }
  exists s'. split; [done|]. split; [done|]. split.
  - intros key room. by rewrite (getname_ok s' _ _ _ key room K').
  - destruct (finalize_ok s' _ _ _ K') as (s'' & E'' & K'' & _). by exists s''.
Qed.

(** C39: a name or a value of 256 characters or more overflows the block it
    is copied into; nothing checks its length. *)
Theorem mpi_publish_overflow (W : mpi_env) (s : pm_mpi) (g l : list kv) (k : nat) (key value : cstr)
    (Halloc : ∀ n, env_alloc W n = true) (Hs : kvs s g l k)
    (Hn : 2 * Z.of_nat (S (length l)) ≤ int_max) (Hk : no_nul key) (Hv : no_nul value)
    (Hlong : STRING_LIMIT ≤ strlen key ∨ STRING_LIMIT ≤ strlen value) :
  (lcm_pm_publish W key value s).1 = Fault OutOfBounds.
Proof.
  destruct Hs as [es Ho].
  destruct (grow_ok W Halloc Local s es (lists l g) k Ho Hn) as (s1 & E1 & _).
  unfold lcm_pm_publish, archive_push. rewrite (bind_done _ _ _ _ _ E1).
  assert (∀ t, no_nul t → read_str (str_mem t) = Done t) as Hr.
  { intros t Ht. by rewrite <-(app_nil_r (str_mem t)), read_str_mem. }
  destruct (decide (strlen key < STRING_LIMIT)) as [Hlt|Hge].
  - destruct (copy_str_ok W Halloc (str_mem key) key s1 (Hr _ Hk) Hlt) as (p1 & s2 & E2 & _).
    rewrite (bind_done _ _ _ _ _ E2).
    destruct (copy_str_long W Halloc (str_mem value) value s2 (Hr _ Hv) ltac:(lia)) as [s3 E3].
    by rewrite (bind_fault _ _ _ _ _ E3).
  - destruct (copy_str_long W Halloc (str_mem key) key s1 (Hr _ Hk) ltac:(lia)) as [s3 E3].
    by rewrite (bind_fault _ _ _ _ _ E3).
Qed.

(** ** Two ranks *)

Definition demo_pairs : list (list kv) :=
  [[(L "rank0", L "card0")]; [(L "rank1", L "card1"); (L "rank0", L "late")]].
Definition demo_alone : mpi_env :=
  MpiEnv (λ _, true) 0 2 1 (λ _ _, []) (λ _ _ _ _ dst, dst).
Definition demo_states : list pm_mpi := published demo_alone <$> demo_pairs.
Definition demo_rank (r : Z) : mpi_env :=
  MpiEnv (λ _, true) r 2 1 (λ _ _, (λ t, a_size (l_archive t)) <$> demo_states)
    (λ _ _, scatter (sent <$> demo_states)).
Definition demo_ranks : list mpi_env := [demo_rank 0; demo_rank 1].

Lemma demo_delivers r W l :
  demo_ranks !! r = Some W → demo_pairs !! r = Some l →
  delivers W (zip_with published demo_ranks demo_pairs) (published W l).
Proof.
  destruct r as [|[|r]]; intros [= <-] [= <-]; constructor; try done.
  all: intros counts displs dst; cbn [demo_rank env_allgatherv].
  all: f_equal; vm_compute; reflexivity.
Qed.

Lemma demo_pairs_ok : Forall (Forall kv_ok) demo_pairs.
Proof. apply (bool_decide_unpack _). vm_compute. exact I. Qed.

Definition demo_one : list kv := [(L "rank1", L "card1"); (L "rank0", L "late")].

Lemma mpi_exchange_witness :
  ∃ s s', (lcm_pm_initialize (demo_rank 1);; publish_all (demo_rank 1) demo_one) pm_start = (Done tt, s) ∧
    lcm_pm_barrier (demo_rank 1) s = (Done tt, s') ∧
    lcm_pm_getname (L "rank0") 255 s' = (Done (L "card0"), s') ∧
    lcm_pm_getname (L "rank2") 255 s' = (Fault NullDeref, s') ∧
    ∃ s'', lcm_pm_finalize s' = (Done tt, s'') ∧ size (heap s'') = 4%nat.
Proof.
  destruct (mpi_exchange demo_ranks demo_pairs eq_refl demo_pairs_ok ltac:(done) demo_delivers 1 (demo_rank 1) demo_one
    eq_refl eq_refl) as (s & s' & E & B & G & F).
  exists s, s'. split; [exact E|]. split; [exact B|]. split; [exact (G _ _)|]. split; [exact (G _ _)|exact F].
Defined.

Lemma demo_kvs : kvs (published demo_alone [(L "rank0", L "card0")]) [] [(L "rank0", L "card0")] 0.
Proof.
  apply published_ok; [done| |done]. apply (bool_decide_unpack _). vm_compute. exact I.
Qed.

Lemma mpi_refines_witness :
  lcm_pm_getname (L "rank0") 255 (published demo_alone [(L "rank0", L "card0")]) =
    (Fault NullDeref, published demo_alone [(L "rank0", L "card0")]) ∧
  ∃ s', lcm_pm_finalize (published demo_alone [(L "rank0", L "card0")]) = (Done tt, s') ∧
    size (heap s') = 0%nat.
Proof.
  destruct (mpi_refines demo_alone _ [] _ 0 (λ _, eq_refl) demo_kvs) as (_ & _ & H1 & H2).
  split; [apply H1|exact H2].
Defined.

Lemma mpi_publish_overflow_witness :
  (lcm_pm_publish demo_alone (replicate 256 "k"%char) (L "card0")
     (published demo_alone [(L "rank0", L "card0")])).1 = Fault OutOfBounds.
Proof.
  apply (mpi_publish_overflow demo_alone _ [] [(L "rank0", L "card0")] 0);
    [done|exact demo_kvs|done|by apply Forall_replicate| |by left].
  apply (bool_decide_unpack _). vm_compute. exact I.
Defined.
