(* ===== verification/PmPmi1.v ===== *)
(** * The process manager over PMI-1 (pmi_wrapper_pmi1.c)

    The wrapper ignores the return codes of the client library; a value that
    the library did not store is then read uninitialised. *)

From S2P Require Import Prelude CLib OS PmiUtil Pmi1.

Local Open Scope Z_scope.

(** The length the wrapper gives for its buffers. *)
Definition NAME_ROOM : Z := 255.

Definition lcm_pm_initialize : M pmi1 () := PMI_Init;; mret tt.

Definition lcm_pm_initialized : M pmi1 Z :=
  '(_, initialized) ← PMI_Initialized; mret initialized.

Definition lcm_pm_get_rank : M pmi1 Z := '(_, rank_me) ← PMI_Get_rank; mret rank_me.

Definition lcm_pm_get_size : M pmi1 Z :=
  '(_, nranks) ← PMI_Get_universe_size; or_fault Uninitialised nranks.

(** The name of the key-value space, into a local array. *)
Definition my_name : M pmi1 cstr :=
  '(_, lcg_name) ← PMI_KVS_Get_my_name NAME_ROOM; or_fault Uninitialised lcg_name.

Definition lcm_pm_publish (key value : cstr) : M pmi1 () :=
  lcg_name ← my_name; PMI_KVS_Put lcg_name key value;; mret tt.

Definition lcm_pm_getname (key : cstr) : M pmi1 (option cstr) :=
  lcg_name ← my_name; '(_, value) ← PMI_KVS_Get lcg_name key NAME_ROOM; mret value.

Definition lcm_pm_barrier : M pmi1 () := PMI_Barrier;; mret tt.

Definition lcm_pm_finalize : M pmi1 () := PMI_Finalize;; mret tt.

(** ** What the calls exchange *)

(** A message that arrives after another exchange. *)
Lemma sends_after s s' req l1 l2 rest :
  exchanged req l1 (format_kvs l2 ++ rest) s s' → Forall kv_sendable l2 →
  (length l2 ≤ KEYVAL_TAB_SIZE)%nat → strlen (format_kvs l2) < PMIU_MAXLINE →
  sends (PMI_fd s') (p_u s') l2 rest.
Proof.
  intros H H1 H2 H3. constructor; [|done..]. rewrite (ex_state _ _ _ _ _ H). apply (ex_ready _ _ _ _ _ H).
Qed.

Lemma exchanged_fields req l rest s s' :
  exchanged req l rest s s' → PMI_initialized s' = PMI_initialized s ∧ PMI_fd s' = PMI_fd s.
Proof. intros H. by rewrite (ex_state _ _ _ _ _ H). Qed.

Definition my_name_request : cstr := L "cmd=get_my_kvsname" ++ eol.

(** The name of the space, asked from the process manager. *)
Lemma my_name_ok s l rest :
  PMI_initialized s ≠ SINGLETON_INIT_BUT_NO_PM → sends (PMI_fd s) (p_u s) l rest →
  ∃ s', exchanged my_name_request l rest s s' ∧
    my_name s =
    (if response_rc (L "my_kvsname") false l =? 0 then Done (take 254 (field "kvsname" l))
     else Fault Uninitialised, s').
Proof.
  intros Hi Hs. destruct (exchange s (L "cmd=get_my_kvsname") (L "my_kvsname") false l rest Hs eq_refl)
    as (s' & E & Hex).
  exists s'. split; [done|]. unfold my_name, PMI_KVS_Get_my_name.
  rewrite bind_assoc, bind_get, decide_False by done.
  rewrite bind_assoc, (bind_done _ _ _ _ _ E).
  unfold response_rc. destruct (_ && _); cbn [Z.eqb PMI_SUCCESS PMI_FAIL]; [|done].
  destruct (getval_buf "kvsname" l NAME_ROOM s' (ex_tab _ _ _ _ _ Hex) eq_refl) as (found & Ev).
  cbv iota. change (PMI_SUCCESS =? PMI_SUCCESS) with true. cbv iota.
  by rewrite bind_assoc, (bind_done _ _ _ _ _ Ev).
Qed.

(** Looking a name up over PMI-1 takes two exchanges, one for the name
    of the key-value space and one for the key in that space; what the caller
    finds in its buffer is the first 254 characters of the value of the second
    answer, and when that answer is an error the buffer is left as it was, the
    caller being told nothing. *)
Theorem pm1_getname (s : pmi1) (key : cstr) (l1 l2 : list keyval) (rest : cstr)
    (Hinit : PMI_initialized s ≠ SINGLETON_INIT_BUT_NO_PM)
    (Hs : sends (PMI_fd s) (p_u s) l1 (format_kvs l2 ++ rest))
    (Hok : response_rc (L "my_kvsname") false l1 = 0)
    (Hl2 : Forall kv_sendable l2) (Hn2 : (length l2 ≤ KEYVAL_TAB_SIZE)%nat)
    (Hf2 : strlen (format_kvs l2) < PMIU_MAXLINE)
    (Hreq : fits (get_request (take 254 (field "kvsname" l1)) key)) :
  ∃ s1 s2, exchanged my_name_request l1 (format_kvs l2 ++ rest) s s1 ∧
    exchanged (get_request (take 254 (field "kvsname" l1)) key ++ eol) l2 rest s1 s2 ∧
    lcm_pm_getname key s =
      (Done (if (response_rc (L "get_result") false l2 =? 0) && (atoi (field "rc" l2) =? 0)
             then Some (take 254 (field "value" l2)) else None), s2).
Proof.
  destruct (my_name_ok s l1 _ Hinit Hs) as (s1 & X1 & E1). rewrite Hok in E1. cbn [Z.eqb] in E1.
  destruct (exchanged_fields _ _ _ _ _ X1) as [I1 _].
  destruct (kvs_get_ok s1 (take 254 (field "kvsname" l1)) key NAME_ROOM l2 rest)
    as (s2 & E2 & X2); [by rewrite I1|by eapply sends_after|done|done|].
  exists s1, s2. split; [done|]. split; [done|].
  unfold lcm_pm_getname. rewrite (bind_done _ _ _ _ _ E1), (bind_done _ _ _ _ _ E2).
  by destruct (_ && _).
Qed.

(** Publishing over PMI-1. *)
Lemma pm1_publish (s : pmi1) (key value : cstr) (l1 l2 : list keyval) (rest : cstr) :
  PMI_initialized s ≠ SINGLETON_INIT_BUT_NO_PM →
  sends (PMI_fd s) (p_u s) l1 (format_kvs l2 ++ rest) → response_rc (L "my_kvsname") false l1 = 0 →
  Forall kv_sendable l2 → (length l2 ≤ KEYVAL_TAB_SIZE)%nat → strlen (format_kvs l2) < PMIU_MAXLINE →
  fits (put_request (take 254 (field "kvsname" l1)) key value) →
  ∃ s1 s2, exchanged my_name_request l1 (format_kvs l2 ++ rest) s s1 ∧
    exchanged (put_request (take 254 (field "kvsname" l1)) key value ++ eol) l2 rest s1 s2 ∧
    lcm_pm_publish key value s = (Done tt, s2).
Proof.
  intros Hinit Hs Hok Hl2 Hn2 Hf2 Hreq.
  destruct (my_name_ok s l1 _ Hinit Hs) as (s1 & X1 & E1). rewrite Hok in E1. cbn [Z.eqb] in E1.
  destruct (exchanged_fields _ _ _ _ _ X1) as [I1 _].
  destruct (kvs_put_ok s1 (take 254 (field "kvsname" l1)) key value l2 rest)
    as (s2 & E2 & X2); [by rewrite I1|by eapply sends_after|done|].
  exists s1, s2. split; [done|]. split; [done|].
  unfold lcm_pm_publish. by rewrite (bind_done _ _ _ _ _ E1), (bind_done _ _ _ _ _ E2).
Qed.

(** The size the wrapper reports over PMI-1 is the universe size of the
    process manager's answer, whatever the size of the job ([PMI_size]), and an
    uninitialised value when the answer is not a [universe_size]. *)
Theorem pm1_get_size (s : pmi1) (l : list keyval) (rest : cstr)
    (Hinit : with_pm (PMI_initialized s) = true)
    (Hs : sends (PMI_fd s) (p_u s) l rest) :
  ∃ s', exchanged (L "cmd=get_universe_size" ++ eol) l rest s s' ∧
    lcm_pm_get_size s =
    (if response_rc (L "universe_size") false l =? 0 then Done (atoi (field "size" l))
     else Fault Uninitialised, s').
Proof.
  destruct (exchange s (L "cmd=get_universe_size") (L "universe_size") false l rest Hs eq_refl)
    as (s' & E & X).
  exists s'. split; [done|]. unfold lcm_pm_get_size, PMI_Get_universe_size.
  rewrite bind_assoc, (bind_done _ _ _ _ _ (no_singleton s ltac:(by destruct (PMI_initialized s)))).
  change (0 <>z 0) with false. cbv iota. rewrite bind_assoc, bind_get, Hinit.
  rewrite bind_assoc, (bind_done _ _ _ _ _ E).
  unfold response_rc. destruct (_ && _); [|done].
  change (PMI_SUCCESS =? PMI_SUCCESS) with true. cbv iota. change (PMI_SUCCESS =? 0) with true. cbv iota.
  by rewrite bind_assoc, (bind_done _ _ _ _ _ (getval_int_tab "size" l s' (ex_tab _ _ _ _ _ X)
    (sends_pairs _ _ _ _ Hs))).
Qed.

Definition demo_name : list keyval := [(L "cmd", L "my_kvsname"); (L "kvsname", L "kvs_0")].
Definition demo_universe : list keyval := [(L "cmd", L "universe_size"); (L "size", L "128")].
Definition demo_lookup : pmi1 :=
  demo_pmi1 NORMAL_INIT_WITH_PM ∅ [InData (format_kvs demo_name); InData (format_kvs demo_get_result)].

Lemma pm1_getname_witness :
  ∃ s1 s2, exchanged my_name_request demo_name (format_kvs demo_get_result ++ []) demo_lookup s1 ∧
    exchanged (get_request (L "kvs_0") (L "addr") ++ eol) demo_get_result [] s1 s2 ∧
    lcm_pm_getname (L "addr") demo_lookup = (Done (Some (L "card0#42")), s2).
Proof.
  apply (pm1_getname demo_lookup (L "addr") demo_name demo_get_result []).
  - done.
  - demo_msg.
  - vm_compute. reflexivity.
  - by apply (bool_decide_unpack _).
  - vm_compute. lia.
  - vm_compute. reflexivity.
  - vm_compute. reflexivity.
Defined.

Lemma pm1_get_size_witness :
  ∃ s', exchanged (L "cmd=get_universe_size" ++ eol) demo_universe []
          (demo_pmi1 NORMAL_INIT_WITH_PM ∅ (arrives demo_universe)) s' ∧
    lcm_pm_get_size (demo_pmi1 NORMAL_INIT_WITH_PM ∅ (arrives demo_universe)) = (Done 128, s').
Proof.
  apply (pm1_get_size (demo_pmi1 NORMAL_INIT_WITH_PM ∅ (arrives demo_universe)) demo_universe []).
  - reflexivity.
  - demo_msg.
Defined.
