(* ===== verification/PmPmi2.v ===== *)
(** * The process manager over PMI-2 (pmi_wrapper_pmi2.c)

    The return codes of the client library are ignored, as in [PmPmi1]. *)

From S2P Require Import Prelude CLib OS PmiUtil Pmi2Wire Pmi2Api.

Local Open Scope Z_scope.

(** The length the wrapper gives for the buffer of a value. *)
Definition VALUE_ROOM : Z := 255.

(** [PMI2_ID_NULL]. *)
Definition PMI2_ID_NULL : Z := -1.

Definition lcm_pm_initialize : M pmi2 () := PMI2_Init;; mret tt.

Definition lcm_pm_initialized : M pmi2 Z := PMI2_Initialized.

Definition lcm_pm_get_rank : M pmi2 Z :=
  '(_, rank_me) ← PMI2_Job_GetRank; mret rank_me.

Definition lcm_pm_get_size : M pmi2 Z :=
  '(_, nranks) ← PMI2_Info_GetSize; mret nranks.

Definition lcm_pm_publish (key value : cstr) : M pmi2 () :=
  PMI2_KVS_Put key value;; mret tt.

Definition lcm_pm_getname (key : cstr) : M pmi2 (option cstr) :=
  '(_, (value, _)) ← PMI2_KVS_Get None PMI2_ID_NULL key VALUE_ROOM; mret value.

Definition lcm_pm_barrier : M pmi2 () := PMI2_KVS_Fence;; mret tt.

Definition lcm_pm_finalize : M pmi2 () := PMI2_Finalize;; mret tt.

(** ** What the calls exchange *)

(** Looking a name up over PMI-2 is one exchange; a value of 255 characters or
    more is cut, and an error leaves the buffer as it was. *)
Lemma pm2_getname s key l rest rc :
  answers s "kvs-get-response" l rest → PMI2_debug s = 0 → pmi2_mutex s = false →
  body_fits (L "kvs-get") (arg_pairs (get_args None PMI2_ID_NULL key)) →
  int_field l "rc" = Found rc →
  ∃ s', exchanged "kvs-get" (get_args None PMI2_ID_NULL key) rest s s' ∧
    lcm_pm_getname key s = (Done (get_result l rc VALUE_ROOM).2.1, s').
Proof.
  intros Ha Hd Hm Hf Hrc.
  destruct (kvs2_get_ok s None PMI2_ID_NULL key VALUE_ROOM l rest rc Ha Hd Hm Hf Hrc eq_refl)
    as (s' & E & X).
  exists s'. split; [done|]. unfold lcm_pm_getname. rewrite (bind_done _ _ _ _ _ E).
  by destruct (get_result l rc VALUE_ROOM) as [? [? ?]].
Qed.

Lemma pm2_publish s key value l rest rc :
  answers s "kvs-put-response" l rest → PMI2_debug s = 0 → pmi2_mutex s = false →
  body_fits (L "kvs-put") (arg_pairs (put_args key value)) → int_field l "rc" = Found rc →
  ∃ s', exchanged "kvs-put" (put_args key value) rest s s' ∧
    lcm_pm_publish key value s = (Done tt, s').
Proof.
  intros Ha Hd Hm Hf Hrc.
  destruct (kvs2_put_ok s key value l rest rc Ha Hd Hm Hf Hrc) as (s' & E & X).
  exists s'. split; [done|]. unfold lcm_pm_publish. by rewrite (bind_done _ _ _ _ _ E).
Qed.
