(* ===== verification/PmWrapper.v ===== *)
(** * The process manager wrapper (pmi_wrapper.h)

    The interface the benchmarks start through, a class of operations, and its
    implementations over PMI-1 ([PmPmi1]), PMI-2 ([PmPmi2]) and MPI
    ([PmMpi]). *)

From S2P Require Import Prelude CLib.
From S2P Require Pmi1 Pmi2Api PmPmi1 PmPmi2 PmMpi.

Local Open Scope Z_scope.

(** The functions of pmi_wrapper.h over the state [S] of the client library.
    [getname] gives the text it leaves in the caller's buffer, if any. *)
Class PmWrapper (S : Type) := {
  pm_initialize : M S ();
  pm_initialized : M S Z;
  pm_get_rank : M S Z;
  pm_get_size : M S Z;
  pm_publish : cstr → cstr → M S ();
  pm_getname : cstr → M S (option cstr);
  pm_barrier : M S ();
  pm_finalize : M S () }.

#[global] Instance pm1_wrapper : PmWrapper Pmi1.pmi1 := {|
  pm_initialize := PmPmi1.lcm_pm_initialize;
  pm_initialized := PmPmi1.lcm_pm_initialized;
  pm_get_rank := PmPmi1.lcm_pm_get_rank;
  pm_get_size := PmPmi1.lcm_pm_get_size;
  pm_publish := PmPmi1.lcm_pm_publish;
  pm_getname := PmPmi1.lcm_pm_getname;
  pm_barrier := PmPmi1.lcm_pm_barrier;
  pm_finalize := PmPmi1.lcm_pm_finalize |}.

#[global] Instance pm2_wrapper : PmWrapper Pmi2Api.pmi2 := {|
  pm_initialize := PmPmi2.lcm_pm_initialize;
  pm_initialized := PmPmi2.lcm_pm_initialized;
  pm_get_rank := PmPmi2.lcm_pm_get_rank;
  pm_get_size := PmPmi2.lcm_pm_get_size;
  pm_publish := PmPmi2.lcm_pm_publish;
  pm_getname := PmPmi2.lcm_pm_getname;
  pm_barrier := PmPmi2.lcm_pm_barrier;
  pm_finalize := PmPmi2.lcm_pm_finalize |}.

(** The caller's buffer has 256 bytes. *)
#[global] Instance mpi_wrapper (W : PmMpi.mpi_env) : PmWrapper PmMpi.pm_mpi := {|
  pm_initialize := PmMpi.lcm_pm_initialize W;
  pm_initialized := PmMpi.lcm_pm_initialized W;
  pm_get_rank := PmMpi.lcm_pm_get_rank W;
  pm_get_size := PmMpi.lcm_pm_get_size W;
  pm_publish := PmMpi.lcm_pm_publish W;
  pm_getname key := t ← PmMpi.lcm_pm_getname key PmMpi.STRING_LIMIT; mret (Some t);
  pm_barrier := PmMpi.lcm_pm_barrier W;
  pm_finalize := PmMpi.lcm_pm_finalize |}.
