(* ===== verification/Report.v ===== *)
(** * What the device tools print

    devinfo.c, asyncwatch.c and device_list.c print what the verbs library
    reports.  This file has their state, the hardware with the text printed so
    far, the conversions of [printf] and the tables of names. *)

From S2P Require Import Prelude CLib OS Gid Verbs.

Local Open Scope Z_scope.

(** ** Printing *)

(** [t_verbose] is the static variable of devinfo.c. *)
Record tool := Tool { t_hw : hw; t_out : cstr; t_verbose : bool }.

Definition set_t_hw (h : hw) (s : tool) : tool := Tool h (t_out s) (t_verbose s).
Definition set_t_out (o : cstr) (s : tool) : tool := Tool (t_hw s) o (t_verbose s).
Definition set_t_verbose (s : tool) : tool := Tool (t_hw s) (t_out s) true.

#[global] Program Instance tool_hw : Lens tool hw := {| lget := t_hw; lset := set_t_hw |}.
Next Obligation. done. Qed.
Next Obligation. by intros []. Qed.
Next Obligation. done. Qed.

(** A call of the library. *)
Definition lib {A} (m : M hw A) : M tool A := zoom m.

Definition printf (t : cstr) : M tool () := modify (λ s, set_t_out (t_out s ++ t) s).

Definition TAB : char := "009"%char.
Definition tabs (n : nat) : cstr := replicate n TAB.

(** A label behind [n] tabs, [k] more tabs, a value and the end of the line. *)
Definition line (n : nat) (label : cstr) (k : nat) (value : cstr) : cstr :=
  tabs n ++ label ++ tabs k ++ value ++ [LF].

(** Conversions: [%d], [%u], [%lu], [%0<w>llx]; [%X] is [upper]. *)
Definition dec (z : Z) : cstr := show_int (wrap_s 32 z).
Definition udec (z : Z) : cstr := show_nat 10 (wrap_u 32 z).
Definition udec64 (z : Z) : cstr := show_nat 10 (wrap_u 64 z).
Definition hex64 (w : nat) (z : Z) : cstr :=
  let s := show_nat 16 (wrap_u 64 z) in replicate (w - length s) "0"%char ++ s.
Definition upper_char (c : char) : char :=
  let n := nat_of_ascii c in
  if (97 <=? n)%nat && (n <=? 122)%nat then ascii_of_nat (n - 32) else c.
Definition upper (s : cstr) : cstr := upper_char <$> s.

(** A name with its number behind it. *)
Definition named (name : cstr) (z : Z) : cstr := name ++ L " (" ++ dec z ++ L ")".

(** ** Sets of flags *)

(** The value of [~(f1 | f2 | ...)] in [w] bits. *)
Definition flags_not (w : Z) (l : list Z) : Z := 2 ^ w - 1 - foldr Z.lor 0 l.

(** The lines for the names of the flags set, in the order of [names], then one
    for the flags [unknown] that are set. *)
Definition flag_line (t : cstr) : cstr := line 5 t 0 [].
Definition known_lines (names : list (Z * cstr)) (flags : Z) : cstr :=
  (filter (λ p, Z.land flags p.1 ≠ 0) names) ≫= λ p, flag_line p.2.
Definition unknown_line (conv : Z → cstr) (unknown flags : Z) : cstr :=
  if Z.land flags unknown =? 0 then []
  else flag_line (L "Unknown flags: 0x" ++ conv (Z.land flags unknown)).

Definition hex_32 (z : Z) : cstr := upper (show_hex 0 z).
Definition hex_64 (z : Z) : cstr := upper (hex64 0 z).

(** ** Names *)

Definition transport_str (transport : Z) : cstr :=
  match transport with
  | 0 => L "InfiniBand"
  | 1 => L "iWARP"
  | 2 => L "usNIC"
  | 3 => L "usNIC UDP"
  | 4 => L "unspecified"
  | _ => L "invalid transport"
  end.

Definition port_state_str (pstate : Z) : cstr :=
  match pstate with
  | 1 => L "PORT_DOWN"
  | 2 => L "PORT_INIT"
  | 3 => L "PORT_ARMED"
  | 4 => L "PORT_ACTIVE"
  | _ => L "invalid state"
  end.

Definition port_phy_state_str (phys_state : Z) : cstr :=
  match phys_state with
  | 1 => L "SLEEP"
  | 2 => L "POLLING"
  | 3 => L "DISABLED"
  | 4 => L "PORT_CONFIGURATION TRAINNING"
  | 5 => L "LINK_UP"
  | 6 => L "LINK_ERROR_RECOVERY"
  | 7 => L "PHY TEST"
  | _ => L "invalid physical state"
  end.

Definition atomic_cap_str (atom_cap : Z) : cstr :=
  match atom_cap with
  | 0 => L "ATOMIC_NONE"
  | 1 => L "ATOMIC_HCA"
  | 2 => L "ATOMIC_GLOB"
  | _ => L "invalid atomic capability"
  end.

Definition mtu_str (max_mtu : Z) : cstr :=
  match max_mtu with
  | 1 => L "256"
  | 2 => L "512"
  | 3 => L "1024"
  | 4 => L "2048"
  | 5 => L "4096"
  | _ => L "invalid MTU"
  end.

Definition width_str (width : Z) : cstr :=
  match width with
  | 1 => L "1"
  | 2 => L "4"
  | 4 => L "8"
  | 8 => L "12"
  | 16 => L "2"
  | _ => L "invalid width"
  end.

Definition speed_str (speed : Z) : cstr :=
  match speed with
  | 1 => L "2.5 Gbps"
  | 2 => L "5.0 Gbps"
  | 4 | 8 => L "10.0 Gbps"
  | 16 => L "14.0 Gbps"
  | 32 => L "25.0 Gbps"
  | 64 => L "50.0 Gbps"
  | _ => L "invalid speed"
  end.

Definition vl_str (vl_num : Z) : cstr :=
  match vl_num with
  | 1 => L "1"
  | 2 => L "2"
  | 3 => L "4"
  | 4 => L "8"
  | 5 => L "15"
  | _ => L "invalid value"
  end.

Definition gid_type_str (type : Z) : cstr :=
  match type with
  | 0 => L "RoCE v1"
  | 1 => L "RoCE v2"
  | _ => L "Invalid gid type"
  end.

Definition link_layer_str (link_layer : Z) : cstr :=
  match link_layer with
  | 0 => L "Unspecified"
  | 1 => L "InfiniBand"
  | 2 => L "Ethernet"
  | _ => L "Unknown"
  end.
