(* ===== verification/Devinfo.v ===== *)
(** * The attributes of the devices (rdma-core/devinfo.c)

    Every function, with the text it prints on the standard output.  What the library reports of a
    device is the parameter [devlib]: the fields of its structures by name, the
    GIDs, and the conversion of a GID to text ([inet_ntop]).  Which calls fail
    is the [world] of [Verbs]. *)

From S2P Require Import Prelude CLib OS Gid Verbs RcPingpong SrqPingpong Report.

Local Open Scope Z_scope.

(** [d_attr dev field] is a field of [struct ibv_device_attr_ex], [d_port dev
    port field] one of [struct ibv_port_attr]; [d_board] is the text read from
    the file board_id. *)
Record devlib := DevLib {
  d_name : Z → cstr;
  d_transport : Z → Z;
  d_fw_ver : Z → cstr;
  d_board : Z → option cstr;
  d_attr : Z → string → Z;
  d_port : Z → Z → string → Z;
  d_gid : Z → Z → Z → list Z;
  d_gid_type : Z → Z → Z → Z;
  d_ntop : list Z → cstr }.

(** ** Capability flags *)

(** The flags of devinfo.c and their names, in the order they are printed. *)
Definition device_cap_flags : list (Z * cstr) :=
  [(2 ^ 0, L "RESIZE_MAX_WR"); (2 ^ 1, L "BAD_PKEY_CNTR"); (2 ^ 2, L "BAD_QKEY_CNTR");
   (2 ^ 3, L "RAW_MULTI"); (2 ^ 4, L "AUTO_PATH_MIG"); (2 ^ 5, L "CHANGE_PHY_PORT");
   (2 ^ 6, L "UD_AV_PORT_ENFORCE"); (2 ^ 7, L "CURR_QP_STATE_MOD"); (2 ^ 8, L "SHUTDOWN_PORT");
   (2 ^ 9, L "INIT_TYPE"); (2 ^ 10, L "PORT_ACTIVE_EVENT"); (2 ^ 11, L "SYS_IMAGE_GUID");
   (2 ^ 12, L "RC_RNR_NAK_GEN"); (2 ^ 13, L "SRQ_RESIZE"); (2 ^ 14, L "N_NOTIFY_CQ");
   (2 ^ 17, L "MEM_WINDOW"); (2 ^ 18, L "UD_IP_CSUM"); (2 ^ 20, L "XRC");
   (2 ^ 21, L "MEM_MGT_EXTENSIONS"); (2 ^ 23, L "MEM_WINDOW_TYPE_2A");
   (2 ^ 24, L "MEM_WINDOW_TYPE_2B"); (2 ^ 25, L "RC_IP_CSUM"); (2 ^ 26, L "RAW_IP_CSUM");
   (2 ^ 29, L "MANAGED_FLOW_STEERING")].

(** [unknown_flags]. *)
Definition device_cap_unknown : Z := flags_not 32 device_cap_flags.*1.

Definition print_device_cap_flags (dev_cap_flags : Z) : M tool () :=
  printf (known_lines device_cap_flags dev_cap_flags);;
  printf (unknown_line hex_32 device_cap_unknown dev_cap_flags).

Definition odp_trans_flags : list (Z * cstr) :=
  [(IBV_ODP_SUPPORT_SEND, L "SUPPORT_SEND"); (IBV_ODP_SUPPORT_RECV, L "SUPPORT_RECV");
   (2 ^ 2, L "SUPPORT_WRITE"); (2 ^ 3, L "SUPPORT_READ"); (2 ^ 4, L "SUPPORT_ATOMIC");
   (IBV_ODP_SUPPORT_SRQ_RECV, L "SUPPORT_SRQ")].
Definition odp_trans_unknown : Z := flags_not 32 odp_trans_flags.*1.

Definition print_odp_trans_caps (trans : Z) : M tool () :=
  if trans =? 0 then printf (flag_line (L "NO SUPPORT"))
  else
    printf (known_lines odp_trans_flags trans);;
    printf (unknown_line hex_32 odp_trans_unknown trans).

Definition odp_general_flags : list (Z * cstr) :=
  [(IBV_ODP_SUPPORT, L "ODP_SUPPORT"); (IBV_ODP_SUPPORT_IMPLICIT, L "ODP_SUPPORT_IMPLICIT")].
Definition odp_general_unknown : Z := flags_not 64 odp_general_flags.*1.

Definition print_odp_caps (attr : string → Z) : M tool () :=
  printf (line 1 (L "general_odp_caps:") 0 []);;
  printf (known_lines odp_general_flags (attr "general_caps"));;
  printf (unknown_line hex_64 odp_general_unknown (attr "general_caps"));;
  printf (line 1 (L "rc_odp_caps:") 0 []);;
  print_odp_trans_caps (attr "rc_odp_caps");;
  printf (line 1 (L "uc_odp_caps:") 0 []);;
  print_odp_trans_caps (attr "uc_odp_caps");;
  printf (line 1 (L "ud_odp_caps:") 0 []);;
  print_odp_trans_caps (attr "ud_odp_caps");;
  printf (line 1 (L "xrc_odp_caps:") 0 []);;
  print_odp_trans_caps (attr "xrc_odp_caps").

Definition cap_ex_flags : list (Z * cstr) :=
  [(2 ^ 34, L "RAW_SCATTER_FCS"); (2 ^ 36, L "PCI_WRITE_END_PADDING")].
Definition cap_ex_unknown : Z := flags_not 64 cap_ex_flags.*1.

Definition print_device_cap_flags_ex (device_cap_flags_ex : Z) : M tool () :=
  let ex_flags := Z.land device_cap_flags_ex 0xffffffff00000000 in
  printf (known_lines cap_ex_flags ex_flags);;
  printf (unknown_line hex_64 cap_ex_unknown ex_flags).

Definition print_tm_caps (attr : string → Z) : M tool () :=
  if attr "max_num_tags" <>z 0 then
    printf (line 1 (L "max_rndv_hdr_size:") 2 (udec (attr "max_rndv_hdr_size")));;
    printf (line 1 (L "max_num_tags:") 3 (udec (attr "max_num_tags")));;
    printf (line 1 (L "max_ops:") 3 (udec (attr "max_ops")));;
    printf (line 1 (L "max_sge:") 3 (udec (attr "tm_max_sge")));;
    printf (line 1 (L "flags:") 0 []);;
    (if Z.land (attr "tm_flags") 1 <>z 0 then printf (flag_line (L "IBV_TM_CAP_RC")) else mret tt)
  else printf (line 1 (L "tag matching not supported") 0 []).

(** The types of queue pairs, as printed by three functions. *)
Definition qpt_flags : list (Z * cstr) :=
  [(2 ^ 8, L "SUPPORT_RAW_PACKET"); (2 ^ 4, L "SUPPORT_UD")].
Definition qpt_unknown : Z := flags_not 32 qpt_flags.*1.

Definition print_supported_qpts (supported_qpts : Z) : M tool () :=
  printf (line 2 (L "supported_qp:") 0 []);;
  printf (known_lines qpt_flags supported_qpts);;
  printf (unknown_line hex_32 qpt_unknown supported_qpts).

Definition print_tso_caps (attr : string → Z) : M tool () :=
  printf (line 1 (L "tso_caps:") 0 []);;
  printf (line 2 (L "max_tso:") 3 (dec (attr "max_tso")));;
  (if attr "max_tso" <>z 0 then print_supported_qpts (attr "tso_supported_qpts") else mret tt).

Definition print_rss_caps (attr : string → Z) : M tool () :=
  printf (line 1 (L "rss_caps:") 0 []);;
  printf (line 2 (L "max_rwq_indirection_tables:") 3 (udec (attr "max_rwq_indirection_tables")));;
  printf (line 2 (L "max_rwq_indirection_table_size:") 3
            (udec (attr "max_rwq_indirection_table_size")));;
  printf (line 2 (L "rx_hash_function:") 4 (L "0x" ++ show_hex 0 (attr "rx_hash_function")));;
  printf (line 2 (L "rx_hash_fields_mask:") 4 (L "0x" ++ hex_64 (attr "rx_hash_fields_mask")));;
  (if attr "rss_supported_qpts" <>z 0 then print_supported_qpts (attr "rss_supported_qpts")
   else mret tt).

Definition print_cq_moderation_caps (attr : string → Z) : M tool () :=
  if (attr "max_cq_count" =? 0) || (attr "max_cq_period" =? 0) then mret tt
  else
    printf (LF :: line 1 (L "cq moderation caps:") 0 []);;
    printf (line 2 (L "max_cq_count:") 1 (udec (attr "max_cq_count")));;
    printf (line 2 (L "max_cq_period:") 1 (udec (attr "max_cq_period") ++ L " us" ++ [LF])).

Definition print_packet_pacing_caps (attr : string → Z) : M tool () :=
  printf (line 1 (L "packet_pacing_caps:") 0 []);;
  printf (line 2 (L "qp_rate_limit_min:") 1 (udec (attr "qp_rate_limit_min") ++ L "kbps"));;
  printf (line 2 (L "qp_rate_limit_max:") 1 (udec (attr "qp_rate_limit_max") ++ L "kbps"));;
  (if attr "qp_rate_limit_max" <>z 0 then print_supported_qpts (attr "pacing_supported_qpts")
   else mret tt).

Definition raw_packet_flags : list (Z * cstr) :=
  [(2 ^ 0, L "C-VLAN stripping offload"); (2 ^ 1, L "Scatter FCS offload");
   (2 ^ 2, L "IP csum offload"); (2 ^ 3, L "Delay drop")].

Definition print_raw_packet_caps (raw_packet_caps : Z) : M tool () :=
  printf (line 1 (L "raw packet caps:") 0 []);;
  printf (known_lines raw_packet_flags raw_packet_caps).

(** ** GIDs *)

(** Only the interface identifier is looked at. *)
Definition null_gid (gid : list Z) : bool := foldr Z.lor 0 (drop 8 gid) =? 0.

(** [%02x%02x:...]. *)
Fixpoint gid_words (gid : list Z) : cstr :=
  match gid with
  | [a; b] => show_hex 2 a ++ show_hex 2 b
  | a :: b :: gid => show_hex 2 a ++ show_hex 2 b ++ L ":" ++ gid_words gid
  | _ => []
  end.

Definition IBV_GID_TYPE_SYSFS_IB_ROCE_V1 : Z := 0.
Definition IBV_GID_TYPE_SYSFS_ROCE_V2 : Z := 1.
Definition DEVINFO_INVALID_GID_TYPE : Z := 2.
Definition IBV_LINK_LAYER_ETHERNET : Z := 2.

(** [GID[%3d]:]. *)
Definition gid_label (i : Z) : cstr :=
  L "GID[" ++ replicate (3 - length (show_int i)) " "%char ++ show_int i ++ L "]:".

Definition print_formated_gid (D : devlib) (gid : list Z) (i type ll : Z) : M tool () :=
  let str := if ll =? IBV_LINK_LAYER_ETHERNET then L ", " ++ gid_type_str type else [] in
  (if type =? IBV_GID_TYPE_SYSFS_IB_ROCE_V1 then printf (line 3 (gid_label i) 2 (gid_words gid ++ str))
   else mret tt);;
  (if type =? IBV_GID_TYPE_SYSFS_ROCE_V2 then printf (line 3 (gid_label i) 2 (d_ntop D gid ++ str))
   else mret tt).

(** The entries of the table from [i] on, [k] being left. *)
Fixpoint port_gids (D : devlib) (dev ctx port ll : Z) (k : nat) (i : Z) : M tool Z :=
  match k with
  | O => mret 0
  | S k =>
      rc ← lib (call [(KContext, ctx)] (QueryGid ctx port i));
      if rc <>z 0 then mret rc
      else
        let gid := d_gid D dev port i in
        rc ← lib (call [(KContext, ctx)] (QueryGidType ctx port i));
        let type := if rc <>z 0 then DEVINFO_INVALID_GID_TYPE else d_gid_type D dev port i in
        (if negb (null_gid gid) then print_formated_gid D gid i type ll else mret tt);;
        port_gids D dev ctx port ll k (i + 1)
  end.

Definition print_all_port_gids (D : devlib) (dev ctx port : Z) : M tool Z :=
  let attr := d_port D dev port in
  port_gids D dev ctx port (attr "link_layer") (Z.to_nat (wrap_s 32 (attr "gid_tbl_len"))) 0.

(** ** One device *)

(** [be64toh]: the bytes of a 64-bit integer in reverse order. *)
Definition be64toh (z : Z) : Z :=
  foldr (λ i acc, Z.lor acc (Z.shiftl (Z.land (Z.shiftr z (8 * i)) 255) (8 * (7 - i)))) 0
    [0; 1; 2; 3; 4; 5; 6; 7].

Definition guid_str (guid : Z) : cstr :=
  let g := be64toh guid in
  let w n := show_hex 4 (Z.land (Z.shiftr g n) 0xffff) in
  w 48 ++ L ":" ++ w 32 ++ L ":" ++ w 16 ++ L ":" ++ w 0.

(** Lines for fields printed with [%d]. *)
Definition print_ints (attr : string → Z) (l : list (cstr * nat * string)) : M tool () :=
  printf (l ≫= λ '(label, k, f), line 1 label k (dec (attr f))).

Definition print_header (D : devlib) (dev : Z) : M tool () :=
  let attr := d_attr D dev in
  printf (L "hca_id:" ++ tabs 1 ++ d_name D dev ++ [LF]);;
  printf (line 1 (L "transport:") 3 (named (transport_str (d_transport D dev)) (d_transport D dev)));;
  (if negb (strlen (d_fw_ver D dev) =? 0) then printf (line 1 (L "fw_ver:") 4 (d_fw_ver D dev))
   else mret tt);;
  printf (line 1 (L "node_guid:") 3 (guid_str (attr "node_guid")));;
  printf (line 1 (L "sys_image_guid:") 3 (guid_str (attr "sys_image_guid")));;
  printf (line 1 (L "vendor_id:") 3 (L "0x" ++ show_hex 4 (attr "vendor_id")));;
  printf (line 1 (L "vendor_part_id:") 3 (dec (attr "vendor_part_id")));;
  printf (line 1 (L "hw_ver:") 4 (L "0x" ++ hex_32 (attr "hw_ver")));;
  (match d_board D dev with Some t => printf (line 1 (L "board_id:") 3 t) | None => mret tt end);;
  printf (line 1 (L "phys_port_cnt:") 3 (dec (attr "phys_port_cnt"))).

Definition print_all_attrs (attr : string → Z) : M tool () :=
  printf (line 1 (L "max_mr_size:") 3 (L "0x" ++ hex64 0 (attr "max_mr_size")));;
  printf (line 1 (L "page_size_cap:") 3 (L "0x" ++ hex64 0 (attr "page_size_cap")));;
  print_ints attr [(L "max_qp:", 4%nat, "max_qp"); (L "max_qp_wr:", 4%nat, "max_qp_wr")];;
  printf (line 1 (L "device_cap_flags:") 2 (L "0x" ++ show_hex 8 (attr "device_cap_flags")));;
  print_device_cap_flags (attr "device_cap_flags");;
  print_ints attr
    [(L "max_sge:", 3%nat, "max_sge"); (L "max_sge_rd:", 3%nat, "max_sge_rd");
     (L "max_cq:", 4%nat, "max_cq"); (L "max_cqe:", 3%nat, "max_cqe");
     (L "max_mr:", 4%nat, "max_mr"); (L "max_pd:", 4%nat, "max_pd");
     (L "max_qp_rd_atom:", 3%nat, "max_qp_rd_atom"); (L "max_ee_rd_atom:", 3%nat, "max_ee_rd_atom");
     (L "max_res_rd_atom:", 2%nat, "max_res_rd_atom");
     (L "max_qp_init_rd_atom:", 2%nat, "max_qp_init_rd_atom");
     (L "max_ee_init_rd_atom:", 2%nat, "max_ee_init_rd_atom")];;
  printf (line 1 (L "atomic_cap:") 3 (named (atomic_cap_str (attr "atomic_cap")) (attr "atomic_cap")));;
  print_ints attr
    [(L "max_ee:", 4%nat, "max_ee"); (L "max_rdd:", 3%nat, "max_rdd"); (L "max_mw:", 4%nat, "max_mw");
     (L "max_raw_ipv6_qp:", 2%nat, "max_raw_ipv6_qp"); (L "max_raw_ethy_qp:", 2%nat, "max_raw_ethy_qp");
     (L "max_mcast_grp:", 3%nat, "max_mcast_grp"); (L "max_mcast_qp_attach:", 2%nat, "max_mcast_qp_attach");
     (L "max_total_mcast_qp_attach:", 1%nat, "max_total_mcast_qp_attach");
     (L "max_ah:", 4%nat, "max_ah"); (L "max_fmr:", 3%nat, "max_fmr")];;
  (if attr "max_fmr" <>z 0 then print_ints attr [(L "max_map_per_fmr:", 2%nat, "max_map_per_fmr")]
   else mret tt);;
  print_ints attr [(L "max_srq:", 3%nat, "max_srq")];;
  (if attr "max_srq" <>z 0 then
     print_ints attr [(L "max_srq_wr:", 3%nat, "max_srq_wr"); (L "max_srq_sge:", 3%nat, "max_srq_sge")]
   else mret tt);;
  print_ints attr
    [(L "max_pkeys:", 3%nat, "max_pkeys"); (L "local_ca_ack_delay:", 2%nat, "local_ca_ack_delay")];;
  print_odp_caps attr;;
  printf (if attr "completion_timestamp_mask" <>z 0
          then line 1 (L "completion timestamp_mask:") 3 (L "0x" ++ hex64 16 (attr "completion_timestamp_mask"))
          else line 1 (L "completion_timestamp_mask not supported") 0 []);;
  printf (if attr "hca_core_clock" <>z 0
          then line 1 (L "hca_core_clock:") 3 (udec64 (attr "hca_core_clock") ++ L "kHZ")
          else line 1 (L "core clock not supported") 0 []);;
  (if attr "raw_packet_caps" <>z 0 then print_raw_packet_caps (attr "raw_packet_caps") else mret tt);;
  printf (line 1 (L "device_cap_flags_ex:") 2 (L "0x" ++ hex_64 (attr "device_cap_flags_ex")));;
  print_device_cap_flags_ex (attr "device_cap_flags_ex");;
  print_tso_caps attr;;
  print_rss_caps attr;;
  printf (line 1 (L "max_wq_type_rq:") 3 (udec (attr "max_wq_type_rq")));;
  print_packet_pacing_caps attr;;
  print_tm_caps attr;;
  print_cq_moderation_caps attr;;
  (if attr "max_dm_size" <>z 0 then
     printf (line 1 (L "maximum available device memory:") 1
               (udec64 (attr "max_dm_size") ++ L "Bytes" ++ [LF]))
   else mret tt).

Definition print_port (attr : string → Z) (port : Z) : M tool () :=
  printf (line 2 (L "port:") 1 (udec port));;
  printf (line 3 (L "state:") 3 (named (port_state_str (attr "state")) (attr "state")));;
  printf (line 3 (L "max_mtu:") 2 (named (mtu_str (attr "max_mtu")) (attr "max_mtu")));;
  printf (line 3 (L "active_mtu:") 2 (named (mtu_str (attr "active_mtu")) (attr "active_mtu")));;
  printf (line 3 (L "sm_lid:") 3 (dec (attr "sm_lid")));;
  printf (line 3 (L "port_lid:") 2 (dec (attr "lid")));;
  printf (line 3 (L "port_lmc:") 2 (L "0x" ++ show_hex 2 (attr "lmc")));;
  printf (line 3 (L "link_layer:") 2 (link_layer_str (attr "link_layer"))).

Definition IBV_TRANSPORT_IB : Z := 0.

Definition print_port_attrs (D : devlib) (dev : Z) (attr : string → Z) : M tool () :=
  printf (line 3 (L "max_msg_sz:") 2 (L "0x" ++ show_hex 0 (attr "max_msg_sz")));;
  printf (line 3 (L "port_cap_flags:") 2 (L "0x" ++ show_hex 8 (attr "port_cap_flags")));;
  printf (line 3 (L "port_cap_flags2:") 1 (L "0x" ++ show_hex 4 (attr "port_cap_flags2")));;
  printf (line 3 (L "max_vl_num:") 2 (named (vl_str (attr "max_vl_num")) (attr "max_vl_num")));;
  printf (line 3 (L "bad_pkey_cntr:") 2 (L "0x" ++ show_hex 0 (attr "bad_pkey_cntr")));;
  printf (line 3 (L "qkey_viol_cntr:") 2 (L "0x" ++ show_hex 0 (attr "qkey_viol_cntr")));;
  printf (line 3 (L "sm_sl:") 3 (dec (attr "sm_sl")));;
  printf (line 3 (L "pkey_tbl_len:") 2 (dec (attr "pkey_tbl_len")));;
  printf (line 3 (L "gid_tbl_len:") 2 (dec (attr "gid_tbl_len")));;
  printf (line 3 (L "subnet_timeout:") 2 (dec (attr "subnet_timeout")));;
  printf (line 3 (L "init_type_reply:") 1 (dec (attr "init_type_reply")));;
  printf (line 3 (L "active_width:") 2
            (width_str (attr "active_width") ++ L "X (" ++ dec (attr "active_width") ++ L ")"));;
  printf (line 3 (L "active_speed:") 2 (named (speed_str (attr "active_speed")) (attr "active_speed")));;
  (if d_transport D dev =? IBV_TRANSPORT_IB then
     printf (line 3 (L "phys_state:") 2 (named (port_phy_state_str (attr "phys_state")) (attr "phys_state")))
   else mret tt).

(** The loop over the ports from [port] on, [k] being left: the return code it
    leaves in [rc].  When the GIDs cannot be read it leaves the loop with the
    code of [ibv_query_port], which is 0. *)
Fixpoint print_ports (D : devlib) (dev ctx ib_port : Z) (k : nat) (port rc : Z) : M tool Z :=
  match k with
  | O => mret rc
  | S k =>
      if (ib_port <>z 0) && (port <>z ib_port) then print_ports D dev ctx ib_port k (port + 1) rc
      else
        rc ← lib (call [(KContext, ctx)] (QueryPort ctx port));
        if rc <>z 0 then mret rc
        else
          print_port (d_port D dev port) port;;
          s ← get;
          e ← (if t_verbose s then
                 print_port_attrs D dev (d_port D dev port);;
                 print_all_port_gids D dev ctx port
               else mret 0);
          if e <>z 0 then mret rc
          else printf [LF];; print_ports D dev ctx ib_port k (port + 1) rc
  end.

(** What is done with an open device: the return code. *)
Definition report_device (D : devlib) (dev ctx ib_port : Z) : M tool Z :=
  e ← lib (call [(KContext, ctx)] (QueryDevice ctx));
  if e <>z 0 then mret 2
  else
    let attr := d_attr D dev in
    let phys_port_cnt := wrap_u 8 (attr "phys_port_cnt") in
    if (ib_port <>z 0) && (phys_port_cnt <? ib_port) then mret 4
    else
      print_header D dev;;
      s ← get;
      (if t_verbose s then print_all_attrs attr else mret tt);;
      print_ports D dev ctx ib_port (Z.to_nat phys_port_cnt) 1 0.

Definition print_hca_cap (D : devlib) (dev ib_port : Z) : M tool Z :=
  ctx ← lib (new (NewContext dev) []);
  if ctx =? 0 then mret 1
  else
    rc ← report_device D dev ctx ib_port;
    e ← lib (del (KContext, ctx));
    mret (if e <>z 0 then 3 else rc).

(** ** [main] *)

Definition usage (argv0 : cstr) : M tool () :=
  printf (L "Usage: " ++ argv0 ++ L "             print the ca attributes" ++ [LF]);;
  printf [LF];;
  printf (line 0 (L "Options:") 0 []);;
  printf (line 0 (L "  -d, --ib-dev=<dev>     use IB device <dev> (default first device found)") 0 []);;
  printf (line 0 (L "  -i, --ib-port=<port>   use port <port> of IB device (default all ports)") 0 []);;
  printf (line 0 (L "  -l, --list             print only the IB devices names") 0 []);;
  printf (line 0 (L "  -v, --verbose          print all the attributes of the IB device(s)") 0 []).

(** The device list: [None] when the library returns NULL. *)
Definition list_devices (D : devlib) (devs : option (list Z)) : M tool Z :=
  match devs with
  | None => mret (-1)
  | Some l =>
      orig_dev_list ← lib (make NewDevList []);
      printf (dec (Z.of_nat (length l)) ++ L " HCA" ++ (if negb (length l =? 1)%nat then L "s" else []) ++
              L " found:" ++ [LF]);;
      printf (l ≫= λ d, line 1 (d_name D d) 0 []);;
      printf [LF];;
      lib (release (KDevList, orig_dev_list));;
      mret 0
  end.

(** The options: [inl] when the program ends with them, else the name of the
    device, a copy in memory, and the port. *)
Fixpoint dev_options (D : devlib) (argv0 : cstr) (devs : option (list Z)) (args : list (char * cstr))
    (ib_devname : option (Z * cstr)) (ib_port : Z) : M tool (Z + (option (Z * cstr) * Z)) :=
  match args with
  | [] => mret (inr (ib_devname, ib_port))
  | (c, optarg) :: args =>
      if c =c "d"%char then
        p ← lib (new NewStr []);
        dev_options D argv0 devs args (if p =? 0 then None else Some (p, optarg)) ib_port
      else if c =c "i"%char then
        let n := wrap_s 32 (strtol0 optarg) in
        if n <=? 0 then usage argv0;; mret (inl 1) else dev_options D argv0 devs args ib_devname n
      else if c =c "v"%char then modify set_t_verbose;; dev_options D argv0 devs args ib_devname ib_port
      else if c =c "l"%char then rc ← list_devices D devs; mret (inl rc)
      else usage argv0;; mret (inl (-1))
  end.

(** [ret |= print_hca_cap (...)] for each of the devices. *)
Fixpoint print_devices (D : devlib) (l : list Z) (ib_port ret : Z) : M tool Z :=
  match l with
  | [] => mret ret
  | d :: l => rc ← print_hca_cap D d (wrap_u 8 ib_port); print_devices D l ib_port (Z.lor ret rc)
  end.

(** The devices that are printed: the one of the name, or all; [None] when
    there is none. *)
Definition chosen (D : devlib) (name : option cstr) (l : list Z) : option (list Z) :=
  match name with
  | Some n => (λ d, [d]) <$> find (λ d, str_eq (d_name D d) n) l
  | None => match l with [] => None | _ => Some l end
  end.

Definition main (D : devlib) (argv0 : cstr) (devs : option (list Z)) (args : list (char * cstr)) : M tool Z :=
  o ← dev_options D argv0 devs args None 0;
  match o with
  | inl rc => mret rc
  | inr (ib_devname, ib_port) =>
      match devs with
      | None => mret (-1)
      | Some l =>
          orig_dev_list ← lib (make NewDevList []);
          match chosen D (snd <$> ib_devname) l with
          | None => mret (-1)
          | Some l =>
              ret ← print_devices D l ib_port 0;
              (match ib_devname with Some (p, _) => lib (release (KStr, p)) | None => mret tt end);;
              lib (release (KDevList, orig_dev_list));;
              mret ret
          end
      end
  end.
