(* ===== verification/DevinfoSpec.v ===== *)
(** * What the device tools promise

    The flags a report names are the flags of the device, and can be read back
    from it; a device that was opened is closed again, whatever fails; the
    errors that are lost and the port numbers that are cut to a byte. *)

From Stdlib Require Import ZifyBool.
From S2P Require Import Prelude CLib OS Gid Verbs Keeps RcPingpong RcLife SrqPingpong Report Devinfo.

Local Open Scope Z_scope.

(** ** Reading a report of flags back *)

(** The lines of a text. *)
Fixpoint lines_of (t acc : cstr) : list cstr :=
  match t with
  | [] => []
  | c :: t => if c =c LF then acc :: lines_of t [] else lines_of t (acc ++ [c])
  end.

(** The number a text starts with, in hexadecimal digits. *)
Definition read_hex (t : cstr) : Z := (scan_digits 16 t 0 0).1.1.

(** The flag, or the flags, of a line. *)
Definition read_line (names : list (Z * cstr)) (t : cstr) : Z :=
  match find (λ p, str_eq (tabs 5 ++ p.2) t) names with
  | Some p => p.1
  | None => read_hex (drop (5 + length (L "Unknown flags: 0x")) t)
  end.

Definition read_flags (names : list (Z * cstr)) (t : cstr) : Z :=
  foldr Z.lor 0 (read_line names <$> lines_of t []).

Definition no_lf (t : cstr) : Prop := Forall (λ c, c ≠ LF) t.
#[global] Instance no_lf_dec t : Decision (no_lf t).
Proof. unfold no_lf. apply _. Defined.

Lemma lines_of_line t r acc : no_lf t → lines_of (t ++ LF :: r) acc = (acc ++ t) :: lines_of r [].
Proof.
  intros H. revert acc. induction H as [|c t Hc _ IH]; intros acc; cbn [app lines_of].
  - by rewrite char_eqb_refl, app_nil_r.
  - rewrite char_eqb_ne by done. by rewrite IH, <-(assoc_L app).
Qed.

Lemma lines_of_flag t r : no_lf t → lines_of (flag_line t ++ r) [] = (tabs 5 ++ t) :: lines_of r [].
Proof.
  intros H. assert (flag_line t ++ r = (tabs 5 ++ t) ++ LF :: r) as ->.
  { unfold flag_line, line. by rewrite <-!(assoc_L app). }
  rewrite lines_of_line; [done|]. apply Forall_app. split; [|done]. by repeat constructor.
Qed.

(** Flags of one bit, with different names on one line. *)
Record flags_ok (w : Z) (names : list (Z * cstr)) (unknown : Z) : Prop := {
  fo_bits : Forall (λ p, ∃ n, 0 ≤ n ∧ p.1 = 2 ^ n) names;
  fo_lines : Forall (λ p, no_lf p.2) names;
  fo_nodup : NoDup names.*2;
  fo_plain : Forall (λ p, ¬ L "Unknown flags: 0x" `prefix_of` p.2) names;
  fo_all : Z.lor (foldr Z.lor 0 names.*1) unknown = Z.ones w;
  fo_width : 0 ≤ w }.

Lemma bit_flag f n : 0 ≤ n → Z.land f (2 ^ n) = if Z.testbit f n then 2 ^ n else 0.
Proof.
  intros Hn. apply Z.bits_inj'. intros m Hm. rewrite Z.land_spec, Z.pow2_bits_eqb by done.
  destruct (Z.eqb_spec n m) as [<-|Hne].
  - destruct (Z.testbit f n); [by rewrite Z.pow2_bits_true|by rewrite Z.bits_0].
  - rewrite andb_false_r. destruct (Z.testbit f n); [by rewrite Z.pow2_bits_false|by rewrite Z.bits_0].
Qed.

Lemma named_flags names f :
  Forall (λ p : Z * cstr, ∃ n, 0 ≤ n ∧ p.1 = 2 ^ n) names →
  foldr Z.lor 0 (filter (λ p, Z.land f p.1 ≠ 0) names).*1 = Z.land f (foldr Z.lor 0 names.*1).
Proof.
  induction 1 as [|[m t] names (n & Hn & Hm) _ IH]; [by rewrite Z.land_0_r|].
  cbn [fst] in Hm. subst m. cbn [fmap list_fmap foldr fst]. rewrite Z.land_lor_distr_r, <-IH.
  pose proof (bit_flag f n Hn) as Hb. destruct (decide (Z.land f (2 ^ n) ≠ 0)) as [H|H].
  - rewrite filter_cons_True by done. cbn [fmap list_fmap foldr fst].
    destruct (Z.testbit f n); [by rewrite Hb|]. done.
  - rewrite filter_cons_False by done. assert (Z.land f (2 ^ n) = 0) as -> by lia. by rewrite Z.lor_0_l.
Qed.

Lemma read_known names sel r :
  sel ⊆ names → NoDup names.*2 → Forall (λ p : Z * cstr, no_lf p.2) sel →
  read_flags names ((sel ≫= λ p, flag_line p.2) ++ r) =
  Z.lor (foldr Z.lor 0 sel.*1) (read_flags names r).
Proof.
  intros Hs Hn Hl. induction Hl as [|p sel Hp _ IH]; [done|].
  cbn [mbind list_bind fmap list_fmap foldr]. rewrite <-(assoc_L app). unfold read_flags at 1.
  rewrite lines_of_flag by done. cbn [fmap list_fmap foldr]. fold (read_flags names ((sel ≫= λ p, flag_line p.2) ++ r)).
  rewrite IH by set_solver. rewrite <-Z.lor_assoc. f_equal.
  assert (p ∈ names) as Hin by set_solver. clear -Hin Hn. unfold read_line.
  induction names as [|q names IH]; [by apply elem_of_nil in Hin|]. cbn [find fmap list_fmap] in *.
  apply NoDup_cons in Hn as [Hn1 Hn2]. apply elem_of_cons in Hin as [<-|Hin].
  - by rewrite str_eq_refl.
  - unfold str_eq. rewrite bool_decide_false; [by apply IH|].
    intros E%(inj (app _)). apply Hn1. rewrite E. by apply list_elem_of_fmap_2.
Qed.

(** *** The line of the unknown flags *)

Lemma digit_val_upper c : digit_val (upper_char c) = digit_val c.
Proof. destruct c as [[] [] [] [] [] [] [] []]; vm_compute; reflexivity. Qed.

Lemma scan_digits_upper base s acc n :
  (scan_digits base (upper s) acc n).1.1 = (scan_digits base s acc n).1.1.
Proof.
  revert acc n. induction s as [|c s IH]; intros acc n; [done|].
  cbn [upper fmap list_fmap scan_digits]. rewrite digit_val_upper.
  destruct (digit_val c) as [d|]; [|done]. by destruct (d <? base).
Qed.

Lemma upper_no_lf s : Forall (λ c, is_digit 16 c = true) s → no_lf (upper s).
Proof.
  intros H. unfold no_lf, upper. apply Forall_fmap. eapply Forall_impl; [exact H|].
  intros c Hc E. unfold compose in E. unfold is_digit in Hc. by rewrite <-digit_val_upper, E in Hc.
Qed.

(** A conversion to hexadecimal digits of [w] bits. *)
Definition hex_conv (w : Z) (conv : Z → cstr) : Prop :=
  ∀ z, 0 ≤ z < 2 ^ w → read_hex (conv z) = z ∧ no_lf (conv z).

Lemma read_hex_nat z : 0 ≤ z → read_hex (show_nat 16 z) = z.
Proof.
  intros Hz. destruct (show_nat_spec 16 ltac:(lia) z Hz) as (k & _ & _ & Hs).
  unfold read_hex. specialize (Hs 0 0%nat []). rewrite app_nil_r in Hs. by rewrite Hs.
Qed.

Lemma hex_32_conv : hex_conv 32 hex_32.
Proof.
  intros z Hz. unfold hex_32. split; [|apply upper_no_lf, show_hex_digits].
  unfold read_hex. rewrite scan_digits_upper. unfold show_hex. rewrite wrap_u_small by lia.
  apply read_hex_nat. lia.
Qed.

Lemma hex_64_conv : hex_conv 64 hex_64.
Proof.
  intros z Hz. unfold hex_64, hex64. rewrite wrap_u_small by lia. cbn [replicate Nat.sub app].
  split; [|apply upper_no_lf, (show_nat_digits 16 ltac:(lia))].
  unfold read_hex. rewrite scan_digits_upper. apply read_hex_nat. lia.
Qed.

(** The report of the flags of one table, and its reading. *)
Lemma read_unknown names w conv unknown f :
  flags_ok w names unknown → hex_conv w conv → 0 ≤ f < 2 ^ w →
  read_flags names (unknown_line conv unknown f) = Z.land f unknown.
Proof.
  intros Hok Hc Hf. unfold unknown_line. destruct (Z.eqb_spec (Z.land f unknown) 0) as [->|Hne]; [done|].
  assert (0 ≤ Z.land f unknown < 2 ^ w) as Hb.
  { split; [apply Z.land_nonneg; lia|]. pose proof (fo_width _ _ _ Hok).
    rewrite <-(Z.mod_small f (2 ^ w)), <-Z.land_ones, <-Z.land_assoc, (Z.land_comm (Z.ones w)), Z.land_assoc,
      Z.land_ones by lia. apply Z.mod_pos_bound. lia. }
  destruct (Hc _ Hb) as [Hr Hl]. set (t := conv (Z.land f unknown)) in *.
  unfold read_flags. rewrite <-(app_nil_r (flag_line _)), lines_of_flag by by apply Forall_app; split; [by repeat constructor|].
  cbn [lines_of fmap list_fmap foldr]. rewrite Z.lor_0_r. unfold read_line.
  destruct (find _ names) as [p|] eqn:E.
  - apply find_some in E as [Hin E]. apply (bool_decide_eq_true_1 _), (inj (app _)) in E.
    pose proof (proj1 (Forall_forall _ _) (fo_plain _ _ _ Hok) p) as Hp. exfalso. apply Hp; [by apply list_elem_of_In|].
    rewrite E. by exists t.
  - exact Hr.
Qed.

Lemma read_report names w conv unknown f :
  flags_ok w names unknown → hex_conv w conv → 0 ≤ f < 2 ^ w →
  read_flags names (known_lines names f ++ unknown_line conv unknown f) = f.
Proof.
  intros Hok Hc Hf. unfold known_lines. rewrite read_known.
  - rewrite (named_flags _ _ (fo_bits _ _ _ Hok)), (read_unknown _ w) by done.
    rewrite <-Z.land_lor_distr_r, (fo_all _ _ _ Hok), Z.land_ones by apply (fo_width _ _ _ Hok).
    by apply Z.mod_small.
  - intros p Hp. by apply list_elem_of_filter in Hp as [_ Hp].
  - apply (fo_nodup _ _ _ Hok).
  - apply Forall_forall. intros p [_ Hp]%list_elem_of_filter.
    by apply (proj1 (Forall_forall _ _) (fo_lines _ _ _ Hok)).
Qed.

(** *** The tables of the program *)

Lemma flags_ok_intro w names unknown :
  bool_decide (Forall (λ p, 0 < p.1 ∧ p.1 = 2 ^ Z.log2 p.1) names) →
  bool_decide (Forall (λ p, no_lf p.2) names) → bool_decide (NoDup names.*2) →
  bool_decide (Forall (λ p, ¬ L "Unknown flags: 0x" `prefix_of` p.2) names) →
  Z.lor (foldr Z.lor 0 names.*1) unknown = Z.ones w → 0 ≤ w → flags_ok w names unknown.
Proof.
  intros H1%bool_decide_unpack H2%bool_decide_unpack H3%bool_decide_unpack H4%bool_decide_unpack H5 H6.
  constructor; [|done..]. eapply Forall_impl; [exact H1|]. intros p [_ Hp].
  exists (Z.log2 p.1). split; [apply Z.log2_nonneg|done].
Qed.

Ltac flags_ok := apply flags_ok_intro; vm_compute; (exact I || done).

Lemma device_cap_ok : flags_ok 32 device_cap_flags device_cap_unknown.
Proof. flags_ok. Qed.
Lemma odp_trans_ok : flags_ok 32 odp_trans_flags odp_trans_unknown.
Proof. flags_ok. Qed.
Lemma odp_general_ok : flags_ok 64 odp_general_flags odp_general_unknown.
Proof. flags_ok. Qed.
Lemma cap_ex_ok : flags_ok 64 cap_ex_flags cap_ex_unknown.
Proof. flags_ok. Qed.
Lemma qpt_ok : flags_ok 32 qpt_flags qpt_unknown.
Proof. flags_ok. Qed.

(** What a piece of the report prints. *)
Definition prints (m : M tool ()) (t : cstr) : Prop :=
  ∀ s, m s = (Done tt, set_t_out (t_out s ++ t) s).

Lemma prints_printf t : prints (printf t) t.
Proof. done. Qed.
Lemma prints_seq m k t u : prints m t → prints k u → prints (m;; k) (t ++ u).
Proof. intros Hm Hk s. erewrite bind_done by apply Hm. rewrite Hk. cbn. by rewrite <-(assoc_L app). Qed.

Lemma print_report names w conv unknown f :
  flags_ok w names unknown → hex_conv w conv → 0 ≤ f < 2 ^ w →
  ∃ t, prints (printf (known_lines names f);; printf (unknown_line conv unknown f)) t ∧
       read_flags names t = f.
Proof.
  intros Hok Hc Hf. eexists. split; [apply prints_seq; apply prints_printf|]. by apply (read_report _ w).
Qed.

(** The flags of a device, and those of a transport that has some, are what the
    report of them says: from the lines printed they can be read back. *)
Theorem device_flags_roundtrip (f : Z) (Hf : 0 ≤ f < 2 ^ 32) :
  (∃ t, prints (print_device_cap_flags f) t ∧ read_flags device_cap_flags t = f) ∧
  (f ≠ 0 → ∃ t, prints (print_odp_trans_caps f) t ∧ read_flags odp_trans_flags t = f) ∧
  (∃ t, prints (print_device_cap_flags_ex (Z.shiftl f 32)) t ∧
        read_flags cap_ex_flags t = Z.shiftl f 32).
Proof.
  split_and!.
  - by apply (print_report _ 32); [apply device_cap_ok|apply hex_32_conv|].
  - intros Hne. unfold print_odp_trans_caps. destruct (Z.eqb_spec f 0); [done|].
    by apply (print_report _ 32); [apply odp_trans_ok|apply hex_32_conv|].
  - assert (Z.land (Z.shiftl f 32) 0xffffffff00000000 = Z.shiftl f 32) as E.
    { change 0xffffffff00000000 with (Z.shiftl (Z.ones 32) 32).
      rewrite <-Z.shiftl_land, Z.land_ones by lia. by rewrite Z.mod_small. }
    unfold print_device_cap_flags_ex. rewrite E.
    apply (print_report _ 64); [apply cap_ex_ok|apply hex_64_conv|].
    rewrite Z.shiftl_mul_pow2 by lia. lia.
Qed.

Lemma device_flags_roundtrip_witness :
  0 ≤ 0x88000005 < 2 ^ 32 ∧
  ∃ t, prints (print_device_cap_flags 0x88000005) t ∧ read_flags device_cap_flags t = 0x88000005.
Proof.
  assert (0 ≤ 0x88000005 < 2 ^ 32) as H by lia. split; [exact H|].
  exact (proj1 (device_flags_roundtrip 0x88000005 H)).
Defined.

(** ** The text of a report *)

(** A piece of the program that only prints. *)
Definition only_prints (m : M tool ()) : Prop := ∃ t, prints m t.

Lemma only_printf t : only_prints (printf t).
Proof. by exists t. Qed.
Lemma only_ret : only_prints (mret tt).
Proof. exists []. intros s. unfold set_t_out. rewrite app_nil_r. by destruct s. Qed.
Lemma only_seq m k : only_prints m → only_prints k → only_prints (m;; k).
Proof. intros [t Ht] [u Hu]. eexists. by apply prints_seq. Qed.

Create HintDb report.
Ltac reports := repeat first
  [ progress cbv zeta | solve [eauto with report nocore] | apply only_seq | apply only_printf | apply only_ret
  | match goal with |- only_prints (match ?x with _ => _ end) => destruct x end ].

Lemma reports_flags f : only_prints (print_device_cap_flags f).
Proof. unfold print_device_cap_flags. reports. Qed.
Lemma reports_trans f : only_prints (print_odp_trans_caps f).
Proof. unfold print_odp_trans_caps. reports. Qed.
Lemma reports_ex f : only_prints (print_device_cap_flags_ex f).
Proof. unfold print_device_cap_flags_ex. reports. Qed.
Lemma reports_qpts f : only_prints (print_supported_qpts f).
Proof. unfold print_supported_qpts. reports. Qed.
Lemma reports_ints attr l : only_prints (print_ints attr l).
Proof. unfold print_ints. reports. Qed.
#[export] Hint Resolve reports_flags reports_trans reports_ex reports_qpts reports_ints : report.

Lemma reports_attrs attr : only_prints (print_all_attrs attr).
Proof.
  unfold print_all_attrs, print_odp_caps, print_raw_packet_caps, print_tso_caps, print_rss_caps,
    print_packet_pacing_caps, print_tm_caps, print_cq_moderation_caps. reports.
Qed.
Lemma reports_header D dev : only_prints (print_header D dev).
Proof. unfold print_header. reports. Qed.
Lemma reports_port attr port : only_prints (print_port attr port).
Proof. unfold print_port. reports. Qed.
Lemma reports_port_attrs D dev attr : only_prints (print_port_attrs D dev attr).
Proof. unfold print_port_attrs. reports. Qed.
Lemma reports_gid D gid i type ll : only_prints (print_formated_gid D gid i type ll).
Proof. unfold print_formated_gid. reports. Qed.
#[export] Hint Resolve reports_attrs reports_header reports_port reports_port_attrs reports_gid : report.

(** ** The device is closed again *)

(** Work on an open device that makes and gives up nothing, and succeeds. *)
Definition idle {A} (ctx : Z) (m : M tool A) : Prop :=
  ∀ s0 s S, hwst s0 (t_hw s) S → (KContext, ctx) ∈ S.*1 → total m s (λ _ s', hwst s0 (t_hw s') S).

Lemma idle_ret {A} ctx (a : A) : idle ctx (mret a).
Proof. intros s0 s S H _. by apply total_ret. Qed.
Lemma idle_get ctx : idle ctx get.
Proof. intros s0 s S H _. by apply total_get. Qed.
Lemma idle_bind {A B} ctx (m : M tool A) (k : A → M tool B) :
  idle ctx m → (∀ a, idle ctx (k a)) → idle ctx (m ≫= k).
Proof.
  intros Hm Hk s0 s S H Hin. apply total_bind. eapply total_mono; [by apply Hm|].
  intros a s' H'. by apply Hk.
Qed.
Lemma idle_prints ctx m : only_prints m → idle ctx m.
Proof. intros [t Ht] s0 s S H _. unfold total. by rewrite Ht. Qed.
Lemma idle_call ctx c : idle ctx (lib (call [(KContext, ctx)] c)).
Proof.
  intros s0 s S H Hin. apply total_zoom. eapply call_total; [exact H|by apply Forall_singleton|]. done.
Qed.

Ltac idle := repeat first
  [ progress cbv zeta | apply idle_prints; solve [reports]
  | apply idle_ret | apply idle_get | apply idle_call
  | apply idle_bind; [|intros ?]
  | match goal with |- idle _ (match ?x with _ => _ end) => destruct x end ].

Lemma port_gids_idle D dev ctx port ll k i : idle ctx (port_gids D dev ctx port ll k i).
Proof. revert i. induction k as [|k IH]; intros i; cbn [port_gids]; idle. apply IH. Qed.

Lemma print_all_port_gids_idle D dev ctx port : idle ctx (print_all_port_gids D dev ctx port).
Proof. apply port_gids_idle. Qed.

Lemma print_ports_idle D dev ctx ib_port k port rc : idle ctx (print_ports D dev ctx ib_port k port rc).
Proof.
  revert port rc. induction k as [|k IH]; intros port rc; cbn [print_ports]; idle;
    apply IH || apply print_all_port_gids_idle.
Qed.

Lemma report_device_idle D dev ctx ib_port : idle ctx (report_device D dev ctx ib_port).
Proof. unfold report_device. idle. apply print_ports_idle. Qed.

Lemma print_hca_cap_ok D dev ib_port s0 s S :
  hwst s0 (t_hw s) S →
  total (print_hca_cap D dev ib_port) s (λ rc s', hwst s0 (t_hw s') S ∨
    rc = 3 ∧ (∃ n, h_del (h_world s0) n ≠ 0) ∧ ∃ ctx, hwst s0 (t_hw s') (((KContext, ctx), []) :: S)).
Proof.
  intros H. unfold print_hca_cap. apply total_bind, total_zoom.
  eapply new_total; [exact H|apply Forall_nil_2| |].
  { intros h _ H'. apply total_ret. by left. }
  intros ctx h Hctx H'. destruct (Z.eqb_spec ctx 0); [lia|]. apply total_bind.
  eapply total_mono; [eapply report_device_idle; [exact H'|by left]|].
  intros rc s2 H2. apply total_bind, total_zoom.
  eapply (del_total _ _ []); [apply Forall_nil_2|exact H2| |].
  - intros h3 H3. apply total_ret. by left.
  - intros r h3 Hr Er H3. apply total_ret. destruct (Z.eqb_spec r 0); [done|].
    right. split; [done|]. split; [|by exists ctx]. exists (h_time (t_hw s2)). by rewrite <-Er in Hr.
Qed.

(** A device that was opened for its report is closed again, whatever call of
    the library fails in between; it stays open only when its destructor
    refuses, and then the code is 3. *)
Theorem devinfo_closes (D : devlib) (dev ib_port : Z) (s : tool)
    (Hs : stacked (Z.of_nat (h_time (t_hw s))) (h_live (t_hw s))) :
  ∃ rc s', print_hca_cap D dev ib_port s = (Done rc, s') ∧
    (h_live (t_hw s') = h_live (t_hw s) ∨
     rc = 3 ∧ (∃ n, h_del (h_world (t_hw s)) n ≠ 0) ∧
     ∃ ctx, h_live (t_hw s') = ((KContext, ctx), []) :: h_live (t_hw s)).
Proof.
  destruct (total_done _ _ _ (print_hca_cap_ok D dev ib_port _ _ [] (hwst_refl _ Hs)))
    as (rc & s' & E & H).
  exists rc, s'. split; [done|]. destruct H as [[_ H _]|(-> & Hn & ctx & [_ H _])]; [by left|].
  right. split_and!; [done..|by exists ctx].
Qed.

(** ** What is asked of the device *)

Definition logs (cs : list hwcall) (h : hw) : hw := foldl (λ h c, logged c h) h cs.

Lemma logs_app cs cs' h : logs (cs ++ cs') h = logs cs' (logs cs h).
Proof. apply foldl_app. Qed.

Lemma logs_same cs h :
  h_world (logs cs h) = h_world h ∧ h_live (logs cs h) = h_live h ∧
  h_calls (logs cs h) = h_calls h ++ cs ∧ h_time (logs cs h) = (h_time h + length cs)%nat.
Proof.
  revert h. induction cs as [|c cs IH]; intros h; cbn [logs foldl].
  { by rewrite app_nil_r, Nat.add_0_r. }
  destruct (IH (logged c h)) as (E1 & E2 & E3 & E4). unfold logs in *. rewrite E1, E2, E3, E4.
  cbn. rewrite <-(assoc_L app). split_and!; [done..|lia].
Qed.

(** On a device that accepts every call, [m] prints something, makes the calls
    [cs] and ends with [r]. *)
Definition asks {A} (v : bool) (ctx : Z) (m : M tool A) (cs : list hwcall) (r : A) : Prop :=
  ∀ s, t_verbose s = v → accepts (t_hw s) → is_live (KContext, ctx) (h_live (t_hw s)) = true →
    ∃ t, m s = (Done r, Tool (logs cs (t_hw s)) (t_out s ++ t) v).

Lemma asks_ret {A} v ctx (a : A) : asks v ctx (mret a) [] a.
Proof. intros s Hv _ _. exists []. rewrite app_nil_r. cbn. subst v. by destruct s. Qed.
Lemma asks_only v ctx m : only_prints m → asks v ctx m [] tt.
Proof. intros [t Ht] s Hv _ _. exists t. rewrite Ht. unfold set_t_out. cbn. by rewrite Hv. Qed.
Lemma asks_call v ctx c : asks v ctx (lib (call [(KContext, ctx)] c)) [c] 0.
Proof.
  intros s Hv Ha Hl. exists []. unfold lib, zoom. rewrite call_accepted; [|done|].
  - cbn. unfold set_t_hw. by rewrite Hv, app_nil_r.
  - cbn. by rewrite Hl.
Qed.
Lemma asks_bind {A B} v ctx (m : M tool A) (k : A → M tool B) cs a cs' b :
  asks v ctx m cs a → asks v ctx (k a) cs' b → asks v ctx (m ≫= k) (cs ++ cs') b.
Proof.
  intros Hm Hk s Hv Ha Hl. destruct (Hm s Hv Ha Hl) as [t Ht].
  destruct (logs_same cs (t_hw s)) as (E1 & E2 & _ & _).
  destruct (Hk (Tool (logs cs (t_hw s)) (t_out s ++ t) v)) as [u Hu].
  - done.
  - unfold accepts. cbn. by rewrite E1.
  - cbn. by rewrite E2.
  - exists (t ++ u). erewrite bind_done by exact Ht. rewrite Hu. cbn. by rewrite logs_app, <-(assoc_L app).
Qed.
Lemma asks_get {B} v ctx (k : tool → M tool B) cs b :
  (∀ s, t_verbose s = v → asks v ctx (k s) cs b) → asks v ctx (get ≫= k) cs b.
Proof. intros H s Hv. by apply (H s Hv s Hv). Qed.

Definition gid_calls (ctx port i n : Z) : list hwcall :=
  seqZ i n ≫= λ i, [QueryGid ctx port i; QueryGidType ctx port i].

Lemma port_gids_asks v D dev ctx port ll k i :
  asks v ctx (port_gids D dev ctx port ll k i) (gid_calls ctx port i (Z.of_nat k)) 0.
Proof.
  revert i. induction k as [|k IH]; intros i; cbn [port_gids]; [apply asks_ret|].
  unfold gid_calls. rewrite seqZ_cons by lia. cbn [mbind list_bind].
  rewrite Nat2Z.inj_succ, Z.pred_succ. rewrite <-Z.add_1_r.
  apply (asks_bind _ _ _ _ [_] 0 (QueryGidType ctx port i :: _)); [apply asks_call|]. cbn [Z.eqb negb].
  change (0 <>z 0) with false. cbv iota zeta.
  apply (asks_bind _ _ _ _ [_] 0); [apply asks_call|]. change (0 <>z 0) with false. cbv iota zeta.
  apply (asks_bind _ _ _ _ [] tt); [|apply IH]. apply asks_only. reports.
Qed.

(** The calls for one port: its attributes, and when the report is verbose
    every entry of its table of GIDs. *)
Definition port_calls (v : bool) (D : devlib) (dev ctx port : Z) : list hwcall :=
  QueryPort ctx port ::
  if v then gid_calls ctx port 0 (Z.max 0 (wrap_s 32 (d_port D dev port "gid_tbl_len"))) else [].

(** The ports a report is for. *)
Definition wanted (ib_port first n : Z) : list Z :=
  filter (λ p, ib_port = 0 ∨ p = ib_port) (seqZ first n).

Lemma print_ports_asks v D dev ctx ib_port k port :
  asks v ctx (print_ports D dev ctx ib_port k port 0)
    (wanted ib_port port (Z.of_nat k) ≫= port_calls v D dev ctx) 0.
Proof.
  revert port. induction k as [|k IH]; intros port; cbn [print_ports]; [apply asks_ret|].
  unfold wanted. rewrite seqZ_cons by lia. rewrite Nat2Z.inj_succ, Z.pred_succ, <-Z.add_1_r.
  destruct (decide (ib_port = 0 ∨ port = ib_port)) as [Hw|Hw].
  - rewrite filter_cons_True by done. cbn [mbind list_bind]. unfold port_calls at 1.
    assert ((ib_port <>z 0) && (port <>z ib_port) = false) as -> by lia.
    rewrite <-app_comm_cons.
    apply (asks_bind _ _ _ _ [_] 0); [apply asks_call|]. change (0 <>z 0) with false. cbv iota.
    apply (asks_bind _ _ _ _ [] tt); [apply asks_only; reports|]. apply asks_get. intros s Hs. rewrite Hs.
    apply (asks_bind _ _ _ _ _ 0).
    + destruct v; [|apply asks_ret]. apply (asks_bind _ _ _ _ [] tt); [apply asks_only; reports|].
      unfold print_all_port_gids. cbv zeta.
      set (n := wrap_s 32 _). assert (Z.max 0 n = Z.of_nat (Z.to_nat n)) as -> by lia. apply port_gids_asks.
    + change (0 <>z 0) with false. cbv iota. apply (asks_bind _ _ _ _ [] tt); [apply asks_only; reports|].
      apply IH.
  - rewrite filter_cons_False by done.
    assert ((ib_port <>z 0) && (port <>z ib_port) = true) as -> by lia. apply IH.
Qed.

Lemma report_device_asks v D dev ctx ib_port :
  0 ≤ ib_port ≤ wrap_u 8 (d_attr D dev "phys_port_cnt") →
  asks v ctx (report_device D dev ctx ib_port)
    (QueryDevice ctx :: (wanted ib_port 1 (wrap_u 8 (d_attr D dev "phys_port_cnt")) ≫=
       port_calls v D dev ctx)) 0.
Proof.
  intros Hp. unfold report_device. apply (asks_bind _ _ _ _ [_] 0); [apply asks_call|].
  change (0 <>z 0) with false. cbv iota zeta. set (n := wrap_u 8 _) in *.
  assert ((ib_port <>z 0) && (n <? ib_port) = false) as -> by lia.
  apply (asks_bind _ _ _ _ [] tt); [apply asks_only; reports|]. apply asks_get. intros s _.
  apply (asks_bind _ _ _ _ [] tt); [apply asks_only; reports|].
  rewrite <-(Z2Nat.id n) at 2 by lia. apply print_ports_asks.
Qed.

(** Neither closing the device nor opening it is a call that is logged. *)
Lemma del_calls o h r h' : del o h = (Done r, h') → h_calls h' = h_calls h.
Proof.
  unfold del, uses, get, modify, mbind, M_bind, mret, M_ret.
  destruct (forallb _ _); [|done]. destruct (in_use _ _); [by intros [= _ <-]|].
  destruct (_ =? 0); by intros [= _ <-].
Qed.

Lemma opened_calls D dev ib_port s :
  stacked (Z.of_nat (h_time (t_hw s))) (h_live (t_hw s)) →
  h_new (h_world (t_hw s)) (h_time (t_hw s)) = true → accepts (t_hw s) →
  (∀ n, h_del (h_world (t_hw s)) n = 0) →
  0 ≤ ib_port ≤ wrap_u 8 (d_attr D dev "phys_port_cnt") → ∀ rc s',
  print_hca_cap D dev ib_port s = (Done rc, s') →
  rc = 0 ∧ h_calls (t_hw s') = h_calls (t_hw s) ++
    QueryDevice (Z.of_nat (S (h_time (t_hw s)))) ::
      (wanted ib_port 1 (wrap_u 8 (d_attr D dev "phys_port_cnt")) ≫=
         port_calls (t_verbose s) D dev (Z.of_nat (S (h_time (t_hw s))))).
Proof.
  intros Hs Hnew Ha Hdel Hp rc s' E. set (ctx := Z.of_nat (S (h_time (t_hw s)))).
  set (s1 := set_t_hw (set_h_live (((KContext, ctx), []) :: h_live (t_hw s)) (tick (t_hw s))) s).
  assert (new (NewContext dev) [] (t_hw s) = (Done ctx, t_hw s1)) as En.
  { unfold new, uses, get, make, mbind, M_bind, mret, M_ret. cbn -[h_new Z.of_nat]. by rewrite Hnew. }
  assert (hwst (t_hw s) (t_hw s1) [((KContext, ctx), [])]) as H1.
  { pose proof (new_hwst _ _ [] (NewContext dev) (hwst_refl _ Hs)) as H. unfold total in H.
    rewrite En in H. destruct H as [[H _]|[_ H]]; [lia|exact H]. }
  assert (lib (new (NewContext dev) []) s = (Done ctx, s1)) as Eo by exact (zoom_done _ s _ _ En).
  unfold print_hca_cap in E. erewrite bind_done in E by exact Eo.
  destruct (Z.eqb_spec ctx 0) as [|_]; [lia|].
  destruct (report_device_asks (t_verbose s) D dev ctx ib_port Hp s1) as [t Et]; [done|done| |].
  { unfold is_live. apply bool_decide_eq_true. by left. }
  erewrite bind_done in E by exact Et.
  pose proof (report_device_idle D dev ctx ib_port _ _ _ H1 ltac:(by left)) as H2.
  unfold total in H2. rewrite Et in H2. cbn [t_hw] in H2.
  apply bind_done_inv in E as (e & s3 & E3 & [= <- <-]).
  unfold lib, zoom in E3. destruct (del _ _) as [r h] eqn:Ed. injection E3 as -> <-.
  cbn [t_hw set_t_hw tool_hw lset lget] in *.
  set (h2 := logs _ _) in Ed, H2. assert (total (del (KContext, ctx)) h2 (λ r _, r = 0)) as H3.
  { eapply (del_total _ _ [] _ _ []); [apply Forall_nil_2|exact H2|done|].
    intros r h' Hr Er. by rewrite Hdel in Er. }
  unfold total in H3. rewrite Ed in H3. subst e. split; [done|].
  rewrite (del_calls _ _ _ _ Ed). apply (logs_same _ (t_hw s1)).
Qed.

(** C35: A device that accepts every call is asked for its attributes, then for each
    port of the report, in the order of their numbers, for the attributes of
    the port and (verbose) for all its GIDs; the code is 0 and the device is
    closed. *)
Theorem devinfo_asks (D : devlib) (dev ib_port : Z) (s : tool)
    (Hs : stacked (Z.of_nat (h_time (t_hw s))) (h_live (t_hw s)))
    (Ha : accepts (t_hw s)) (Hnew : h_new (h_world (t_hw s)) (h_time (t_hw s)) = true)
    (Hdel : ∀ n, h_del (h_world (t_hw s)) n = 0)
    (Hp : 0 ≤ ib_port ≤ wrap_u 8 (d_attr D dev "phys_port_cnt")) :
  let ctx := Z.of_nat (S (h_time (t_hw s))) in
  ∃ s', print_hca_cap D dev ib_port s = (Done 0, s') ∧
    h_live (t_hw s') = h_live (t_hw s) ∧
    h_calls (t_hw s') = h_calls (t_hw s) ++ QueryDevice ctx ::
      (wanted ib_port 1 (wrap_u 8 (d_attr D dev "phys_port_cnt")) ≫=
         port_calls (t_verbose s) D dev ctx).
Proof.
  intros ctx. destruct (total_done _ _ _ (print_hca_cap_ok D dev ib_port _ _ [] (hwst_refl _ Hs)))
    as (rc & s' & E & H).
  assert (h_live (t_hw s') = h_live (t_hw s)) as Hl.
  { destruct H as [[_ H _]|(_ & [n Hn] & _)]; [exact H|by rewrite Hdel in Hn]. }
  clear H. destruct (opened_calls D dev ib_port s Hs Hnew Ha Hdel Hp rc s' E) as [-> Hc]. by exists s'.
Qed.

(** A device with two ports of two GIDs each. *)
Definition demo_devlib : devlib :=
  DevLib (λ d, L "mlx5_" ++ show_int d) (λ _, 0) (λ _, L "1.2.3") (λ _, None)
    (λ _ f, if String.eqb f "phys_port_cnt" then 2 else 1)
    (λ _ _ f, if String.eqb f "gid_tbl_len" then 2 else 1)
    (λ _ _ i, [254; 128; 0; 0; 0; 0; 0; 0; 0; 0; 0; 0; 0; 0; 0; i]) (λ _ _ i, i) (λ _, L "::1").
Definition demo_tool : tool :=
  Tool (Hw (World (λ _, true) (λ _, 0) (λ _, 0) demo_device 0 []) demo_os 0 [] [] [] [] []) [] true.

Lemma devinfo_asks_witness :
  ∃ s', print_hca_cap demo_devlib 0 0 demo_tool = (Done 0, s') ∧ h_live (t_hw s') = [] ∧
    h_calls (t_hw s') =
      [QueryDevice 1; QueryPort 1 1; QueryGid 1 1 0; QueryGidType 1 1 0; QueryGid 1 1 1; QueryGidType 1 1 1;
       QueryPort 1 2; QueryGid 1 2 0; QueryGidType 1 2 0; QueryGid 1 2 1; QueryGidType 1 2 1].
Proof.
  apply (devinfo_asks demo_devlib 0 0 demo_tool);
    [exact I|intros n; reflexivity|reflexivity|intros n; reflexivity|].
  change (wrap_u 8 (d_attr demo_devlib 0 "phys_port_cnt")) with 2. lia.
Defined.

Lemma devinfo_closes_witness :
  ∃ rc s', print_hca_cap demo_devlib 0 0 demo_tool = (Done rc, s') ∧
    (h_live (t_hw s') = h_live (t_hw demo_tool) ∨
     rc = 3 ∧ (∃ n, h_del (h_world (t_hw demo_tool)) n ≠ 0) ∧
     ∃ ctx, h_live (t_hw s') = ((KContext, ctx), []) :: h_live (t_hw demo_tool)).
Proof. apply (devinfo_closes demo_devlib 0 0 demo_tool). exact I. Defined.

(** ** An error that is lost *)

Lemma call_answer os c s :
  forallb (λ o, is_live o (h_live s)) os = true →
  let r := h_int (h_world s) (h_time s) in
  call os c s = (Done r, if r =? 0 then logged c s else tick s).
Proof.
  intros Ho. unfold call. unfold uses at 1. unfold mbind, M_bind. rewrite Ho.
  unfold get, modify. cbn -[h_int]. by destruct (_ =? 0).
Qed.

(** When the entry of a port's table of GIDs cannot be read, a verbose report
    stops after that port and its code is 0: the code is the one left by the
    query of the port. *)
Theorem devinfo_gid_error_lost (D : devlib) (dev ctx port rc : Z) (k : nat) (s : tool)
    (Hv : t_verbose s = true) (Hl : is_live (KContext, ctx) (h_live (t_hw s)) = true)
    (Hport : h_int (h_world (t_hw s)) (h_time (t_hw s)) = 0)
    (Hgid : h_int (h_world (t_hw s)) (S (h_time (t_hw s))) ≠ 0)
    (Hlen : 0 < wrap_s 32 (d_port D dev port "gid_tbl_len")) :
  ∃ s', print_ports D dev ctx 0 (S k) port rc s = (Done 0, s') ∧
    h_calls (t_hw s') = h_calls (t_hw s) ++ [QueryPort ctx port].
Proof.
  cbn [print_ports]. cbn [Z.eqb negb andb].
  assert (∀ h, h_live h = h_live (t_hw s) → forallb (λ o, is_live o (h_live h)) [(KContext, ctx)] = true)
    as Hlive by (intros h ->; cbn; by rewrite Hl).
  pose proof (call_answer _ (QueryPort ctx port) _ (Hlive (t_hw s) eq_refl)) as E1.
  cbv zeta in E1. rewrite Hport in E1. erewrite bind_done by exact (zoom_done _ s _ _ E1).
  change (0 <>z 0) with false. cbv iota. change (0 =? 0) with true. cbv iota.
  destruct (reports_port (d_port D dev port) port) as [t Ht]. erewrite bind_done by apply Ht.
  erewrite bind_done by done. cbn [t_verbose set_t_out lset tool_hw set_t_hw]. rewrite Hv.
  destruct (reports_port_attrs D dev (d_port D dev port)) as [u Hu].
  set (s1 := Tool (logged (QueryPort ctx port) (t_hw s)) ((t_out s ++ t) ++ u) (t_verbose s)).
  assert (h_int (h_world (t_hw s)) (S (h_time (t_hw s))) =? 0 = false) as Ez by lia.
  assert (print_all_port_gids D dev ctx port s1 = (Done (h_int (h_world (t_hw s)) (S (h_time (t_hw s)))),
            set_t_hw (tick (logged (QueryPort ctx port) (t_hw s))) s1)) as Eg.
  { unfold print_all_port_gids. cbv zeta. destruct (Z.to_nat _) as [|n] eqn:En; [lia|].
    cbn [port_gids].
    pose proof (call_answer _ (QueryGid ctx port 0) _ (Hlive (t_hw s1) eq_refl)) as E2. cbv zeta in E2.
    change (h_int (h_world (t_hw s1)) (h_time (t_hw s1)))
      with (h_int (h_world (t_hw s)) (S (h_time (t_hw s)))) in E2.
    rewrite Ez in E2.
    erewrite bind_done by exact (zoom_done _ s1 _ _ E2).
    by rewrite Ez. }
  erewrite bind_done; [|erewrite bind_done by apply Hu; exact Eg]. cbv beta.
  rewrite Ez.
  eexists. split; [reflexivity|]. done.
Qed.

Definition demo_broken : tool :=
  Tool (Hw (World (λ _, true) (λ _, 0) (λ n, if (n =? 1)%nat then 22 else 0) demo_device 0 []) demo_os 0
          [((KContext, 7), [])] [] [] [] []) [] true.

Lemma devinfo_gid_error_lost_witness :
  ∃ s', print_ports demo_devlib 0 7 0 2 1 0 demo_broken = (Done 0, s') ∧
    h_calls (t_hw s') = [QueryPort 7 1].
Proof.
  apply (devinfo_gid_error_lost demo_devlib 0 7 1 0 1 demo_broken); vm_compute; congruence.
Defined.

(** ** The port number *)

Lemma print_devices_port D l p q ret s :
  wrap_u 8 p = wrap_u 8 q → print_devices D l p ret s = print_devices D l q ret s.
Proof.
  intros E. revert ret s. induction l as [|d l IH]; intros ret s; [done|]. cbn [print_devices].
  rewrite E. apply bind_ext. intros rc s'. apply IH.
Qed.

(** The port of the command line is cut to a byte: a multiple of 256 is taken,
    and gives the report of all the ports. *)
Theorem devinfo_port_wraps (D : devlib) (argv0 t : cstr) (l : list Z) (s : tool)
    (Hpos : 0 < wrap_s 32 (strtol0 t)) (Hbyte : wrap_s 32 (strtol0 t) mod 256 = 0) :
  main D argv0 (Some l) [("i"%char, t)] s = main D argv0 (Some l) [] s.
Proof.
  unfold main. cbn [dev_options].
  change ("i"%char =c "d"%char) with false. change ("i"%char =c "i"%char) with true. cbv iota zeta.
  set (n := wrap_s 32 (strtol0 t)) in *. assert (n <=? 0 = false) as -> by lia.
  assert (wrap_u 8 n = wrap_u 8 0) as E by done.
  rewrite !bind_ret. cbv iota. apply bind_ext. intros p s1. cbn [fmap option_fmap option_map].
  destruct (chosen D None l) as [l'|]; [|done].
  apply bind_ext_eq; [by apply print_devices_port|done].
Qed.

Lemma devinfo_port_wraps_witness :
  main demo_devlib (L "devinfo") (Some [0]) [("i"%char, L "256")] demo_tool =
  main demo_devlib (L "devinfo") (Some [0]) [] demo_tool.
Proof. apply (devinfo_port_wraps demo_devlib _ (L "256")); vm_compute; reflexivity. Defined.

(** ** A run of the program *)

(** The objects of [main]: the name, when there is one. *)
Definition name_objs (ib_devname : option (Z * cstr)) : list (obj * list obj) :=
  match ib_devname with Some (p, _) => [((KStr, p), [])] | None => [] end.

(** An option that does not end the program, and names a device there is. *)
Definition fine_option (D : devlib) (l : list Z) (o : char * cstr) : bool :=
  if o.1 =c "d"%char then existsb (λ d, str_eq (d_name D d) o.2) l
  else if o.1 =c "i"%char then 0 <? wrap_s 32 (strtol0 o.2)
  else o.1 =c "v"%char.

Definition is_d (o : char * cstr) : Prop := o.1 = "d"%char.
#[global] Instance is_d_dec o : Decision (is_d o).
Proof. unfold is_d. apply _. Defined.

Lemma find_existsb {A} (f : A → bool) l : existsb f l = true → find f l ≠ None.
Proof. induction l as [|x l IH]; cbn; [done|]. destruct (f x); [done|exact IH]. Qed.

Section main.
Context (D : devlib) (argv0 : cstr) (l : list Z) (s0 : hw).
Context (Hl : l ≠ []) (Hdel : ∀ n, h_del (h_world s0) n = 0).

Definition name_fine (nm : option (Z * cstr)) : Prop := chosen D (snd <$> nm) l ≠ None.

Lemma dev_options_ok args nm port s :
  forallb (fine_option D l) args = true →
  (length (filter is_d args) + length (name_objs nm) ≤ 1)%nat →
  name_fine nm → hwst s0 (t_hw s) (name_objs nm) →
  total (dev_options D argv0 (Some l) args nm port) s (λ r s', ∃ nm' port',
    r = inr (nm', port') ∧ name_fine nm' ∧ hwst s0 (t_hw s') (name_objs nm')).
Proof using Hl.
  revert nm port s. induction args as [|[c t] args IH]; intros nm port s Hf Hd Hn H; cbn [dev_options].
  { apply total_ret. by eauto. }
  cbn [forallb] in Hf. apply andb_true_iff in Hf as [Hc Hf]. unfold fine_option in Hc. cbn [fst snd] in Hc.
  rewrite filter_cons in Hd. unfold is_d at 1 in Hd. cbn [fst] in Hd.
  destruct (Ascii.eqb_spec c "d"%char) as [->|Hcd].
  - rewrite decide_True in Hd by done. cbn [length] in Hd.
    destruct nm as [[q u]|]; [cbn in Hd; lia|]. cbn [name_objs length] in *.
    apply total_bind, total_zoom.
    eapply new_total; [exact H|apply Forall_nil_2| |].
    + intros h _ H'. cbn [Z.eqb]. apply IH; [done|cbn; lia|done|exact H'].
    + intros p h Hp H'. destruct (Z.eqb_spec p 0); [lia|]. apply IH; [done|cbn; lia| |exact H'].
      unfold name_fine. cbn. intros E%fmap_None. by apply find_existsb in Hc.
  - rewrite decide_False in Hd by done. destruct (Ascii.eqb_spec c "i"%char) as [->|Hci].
    + cbv zeta. set (n := wrap_s 32 (strtol0 t)) in *. assert (n <=? 0 = false) as -> by lia. by apply IH.
    + rewrite Hc. by apply total_bind, total_modify, IH.
Qed.

Lemma print_devices_ok l' port ret s S :
  hwst s0 (t_hw s) S → total (print_devices D l' port ret) s (λ _ s', hwst s0 (t_hw s') S).
Proof using Hdel.
  revert ret s. induction l' as [|d l' IH]; intros ret s H; cbn [print_devices]; [by apply total_ret|].
  apply total_bind. eapply total_mono; [by apply print_hca_cap_ok|].
  intros rc s' [H'|(_ & [n Hn] & _)]; [by apply IH|by rewrite Hdel in Hn].
Qed.
End main.

(** A run with options that name a device there is, the name at most once, gives
    back all it has made, when no destructor of the library refuses. *)
Theorem devinfo_gives_back (D : devlib) (argv0 : cstr) (l : list Z) (args : list (char * cstr)) (s : tool)
    (Hs : stacked (Z.of_nat (h_time (t_hw s))) (h_live (t_hw s))) (Hl : l ≠ [])
    (Hdel : ∀ n, h_del (h_world (t_hw s)) n = 0)
    (Hfine : forallb (fine_option D l) args = true) (Hone : (length (filter is_d args) ≤ 1)%nat) :
  ∃ rc s', main D argv0 (Some l) args s = (Done rc, s') ∧ h_live (t_hw s') = h_live (t_hw s).
Proof.
  edestruct (total_done (main D argv0 (Some l) args) s (λ _ s', hwst (t_hw s) (t_hw s') []))
    as (rc & s' & E & [_ H _]); [|by exists rc, s'].
  unfold main. apply total_bind. eapply total_mono.
  { apply (dev_options_ok D argv0 l (t_hw s)); [done..|cbn; lia| |by apply hwst_refl].
    unfold name_fine. cbn. by destruct l. }
  intros r s1 (nm & port & -> & Hn & H1). apply total_bind, total_zoom.
  eapply make_total; [exact H1|apply Forall_nil_2|]. intros q h2 Hq H2.
  unfold name_fine in Hn. destruct (chosen D (snd <$> nm) l) as [l'|]; [|done].
  apply total_bind. eapply total_mono; [apply (print_devices_ok D (t_hw s)); [done|exact H2]|].
  intros ret s3 H3. apply total_bind. destruct nm as [[p t]|].
  - apply total_zoom. eapply (release_total _ _ [((KDevList, q), [])]); [apply Forall_singleton, not_elem_of_nil|exact H3|].
    intros h4 H4. apply total_bind, total_zoom.
    eapply (release_total _ _ []); [apply Forall_nil_2|exact H4|]. intros h5 H5. by apply total_ret.
  - apply total_ret, total_bind, total_zoom.
    eapply (release_total _ _ []); [apply Forall_nil_2|exact H3|]. intros h5 H5. by apply total_ret.
Qed.

Lemma devinfo_gives_back_witness :
  ∃ rc s', main demo_devlib (L "devinfo") (Some [0; 1]) [("v"%char, []); ("d"%char, L "mlx5_1")] demo_tool =
    (Done rc, s') ∧ h_live (t_hw s') = [].
Proof.
  apply (devinfo_gives_back demo_devlib (L "devinfo") [0; 1] [("v"%char, []); ("d"%char, L "mlx5_1")] demo_tool);
    [exact I|done|intros n; reflexivity|vm_compute; reflexivity|vm_compute; lia].
Defined.
