(* ===== verification/Mlog.v ===== *)
(** * The logger (modules/log/mlog.c)

    The level of the log, which [MLOG_Init] reads from the environment, the
    filter of [MLOG_Log_] and the failed assertion of [MLOG_Assert_].  Both
    build their line in a buffer of 1024 bytes, in two pieces.  A message is
    given as the text [vsnprintf] makes of its format and arguments. *)

From S2P Require Import Prelude CLib OS.

Local Open Scope Z_scope.

Definition MLOG_LOG_NONE : Z := 0.
Definition MLOG_LOG_WARN : Z := 1.
Definition MLOG_LOG_TRACE : Z := 2.
Definition MLOG_LOG_INFO : Z := 3.
Definition MLOG_LOG_DEBUG : Z := 4.
Definition MLOG_LOG_MAX : Z := 5.

(** The static variable, the text on the standard error, and the environment. *)
Record mlog := Mlog { MLOG_LOG_LEVEL : Z; ml_err : cstr; ml_os : os }.

Definition set_MLOG_LOG_LEVEL (l : Z) (s : mlog) : mlog := Mlog l (ml_err s) (ml_os s).
Definition set_ml_err (t : cstr) (s : mlog) : mlog := Mlog (MLOG_LOG_LEVEL s) t (ml_os s).

(** The initial value of the static variable. *)
Definition mlog_start (o : os) : mlog := Mlog MLOG_LOG_WARN [] o.

(** [log_levels]: the entry of [MLOG_LOG_MAX] is NULL, that of [MLOG_LOG_NONE]
    is not initialised by name and so NULL too. *)
Definition log_levels (l : Z) : option cstr :=
  if l =? MLOG_LOG_WARN then Some (L "warn")
  else if l =? MLOG_LOG_TRACE then Some (L "trace")
  else if l =? MLOG_LOG_INFO then Some (L "info")
  else if l =? MLOG_LOG_DEBUG then Some (L "debug")
  else None.

(** Where a macro was used: [__FILE__], [__func__], [__LINE__]. *)
Record site := Site { at_file : cstr; at_func : cstr; at_line : Z }.

Definition BUF_SIZE : Z := 1024.

(** [size = snprintf (buf, sizeof (buf), ...prefix...)], then [vsnprintf (buf +
    size, sizeof (buf) - size, ...)], then the line goes to the standard error.
    With a prefix longer than the buffer [size] is its full length, the
    difference wraps to a huge [size_t] and the message is written behind the
    buffer. *)
Definition put_line (prefix msg : cstr) : M mlog () :=
  if BUF_SIZE <? strlen prefix then fault_ OutOfBounds
  else modify (λ s, set_ml_err (ml_err s ++ take (Z.to_nat (BUF_SIZE - 1)) (prefix ++ msg)) s).

(** [%d:%s:%s:%d<%s>] and a blank. *)
Definition site_prefix (pid : Z) (w : site) (what : cstr) : cstr :=
  show_int pid ++ L ":" ++ at_file w ++ L ":" ++ at_func w ++ L ":" ++ show_int (at_line w) ++
  L "<" ++ what ++ L "> ".

(** The status of a process that [abort] ended, as a shell shows it. *)
Definition SIGABRT_STATUS : Z := 134.

Definition MLOG_Assert_ (expr_str : cstr) (expr : bool) (w : site) (msg : cstr) : M mlog () :=
  if expr then mret tt
  else
    s ← get;
    put_line (site_prefix (n_pid (os_net (ml_os s))) w (L "Assert failed: " ++ expr_str)) msg;;
    exit_ SIGABRT_STATUS.

(** The assertion inside [MLOG_Log_] (its line in the file). *)
Definition log_assert_site : site := Site (L "mlog.c") (L "MLOG_Log_") 63.

Definition MLOG_Log_ (log_level : Z) (w : site) (msg : cstr) : M mlog () :=
  MLOG_Assert_ (L "log_level != MLOG_LOG_NONE") (log_level <>z MLOG_LOG_NONE) log_assert_site
    (L "You should not use MLOG_LOG_NONE!" ++ [LF]);;
  s ← get;
  if log_level <=? MLOG_LOG_LEVEL s then
    name ← or_fault NullDeref (log_levels log_level);
    put_line (site_prefix (n_pid (os_net (ml_os s))) w name) msg
  else mret tt.

(** The message of [MLOG_Init], and where it is logged. *)
Definition unknown_level (p : cstr) : cstr :=
  L "unknown env MLOG_LOG_LEVEL (" ++ p ++
  L " against none|warn|trace|info|debug|max). use the default MLOG_LOG_WARN." ++ [LF].
Definition init_site : site := Site (L "mlog.c") (L "MLOG_Init") 35.

Definition MLOG_Init : M mlog Z :=
  p ← gets (λ s, os_env (ml_os s) !! "MLOG_LOG_LEVEL"%string);
  (match p with
   | None => mret tt
   | Some p =>
       if str_eq p (L "none") || str_eq p (L "NONE") then modify (set_MLOG_LOG_LEVEL MLOG_LOG_NONE)
       else if str_eq p (L "warn") || str_eq p (L "WARN") then modify (set_MLOG_LOG_LEVEL MLOG_LOG_WARN)
       else if str_eq p (L "trace") || str_eq p (L "TRACE") then modify (set_MLOG_LOG_LEVEL MLOG_LOG_TRACE)
       else if str_eq p (L "info") || str_eq p (L "INFO") then modify (set_MLOG_LOG_LEVEL MLOG_LOG_INFO)
       else if str_eq p (L "debug") || str_eq p (L "DEBUG") then modify (set_MLOG_LOG_LEVEL MLOG_LOG_DEBUG)
       else if str_eq p (L "max") || str_eq p (L "MAX") then modify (set_MLOG_LOG_LEVEL MLOG_LOG_MAX)
       else MLOG_Log_ MLOG_LOG_WARN init_site (unknown_level p)
   end);;
  gets MLOG_LOG_LEVEL.

(** ** What is logged *)

Lemma put_line_ok prefix msg s :
  strlen prefix ≤ BUF_SIZE →
  put_line prefix msg s = (Done tt, set_ml_err (ml_err s ++ take 1023 (prefix ++ msg)) s).
Proof. intros H. unfold put_line. destruct (Z.ltb_spec BUF_SIZE (strlen prefix)); [lia|done]. Qed.

Lemma put_line_over prefix msg s : BUF_SIZE < strlen prefix → put_line prefix msg s = (Fault OutOfBounds, s).
Proof. intros H. unfold put_line. by destruct (Z.ltb_spec BUF_SIZE (strlen prefix)); [|lia]. Qed.

(** The names of the levels that can be logged. *)
Definition level_names : list (Z * cstr) :=
  [(MLOG_LOG_WARN, L "warn"); (MLOG_LOG_TRACE, L "trace"); (MLOG_LOG_INFO, L "info");
   (MLOG_LOG_DEBUG, L "debug")].

Lemma log_levels_named l name : (l, name) ∈ level_names → log_levels l = Some name ∧ l ≠ 0.
Proof.
  unfold level_names. rewrite !elem_of_cons, elem_of_nil.
  by intros [[= -> ->]|[[= -> ->]|[[= -> ->]|[[= -> ->]|[]]]]].
Qed.

Lemma log_level_run l name w msg s :
  (l, name) ∈ level_names →
  MLOG_Log_ l w msg s =
    if l <=? MLOG_LOG_LEVEL s then put_line (site_prefix (n_pid (os_net (ml_os s))) w name) msg s
    else (Done tt, s).
Proof.
  intros [E Hne]%log_levels_named. unfold MLOG_Log_, MLOG_Assert_, MLOG_LOG_NONE.
  assert (l <>z 0 = true) as -> by lia. rewrite bind_ret, bind_get, E.
  by destruct (l <=? MLOG_LOG_LEVEL s).
Qed.

(** A message is logged exactly when its level is not above the level of the
    log: one line of at most 1023 bytes, the prefix and as much of the message
    as fits.  A place in the source whose name, with the rest of the prefix,
    needs more than the 1024 bytes of the buffer has the message written behind
    it; the level [MLOG_LOG_NONE] ends the program. *)
Theorem mlog_log_spec (w : site) (msg : cstr) (s : mlog) (Hpid : is_int (n_pid (os_net (ml_os s)))) :
  (∀ l name, (l, name) ∈ level_names →
     let prefix := site_prefix (n_pid (os_net (ml_os s))) w name in
     MLOG_Log_ l w msg s =
       (if MLOG_LOG_LEVEL s <? l then (Done tt, s)
        else if 1024 <? strlen prefix then (Fault OutOfBounds, s)
        else (Done tt, set_ml_err (ml_err s ++ take 1023 (prefix ++ msg)) s))) ∧
  (∃ t, MLOG_Log_ MLOG_LOG_NONE w msg s = (Exited 134, set_ml_err (ml_err s ++ t) s)) ∧
  (MLOG_LOG_LEVEL s = MLOG_LOG_MAX → MLOG_Log_ MLOG_LOG_MAX w msg s = (Fault NullDeref, s)).
Proof.
  split_and!.
  - intros l name Hin prefix. rewrite (log_level_run _ _ _ _ _ Hin).
    destruct (Z.leb_spec l (MLOG_LOG_LEVEL s)), (Z.ltb_spec (MLOG_LOG_LEVEL s) l); try lia; [|done].
    destruct (Z.ltb_spec 1024 (strlen prefix)); [by apply put_line_over|by apply put_line_ok].
  - unfold MLOG_Log_, MLOG_Assert_. change (MLOG_LOG_NONE <>z MLOG_LOG_NONE) with false.
    cbv iota. eexists. rewrite bind_assoc, bind_get, bind_assoc. erewrite bind_done; [reflexivity|].
    apply put_line_ok. unfold site_prefix, strlen, BUF_SIZE. rewrite !length_app, !Nat2Z.inj_add.
    pose proof (show_int_length (n_pid (os_net (ml_os s))) Hpid). change (Z.of_nat (length (show_int (at_line log_assert_site)))) with 2.
    cbn -[Z.add]. lia.
  - intros E. unfold MLOG_Log_, MLOG_Assert_. change (MLOG_LOG_MAX <>z MLOG_LOG_NONE) with true.
    cbv iota. by rewrite bind_ret, bind_get, E.
Qed.

Definition demo_mlog_os (v : cstr) : os :=
  OS (<["MLOG_LOG_LEVEL"%string := v]> ∅) ∅ (Net [] [] [] 42 [] true).
Definition demo_site : site := Site (L "a.c") (L "f") 7.

Lemma mlog_log_spec_witness :
  let s := mlog_start (demo_mlog_os (L "warn")) in
  MLOG_Log_ MLOG_LOG_WARN demo_site (L "hello") s = (Done tt, set_ml_err (L "42:a.c:f:7<warn> hello") s) ∧
  MLOG_Log_ MLOG_LOG_INFO demo_site (L "hello") s = (Done tt, s).
Proof.
  intros s. assert (is_int (n_pid (os_net (ml_os s)))) as H by (unfold is_int, int_min, int_max; cbn; lia).
  destruct (mlog_log_spec demo_site (L "hello") s H) as [Hl _]. split.
  - apply (Hl 1 (L "warn")). by left.
  - apply (Hl 3 (L "info")). by right; right; left.
Defined.

(** *** The level of the environment *)

(** The names of all levels. *)
Definition env_names : list (cstr * cstr * Z) :=
  [(L "none", L "NONE", 0); (L "warn", L "WARN", 1); (L "trace", L "TRACE", 2);
   (L "info", L "INFO", 3); (L "debug", L "DEBUG", 4); (L "max", L "MAX", 5)].

Definition env_level (p : cstr) : option Z :=
  snd <$> find (λ e, str_eq p e.1.1 || str_eq p e.1.2) env_names.

(** The logger starts at the level the environment names, in lower or in upper
    case.  Without the variable, or with a text that is no level, the level is
    [MLOG_LOG_WARN]; the text is then quoted in a warning, cut to the buffer
    however long it is. *)
Theorem mlog_init_spec (o : os) (Hpid : is_int (n_pid (os_net o))) :
  MLOG_Init (mlog_start o) =
    match os_env o !! "MLOG_LOG_LEVEL"%string with
    | None => (Done MLOG_LOG_WARN, mlog_start o)
    | Some p =>
        match env_level p with
        | Some l => (Done l, Mlog l [] o)
        | None => (Done MLOG_LOG_WARN, Mlog MLOG_LOG_WARN
                     (take 1023 (site_prefix (n_pid (os_net o)) init_site (L "warn") ++ unknown_level p)) o)
        end
    end.
Proof.
  unfold MLOG_Init. erewrite (bind_done (gets _)) by done. cbn [ml_os mlog_start].
  destruct (os_env o !! _) as [p|]; [|done]. unfold env_level, env_names. cbn [find fst snd].
  repeat (match goal with |- context [str_eq p ?a || str_eq p ?b] => destruct (str_eq p a || str_eq p b) end;
          [done|]).
  cbn [fmap option_fmap option_map].
  erewrite bind_done; [|rewrite (log_level_run _ (L "warn")) by (by left); apply put_line_ok].
  - done.
  - unfold site_prefix, strlen, BUF_SIZE. rewrite !length_app, !Nat2Z.inj_add.
    pose proof (show_int_length (n_pid (os_net o)) Hpid).
    change (Z.of_nat (length (show_int (at_line init_site)))) with 2. cbn -[Z.add]. lia.
Qed.

Lemma mlog_init_spec_witness :
  MLOG_Init (mlog_start (demo_mlog_os (L "DEBUG"))) = (Done 4, Mlog 4 [] (demo_mlog_os (L "DEBUG"))).
Proof.
  rewrite mlog_init_spec; [vm_compute; reflexivity|]. unfold is_int, int_min, int_max. cbn. lia.
Defined.
