(* ===== verification/Asyncwatch.v ===== *)
(** * Watching a device's events (rdma-core/asyncwatch.c)

    The events the kernel reports are a script; with none left,
    [ibv_get_async_event] blocks for ever.  An event got and not acknowledged is
    counted, since the library waits for it when its object is destroyed. *)

From S2P Require Import Prelude CLib OS Gid Verbs Keeps RcPingpong RcLife Report Devinfo DevinfoSpec.

Local Open Scope Z_scope.

(** An event: its type and the value of the union [element], whose first four
    bytes the program prints as a port; or an error of the call. *)
Inductive async_event := AsyncEvent (event_type element : Z) | AsyncError.

Record watch_state := Watch {
  w_tool : tool;
  w_events : list async_event;
  w_unacked : Z }.

Definition set_w_tool (t : tool) (s : watch_state) : watch_state := Watch t (w_events s) (w_unacked s).

#[global] Program Instance watch_tool : Lens watch_state tool := {| lget := w_tool; lset := set_w_tool |}.
Next Obligation. done. Qed.
Next Obligation. by intros []. Qed.
Next Obligation. done. Qed.

Definition event_name_str (event_type : Z) : cstr :=
  match event_type with
  | 8 => L "IBV_EVENT_DEVICE_FATAL"
  | 9 => L "IBV_EVENT_PORT_ACTIVE"
  | 10 => L "IBV_EVENT_PORT_ERR"
  | 11 => L "IBV_EVENT_LID_CHANGE"
  | 12 => L "IBV_EVENT_PKEY_CHANGE"
  | 13 => L "IBV_EVENT_SM_CHANGE"
  | 17 => L "IBV_EVENT_CLIENT_REREGISTER"
  | 18 => L "IBV_EVENT_GID_CHANGE"
  | _ => L "unexpected"
  end.

Definition watch_usage (argv0 : cstr) : M tool () :=
  printf (line 0 (L "Usage:") 0 []);;
  printf (L "  " ++ argv0 ++ L "            start an asyncwatch process" ++ [LF]);;
  printf [LF];;
  printf (line 0 (L "Options:") 0 []);;
  printf (line 0 (L "  -d, --ib-dev=<dev>     use IB device <dev> (default first device found)") 0 []);;
  printf (line 0 (L "  -h, --help             print a help text and exit") 0 []).

(** [ibv_get_async_event (context, &event)]: [None] is its error. *)
Definition get_async_event (ctx : Z) : M watch_state (option (Z * Z)) :=
  zoom (S := watch_state) (lib (uses [(KContext, ctx)]));;
  s ← get;
  match w_events s with
  | [] => hang_
  | AsyncError :: l => modify (λ s, Watch (w_tool s) l (w_unacked s));; mret None
  | AsyncEvent t e :: l => modify (λ s, Watch (w_tool s) l (w_unacked s + 1));; mret (Some (t, e))
  end.

Definition ack_async_event : M watch_state () :=
  modify (λ s, Watch (w_tool s) (w_events s) (w_unacked s - 1)).

Definition event_line (t e : Z) : cstr :=
  L "  event_type " ++ event_name_str t ++ L " (" ++ dec t ++ L "), port " ++ dec e ++ [LF].

(** The loop; each turn takes an event of the script. *)
Fixpoint watch (fuel : nat) (ctx : Z) : M watch_state Z :=
  match fuel with
  | O => hang_
  | S fuel =>
      event ← get_async_event ctx;
      match event with
      | None => mret 1
      | Some (t, e) => zoom (printf (event_line t e));; ack_async_event;; watch fuel ctx
      end
  end.

(** [inl] when the program ends with the options; [strdupa] is on the stack. *)
Fixpoint watch_options (argv0 : cstr) (args : list (char * cstr)) (ib_devname : option cstr) :
    M tool (Z + option cstr) :=
  match args with
  | [] => mret (inr ib_devname)
  | (c, optarg) :: args =>
      if c =c "d"%char then watch_options argv0 args (Some optarg)
      else watch_usage argv0;; mret (inl (if c =c "h"%char then 0 else 1))
  end.

(** [async_fd] is the descriptor of an open device. *)
Definition main (D : devlib) (async_fd : Z → Z) (argv0 : cstr) (devs : option (list Z))
    (args : list (char * cstr)) : M watch_state Z :=
  o ← zoom (watch_options argv0 args None);
  match o with
  | inl ret => mret ret
  | inr ib_devname =>
      match devs with
      | None => mret 1
      | Some l =>
          _ ← zoom (S := watch_state) (lib (make NewDevList []));
          match (match ib_devname with
                 | Some n => find (λ d, str_eq (d_name D d) n) l
                 | None => head l
                 end) with
          | None => mret 1
          | Some dev =>
              context ← zoom (S := watch_state) (lib (new (NewContext dev) []));
              if context =? 0 then mret 1
              else
                zoom (printf (d_name D dev ++ L ": async event FD " ++ dec (async_fd context) ++ [LF]));;
                s ← get;
                watch (S (length (w_events s))) context
          end
      end
  end.

(** ** The loop *)

(** The lines for the events of a script up to its first error, and whether it
    has one. *)
Fixpoint event_lines (l : list async_event) : cstr :=
  match l with
  | AsyncEvent t e :: l => event_line t e ++ event_lines l
  | _ => []
  end.

Fixpoint after_error (l : list async_event) : option (list async_event) :=
  match l with
  | [] => None
  | AsyncError :: l => Some l
  | AsyncEvent _ _ :: l => after_error l
  end.

Definition watched (s : watch_state) (rest : list async_event) : watch_state :=
  Watch (set_t_out (t_out (w_tool s) ++ event_lines (w_events s)) (w_tool s)) rest (w_unacked s).

Lemma watch_ok fuel ctx s :
  is_live (KContext, ctx) (h_live (t_hw (w_tool s))) = true → (length (w_events s) < fuel)%nat →
  watch fuel ctx s = match after_error (w_events s) with
                     | Some rest => (Done 1, watched s rest)
                     | None => (Hang, watched s [])
                     end.
Proof.
  revert s. induction fuel as [|fuel IH]; intros [[h out v] evs n] Hl Hf; cbn [w_events w_tool t_hw] in *; [lia|].
  cbn [watch]. unfold get_async_event.
  assert (zoom (S := watch_state) (lib (uses [(KContext, ctx)])) (Watch (Tool h out v) evs n)
          = (Done tt, Watch (Tool h out v) evs n)) as Eu.
  { unfold lib, zoom, uses. cbn. by rewrite Hl. }
  destruct evs as [|[t e|] evs].
  - erewrite (bind_hang (_ ≫= _)) by by erewrite bind_done by exact Eu. unfold watched. cbn. by rewrite app_nil_r.
  - erewrite (bind_done (_ ≫= _)) by by erewrite bind_done by exact Eu. cbv beta iota.
    erewrite bind_done by done. erewrite bind_done by done. cbn [w_tool w_events w_unacked]. 
    rewrite IH; [|done|cbn in *; lia]. unfold watched. cbn [w_tool w_events w_unacked after_error event_lines].
    cbn. rewrite <-(assoc_L app). by replace (n + 1 - 1) with n by lia.
  - erewrite (bind_done (_ ≫= _)) by by erewrite bind_done by exact Eu. unfold watched. cbn. by rewrite app_nil_r.
Qed.

(** Each event of the script is printed once, in the order the events come, and
    acknowledged, also those whose type the program does not know; the program
    waits for the next event, or ends with 1 at the first error.  The list of
    devices and the device stay open in both cases. *)
Theorem asyncwatch_reports (D : devlib) (async_fd : Z → Z) (argv0 n : cstr) (l : list Z) (dev : Z)
    (s : watch_state) (Hdev : find (λ d, str_eq (d_name D d) n) l = Some dev)
    (Hnew : ∀ k, h_new (h_world (t_hw (w_tool s))) k = true) :
  let ctx := Z.of_nat (S (S (h_time (t_hw (w_tool s))))) in
  ∃ s', main D async_fd argv0 (Some l) [("d"%char, n)] s =
      (match after_error (w_events s) with Some _ => Done 1 | None => Hang end, s') ∧
    t_out (w_tool s') = t_out (w_tool s) ++
      (d_name D dev ++ L ": async event FD " ++ dec (async_fd ctx) ++ [LF]) ++ event_lines (w_events s) ∧
    w_unacked s' = w_unacked s ∧ w_events s' = default [] (after_error (w_events s)) ∧
    h_live (t_hw (w_tool s')) =
      ((KContext, ctx), []) :: ((KDevList, ctx - 1), []) :: h_live (t_hw (w_tool s)).
Proof.
  intros ctx. destruct s as [[h out v] evs k]. cbn [w_tool t_hw w_events w_unacked t_out] in *.
  set (h1 := set_h_live (((KDevList, ctx - 1), []) :: h_live h) (tick h)).
  set (h2 := set_h_live (((KContext, ctx), []) :: h_live h1) (tick h1)).
  set (out2 := out ++ d_name D dev ++ L ": async event FD " ++ dec (async_fd ctx) ++ [LF]).
  assert (main D async_fd argv0 (Some l) [("d"%char, n)] (Watch (Tool h out v) evs k) =
          watch (S (length evs)) ctx (Watch (Tool h2 out2 v) evs k)) as ->.
  { unfold main. erewrite bind_done by done. cbv beta iota. cbn [watch_options].
    erewrite (bind_done _ _ _ _ (Watch (Tool h1 out v) evs k)).
    2:{ unfold h1, ctx. replace (Z.of_nat (S (S (h_time h))) - 1) with (Z.of_nat (S (h_time h))) by lia. done. }
    rewrite Hdev. erewrite (bind_done _ _ _ ctx (Watch (Tool h2 out v) evs k)).
    2:{ unfold lib, zoom, new, uses, get, make, mbind, M_bind, mret, M_ret. cbn -[h_new Z.of_nat].
        by rewrite Hnew. }
    destruct (Z.eqb_spec ctx 0); [lia|]. by erewrite bind_done by done. }
  rewrite watch_ok; [|by apply bool_decide_eq_true; left|cbn; apply Nat.lt_succ_diag_r]. cbn [w_events].
  unfold watched. destruct (after_error evs); eexists; (split; [reflexivity|]); cbn [w_tool w_events w_unacked t_out];
    unfold out2; cbn; by rewrite <-?(assoc_L app).
Qed.

Definition demo_watch : watch_state :=
  Watch demo_tool [AsyncEvent 9 1; AsyncEvent 3 70000; AsyncError; AsyncEvent 9 2] 0.

Lemma asyncwatch_reports_witness :
  ∃ s', main demo_devlib (λ _, 5) (L "asyncwatch") (Some [0; 1]) [("d"%char, L "mlx5_1")] demo_watch = (Done 1, s') ∧
    t_out (w_tool s') = L "mlx5_1: async event FD 5" ++ [LF] ++
      L "  event_type IBV_EVENT_PORT_ACTIVE (9), port 1" ++ [LF] ++
      L "  event_type unexpected (3), port 70000" ++ [LF].
Proof.
  destruct (asyncwatch_reports demo_devlib (λ _, 5) (L "asyncwatch") (L "mlx5_1") [0; 1] 1 demo_watch eq_refl
    (λ k, eq_refl)) as (s' & E & Ho & _).
  exists s'. split; [exact E|]. rewrite Ho. vm_compute. reflexivity.
Defined.
