(* ===== verification/DeviceList.v ===== *)
(** * The list of devices (rdma-core/device_list.c)

    The program prints the name and the GUID of each device.  The library gives
    a GUID in network byte order; [be64toh] puts its bytes in the order of the
    machine. *)

From S2P Require Import Prelude CLib OS Gid Verbs Keeps RcPingpong RcLife Report Devinfo DevinfoSpec.

Local Open Scope Z_scope.

(** [%-16s]. *)
Definition left_16 (s : cstr) : cstr := s ++ replicate (16 - length s) " "%char.

Definition head_lines : cstr :=
  L "    " ++ left_16 (L "device") ++ [TAB] ++ L "   node GUID" ++ [LF] ++
  L "    " ++ left_16 (L "------") ++ [TAB] ++ L "----------------" ++ [LF].

(** [get_guid] is [ibv_get_device_guid]. *)
Definition device_line (D : devlib) (get_guid : Z → Z) (dev : Z) : cstr :=
  L "    " ++ left_16 (d_name D dev) ++ [TAB] ++ hex64 16 (be64toh (get_guid dev)) ++ [LF].

Definition main (D : devlib) (get_guid : Z → Z) (devs : option (list Z)) : M tool Z :=
  match devs with
  | None => mret 1
  | Some l =>
      dev_list ← lib (make NewDevList []);
      printf head_lines;;
      printf (l ≫= device_line D get_guid);;
      lib (release (KDevList, dev_list));;
      mret 0
  end.

(** ** The order of the bytes *)

Lemma be64toh_byte z i j :
  0 ≤ i < 8 → 0 ≤ j < 8 → Z.testbit (be64toh z) (8 * i + j) = Z.testbit z (8 * (7 - i) + j).
Proof.
  intros Hi Hj. unfold be64toh. cbn [foldr]. rewrite !Z.lor_spec.
  assert (∀ k, 0 ≤ k < 8 → Z.testbit (Z.shiftl (Z.land (Z.shiftr z (8 * k)) 255) (8 * (7 - k))) (8 * i + j)
    = (if i =? 7 - k then Z.testbit z (8 * (7 - i) + j) else false)) as Hk.
  { intros k Hk. rewrite Z.shiftl_spec by lia. change 255 with (Z.ones 8).
    destruct (Z.eqb_spec i (7 - k)) as [->|Hne].
    - rewrite Z.land_spec, Z.ones_spec_low, Z.shiftr_spec, andb_true_r by lia. f_equal. lia.
    - destruct (Z.lt_ge_cases i (7 - k)); [by rewrite Z.testbit_neg_r by lia|].
      by rewrite Z.land_spec, Z.ones_spec_high, andb_false_r by lia. }
  rewrite !Hk by lia. rewrite Z.bits_0.
  assert (i = 0 ∨ i = 1 ∨ i = 2 ∨ i = 3 ∨ i = 4 ∨ i = 5 ∨ i = 6 ∨ i = 7) as Hc by lia.
  repeat (destruct Hc as [->|Hc]; [cbn; by rewrite ?orb_false_r|]). subst i. cbn. by rewrite ?orb_false_r.
Qed.

Lemma be64toh_range z : 0 ≤ be64toh z < 2 ^ 64.
Proof.
  assert (0 ≤ be64toh z) as H0.
  { unfold be64toh. cbn [foldr]. rewrite !Z.lor_nonneg, !Z.shiftl_nonneg, !Z.land_nonneg. lia. }
  split; [exact H0|]. destruct (Z.eq_dec (be64toh z) 0) as [->|Hne]; [lia|].
  apply Z.log2_lt_pow2; [lia|]. apply Z.nle_gt. intros Hl.
  assert (Z.testbit (be64toh z) (Z.log2 (be64toh z)) = true) as Hb by (apply Z.bit_log2; lia).
  revert Hb. set (m := Z.log2 (be64toh z)) in *. clearbody m. unfold be64toh. cbn [foldr].
  rewrite !Z.lor_spec, !Z.shiftl_spec, !Z.land_spec, Z.bits_0 by lia. change 255 with (Z.ones 8).
  by rewrite !Z.ones_spec_high, !andb_false_r by lia.
Qed.

(** Turning the bytes round twice gives the number back. *)
Lemma be64toh_twice z : 0 ≤ z < 2 ^ 64 → be64toh (be64toh z) = z.
Proof.
  intros Hz. apply Z.bits_inj'. intros m Hm. destruct (Z.lt_ge_cases m 64) as [Hlt|Hge].
  - rewrite (Z.div_mod m 8) by lia. set (i := m / 8). set (j := m mod 8).
    assert (0 ≤ i < 8) as Hi by (unfold i; split; [apply Z.div_pos; lia|apply Z.div_lt_upper_bound; lia]).
    assert (0 ≤ j < 8) as Hj by (apply Z.mod_pos_bound; lia).
    rewrite be64toh_byte, be64toh_byte by lia. f_equal. lia.
  - rewrite !Z.bits_above_log2; [done|lia| |apply be64toh_range|].
    + destruct (Z.eq_dec z 0) as [->|]; [cbn; lia|]. apply Z.log2_lt_pow2; [lia|].
      eapply Z.lt_le_trans; [apply Hz|]. apply Z.pow_le_mono_r; lia.
    + pose proof (be64toh_range (be64toh z)).
      destruct (Z.eq_dec (be64toh (be64toh z)) 0) as [->|]; [cbn; lia|]. apply Z.log2_lt_pow2; [lia|].
      eapply Z.lt_le_trans; [apply H|]. apply Z.pow_le_mono_r; lia.
Qed.

(** ** Reading the list back *)

(** The GUID on a line of the list: the number behind the tabulator. *)
Fixpoint after_tab (t : cstr) : cstr :=
  match t with [] => [] | c :: t => if c =c TAB then t else after_tab t end.

Definition line_guid (t : cstr) : Z := be64toh (read_hex (after_tab t)).

Lemma after_tab_app t r : Forall (λ c, c ≠ TAB) t → after_tab (t ++ TAB :: r) = r.
Proof.
  induction 1 as [|c t Hc _ IH]; cbn [app after_tab]; [by rewrite char_eqb_refl|].
  by rewrite char_eqb_ne.
Qed.

Lemma read_hex64 w z r :
  0 ≤ z < 2 ^ 64 → no_digit_head 16 r → read_hex (hex64 w z ++ r) = z.
Proof.
  intros Hz Hr. unfold read_hex, hex64. rewrite wrap_u_small, <-(assoc_L app) by lia.
  rewrite scan_digits_zeros by lia.
  destruct (show_nat_spec 16 ltac:(lia) z ltac:(lia)) as (k & _ & _ & Hs).
  by rewrite Hs, scan_digits_stop.
Qed.

(** A name that fits on a line. *)
Definition name_ok (t : cstr) : Prop := Forall (λ c, c ≠ LF ∧ c ≠ TAB) t.
#[global] Instance name_ok_dec t : Decision (name_ok t).
Proof. unfold name_ok. apply _. Defined.

Lemma hex64_no_lf w z : no_lf (hex64 w z).
Proof.
  unfold hex64, no_lf. apply Forall_app. split; [by apply Forall_replicate|].
  eapply Forall_impl; [apply (show_nat_digits 16 ltac:(lia))|]. by intros c Hc ->.
Qed.

(** A line without its end, and what is read from it. *)
Lemma device_line_ok D get_guid d r :
  name_ok (d_name D d) → 0 ≤ get_guid d < 2 ^ 64 →
  ∃ t, lines_of (device_line D get_guid d ++ r) [] = t :: lines_of r [] ∧ line_guid t = get_guid d.
Proof.
  intros Hn Hg. set (u := L "    " ++ left_16 (d_name D d)).
  assert (Forall (λ c, c ≠ LF ∧ c ≠ TAB) u) as Hu.
  { unfold u, left_16. repeat (apply Forall_app; split); [by repeat constructor|exact Hn|by apply Forall_replicate]. }
  pose proof (hex64_no_lf 16 (be64toh (get_guid d))) as Hh.
  assert (read_hex (hex64 16 (be64toh (get_guid d))) = be64toh (get_guid d)) as Hr.
  { rewrite <-(app_nil_r (hex64 _ _)). by apply read_hex64; [apply be64toh_range|]. }
  assert (device_line D get_guid d ++ r = (u ++ TAB :: hex64 16 (be64toh (get_guid d))) ++ LF :: r) as ->.
  { unfold device_line, u. generalize (hex64 16 (be64toh (get_guid d))) as h. intros h.
    rewrite <-!(assoc_L app). reflexivity. }
  revert Hh Hr. generalize (hex64 16 (be64toh (get_guid d))) as h. intros h Hh Hr. exists (u ++ TAB :: h).
  clearbody u. split.
  - rewrite lines_of_line; [reflexivity|]. apply Forall_app. split; [by eapply Forall_impl; [exact Hu|intros c [? _]]|].
    by constructor.
  - unfold line_guid. rewrite after_tab_app by (by eapply Forall_impl; [exact Hu|intros c [_ ?]]).
    rewrite Hr. by apply be64toh_twice.
Qed.

(** The program prints one line per device, in the order of the list, from which
    the GUID the library gave can be read back; it gives the list back and
    returns 0. *)
Theorem device_list_roundtrip (D : devlib) (get_guid : Z → Z) (l : list Z) (s : tool)
    (Hs : stacked (Z.of_nat (h_time (t_hw s))) (h_live (t_hw s)))
    (Hn : Forall (λ d, name_ok (d_name D d)) l) (Hg : Forall (λ d, 0 ≤ get_guid d < 2 ^ 64) l) :
  ∃ s' t, main D get_guid (Some l) s = (Done 0, s') ∧ h_live (t_hw s') = h_live (t_hw s) ∧
    t_out s' = t_out s ++ head_lines ++ t ∧ line_guid <$> lines_of t [] = get_guid <$> l.
Proof.
  edestruct (total_done (main D get_guid (Some l)) s (λ rc s', rc = 0 ∧ hwst (t_hw s) (t_hw s') [] ∧
      t_out s' = t_out s ++ head_lines ++ (l ≫= device_line D get_guid)))
    as (rc & s' & E & -> & [_ H _] & Ho).
  { unfold main. apply total_bind, total_zoom. eapply make_total; [by apply hwst_refl|apply Forall_nil_2|].
    intros p h _ H1. apply total_bind, total_modify, total_bind, total_modify, total_bind, total_zoom.
    eapply (release_total _ _ []); [apply Forall_nil_2|exact H1|]. intros h2 H2. apply total_ret.
    split_and!; [done|done|]. cbn. by rewrite <-(assoc_L app). }
  exists s', (l ≫= device_line D get_guid). split_and!; [done|done|done|].
  clear -Hn Hg. induction l as [|d l IH]; [done|].
  apply Forall_cons in Hn as [Hd Hn]. apply Forall_cons in Hg as [Hgd Hg]. cbn [mbind list_bind].
  destruct (device_line_ok D get_guid d (l ≫= device_line D get_guid) Hd Hgd) as (t & -> & Et).
  cbn [fmap list_fmap]. by rewrite Et, IH.
Qed.

Lemma device_list_roundtrip_witness :
  ∃ s' t, main demo_devlib (λ d, 0x1122334455667788 + d) (Some [0; 1]) demo_tool = (Done 0, s') ∧
    h_live (t_hw s') = h_live (t_hw demo_tool) ∧ t_out s' = t_out demo_tool ++ head_lines ++ t ∧
    line_guid <$> lines_of t [] = [0x1122334455667788; 0x1122334455667789].
Proof.
  apply (device_list_roundtrip demo_devlib (λ d, 0x1122334455667788 + d) [0; 1] demo_tool); [exact I| |].
  - apply (bool_decide_unpack _). vm_compute. exact I.
  - repeat constructor; vm_compute; congruence.
Defined.
