(* ===== verification/LcmArchive.v ===== *)
(** * The archive of addresses (benchmarks/rendezvous/lcm_archive.h)

    A table without locks that maps an address to a short key.  Each operation
    is given twice: as a function, for a caller nobody disturbs, and as a
    sequence of steps, each of which touches the shared array once, so that the
    operations of several threads interleave.  The lines that log are left out. *)

From Stdlib Require Import ZifyBool.
From S2P Require Import Prelude CLib OS Mlog.

Local Open Scope Z_scope.

Definition LCM_SUCCESS : Z := 1.
Definition LCM_RETRY : Z := 0.
Definition LCM_ARCHIVE_NTRY : Z := 3.
Definition LCM_ARCHIVE_EMPTY : Z := 0.

(** [LCM_archive_t]: the [val] fields of the array, or NULL. *)
Record lcm_archive := LcmArchive { lcm_ptr : option (list Z); lcm_nbits : Z }.

(** ** The operations of one caller *)

(** [file] is how the compiler was given the name of the header. *)
Definition init_assert_site (file : cstr) : site := Site file (L "LCM_archive_init") 55.

(** [ret] is the result of [posix_memalign].  The shift [1 << nbits] is one of
    an [int]. *)
Definition LCM_archive_init (file : cstr) (ret nbits : Z) : M mlog (Z * lcm_archive) :=
  if (nbits <? 0) || (30 <? nbits) then fault_ Overflow
  else
    MLOG_Assert_ (L "ret == 0") (ret =? 0) (init_assert_site file) (L "Memory allocation failed!" ++ [LF]);;
    mret (LCM_SUCCESS, LcmArchive (Some (replicate (Z.to_nat (2 ^ nbits)) LCM_ARCHIVE_EMPTY)) nbits).

Definition LCM_archive_fini (archive : lcm_archive) : Z * lcm_archive :=
  (LCM_SUCCESS, LcmArchive None 0).

(** The first key that is tried, and the one after try [i].  The mask is computed in
    an [int]: an archive that has been initialised has at most 30 bits
    ([LCM_archive_init]). *)
Definition lcm_hash (nbits value : Z) : Z := Z.land (Z.shiftr value 6) (2 ^ nbits - 1).
Definition next_key (i key : Z) : Z := key + i * i.

(** [archive.ptr[key].val]. *)
Definition lcm_at (a : list Z) (key : Z) : option Z := a !! Z.to_nat key.

(** The tries from try [i] on, [n] of them being left: the key, or [None] for
    [LCM_RETRY], and the array. *)
Fixpoint put_tries (n : nat) (i key value : Z) (a : list Z) : outcome (option Z * list Z) :=
  match n with
  | O => Done (None, a)
  | S n =>
      match lcm_at a key with
      | None => Fault OutOfBounds
      | Some val =>
          if val =? LCM_ARCHIVE_EMPTY then Done (Some key, <[Z.to_nat key := value]> a)
          else put_tries n (i + 1) (next_key i key) value a
      end
  end.

Definition LCM_archive_put (archive : lcm_archive) (value : Z) : outcome (option Z * list Z) :=
  match lcm_ptr archive with
  | None => Fault NullDeref
  | Some a => put_tries (Z.to_nat LCM_ARCHIVE_NTRY) 1 (lcm_hash (lcm_nbits archive) value) value a
  end.

Definition LCM_archive_get (archive : lcm_archive) (key : Z) : outcome Z :=
  match lcm_ptr archive with
  | None => Fault NullDeref
  | Some a => match lcm_at a key with Some val => Done val | None => Fault OutOfBounds end
  end.

Definition LCM_archive_remove (archive : lcm_archive) (key : Z) : outcome (Z * list Z) :=
  match lcm_ptr archive with
  | None => Fault NullDeref
  | Some a =>
      match lcm_at a key with
      | Some val => Done (val, <[Z.to_nat key := LCM_ARCHIVE_EMPTY]> a)
      | None => Fault OutOfBounds
      end
  end.

(** ** Threads *)

(** Where a thread is: outside of the archive; in [LCM_archive_put] before the
    test of try [i], or before its compare-and-swap; holding a key for the value
    it put; in [LCM_archive_remove] between the read, of [val], and the write;
    behind an access outside the array. *)
Inductive thread :=
  | Idle
  | Testing (i key value : Z)
  | Swapping (i key value : Z)
  | Holding (key value : Z)
  | Removing (key value val : Z)
  | Crashed.

#[global] Instance thread_eq_dec : EqDecision thread.
Proof. solve_decision. Defined.

(** What the program of a thread asks for next. *)
Inductive action := APut (value : Z) | AGet | ARemove | AGoOn.

(** What a step shows: a thread wants to put a value, the value got a key, a put gave up, the value [get] or
    [remove] returned, an access outside the array, or nothing. *)
Inductive event :=
  | EAsk (value : Z)
  | EPut (key value : Z)
  | ERetry (value : Z)
  | EGet (key val : Z)
  | ERemove (key val : Z)
  | EOutside (key : Z)
  | ETau.

(** The next try, or the end of the loop. *)
Definition lcm_retry (i key value : Z) : event * thread :=
  if i <? LCM_ARCHIVE_NTRY then (ETau, Testing (i + 1) (next_key i key) value)
  else (ERetry value, Idle).

(** One access of a thread to the array [a]: [None] when it cannot do this. *)
Definition thread_step (nbits : Z) (act : action) (a : list Z) (th : thread) : option (event * list Z * thread) :=
  match th, act with
  | Idle, APut value => Some (EAsk value, a, Testing 1 (lcm_hash nbits value) value)
  | Testing i key value, AGoOn =>
      match lcm_at a key with
      | None => Some (EOutside key, a, Crashed)
      | Some val =>
          if val =? LCM_ARCHIVE_EMPTY then Some (ETau, a, Swapping i key value)
          else let '(e, th) := lcm_retry i key value in Some (e, a, th)
      end
  | Swapping i key value, AGoOn =>
      match lcm_at a key with
      | None => Some (EOutside key, a, Crashed)
      | Some val =>
          if val =? LCM_ARCHIVE_EMPTY then Some (EPut key value, <[Z.to_nat key := value]> a, Holding key value)
          else let '(e, th) := lcm_retry i key value in Some (e, a, th)
      end
  | Holding key value, AGet =>
      match lcm_at a key with
      | None => Some (EOutside key, a, Crashed)
      | Some val => Some (EGet key val, a, th)
      end
  | Holding key value, ARemove =>
      match lcm_at a key with
      | None => Some (EOutside key, a, Crashed)
      | Some val => Some (ETau, a, Removing key value val)
      end
  | Removing key value val, AGoOn =>
      match lcm_at a key with
      | None => Some (EOutside key, a, Crashed)
      | Some _ => Some (ERemove key val, <[Z.to_nat key := LCM_ARCHIVE_EMPTY]> a, Idle)
      end
  | _, _ => None
  end.

(** The array and the threads. *)
Record system := System { sy_array : list Z; sy_threads : list thread }.

(** The callers put addresses, which are not NULL. *)
Definition asks_address (act : action) : Prop :=
  match act with APut value => value ≠ LCM_ARCHIVE_EMPTY | _ => True end.

#[global] Instance asks_address_dec act : Decision (asks_address act).
Proof. destruct act; apply _. Defined.

(** A step of thread [t]; the process ends with the first access outside. *)
Inductive sys_step (nbits : Z) (s : system) (t : nat) (e : event) : system → Prop :=
  | SysStep th act a' th' :
      Crashed ∉ sy_threads s → sy_threads s !! t = Some th → asks_address act →
      thread_step nbits act (sy_array s) th = Some (e, a', th') →
      sys_step nbits s t e (System a' (<[t := th']> (sy_threads s))).

(** Sequences of steps with what they show. *)
Inductive sys_run (nbits : Z) (s : system) : list (nat * event) → system → Prop :=
  | RunNil : sys_run nbits s [] s
  | RunSnoc tr s1 t e s2 : sys_run nbits s tr s1 → sys_step nbits s1 t e s2 → sys_run nbits s (tr ++ [(t, e)]) s2.

(** [n] threads on a fresh archive. *)
Definition sys_start (nbits : Z) (n : nat) : system :=
  System (replicate (Z.to_nat (2 ^ nbits)) LCM_ARCHIVE_EMPTY) (replicate n Idle).

(** ** What the archive promises

    A table of handles: each key that is in use belongs to one thread, which
    alone reads it and gives it back. *)
Abbreviation handles := (gmap Z (nat * Z)).

Inductive spec_step (t : nat) : event → handles → handles → Prop :=
  | SpecAsk m value : spec_step t (EAsk value) m m
  | SpecPut m key value : m !! key = None → spec_step t (EPut key value) m (<[key := (t, value)]> m)
  | SpecRetry m value : spec_step t (ERetry value) m m
  | SpecGet m key value : m !! key = Some (t, value) → spec_step t (EGet key value) m m
  | SpecRemove m key value : m !! key = Some (t, value) → spec_step t (ERemove key value) m (delete key m)
  | SpecOutside m key : spec_step t (EOutside key) m m
  | SpecTau m : spec_step t ETau m m.

Inductive spec_run : list (nat * event) → handles → Prop :=
  | SpecNil : spec_run [] ∅
  | SpecSnoc tr m t e m' : spec_run tr m → spec_step t e m m' → spec_run (tr ++ [(t, e)]) m'.

(** A thread that holds a key, or is giving it back. *)
Definition holds (th : thread) (key value : Z) : Prop :=
  th = Holding key value ∨ th = Removing key value value.

(** What a thread does when nobody disturbs it: its steps up to the end of the
    operation, at most [n] of them. *)
Fixpoint alone (n : nat) (nbits : Z) (a : list Z) (th : thread) : option (event * list Z * thread) :=
  match n with
  | O => None
  | S n =>
      match thread_step nbits AGoOn a th with
      | Some (ETau, a', th') => alone n nbits a' th'
      | r => r
      end
  end.

(** ** The refinement *)

Lemma lcm_at_length (a : list Z) (key : Z) : 0 ≤ key < Z.of_nat (length a) → is_Some (lcm_at a key).
Proof. intros H. apply lookup_lt_is_Some. lia. Qed.

Lemma lcm_at_insert (a : list Z) (key key' value : Z) :
  0 ≤ key → 0 ≤ key' → is_Some (lcm_at a key) →
  lcm_at (<[Z.to_nat key := value]> a) key' = if key' =? key then Some value else lcm_at a key'.
Proof.
  intros H0 H1 Hl%lookup_lt_is_Some. unfold lcm_at. case_match.
  - apply Z.eqb_eq in H as ->. by apply list_lookup_insert_eq.
  - apply list_lookup_insert_ne. lia.
Qed.

Lemma lcm_hash_bounds (nbits value : Z) : 0 ≤ nbits → 0 ≤ lcm_hash nbits value < 2 ^ nbits.
Proof.
  intros H. unfold lcm_hash. replace (2 ^ nbits - 1) with (Z.ones nbits) by (rewrite Z.ones_equiv; lia).
  rewrite Z.land_ones by done.
  apply Z.mod_pos_bound. lia.
Qed.

(** What thread [t] knows. *)
Definition thread_ok (m : handles) (t : nat) (th : thread) : Prop :=
  match th with
  | Idle | Crashed => True
  | Testing _ key value | Swapping _ key value => 0 ≤ key ∧ value ≠ LCM_ARCHIVE_EMPTY
  | Holding key value => m !! key = Some (t, value)
  | Removing key value val => m !! key = Some (t, value) ∧ val = value
  end.

(** The handle that [m] has for a key belongs to the thread that holds it. *)
Definition handle_ok (s : system) (key : Z) (h : nat * Z) : Prop :=
  0 ≤ key ∧ h.2 ≠ LCM_ARCHIVE_EMPTY ∧ lcm_at (sy_array s) key = Some h.2 ∧
  ∃ th, sy_threads s !! h.1 = Some th ∧ holds th key h.2.

Record lcm_inv (s : system) (m : handles) : Prop := {
  inv_thread : ∀ t th, sy_threads s !! t = Some th → thread_ok m t th;
  inv_handle : ∀ key h, m !! key = Some h → handle_ok s key h;
  inv_cell : ∀ key value, 0 ≤ key → value ≠ LCM_ARCHIVE_EMPTY → lcm_at (sy_array s) key = Some value →
    ∃ t, m !! key = Some (t, value) }.

Lemma lcm_inv_start (nbits : Z) (n : nat) : lcm_inv (sys_start nbits n) ∅.
Proof.
  split; cbn [sys_start sy_threads sy_array].
  - intros t th H. apply lookup_replicate in H as [-> _]. done.
  - intros key h H. by rewrite lookup_empty in H.
  - intros key value _ Hv H. apply lookup_replicate in H as [-> _]. done.
Qed.

(** A step that leaves the array and the handles alone. *)
Lemma lcm_inv_same (s : system) (m : handles) (t : nat) (th th' : thread) :
  lcm_inv s m → sy_threads s !! t = Some th → (∀ key value, holds th key value → holds th' key value) →
  thread_ok m t th' → lcm_inv (System (sy_array s) (<[t := th']> (sy_threads s))) m.
Proof.
  intros [Ht Hh Hc] Hl Hsame Hok. split; cbn [sy_threads sy_array]; [| |done].
  - intros u thu [[-> [-> _]]|[_ Hu]]%list_lookup_insert_Some; [done|by apply Ht].
  - intros key h H. destruct (Hh key h H) as (H0 & Hv & Ha & thh & Hthh & Hholds).
    repeat split; [done..|]. cbn [sy_threads].
    destruct h as [u v]. cbn [fst snd] in *. destruct (decide (u = t)) as [->|Hne].
    + exists th'. split; [apply list_lookup_insert_eq; by eapply lookup_lt_Some|].
      apply Hsame. by simplify_eq.
    + exists thh. by rewrite list_lookup_insert_ne.
Qed.

(** A thread that holds nothing gets a free key. *)
Lemma lcm_inv_put (s : system) (m : handles) (t : nat) (th : thread) (key value : Z) :
  lcm_inv s m → sy_threads s !! t = Some th → (∀ k v, ~ holds th k v) →
  0 ≤ key → value ≠ LCM_ARCHIVE_EMPTY → lcm_at (sy_array s) key = Some LCM_ARCHIVE_EMPTY →
  m !! key = None ∧
  lcm_inv (System (<[Z.to_nat key := value]> (sy_array s)) (<[t := Holding key value]> (sy_threads s)))
    (<[key := (t, value)]> m).
Proof.
  intros [Ht Hh Hc] Hl Hnone H0 Hv Ha.
  assert (Hfree : m !! key = None).
  { destruct (m !! key) as [h|] eqn:E; [|done]. destruct (Hh key h E) as (_ & Hv' & Ha' & _). congruence. }
  split; [done|]. split; cbn [sy_threads sy_array].
  - intros u thu [[-> [<- _]]|[Hne Hu]]%list_lookup_insert_Some; [apply lookup_insert_eq|].
    specialize (Ht u thu Hu). destruct thu; cbn [thread_ok] in *; try done.
    + rewrite lookup_insert_ne; [done|congruence].
    + rewrite lookup_insert_ne; [done|destruct Ht; congruence].
  - intros k h [[<- <-]|[Hk H]]%lookup_insert_Some.
    + repeat split; cbn [fst snd sy_array sy_threads]; [done..| |].
      * by rewrite lcm_at_insert, Z.eqb_refl by done.
      * exists (Holding key value). split; [|by left]. apply list_lookup_insert_eq. by eapply lookup_lt_Some.
    + destruct (Hh k h H) as (Hk0 & Hv' & Ha' & thh & Hthh & Hholds).
      repeat split; cbn [sy_array sy_threads]; [done..| |].
      * rewrite lcm_at_insert by done. by assert (k =? key = false) as -> by lia.
      * exists thh. split; [|done]. rewrite list_lookup_insert_ne; [done|].
        intros ->. simplify_eq. by eapply Hnone.
  - intros k v Hk0 Hv'. rewrite lcm_at_insert by done. case_match.
    + apply Z.eqb_eq in H as ->. intros [= <-]. exists t. apply lookup_insert_eq.
    + intros H'. destruct (Hc k v Hk0 Hv' H') as [u Hu]. exists u. rewrite lookup_insert_ne; [done|lia].
Qed.

(** A thread gives its key back. *)
Lemma lcm_inv_remove (s : system) (m : handles) (t : nat) (key value : Z) :
  lcm_inv s m → sy_threads s !! t = Some (Removing key value value) →
  lcm_inv (System (<[Z.to_nat key := LCM_ARCHIVE_EMPTY]> (sy_array s)) (<[t := Idle]> (sy_threads s)))
    (delete key m).
Proof.
  intros [Ht Hh Hc] Hl. destruct (Ht _ _ Hl) as [Hm _].
  destruct (Hh key _ Hm) as (H0 & _ & Ha & _). cbn [snd] in Ha.
  split; cbn [sy_threads sy_array].
  - intros u thu [[-> [<- _]]|[Hne Hu]]%list_lookup_insert_Some; [done|].
    specialize (Ht u thu Hu). destruct thu; cbn [thread_ok] in *; try done.
    + rewrite lookup_delete_ne; [done|congruence].
    + rewrite lookup_delete_ne; [done|destruct Ht; congruence].
  - intros k h [Hk H]%lookup_delete_Some.
    destruct (Hh k h H) as (Hk0 & Hv' & Ha' & thh & Hthh & Hholds).
    repeat split; cbn [sy_array sy_threads]; [done..| |].
    + rewrite lcm_at_insert by done. by assert (k =? key = false) as -> by lia.
    + exists thh. split; [|done]. rewrite list_lookup_insert_ne; [done|].
      intros ->. destruct Hholds; simplify_eq.
  - intros k v Hk0 Hv'. rewrite lcm_at_insert by done. case_match; [congruence|].
    intros H'. destruct (Hc k v Hk0 Hv' H') as [u Hu]. exists u. rewrite lookup_delete_ne; [done|lia].
Qed.

(** The end of a try. *)
Lemma lcm_retry_spec (i key value : Z) (e : event) (th : thread) :
  lcm_retry i key value = (e, th) →
  (i < LCM_ARCHIVE_NTRY ∧ e = ETau ∧ th = Testing (i + 1) (next_key i key) value) ∨
  (LCM_ARCHIVE_NTRY ≤ i ∧ e = ERetry value ∧ th = Idle).
Proof. unfold lcm_retry. case_match; intros [= <- <-]; [left|right]; (split; [lia|done]). Qed.

(** A try that fails changes nothing. *)
Lemma lcm_inv_retry (s : system) (m : handles) (t : nat) (th th' : thread) (i key value : Z) (e : event) :
  lcm_inv s m → sy_threads s !! t = Some th → (∀ k v, ~ holds th k v) →
  0 ≤ key → value ≠ LCM_ARCHIVE_EMPTY → lcm_retry i key value = (e, th') →
  spec_step t e m m ∧ lcm_inv (System (sy_array s) (<[t := th']> (sy_threads s))) m.
Proof.
  intros Hi Hl Hnone H0 Hv [(_ & -> & ->)|(_ & -> & ->)]%lcm_retry_spec; (split; [constructor|]).
  - apply (lcm_inv_same s m t th); [done|done|by intros k v ?%Hnone|].
    split; [unfold next_key; nia|done].
  - by apply (lcm_inv_same s m t th); [| |intros k v ?%Hnone|].
Qed.

(** A handle is where its thread believes it is. *)
Lemma lcm_inv_at (s : system) (m : handles) (t : nat) (key value : Z) :
  lcm_inv s m → m !! key = Some (t, value) → lcm_at (sy_array s) key = Some value.
Proof. intros Hi H. by destruct (inv_handle _ _ Hi key _ H) as (_ & _ & ? & _). Qed.

Ltac lcm_not_held := by intros ? ? [?|?].

Lemma lcm_step_refines (nbits : Z) (s s' : system) (m : handles) (t : nat) (e : event) :
  0 ≤ nbits → lcm_inv s m → sys_step nbits s t e s' → ∃ m', spec_step t e m m' ∧ lcm_inv s' m'.
Proof.
  intros Hn Hi [th act a' th' _ Hl Hask E].
  pose proof (inv_thread _ _ Hi t th Hl) as Hok.
  destruct th as [|i key value|i key value|key value|key value val|], act as [v| | |];
    try discriminate E; cbn [thread_step thread_ok asks_address] in *.
  - injection E as <- <- <-. exists m. split; [constructor|].
    apply (lcm_inv_same s m t Idle); [done|done|lcm_not_held|].
    split; [by apply lcm_hash_bounds|done].
  - destruct Hok as [H0 Hv]. destruct (lcm_at (sy_array s) key) as [val|] eqn:Ha.
    + case_match.
      * injection E as <- <- <-. exists m. split; [constructor|].
        apply (lcm_inv_same s m t (Testing i key value)); [done|done|lcm_not_held|done..].
      * destruct (lcm_retry i key value) as [e1 th1] eqn:Er. injection E as <- <- <-.
        exists m. apply (lcm_inv_retry s m t (Testing i key value) th1 i key value); [done|done|lcm_not_held|done..].
    + injection E as <- <- <-. exists m. split; [constructor|].
      apply (lcm_inv_same s m t (Testing i key value)); [done|done|lcm_not_held|done..].
  - destruct Hok as [H0 Hv]. destruct (lcm_at (sy_array s) key) as [val|] eqn:Ha.
    + case_match.
      * injection E as <- <- <-. assert (val = LCM_ARCHIVE_EMPTY) as -> by lia.
        destruct (lcm_inv_put s m t (Swapping i key value) key value) as [Hm Hi']; [done|done|lcm_not_held|done|done|done|].
        exists (<[key := (t, value)]> m). by split; [constructor|].
      * destruct (lcm_retry i key value) as [e1 th1] eqn:Er. injection E as <- <- <-.
        exists m. apply (lcm_inv_retry s m t (Swapping i key value) th1 i key value); [done|done|lcm_not_held|done..].
    + injection E as <- <- <-. exists m. split; [constructor|].
      apply (lcm_inv_same s m t (Swapping i key value)); [done|done|lcm_not_held|done..].
  - rewrite (lcm_inv_at s m t key value Hi Hok) in E. injection E as <- <- <-.
    exists m. split; [by constructor|]. by apply (lcm_inv_same s m t (Holding key value)).
  - rewrite (lcm_inv_at s m t key value Hi Hok) in E. injection E as <- <- <-.
    exists m. split; [constructor|]. apply (lcm_inv_same s m t (Holding key value)); [done|done| |done].
    intros k v [[= -> ->]|?]; [by right|done].
  - destruct Hok as [Hm ->]. rewrite (lcm_inv_at s m t key value Hi Hm) in E. injection E as <- <- <-.
    exists (delete key m). split; [by constructor|by apply (lcm_inv_remove s m t key value)].
Qed.

(** C28: whatever the threads do and however their accesses to the array
    interleave, what they see is what a table of handles shows: a put gets a key
    that is free, at most one thread holds a key at a time, the holder reads the
    value it put, and [LCM_archive_remove] returns that value and frees the key.
    The array holds a value at exactly the keys that are in use. *)
Theorem lcm_refines (nbits : Z) (n : nat) (tr : list (nat * event)) (s : system)
    (Hn : 0 ≤ nbits) (Hr : sys_run nbits (sys_start nbits n) tr s) :
  ∃ m, spec_run tr m ∧
    (∀ key t value, m !! key = Some (t, value) →
      ∃ th, sy_threads s !! t = Some th ∧ holds th key value) ∧
    (∀ t th key value, sy_threads s !! t = Some th → holds th key value → m !! key = Some (t, value)) ∧
    (∀ key value, 0 ≤ key → value ≠ LCM_ARCHIVE_EMPTY →
      lcm_at (sy_array s) key = Some value ↔ ∃ t, m !! key = Some (t, value)).
Proof.
  assert (Hex : ∃ m, spec_run tr m ∧ lcm_inv s m).
  { induction Hr as [|tr s1 t e s2 _ (m & Hm & Hi) Hs].
    - exists ∅. split; [constructor|apply lcm_inv_start].
    - destruct (lcm_step_refines nbits s1 s2 m t e Hn Hi Hs) as (m' & Hsp & Hi').
      exists m'. by split; [apply (SpecSnoc tr m t e m')|]. }
  destruct Hex as (m & Hm & Hi). exists m. repeat split; [done|..].
  - intros key t value H. by destruct (inv_handle _ _ Hi key _ H) as (_ & _ & _ & ?).
  - intros t th key value Hl Hh. pose proof (inv_thread _ _ Hi t th Hl) as Hok.
    destruct Hh as [-> | ->]; [done|apply Hok].
  - by apply (inv_cell _ _ Hi).
  - intros [t Hk]. by apply (lcm_inv_at s m t).
Qed.

(** ** The bounds of the array *)

(** How far try [i] is from the first key. *)
Definition probe_offset (i : Z) : Z := if i =? 1 then 0 else if i =? 2 then 1 else 5.

(** The keys of a thread come from a value whose tries stay inside. *)
Definition thread_inside (nbits : Z) (th : thread) : Prop :=
  match th with
  | Idle => True
  | Testing i key value | Swapping i key value =>
      1 ≤ i ≤ LCM_ARCHIVE_NTRY ∧ key = lcm_hash nbits value + probe_offset i ∧
      lcm_hash nbits value + probe_offset LCM_ARCHIVE_NTRY < 2 ^ nbits
  | Holding key _ | Removing key _ _ => 0 ≤ key < 2 ^ nbits
  | Crashed => False
  end.

Record sys_inside (nbits : Z) (s : system) : Prop := {
  inside_length : Z.of_nat (length (sy_array s)) = 2 ^ nbits;
  inside_thread : ∀ t th, sy_threads s !! t = Some th → thread_inside nbits th }.

Lemma next_key_offset (nbits i value : Z) :
  1 ≤ i < LCM_ARCHIVE_NTRY →
  next_key i (lcm_hash nbits value + probe_offset i) = lcm_hash nbits value + probe_offset (i + 1).
Proof.
  unfold LCM_ARCHIVE_NTRY. intros H. generalize (lcm_hash nbits value) as h.
  intros h. assert (i = 1 ∨ i = 2) as [-> | ->] by lia; unfold next_key, probe_offset; repeat case_match; lia.
Qed.

Lemma probe_inside (nbits i key value : Z) :
  0 ≤ nbits → thread_inside nbits (Testing i key value) → 0 ≤ key < 2 ^ nbits.
Proof.
  intros Hn (Hi & -> & H). pose proof (lcm_hash_bounds nbits value Hn) as Hh. revert Hh H.
  generalize (lcm_hash nbits value) as h. unfold probe_offset, LCM_ARCHIVE_NTRY in *.
  intros h Hh H. repeat case_match; lia.
Qed.

Lemma lcm_retry_inside (nbits i key value : Z) (e : event) (th : thread) :
  thread_inside nbits (Testing i key value) → lcm_retry i key value = (e, th) →
  thread_inside nbits th ∧ ∀ k, e ≠ EOutside k.
Proof.
  intros (Hi & -> & H) [(Hlt & -> & ->)|(_ & -> & ->)]%lcm_retry_spec; (split; [|done]); [|done].
  split; [lia|]. by rewrite next_key_offset by lia.
Qed.

(** One access of a thread that is inside. *)
Lemma thread_step_inside (nbits : Z) (act : action) (a a' : list Z) (th th' : thread) (e : event) :
  0 ≤ nbits → Z.of_nat (length a) = 2 ^ nbits → thread_inside nbits th →
  (∀ v, e = EAsk v → lcm_hash nbits v + probe_offset LCM_ARCHIVE_NTRY < 2 ^ nbits) →
  thread_step nbits act a th = Some (e, a', th') →
  Z.of_nat (length a') = 2 ^ nbits ∧ thread_inside nbits th' ∧ ∀ k, e ≠ EOutside k.
Proof.
  intros Hn Hlen Hth Hask E.
  assert (Hat : ∀ key, 0 ≤ key < 2 ^ nbits → is_Some (lcm_at a key)) by (intros; apply lcm_at_length; lia).
  destruct th as [|i key value|i key value|key value|key value val|], act as [v| | |];
    try discriminate E; cbn [thread_step] in E.
  - injection E as <- <- <-. split; [done|]. split; [|done].
    split; [unfold LCM_ARCHIVE_NTRY; lia|]. split; [unfold probe_offset; case_match; lia|by apply Hask].
  - pose proof (probe_inside nbits i key value Hn Hth) as Hk. destruct (Hat key Hk) as [val Ha].
    rewrite Ha in E. case_match; [by injection E as <- <- <-|].
    destruct (lcm_retry i key value) as [e1 th1] eqn:Er. injection E as <- <- <-.
    split; [done|by apply (lcm_retry_inside nbits i key value)].
  - pose proof (probe_inside nbits i key value Hn Hth) as Hk. destruct (Hat key Hk) as [val Ha].
    rewrite Ha in E. case_match; [injection E as <- <- <-; by rewrite length_insert|].
    destruct (lcm_retry i key value) as [e1 th1] eqn:Er. injection E as <- <- <-.
    split; [done|by apply (lcm_retry_inside nbits i key value)].
  - destruct (Hat key Hth) as [x Ha]. rewrite Ha in E. by injection E as <- <- <-.
  - destruct (Hat key Hth) as [x Ha]. rewrite Ha in E. by injection E as <- <- <-.
  - destruct (Hat key Hth) as [x Ha]. rewrite Ha in E. injection E as <- <- <-. by rewrite length_insert.
Qed.

(** C29: the keys that are tried are not masked: they grow up to five places
    beyond the hash of the value.  When the hash of each value that is put is at
    least six places before the end of the array, no thread ever reaches outside
    of it. *)
Theorem lcm_stays_inside (nbits : Z) (n : nat) (tr : list (nat * event)) (s : system)
    (Hn : 0 ≤ nbits) (Hr : sys_run nbits (sys_start nbits n) tr s)
    (Hput : ∀ t value, (t, EAsk value) ∈ tr → lcm_hash nbits value + 5 < 2 ^ nbits) :
  (∀ t key, (t, EOutside key) ∉ tr) ∧ Crashed ∉ sy_threads s.
Proof.
  assert (Hex : sys_inside nbits s ∧ ∀ t key, (t, EOutside key) ∉ tr).
  { induction Hr as [|tr s1 t e s2 _ IH [th act a' th' _ Hl _ E]].
    - split; [split|by intros ? ? ?%elem_of_nil].
      + cbn [sys_start sy_array]. rewrite length_replicate. lia.
      + intros t th H. by apply lookup_replicate in H as [-> _].
    - destruct IH as [[Hlen Hth] Hout]; [intros u v H; apply (Hput u v); set_solver|].
      destruct (thread_step_inside nbits act (sy_array s1) a' th th' e) as (Hlen' & Hth' & He);
        [done|done|by apply (Hth t)| |done|].
      + intros v ->. apply (Hput t v). set_solver.
      + split; [split; [done|]|].
        * intros u thu [[-> [<- _]]|[_ Hu]]%list_lookup_insert_Some; [done|by apply (Hth u)].
        * intros u k [H|H%list_elem_of_singleton]%elem_of_app; [by apply Hout in H|].
          injection H as -> H. by apply (He k). }
  destruct Hex as [[_ Hth] Hout]. split; [done|].
  intros [t Hl]%list_elem_of_lookup. by apply Hth in Hl.
Qed.

(** ** Running a schedule *)

(** The steps of the given threads with what each asks for. *)
Fixpoint sys_exec (nbits : Z) (s : system) (l : list (nat * action)) : option (list (nat * event) * system) :=
  match l with
  | [] => Some ([], s)
  | (t, act) :: l =>
      guard (Crashed ∉ sy_threads s);; guard (asks_address act);;
      th ← sy_threads s !! t;
      '(e, a', th') ← thread_step nbits act (sy_array s) th;
      '(tr, s') ← sys_exec nbits (System a' (<[t := th']> (sy_threads s))) l;
      Some ((t, e) :: tr, s')
  end.

Lemma RunCons (nbits : Z) (s s1 s2 : system) (t : nat) (e : event) (tr : list (nat * event)) :
  sys_step nbits s t e s1 → sys_run nbits s1 tr s2 → sys_run nbits s ((t, e) :: tr) s2.
Proof.
  intros Hs. induction 1 as [|tr s2 u e' s3 _ IH Hu].
  - apply (RunSnoc nbits s [] s t e s1); [constructor|done].
  - by apply (RunSnoc nbits s ((t, e) :: tr) s2).
Qed.

Lemma RunStep (nbits : Z) (a a' : list Z) (ths : list thread) (t : nat) (th : thread) (act : action)
    (e : event) (th' : thread) (tr : list (nat * event)) (s : system) :
  Crashed ∉ ths → asks_address act → ths !! t = Some th → thread_step nbits act a th = Some (e, a', th') →
  sys_run nbits (System a' (<[t := th']> ths)) tr s → sys_run nbits (System a ths) ((t, e) :: tr) s.
Proof. intros H1 H2 H3 H4. apply RunCons. by apply (SysStep nbits (System a ths) t e th act). Qed.

Lemma sys_exec_run (nbits : Z) (l : list (nat * action)) (s s' : system) (tr : list (nat * event)) :
  sys_exec nbits s l = Some (tr, s') → sys_run nbits s tr s'.
Proof.
  revert s tr. induction l as [|[t act] l IH]; cbn [sys_exec]; intros s tr E.
  - injection E as <- <-. constructor.
  - simplify_option_eq.
    match goal with
    | Hl : sy_threads s !! t = Some ?th, Hs : thread_step nbits act _ ?th = Some ?r |- _ =>
        destruct r as [[e a'] th']; rename th into th0, Hl into Hth, Hs into Hstep
    end.
    destruct (sys_exec _ _ l) as [[tr' s2]|] eqn:He; [|done]. injection E as <- <-.
    apply (RunCons nbits s (System a' (<[t := th']> (sy_threads s))));
      [by apply (SysStep nbits s t e th0 act)|by apply IH].
Qed.

(** ** What a thread meets *)

(** What a put that nobody disturbs comes to, given what the function does. *)
Definition put_outcome (a : list Z) (value : Z) (r : outcome (option Z * list Z))
    (r' : option (event * list Z * thread)) : Prop :=
  match r with
  | Done (Some key, a') => r' = Some (EPut key value, a', Holding key value)
  | Done (None, a') => r' = Some (ERetry value, a', Idle)
  | _ => ∃ key, lcm_at a key = None ∧ r' = Some (EOutside key, a, Crashed)
  end.

Lemma alone_S (n : nat) (nbits : Z) (a : list Z) (th : thread) :
  alone (S n) nbits a th =
  match thread_step nbits AGoOn a th with Some (ETau, a', th') => alone n nbits a' th' | r => r end.
Proof. done. Qed.

Lemma alone_tries (nbits value : Z) (a : list Z) (n m : nat) (i key : Z) :
  (1 ≤ n)%nat → (2 * n ≤ m)%nat → i = LCM_ARCHIVE_NTRY + 1 - Z.of_nat n →
  put_outcome a value (put_tries n i key value a) (alone m nbits a (Testing i key value)).
Proof.
  revert m i key. induction n as [|n IH]; intros m i key Hn Hm Hi; [lia|].
  destruct m as [|m]; [lia|]. rewrite alone_S. cbn [put_tries thread_step].
  destruct (lcm_at a key) as [val|] eqn:Ha; [|by exists key].
  destruct (val =? LCM_ARCHIVE_EMPTY) eqn:Hv.
  { destruct m as [|m]; [lia|]. rewrite alone_S. cbn [thread_step]. by rewrite Ha, Hv. }
  unfold lcm_retry. destruct (i <? LCM_ARCHIVE_NTRY) eqn:Hlt; [apply IH; lia|].
  assert (n = 0%nat) as -> by lia. done.
Qed.

(** A put that nobody disturbs does in its steps what the function
    [LCM_archive_put] does: it takes the first key of the three that is free. *)
Theorem lcm_put_alone (nbits value : Z) (a : list Z) :
  put_outcome a value (LCM_archive_put (LcmArchive (Some a) nbits) value)
    (alone 6 nbits a (Testing 1 (lcm_hash nbits value) value)).
Proof. by apply (alone_tries nbits value a 3); [lia|lia|]. Qed.

(** A new value gets the place of its hash in an empty archive. *)
Lemma put_first (nbits value : Z) (n : nat) :
  0 ≤ nbits →
  put_tries (S n) 1 (lcm_hash nbits value) value (replicate (Z.to_nat (2 ^ nbits)) LCM_ARCHIVE_EMPTY) =
  Done (Some (lcm_hash nbits value),
    <[Z.to_nat (lcm_hash nbits value) := value]> (replicate (Z.to_nat (2 ^ nbits)) LCM_ARCHIVE_EMPTY)).
Proof.
  intros Hn. cbn [put_tries]. pose proof (lcm_hash_bounds nbits value Hn) as Hb.
  assert (lcm_at (replicate (Z.to_nat (2 ^ nbits)) LCM_ARCHIVE_EMPTY) (lcm_hash nbits value) =
    Some LCM_ARCHIVE_EMPTY) as -> by (apply lookup_replicate; lia).
  by rewrite Z.eqb_refl.
Qed.

(** What a put has stored is found, and taken out again. *)
Lemma put_found (nbits value key : Z) (a a' : list Z) :
  LCM_archive_put (LcmArchive (Some a) nbits) value = Done (Some key, a') →
  LCM_archive_get (LcmArchive (Some a') nbits) key = Done value ∧
  LCM_archive_remove (LcmArchive (Some a') nbits) key = Done (value, a).
Proof.
  intros E. unfold LCM_archive_put in E. cbn [lcm_ptr lcm_nbits] in E. revert E.
  generalize (Z.to_nat LCM_ARCHIVE_NTRY) as n, (lcm_hash nbits value) as k. intros n.
  generalize 1 as i. induction n as [|n IH]; intros i k E; [done|].
  cbn [put_tries] in E. destruct (lcm_at a k) as [val|] eqn:Ha; [|done]. case_match; [|by apply IH in E].
  injection E as <- <-. assert (val = LCM_ARCHIVE_EMPTY) as -> by lia.
  unfold LCM_archive_get, LCM_archive_remove, lcm_at. cbn [lcm_ptr].
  rewrite list_lookup_insert_eq by by eapply lookup_lt_Some.
  by rewrite list_insert_insert_eq, list_insert_id.
Qed.

(** A fresh archive is empty, and a new value gets the place of its hash. *)
Theorem lcm_init_put (file : cstr) (nbits value : Z) (s : mlog) (Hn : 0 ≤ nbits ≤ 30) :
  ∃ archive, LCM_archive_init file 0 nbits s = (Done (LCM_SUCCESS, archive), s) ∧
    (∀ key, 0 ≤ key < 2 ^ nbits → LCM_archive_get archive key = Done LCM_ARCHIVE_EMPTY) ∧
    ∃ a, LCM_archive_put archive value = Done (Some (lcm_hash nbits value), a).
Proof.
  set (a := replicate (Z.to_nat (2 ^ nbits)) LCM_ARCHIVE_EMPTY).
  assert (Ha : ∀ key, 0 ≤ key < 2 ^ nbits → lcm_at a key = Some LCM_ARCHIVE_EMPTY).
  { intros key Hk. apply lookup_replicate. lia. }
  exists (LcmArchive (Some a) nbits). split; [|split].
  - unfold LCM_archive_init. replace ((nbits <? 0) || (30 <? nbits)) with false by lia. done.
  - intros key Hk. unfold LCM_archive_get. cbn [lcm_ptr]. by rewrite Ha.
  - eexists. unfold LCM_archive_put. cbn [lcm_ptr lcm_nbits]. apply put_first. lia.
Qed.

(** A value that has been put is found under its key, and taking it out
    again leaves the array as it was. *)
Theorem lcm_put_roundtrip (nbits value key : Z) (a a' : list Z)
    (E : LCM_archive_put (LcmArchive (Some a) nbits) value = Done (Some key, a')) :
  LCM_archive_get (LcmArchive (Some a') nbits) key = Done value ∧
  LCM_archive_remove (LcmArchive (Some a') nbits) key = Done (value, a).
Proof. by apply put_found. Qed.

(** A value whose hash is the last place. *)
Definition last_value (nbits : Z) : Z := 2 ^ (nbits + 6) - 1.

Lemma last_value_hash (nbits : Z) : 0 ≤ nbits → lcm_hash nbits (last_value nbits) = 2 ^ nbits - 1.
Proof.
  intros H. unfold lcm_hash, last_value. rewrite Z.shiftr_div_pow2, Z.pow_add_r by lia.
  replace ((2 ^ nbits * 2 ^ 6 - 1) / 2 ^ 6) with (2 ^ nbits - 1); [apply Z.land_diag|].
  apply (Z.div_unique_pos _ _ _ 63); lia.
Qed.

Ltac no_crash := cbn [insert list_insert]; rewrite !not_elem_of_cons; repeat split; [done..|apply not_elem_of_nil].

(** There are values that take two threads out of the array: the second one
    finds the last place taken and goes on behind it. *)
Theorem lcm_overruns (nbits : Z) (Hn : 0 ≤ nbits ≤ 30) :
  ∃ value s, sys_run nbits (sys_start nbits 2)
    [(0%nat, EAsk value); (0%nat, ETau); (0%nat, EPut (2 ^ nbits - 1) value);
     (1%nat, EAsk value); (1%nat, ETau); (1%nat, EOutside (2 ^ nbits))] s.
Proof.
  set (v := last_value nbits). set (k := 2 ^ nbits - 1).
  assert (Hp : 0 < 2 ^ nbits) by lia.
  assert (Hh : lcm_hash nbits v = k) by (apply last_value_hash; lia).
  set (a := replicate (Z.to_nat (2 ^ nbits)) LCM_ARCHIVE_EMPTY).
  assert (Ha : lcm_at a k = Some LCM_ARCHIVE_EMPTY) by (apply lookup_replicate; lia).
  assert (Hv : v =? LCM_ARCHIVE_EMPTY = false).
  { unfold v, last_value, LCM_ARCHIVE_EMPTY. rewrite Z.pow_add_r by lia. lia. }
  assert (Hb : lcm_at (<[Z.to_nat k := v]> a) k = Some v).
  { rewrite lcm_at_insert by (done || lia). by rewrite Z.eqb_refl. }
  assert (Ho : lcm_at (<[Z.to_nat k := v]> a) (2 ^ nbits) = None).
  { apply lookup_ge_None. rewrite length_insert. unfold a. rewrite length_replicate. lia. }
  exists v. eexists. unfold sys_start. fold a. cbn [replicate].
  eapply (RunStep nbits _ _ _ 0 Idle (APut v)); [no_crash|cbn; lia|done|done|].
  cbn [insert list_insert]. rewrite Hh.
  eapply (RunStep nbits _ _ _ 0 _ AGoOn); [no_crash|done|done|cbn [thread_step]; by rewrite Ha|].
  eapply (RunStep nbits _ _ _ 0 _ AGoOn); [no_crash|done|done|cbn [thread_step]; by rewrite Ha|].
  eapply (RunStep nbits _ _ _ 1 Idle (APut v)); [no_crash|cbn; lia|done|done|].
  cbn [insert list_insert]. rewrite Hh.
  eapply (RunStep nbits _ _ _ 1 _ AGoOn); [no_crash|done|done|cbn [thread_step]; by rewrite Hb, Hv|].
  eapply (RunStep nbits _ _ _ 1 _ AGoOn); [no_crash|done|done|cbn [thread_step]|constructor].
  replace (next_key 1 k) with (2 ^ nbits) by (unfold next_key, k; lia). by rewrite Ho.
Qed.

(** ** Two threads that race for a key *)

Definition race : list (nat * action) :=
  [(0%nat, APut 64); (1%nat, APut 1088); (0%nat, AGoOn); (1%nat, AGoOn); (0%nat, AGoOn); (1%nat, AGoOn);
   (1%nat, AGoOn); (1%nat, AGoOn); (1%nat, AGet); (0%nat, ARemove); (0%nat, AGoOn)].

Definition race_trace : list (nat * event) :=
  [(0%nat, EAsk 64); (1%nat, EAsk 1088); (0%nat, ETau); (1%nat, ETau); (0%nat, EPut 1 64); (1%nat, ETau);
   (1%nat, ETau); (1%nat, EPut 2 1088); (1%nat, EGet 2 1088); (0%nat, ETau); (0%nat, ERemove 1 64)].

Definition race_end : system :=
  System (<[2%nat := 1088]> (replicate 16 LCM_ARCHIVE_EMPTY)) [Idle; Holding 2 1088].

Lemma race_run : sys_run 4 (sys_start 4 2) race_trace race_end.
Proof. apply (sys_exec_run 4 race). vm_compute. reflexivity. Qed.

Lemma lcm_refines_witness : ∃ m, spec_run race_trace m ∧ m !! 2 = Some (1%nat, 1088).
Proof.
  assert (Hn : 0 ≤ 4) by lia. destruct (lcm_refines 4 2 race_trace race_end Hn race_run) as (m & Hs & _ & Hm & _).
  exists m. split; [exact Hs|]. apply (Hm 1%nat (Holding 2 1088)); [reflexivity|left; reflexivity].
Defined.

Lemma lcm_stays_inside_witness : Crashed ∉ sy_threads race_end.
Proof.
  assert (Hn : 0 ≤ 4) by lia. apply (lcm_stays_inside 4 2 race_trace race_end Hn race_run).
  intros t value H. unfold race_trace in H. rewrite !elem_of_cons, elem_of_nil in H.
  destruct_or! H; try discriminate H; try done; injection H as _ ->; vm_compute; reflexivity.
Defined.

Lemma lcm_put_roundtrip_witness :
  LCM_archive_remove (LcmArchive (Some [0; 64; 1088; 0]) 2) 2 = Done (1088, [0; 64; 0; 0]).
Proof. apply (lcm_put_roundtrip 2 1088 2 [0; 64; 0; 0] [0; 64; 1088; 0]). vm_compute. reflexivity. Defined.

Lemma lcm_overruns_witness : ∃ value s, sys_run 10 (sys_start 10 2)
    [(0%nat, EAsk value); (0%nat, ETau); (0%nat, EPut 1023 value);
     (1%nat, EAsk value); (1%nat, ETau); (1%nat, EOutside 1024)] s.
Proof. apply (lcm_overruns 10). lia. Defined.
