(* ===== verification/PmStore.v ===== *)
(** * What a wrapper promises to a program that starts through it

    The pairs a rank has published, and those it can look up: the interface against
    which [IbvInit] is proved, and the wrapper over MPI as an implementation of it.
    What a barrier adds depends on the other ranks, and is said where a job is put
    together. *)

From S2P Require Import Prelude CLib PmWrapper.
From S2P Require PmMpi PmMpiSpec.

Local Open Scope Z_scope.

(** A name and a value, each within 255 characters; the first value of a name. *)
Abbreviation kv := (cstr * cstr)%type.
Abbreviation kv_ok := PmMpiSpec.kv_ok.
Abbreviation first_value := PmMpiSpec.first_value.

(** [ps_holds t b g l]: the state [t] is one behind [b] barriers, the pairs [g] can be
    looked up, and the pairs [l] have been published since the last barrier; a rank
    publishes up to [ps_room] pairs. *)
Class PmStore (S : Type) (PM : PmWrapper S) := {
  ps_holds : S → nat → list kv → list kv → Prop;
  ps_room : Z;
  ps_publish t b g l p :
    ps_holds t b g l → kv_ok p → Z.of_nat (length l) < ps_room →
    ∃ t', pm_publish p.1 p.2 t = (Done tt, t') ∧ ps_holds t' b g (l ++ [p]);
  ps_getname t b g l key v :
    ps_holds t b g l → first_value key g = Some v → strlen v < PmMpi.STRING_LIMIT →
    ∃ t', pm_getname key t = (Done (Some v), t') ∧ ps_holds t' b g l }.

(** The wrapper over MPI, whose arrays grow by doubling an [int]; a barrier makes two
    calls of the library. *)
#[global] Program Instance mpi_store (W : PmMpi.mpi_env) (Halloc : ∀ n, PmMpi.env_alloc W n = true) :
    PmStore PmMpi.pm_mpi (mpi_wrapper W) := {|
  ps_holds t b g l := (∃ k, PmMpiSpec.kvs t g l k) ∧ PmMpi.calls t = (2 * b)%nat;
  ps_room := 2 ^ 30 - 1 |}.
Next Obligation.
  intros W Halloc t b g l p [[k Hk] Hb] Hp Hl. destruct (PmMpiSpec.publish_ok W Halloc t g l k p Hk Hp) as (t' & E & K & C).
  { unfold int_max. lia. }
  exists t'. split; [exact E|]. split; [by exists k|congruence].
Qed.
Next Obligation.
  intros W Halloc t b g l key v [[k Hk] Hb] Hv Hl. exists t. split; [|split; [by exists k|done]].
  cbn [pm_getname mpi_wrapper]. pose proof (PmMpiSpec.getname_ok t g l k key PmMpi.STRING_LIMIT Hk) as E.
  rewrite Hv in E. replace (PmMpi.STRING_LIMIT <=? strlen v) with false in E.
  - by rewrite (bind_done _ _ _ _ _ E).
  - symmetry. apply Z.leb_gt. exact Hl.
Qed.

(** A name that only one value is published for. *)
Lemma first_value_only key v (g : list kv) :
  (key, v) ∈ g → (∀ w, (key, w) ∈ g → w = v) → first_value key g = Some v.
Proof.
  induction g as [|[k w] g IH]; intros Hin Hone; [by apply elem_of_nil in Hin|]. cbn.
  unfold str_eq. destruct (decide (k = key)) as [->|Hne].
  - rewrite bool_decide_true by done. f_equal. apply Hone. by left.
  - rewrite bool_decide_false by done. apply elem_of_cons in Hin as [[= ? ?]|Hin]; [by subst|].
    apply IH; [done|]. intros w' Hw'. apply Hone. by right.
Qed.
