(* ===== verification/DeviceConfig.v ===== *)
(** * The numbers of [DeviceConfig] (benchmarks/ibv_common.hpp)

    The defaults that no benchmark changes; the inline size and the size of the
    memory region are set by each. *)

From S2P Require Import Prelude.

Local Open Scope Z_scope.

Definition send_inline : bool := true.
Definition max_send_num : Z := 8.
Definition max_recv_num : Z := 8.
Definition min_recv_num : Z := 8.
Definition max_cqe_num : Z := max_recv_num + 1.
