(* ===== verification/RankTable.v ===== *)
(** * The table of ranks (the end of [init] in benchmarks/ibv_common.hpp)

    The rank of a peer is found by the number of the queue pair to it, modulo a
    number that [init] searches for: the least one, from the number of ranks on, for
    which no two queue pairs fall together. *)

From Stdlib Require Import ZifyBool.
From S2P Require Import Prelude CLib.

Local Open Scope Z_scope.

Definition INT32_MAX : Z := 2147483647.

(** ** A loop with a number of rounds in binary

    [loop_pos step n s]: at most [n] rounds, ended early by [inr]. *)
Section loop.
Context {S A : Type} (step : S → S + A).

Fixpoint loop_nat (n : nat) (s : S) : S + A :=
  match n with
  | O => inl s
  | Datatypes.S n => match step s with inl s => loop_nat n s | inr a => inr a end
  end.

Fixpoint loop_pos (n : positive) (s : S) : S + A :=
  match n with
  | xH => step s
  | xO n => match loop_pos n s with inl s => loop_pos n s | inr a => inr a end
  | xI n =>
      match step s with
      | inl s => match loop_pos n s with inl s => loop_pos n s | inr a => inr a end
      | inr a => inr a
      end
  end.

Lemma loop_nat_add n m s :
  loop_nat (n + m) s = match loop_nat n s with inl s => loop_nat m s | inr a => inr a end.
Proof using. revert s. induction n as [|n IH]; intros s; cbn; [done|]. destruct (step s); [apply IH|done]. Qed.

Lemma loop_pos_nat n s : loop_pos n s = loop_nat (Pos.to_nat n) s.
Proof using.
  revert s. induction n as [n IH|n IH|]; intros s; cbn [loop_pos].
  - replace (Pos.to_nat n~1) with (Datatypes.S (Pos.to_nat n + Pos.to_nat n)) by lia. cbn [loop_nat].
    destruct (step s) as [s1|]; [|done].
    rewrite loop_nat_add, <-IH. destruct (loop_pos n s1); [apply IH|done].
  - replace (Pos.to_nat n~0) with (Pos.to_nat n + Pos.to_nat n)%nat by lia.
    rewrite loop_nat_add, <-IH. destruct (loop_pos n s); [apply IH|done].
  - change (Pos.to_nat 1) with 1%nat. cbn [loop_nat]. by destruct (step s).
Qed.
End loop.

(** ** The search *)

(** [b[k] = v]. *)
Definition store (k v : Z) (b : list Z) : list Z := <[Z.to_nat k := v]> b.

(** The inner loop: the places of the numbers [qpns] are marked in [b]; [None] when
    one is marked already. *)
Fixpoint mark (j : Z) (qpns : list Z) (b : list Z) : option (list Z) :=
  match qpns with
  | [] => Some b
  | q :: qpns =>
      let k := q mod j in
      v ← b !! Z.to_nat k;
      if v <>z 0 then None else mark j qpns (store k 1 b)
  end.

(** One round of the outer loop; [calloc] succeeds. *)
Definition try_mod (qpns : list Z) (j : Z) : Z + (Z * list Z) :=
  match mark j qpns (replicate (Z.to_nat j) 0) with
  | Some b => inr (j, b)
  | None => inl (j + 1)
  end.

(** The loop that stores the ranks from [i] on. *)
Fixpoint fill (j i : Z) (qpns : list Z) (b : list Z) : list Z :=
  match qpns with
  | [] => b
  | q :: qpns => fill j (i + 1) qpns (store (q mod j) i b)
  end.

(** [qp2rank_mod] and [qp2rank], when the assertion holds; [qpns] are the numbers of
    the queue pairs in the order of the ranks. *)
Definition make_table (qpns : list Z) : option (Z * list Z) :=
  let nranks := Z.of_nat (length qpns) in
  match INT32_MAX - nranks with
  | Zpos n =>
      match loop_pos (try_mod qpns) n nranks with
      | inr (j, b) => Some (j, fill j 0 qpns b)
      | inl _ => None
      end
  | _ => None
  end.

(** ** What it finds *)

(** No two of the numbers fall together. *)
Definition apart (j : Z) (qpns : list Z) : Prop := NoDup ((λ q, q mod j) <$> qpns).

Lemma apart_cons j q qpns : apart j (q :: qpns) ↔ q mod j ∉ (λ q, q mod j) <$> qpns ∧ apart j qpns.
Proof. apply NoDup_cons. Qed.

Lemma store_length k v b : length (store k v b) = length b.
Proof. apply length_insert. Qed.

Lemma store_lookup k v b i :
  0 ≤ k → 0 ≤ i < Z.of_nat (length b) →
  store k v b !! Z.to_nat i = if i =? k then Some v else b !! Z.to_nat i.
Proof.
  intros Hk Hi. unfold store. destruct (Z.eqb_spec i k) as [->|Hne].
  - apply list_lookup_insert_eq. lia.
  - apply list_lookup_insert_ne. lia.
Qed.

(** The numbers that are marked so far. *)
Definition marks (done : list Z) (j : Z) (b : list Z) : Prop :=
  length b = Z.to_nat j ∧ ∀ k, 0 ≤ k < j → ∃ v, b !! Z.to_nat k = Some v ∧ (v ≠ 0 ↔ k ∈ (λ q, q mod j) <$> done).

Lemma mark_spec j qpns done b :
  0 < j → marks done j b →
  match mark j qpns b with
  | Some b' => apart j qpns ∧ (∀ q, q ∈ qpns → q mod j ∉ (λ q, q mod j) <$> done) ∧ length b' = Z.to_nat j
  | None => ~ (apart j qpns ∧ ∀ q, q ∈ qpns → q mod j ∉ (λ q, q mod j) <$> done)
  end.
Proof.
  intros Hj. revert done b. induction qpns as [|q qpns IH]; intros done b [Hl Hb]; cbn [mark].
  { split; [apply NoDup_nil_2|]. split; [|done]. intros q Hq. by apply elem_of_nil in Hq. }
  pose proof (Z.mod_pos_bound q j Hj) as Hq. destruct (Hb (q mod j) Hq) as (v & -> & Hv). cbn [mbind option_bind].
  destruct (Z.eqb_spec v 0) as [->|Hne]; cbn [negb].
  2:{ intros [_ H]. apply (H q); [by left|]. by apply Hv. }
  assert (marks (q :: done) j (store (q mod j) 1 b)) as Hm.
  { split; [by rewrite store_length|]. intros k Hk. rewrite store_lookup by lia.
    rewrite fmap_cons. setoid_rewrite elem_of_cons. destruct (Z.eqb_spec k (q mod j)) as [->|Hne].
    - exists 1. split; [done|]. split; [by left|done].
    - destruct (Hb k Hk) as (v & -> & Hv'). exists v. split; [done|]. rewrite Hv'. tauto. }
  specialize (IH _ _ Hm).
  assert ((∀ q', q' ∈ q :: qpns → q' mod j ∉ (λ q, q mod j) <$> done) ↔
    (∀ q', q' ∈ qpns → q' mod j ∉ (λ q, q mod j) <$> done)) as Hcons.
  { split; [intros H q' Hq'; apply H; by right|]. intros H q' [->|Hq']%elem_of_cons; [|by apply H]. tauto. }
  assert ((∀ q', q' ∈ qpns → q' mod j ∉ (λ q, q mod j) <$> (q :: done)) ↔
    q mod j ∉ (λ q, q mod j) <$> qpns ∧ ∀ q', q' ∈ qpns → q' mod j ∉ (λ q, q mod j) <$> done) as Hnext.
  { rewrite fmap_cons. split.
    - intros H. split.
      + intros (q' & E & Hq')%list_elem_of_fmap. apply (H q' Hq'). rewrite E. by left.
      + intros q' Hq' Hin. apply (H q' Hq'). by right.
    - intros [H1 H2] q' Hq' [E|Hin]%elem_of_cons; [|by apply (H2 q')].
      apply H1, list_elem_of_fmap. by exists q'. }
  pose proof (apart_cons j q qpns) as Hac. destruct (mark j qpns _) as [b'|]; [|tauto].
  destruct IH as (I1 & I2 & I3). split; [|split; [|done]]; tauto.
Qed.

Lemma try_mod_spec qpns j :
  0 < j →
  match try_mod qpns j with
  | inr (j', b) => j' = j ∧ apart j qpns ∧ length b = Z.to_nat j
  | inl j' => j' = j + 1 ∧ ~ apart j qpns
  end.
Proof.
  intros Hj. unfold try_mod.
  pose proof (mark_spec j qpns [] (replicate (Z.to_nat j) 0) Hj) as H.
  destruct (mark j qpns _) as [b|].
  - destruct H as (H1 & _ & H3); [|done]. split; [by rewrite length_replicate|]. intros k Hk. exists 0.
    rewrite lookup_replicate_2 by lia. split; [done|]. split; [done|by intros ?%elem_of_nil].
  - split; [done|]. intros Ha. apply H; [|split; [done|]].
    + split; [by rewrite length_replicate|]. intros k Hk. exists 0.
      rewrite lookup_replicate_2 by lia. split; [done|]. split; [done|by intros ?%elem_of_nil].
    + intros q _. apply not_elem_of_nil.
Qed.

(** The search stops at the first number that keeps the queue pairs apart. *)
Lemma search_spec qpns n j j1 :
  0 < j → j ≤ j1 < j + Z.of_nat n → apart j1 qpns → (∀ k, j ≤ k < j1 → ~ apart k qpns) →
  ∃ b, loop_nat (try_mod qpns) n j = inr (j1, b) ∧ length b = Z.to_nat j1.
Proof.
  revert j. induction n as [|n IH]; intros j Hj Hj1 Ha Hmin; [lia|]. cbn [loop_nat].
  pose proof (try_mod_spec qpns j Hj) as Ht. destruct (try_mod qpns j) as [j'|[j' b]].
  - destruct Ht as [-> Hn]. assert (j ≠ j1) by (intros ->; tauto).
    apply IH; [lia|lia|done|]. intros k Hk. apply Hmin. lia.
  - destruct Ht as (-> & Ha' & Hb). destruct (decide (j = j1)) as [->|Hne]; [by exists b|].
    exfalso. apply (Hmin j); [lia|done].
Qed.

Lemma table_lookup_other j i qpns b k :
  0 < j → length b = Z.to_nat j → 0 ≤ k < j → k ∉ (λ q, q mod j) <$> qpns →
  fill j i qpns b !! Z.to_nat k = b !! Z.to_nat k.
Proof.
  intros Hj. revert i b. induction qpns as [|q qpns IH]; intros i b Hb Hk Hn; cbn [fill]; [done|].
  rewrite fmap_cons, not_elem_of_cons in Hn. destruct Hn as [Hne Hn].
  pose proof (Z.mod_pos_bound q j Hj).
  rewrite IH by (done || by rewrite store_length). rewrite store_lookup by lia.
  by replace (k =? q mod j) with false by lia.
Qed.

Lemma table_lookup j i qpns b r q :
  0 < j → length b = Z.to_nat j → apart j qpns → qpns !! r = Some q →
  fill j i qpns b !! Z.to_nat (q mod j) = Some (i + Z.of_nat r).
Proof.
  intros Hj. revert i b r. induction qpns as [|q' qpns IH]; intros i b r Hb Ha Hr; [done|].
  apply apart_cons in Ha as [Hn Ha]. cbn [fill].
  pose proof (Z.mod_pos_bound q j Hj). pose proof (Z.mod_pos_bound q' j Hj).
  destruct r as [|r]; cbn in Hr.
  - injection Hr as <-. rewrite table_lookup_other by (done || by rewrite store_length).
    rewrite store_lookup by lia. rewrite Z.eqb_refl. f_equal. lia.
  - rewrite (IH (i + 1) _ r) by (done || by rewrite store_length). f_equal. lia.
Qed.

Lemma fill_length j i qpns b : length (fill j i qpns b) = length b.
Proof.
  revert i b. induction qpns as [|q qpns IH]; intros i b; cbn [fill]; [done|]. by rewrite IH, store_length.
Qed.

(** A number above all the numbers keeps them apart. *)
Lemma apart_above j qpns : NoDup qpns → Forall (λ q, 0 ≤ q < j) qpns → apart j qpns.
Proof.
  intros Hn Hf. unfold apart. replace ((λ q, q mod j) <$> qpns) with qpns; [done|].
  clear Hn. induction Hf as [|q qpns Hq _ IH]; [done|]. rewrite fmap_cons, <-IH. by rewrite Z.mod_small.
Qed.

#[global] Instance apart_dec j qpns : Decision (apart j qpns).
Proof. unfold apart. apply _. Defined.

(** The first number from [j] on, with [n] to try. *)
Lemma first_apart qpns n j :
  apart (j + Z.of_nat n) qpns →
  ∃ j1, j ≤ j1 ≤ j + Z.of_nat n ∧ apart j1 qpns ∧ ∀ k, j ≤ k < j1 → ~ apart k qpns.
Proof.
  revert j. induction n as [|n IH]; intros j Ha.
  - exists j. split; [lia|]. split; [by replace j with (j + Z.of_nat 0) by lia|lia].
  - destruct (decide (apart j qpns)) as [Hj|Hj].
    + exists j. split; [lia|]. split; [done|lia].
    + destruct (IH (j + 1)) as (j1 & H1 & H2 & H3).
      { by replace (j + 1 + Z.of_nat n) with (j + Z.of_nat (S n)) by lia. }
      exists j1. split; [lia|]. split; [done|]. intros k Hk. destruct (decide (k = j)) as [->|]; [done|]. apply H3. lia.
Qed.

(** C37: the table that gives the rank for the number of a queue pair: for queue pairs
    with different numbers the search ends with the least number, from the number of
    ranks on, that keeps them apart, the assertion behind it holds, and looking the
    number of the queue pair to a rank up in the table gives that rank. *)
Theorem make_table_spec (qpns : list Z) (bound : Z) (H0 : qpns ≠ []) (Hdiff : NoDup qpns)
    (Hq : Forall (λ q, 0 ≤ q < bound) qpns) (Hb : Z.of_nat (length qpns) ≤ bound) (Hmax : bound < INT32_MAX) :
  ∃ j b, make_table qpns = Some (j, b) ∧ Z.of_nat (length qpns) ≤ j ≤ bound ∧ length b = Z.to_nat j ∧
    (∀ k, Z.of_nat (length qpns) ≤ k < j → ~ apart k qpns) ∧
    ∀ r q, qpns !! r = Some q → b !! Z.to_nat (q mod j) = Some (Z.of_nat r).
Proof.
  set (n := Z.of_nat (length qpns)) in *.
  assert (0 < n) as Hn by (destruct qpns; cbn in *; [done|lia]).
  destruct (first_apart qpns (Z.to_nat (bound - n)) n) as (j & Hj & Ha & Hmin).
  { replace (n + Z.of_nat (Z.to_nat (bound - n))) with bound by lia. by apply apart_above. }
  destruct (INT32_MAX - n) as [|p|p] eqn:Ep; [lia| |lia].
  destruct (search_spec qpns (Pos.to_nat p) n j) as (b & Es & Hl); [lia|lia|done|done|].
  exists j, (fill j 0 qpns b). unfold make_table. fold n. rewrite Ep, loop_pos_nat, Es.
  split; [done|]. split; [lia|]. split; [by rewrite fill_length|]. split; [done|].
  intros r q Hr. by rewrite (table_lookup j 0 qpns b r q) by (done || lia).
Qed.

Lemma make_table_spec_witness :
  ∃ j b, make_table [40; 1064; 41] = Some (j, b) ∧ b !! Z.to_nat (1064 mod j) = Some 1.
Proof.
  destruct (make_table_spec [40; 1064; 41] 2000) as (j & b & E & _ & _ & _ & H).
  - discriminate.
  - apply (bool_decide_unpack _). vm_compute. exact I.
  - apply (bool_decide_unpack _). vm_compute. exact I.
  - cbn. lia.
  - reflexivity.
  - exists j, b. split; [exact E|exact (H 1%nat 1064 eq_refl)].
Defined.
