(* ===== verification/IbvInit.v ===== *)
(** * Starting a benchmark ([init] in benchmarks/ibv_common.hpp)

    The device is opened, a queue pair is made for each rank and its address is
    published through the wrapper; behind a barrier the addresses of the others are
    looked up and the queue pairs connected, and the table of ranks is made.  The
    lines that log, and the calls of [MLOG_Init], are left out. *)

From Stdlib Require Import ZifyBool.
From S2P Require Import Prelude CLib OS Gid Verbs RcPingpong PmWrapper RankTable DeviceConfig.

Local Open Scope Z_scope.

(** ** The addresses *)

(** [%lx] and [%hx]: without leading zeros, and from a [w]-bit variable. *)
Definition show_hex_w (w z : Z) : cstr := show_nat 16 (wrap_u w z).

Definition scan_hex_w (w : Z) (s : cstr) : option (Z * cstr) :=
  let s := skip_space s in
  let '(neg, s) := scan_sign s in
  let '(v, n, rest) := scan_digits 16 (skip_0x s) 0 0 in
  if (n =? 0)%nat then None
  else Some (wrap_u w (let m := Z.min v (2 ^ 64 - 1) in if neg then - m else m), rest).

(** What a rank publishes for a queue pair. *)
Record endpoint := Endpoint { p_addr : Z; p_rkey : Z; p_qpn : Z; p_lid : Z }.

#[global] Instance endpoint_eq_dec : EqDecision endpoint.
Proof. solve_decision. Defined.

(** [sprintf (ep_name, "%lx:%x:%x:%hx", ...)]. *)
Definition ep_name (e : endpoint) : cstr :=
  show_hex_w 64 (p_addr e) ++ L ":" ++ show_hex_w 32 (p_rkey e) ++ L ":" ++
  show_hex_w 32 (p_qpn e) ++ L ":" ++ show_hex_w 16 (p_lid e).

(** [sscanf (ep_name, ...)]; [None]: a variable is left without a value. *)
Definition scan_ep (s : cstr) : option endpoint :=
  '(a, s) ← scan_hex_w 64 s; s ← skip_colon s;
  '(k, s) ← scan_hex_w 32 s; s ← skip_colon s;
  '(q, s) ← scan_hex_w 32 s; s ← skip_colon s;
  '(l, s) ← scan_hex_w 16 s;
  Some (Endpoint a k q l).

(** [sprintf (key, "ibvBench_%d_%d", from, to)]. *)
Definition ep_key (from to : Z) : cstr := L "ibvBench_" ++ show_int from ++ L "_" ++ show_int to.

(** *** Laws *)

(** The values a rank can publish. *)
Definition ep_ok (e : endpoint) : Prop :=
  0 ≤ p_addr e < 2 ^ 64 ∧ 0 ≤ p_rkey e < 2 ^ 32 ∧ 0 ≤ p_qpn e < 2 ^ 32 ∧ 0 ≤ p_lid e < 2 ^ 16.

Lemma skip_0x_nat s r :
  Forall (λ c, is_digit 16 c = true) s → match r with [] => True | c :: _ => c = ":"%char end →
  skip_0x (s ++ r) = s ++ r.
Proof.
  intros Hs Hr. destruct s as [|a [|b s]].
  - destruct r as [|c [|d [|e r]]]; try done. cbn in Hr. subst. done.
  - destruct r as [|c [|d r]]; [done|done|]. cbn in Hr. subst. cbn. by rewrite andb_false_r.
  - apply skip_0x_hex; [done|cbn; lia].
Qed.

Lemma scan_show_hex_w w z r :
  0 ≤ w ≤ 64 → 0 ≤ z < 2 ^ w → match r with [] => True | c :: _ => c = ":"%char end →
  scan_hex_w w (show_hex_w w z ++ r) = Some (z, r).
Proof.
  intros Hw Hz Hr. unfold show_hex_w. rewrite wrap_u_small by lia.
  assert (2 ^ w ≤ 2 ^ 64) by (apply Z.pow_le_mono_r; lia).
  destruct (show_nat_spec 16 ltac:(lia) z ltac:(lia)) as (k & Hk & _ & Hs).
  pose proof (show_nat_digits 16 ltac:(lia) z) as Hd.
  pose proof (skip_0x_nat _ r Hd Hr) as H0.
  destruct (show_nat_cons 16 ltac:(lia) z) as (c & s & E & Hc). rewrite E in *. cbn [app] in *.
  unfold scan_hex_w. cbn [skip_space]. rewrite (is_digit_no_space _ _ Hc), (scan_sign_digit _ _ _ Hc), H0.
  specialize (Hs 0 0%nat r). rewrite Hs, scan_digits_stop.
  2:{ destruct r as [|x r]; [done|]. by rewrite Hr. }
  destruct k as [|k]; [lia|]. cbn [Nat.add Nat.eqb]. rewrite Z.mul_0_l, Z.add_0_l, Z.min_l by lia.
  by rewrite wrap_u_small.
Qed.

Lemma skip_colon_text r : skip_colon (L ":" ++ r) = Some r.
Proof. done. Qed.

Lemma ep_roundtrip e : ep_ok e → scan_ep (ep_name e) = Some e.
Proof.
  intros (H1 & H2 & H3 & H4). unfold scan_ep, ep_name.
  do 3 (rewrite scan_show_hex_w by (done || lia); cbn [mbind option_bind];
    rewrite skip_colon_text; cbn [mbind option_bind]).
  rewrite <-(app_nil_r (show_hex_w 16 _)), scan_show_hex_w by (done || lia). cbn. by destruct e.
Qed.

(** Different pairs of ranks have different keys. *)
Lemma ep_key_inj a b c d : ep_key a b = ep_key c d → a = c ∧ b = d.
Proof.
  unfold ep_key. intros H%(app_inv_head (L "ibvBench_")).
  assert (no_digit_head 10 (L "_" ++ show_int b)) as Hb by done.
  assert (no_digit_head 10 (L "_" ++ show_int d)) as Hd by done.
  pose proof (scan_int_show a _ Hb) as E1. rewrite H, (scan_int_show c _ Hd) in E1.
  injection E1 as -> E2. split; [done|].
  pose proof (scan_int_show b [] I) as F1. rewrite app_nil_r in F1. rewrite <-E2 in F1.
  pose proof (scan_int_show d [] I) as F2. rewrite app_nil_r in F2. congruence.
Qed.

(** ** The state and the results *)

(** The verbs objects, and the state of the wrapper's client. *)
Record ibv_state (S : Type) := Ibv { ib_hw : hw; ib_pm : S }.
Arguments Ibv {_} _ _.
Arguments ib_hw {_} _.
Arguments ib_pm {_} _.

#[global] Program Instance ibv_hw S : Lens (ibv_state S) hw :=
  {| lget := ib_hw; lset h s := Ibv h (ib_pm s) |}.
Solve Obligations with (by intros S; try intros ?; try intros ?; destruct_and?; repeat match goal with s : ibv_state _ |- _ => destruct s end).

#[global] Program Instance ibv_pm S : Lens (ibv_state S) S :=
  {| lget := ib_pm; lset p s := Ibv (ib_hw s) p |}.
Solve Obligations with (by intros S; try intros ?; try intros ?; destruct_and?; repeat match goal with s : ibv_state _ |- _ => destruct s end).

(** What [init] is called with: the name of a device, if any, and from
    [DeviceConfig] the size of the memory region and the inline size; the devices
    of the host, and the key of a memory region. *)
Record host := Host {
  ho_devname : option cstr;
  ho_mr_size : Z;
  ho_inline_size : Z;
  ho_devs : option (list (cstr * Z));
  ho_rkey : Z → Z }.

(** [IBV_ACCESS_LOCAL_WRITE | IBV_ACCESS_REMOTE_READ | IBV_ACCESS_REMOTE_WRITE]. *)
Definition mr_flags : Z := 7.

(** [struct RemoteMemRegion], and [struct Device], which is filled in on the way: the
    first part is known before the queue pairs are made. *)
Record RemoteMemRegion := Rmr { rm_addr : Z; rm_size : Z; rm_rkey : Z }.

Record dev := Dev {
  dev_ctx : Z;
  dev_pd : Z;
  dev_port : Z;
  dev_srq : Z;
  send_cq : Z;
  recv_cq : Z;
  mr_addr : Z;
  dev_mr : Z;
  qps_mem : Z;
  rmrs_mem : Z }.

Record Device := MkDevice {
  the_dev : dev;
  qps : list Z;
  rmrs : list RemoteMemRegion;
  qp2rank : list Z;
  qp2rank_mod : Z }.

Definition EXIT_FAILURE : Z := 1.
Definition SIGABRT_STATUS : Z := 134.

(** ** The device *)

(** A call that makes an object, and the test of its result. *)
Definition need (n : newobj) (deps : list obj) : M hw Z :=
  p ← new n deps;
  if p =? 0 then exit_ EXIT_FAILURE else mret p.

(** The call must succeed. *)
Definition must (os : list obj) (c : hwcall) : M hw () :=
  rc ← call os c;
  if rc <>z 0 then exit_ EXIT_FAILURE else mret tt.

(** The loop over the ports from [port] on, [n] being left. *)
Fixpoint find_port (ctx : Z) (n : nat) (port : Z) : M hw Z :=
  match n with
  | O => exit_ EXIT_FAILURE
  | S n =>
      rc ← call [(KContext, ctx)] (QueryPort ctx port);
      if rc =? 0 then mret port else find_port ctx n (port + 1)
  end.

Section init.
Context (H : host).

(** Up to the memory region.  A memory block that cannot be had leaves its pointer
    without a value, and the region is used for the log before it is tested. *)
Definition open_device (nranks : Z) : M hw dev :=
  match ho_devs H with
  | None | Some [] => exit_ EXIT_FAILURE
  | Some devs =>
      make NewDevList [];;
      match pick_device (ho_devname H) devs with
      | None => exit_ EXIT_FAILURE
      | Some ib_dev =>
          dev_ctx ← need (NewContext ib_dev) [];
          dev_pd ← need NewPd [(KContext, dev_ctx)];
          must [(KContext, dev_ctx)] (QueryDevice dev_ctx);;
          port ← find_port dev_ctx 128 0;
          s ← get;
          if negb (port_ethernet (h_dev (h_world s))) && (port_lid (h_dev (h_world s)) =? 0)
          then exit_ EXIT_FAILURE
          else
            dev_srq ← need (NewSrq max_recv_num) [(KPd, dev_pd)];
            send_cq ← new (NewCq false max_cqe_num) [(KContext, dev_ctx)];
            recv_cq ← new (NewCq false max_cqe_num) [(KContext, dev_ctx)];
            if (send_cq =? 0) || (recv_cq =? 0) then exit_ EXIT_FAILURE
            else
              mr_addr ← new (NewMem (wrap_u 64 (ho_mr_size H))) [];
              if mr_addr =? 0 then fault_ Uninitialised
              else
                dev_mr ← new (NewMr false (wrap_u 64 (ho_mr_size H)) mr_flags) [(KPd, dev_pd); (KMem, mr_addr)];
                if dev_mr =? 0 then fault_ NullDeref
                else
                  qps_mem ← new (NewMem (8 * nranks)) [];
                  rmrs_mem ← new (NewMem (16 * nranks)) [];
                  mret (Dev dev_ctx dev_pd port dev_srq send_cq recv_cq mr_addr dev_mr qps_mem rmrs_mem)
      end
  end.

(** ** The queue pairs *)

Definition qp_init_attrs (d : dev) : list qp_attr :=
  [QP_STATE QPS_INIT; QP_PKEY_INDEX 0; QP_PORT (dev_port d); QP_ACCESS_FLAGS mr_flags].

(** The queue pair for a rank, in the state INIT.  The inline size is compared as an
    unsigned number; when it cannot be asked for it is at least the one requested. *)
Definition create_qp (d : dev) : M hw Z :=
  qp ← new (NewQp false QPT_RC max_send_num max_recv_num)
    [(KPd, dev_pd d); (KCq, send_cq d); (KCq, recv_cq d); (KSrq, dev_srq d)];
  if qps_mem d =? 0 then fault_ Uninitialised
  else if qp =? 0 then exit_ EXIT_FAILURE
  else
    rc ← call [(KQp, qp)] (QueryQp qp);
    s ← get;
    let max_inline_data := if rc =? 0 then max_inline (h_dev (h_world s)) else wrap_u 32 (ho_inline_size H) in
    if wrap_u 32 (ho_inline_size H) <=? max_inline_data then
      must [(KQp, qp)] (ModifyQp qp (qp_init_attrs d));; mret qp
    else exit_ SIGABRT_STATUS.

(** What a rank publishes for the queue pair [qp]. *)
Definition my_endpoint (W : world) (d : dev) (qp : Z) : endpoint :=
  Endpoint (mr_addr d) (ho_rkey H (dev_mr d)) (qp_num (h_dev W) qp) (port_lid (h_dev W)).

(** The queue pair [qp] to a rank with the address [e]. *)
Definition zero_gid : list Z := replicate 16 0.
Definition qp_rtr_attrs (W : world) (d : dev) (e : endpoint) : list qp_attr :=
  [QP_STATE QPS_RTR; QP_AV (AhAttr 0 (p_lid e) 0 0 (dev_port d) 0 zero_gid 0);
   QP_PATH_MTU (port_active_mtu (h_dev W)); QP_DEST_QPN (p_qpn e); QP_RQ_PSN 0; QP_MAX_DEST_RD_ATOMIC 1;
   QP_MIN_RNR_TIMER 12].
Definition qp_rts_attrs : list qp_attr :=
  [QP_STATE QPS_RTS; QP_TIMEOUT 14; QP_RETRY_CNT 7; QP_RNR_RETRY 7; QP_SQ_PSN 0; QP_MAX_QP_RD_ATOMIC 1].

Definition connect_qp (d : dev) (qp : Z) (e : endpoint) : M hw RemoteMemRegion :=
  s ← get;
  must [(KQp, qp)] (ModifyQp qp (qp_rtr_attrs (h_world s) d e));;
  must [(KQp, qp)] (ModifyQp qp qp_rts_attrs);;
  if rmrs_mem d =? 0 then fault_ Uninitialised
  else mret (Rmr (p_addr e) (wrap_u 32 (ho_mr_size H)) (p_rkey e)).

(** ** Through the wrapper *)

Context {S : Type} (PM : PmWrapper S).

Abbreviation op := (M (ibv_state S)).

(** The first loop, from rank [i] on, with [n] ranks left. *)
Fixpoint publish_qps (d : dev) (rank i : Z) (n : nat) : op (list Z) :=
  match n with
  | O => mret []
  | Datatypes.S n =>
      qp ← zoom (create_qp d);
      s ← get;
      zoom (pm_publish (ep_key rank i) (ep_name (my_endpoint (h_world (ib_hw s)) d qp)));;
      l ← publish_qps d rank (i + 1) n;
      mret (qp :: l)
  end.

(** The second loop.  A name that is not found, or is not an address, leaves the
    variables without a value. *)
Fixpoint connect_qps (d : dev) (rank i : Z) (l : list Z) : op (list RemoteMemRegion) :=
  match l with
  | [] => mret []
  | qp :: l =>
      t ← zoom (pm_getname (ep_key i rank));
      t ← or_fault Uninitialised t;
      e ← or_fault Uninitialised (scan_ep t);
      r ← zoom (connect_qp d qp e);
      rs ← connect_qps d rank (i + 1) l;
      mret (r :: rs)
  end.

(** Up to the first barrier, and behind it. *)
Definition init_publish : op (Z * dev * list Z) :=
  zoom pm_initialize;;
  rank ← zoom pm_get_rank;
  nranks ← zoom pm_get_size;
  d ← zoom (open_device nranks);
  l ← publish_qps d rank 0 (Z.to_nat nranks);
  mret (rank, d, l).

Definition init_connect (rank : Z) (d : dev) (l : list Z) : op Device :=
  rs ← connect_qps d rank 0 l;
  s ← get;
  match make_table (qp_num (h_dev (h_world (ib_hw s))) <$> l) with
  | Some (j, b) => zoom pm_barrier;; mret (MkDevice d l rs b j)
  | None => exit_ SIGABRT_STATUS
  end.

Definition init : op Device :=
  '(rank, d, l) ← init_publish;
  zoom pm_barrier;;
  init_connect rank d l.

Definition finalize : op () := zoom pm_finalize.
End init.
