(* ===== verification/IbvMesh.v ===== *)
(** * A job after [init] (benchmarks/ibv_common.hpp)

    Every rank runs [init]; with a wrapper that delivers at a barrier what the ranks
    have published, each queue pair is connected to the one the peer has made for
    it, and the table of ranks inverts the queue pairs. *)

From Stdlib Require Import ZifyBool.
From S2P Require Import Prelude CLib OS Gid Verbs PmWrapper PmStore RankTable DeviceConfig IbvInit.
From S2P Require PmMpi PmMpiSpec.

Local Open Scope Z_scope.

(** ** Names and addresses fit *)

Lemma show_int_no_nul z : no_nul (show_int z).
Proof. eapply Forall_impl; [apply show_int_plain|]. intros c [H| ->]; [|done]. by intros ->. Qed.

Lemma ep_key_no_nul a b : no_nul (ep_key a b).
Proof. repeat apply Forall_app_2; try apply show_int_no_nul; by repeat constructor. Qed.

Lemma ep_name_no_nul e : no_nul (ep_name e).
Proof.
  unfold ep_name, show_hex_w.
  repeat apply Forall_app_2; try (eapply digits_no_nul, show_nat_digits; lia); by repeat constructor.
Qed.

Lemma ep_name_length e : (length (ep_name e) ≤ 39)%nat.
Proof.
  assert (∀ w k, 16 ^ Z.of_nat k = 2 ^ w → (0 < k)%nat → 0 ≤ w → ∀ z, (length (show_hex_w w z) ≤ k)%nat) as Hk.
  { intros w k E Hk Hw z. apply show_nat_length; [lia| |done]. rewrite E. apply Z.mod_pos_bound. lia. }
  unfold ep_name. rewrite !length_app.
  pose proof (Hk 64 16%nat eq_refl ltac:(lia) ltac:(lia) (p_addr e)).
  pose proof (Hk 32 8%nat eq_refl ltac:(lia) ltac:(lia) (p_rkey e)).
  pose proof (Hk 32 8%nat eq_refl ltac:(lia) ltac:(lia) (p_qpn e)).
  pose proof (Hk 16 4%nat eq_refl ltac:(lia) ltac:(lia) (p_lid e)). cbn [length L String.list_ascii_of_string]. lia.
Qed.

Lemma ep_pair_ok a b e : is_int a → is_int b → kv_ok (ep_key a b, ep_name e).
Proof.
  intros Ha Hb. pose proof (show_int_length a Ha). pose proof (show_int_length b Hb). pose proof (ep_name_length e).
  unfold kv_ok, strlen, PmMpi.STRING_LIMIT. cbn [fst snd]. split_and!; [apply ep_key_no_nul|apply ep_name_no_nul| |lia].
  unfold ep_key. rewrite !length_app. cbn [length L String.list_ascii_of_string]. lia.
Qed.

(** ** The verbs calls *)

(** Going on: the world stays, the objects stay and calls are added. *)
Record grows (s s' : hw) : Prop := {
  gr_world : h_world s' = h_world s;
  gr_time : (h_time s ≤ h_time s')%nat;
  gr_live : ∀ o, o ∈ (h_live s).*1 → o ∈ (h_live s').*1;
  gr_calls : ∃ C, h_calls s' = h_calls s ++ C }.

#[global] Instance grows_preorder : PreOrder grows.
Proof.
  split.
  - intros s. constructor; [done|lia|done|exists []; by rewrite app_nil_r].
  - intros s1 s2 s3 [A1 A2 A3 [C1 A4]] [B1 B2 B3 [C2 B4]]. constructor; [congruence|lia|auto|].
    exists (C1 ++ C2). by rewrite B4, A4, (assoc_L app).
Qed.

Lemma grows_call s s' c : grows s s' → c ∈ h_calls s → c ∈ h_calls s'.
Proof. intros [_ _ _ [C ->]] H. apply elem_of_app. by left. Qed.

Lemma uses_ok os s : Forall (λ o, o ∈ (h_live s).*1) os → uses os s = (Done tt, s).
Proof.
  intros Hos. unfold uses.
  assert (forallb (λ o, is_live o (h_live s)) os = true) as ->; [|done].
  apply forallb_forall. intros o Ho%list_elem_of_In. rewrite Forall_forall in Hos. by apply bool_decide_eq_true, Hos.
Qed.

Lemma make_ok n deps s :
  ∃ s', make n deps s = (Done (Z.of_nat (S (h_time s))), s') ∧ grows s s' ∧
    (kind_of n, Z.of_nat (S (h_time s))) ∈ (h_live s').*1 ∧ h_time s' = S (h_time s).
Proof.
  unfold make. rewrite bind_get. cbv zeta. eexists. split; [reflexivity|]. split; [|split; [cbn; by left|done]].
  constructor; cbn; [done|lia|intros o Ho; by right|exists []; by rewrite app_nil_r].
Qed.

Lemma new_ok n deps s :
  h_new (h_world s) (h_time s) = true → Forall (λ o, o ∈ (h_live s).*1) deps →
  ∃ s', new n deps s = (Done (Z.of_nat (S (h_time s))), s') ∧ grows s s' ∧
    (kind_of n, Z.of_nat (S (h_time s))) ∈ (h_live s').*1 ∧ h_time s' = S (h_time s).
Proof.
  intros Hn Hd. unfold new. rewrite (bind_done _ _ _ _ _ (uses_ok _ _ Hd)), bind_get, Hn. apply make_ok.
Qed.

Lemma call_ok os c s :
  Forall (λ o, o ∈ (h_live s).*1) os → h_int (h_world s) (h_time s) = 0 →
  ∃ s', call os c s = (Done 0, s') ∧ grows s s' ∧ c ∈ h_calls s' ∧ h_time s' = S (h_time s).
Proof.
  intros Ho Hi. unfold call. rewrite (bind_done _ _ _ _ _ (uses_ok _ _ Ho)), bind_get. cbv zeta. rewrite Hi.
  eexists. split; [reflexivity|]. split; [|split; [cbn; apply elem_of_app; right; by left|done]].
  constructor; cbn; [done|lia|done|by eexists].
Qed.

Lemma must_ok os c s :
  Forall (λ o, o ∈ (h_live s).*1) os → h_int (h_world s) (h_time s) = 0 →
  ∃ s', must os c s = (Done tt, s') ∧ grows s s' ∧ c ∈ h_calls s' ∧ h_time s' = S (h_time s).
Proof.
  intros Ho Hi. destruct (call_ok os c s Ho Hi) as (s' & E & H). exists s'. split; [|done].
  unfold must. by rewrite (bind_done _ _ _ _ _ E).
Qed.

(** ** Opening the device *)

(** The objects of the device exist. *)
Record dev_live (d : dev) (s : hw) : Prop := {
  dl_pd : (KPd, dev_pd d) ∈ (h_live s).*1;
  dl_scq : (KCq, send_cq d) ∈ (h_live s).*1;
  dl_rcq : (KCq, recv_cq d) ∈ (h_live s).*1;
  dl_srq : (KSrq, dev_srq d) ∈ (h_live s).*1;
  dl_qps : 0 < qps_mem d;
  dl_rmrs : 0 < rmrs_mem d }.

Lemma dev_live_grows d s s' : dev_live d s → grows s s' → dev_live d s'.
Proof. intros [] [_ _ Hg _]. constructor; auto. Qed.

Section opening.
Context (s0 : hw) (Hnew : ∀ k, h_new (h_world s0) k = true).

Lemma new_returns n deps s :
  grows s0 s → returns (new n deps) s (λ p s', grows s s' ∧ 0 < p ∧ (kind_of n, p) ∈ (h_live s').*1).
Proof using Hnew.
  intros Hg. unfold new. apply returns_bind. intros [] s1 E1.
  assert (s1 = s) as -> by (unfold uses in E1; case_match; congruence).
  apply returns_bind. intros s2 s3 [= <- <-]. rewrite (gr_world _ _ Hg), Hnew.
  destruct (make_ok n deps s) as (s' & E & H1 & H2 & _). intros p s4 E4. rewrite E in E4. injection E4 as <- <-.
  split; [done|]. split; [lia|done].
Qed.

Lemma need_returns n deps s :
  grows s0 s → returns (need n deps) s (λ p s', grows s s' ∧ 0 < p ∧ (kind_of n, p) ∈ (h_live s').*1).
Proof using Hnew.
  intros Hg. unfold need. apply returns_bind. eapply returns_mono; [by apply new_returns|].
  intros p s' (H1 & H2 & H3). replace (p =? 0) with false by lia. by apply returns_ret.
Qed.

Lemma call_returns os c s : returns (call os c) s (λ _ s', grows s s').
Proof using.
  unfold call. apply returns_bind. intros [] s1 E1.
  assert (s1 = s) as -> by (unfold uses in E1; case_match; congruence).
  apply returns_bind. intros s2 s3 [= <- <-]. cbv zeta. intros r s' E. destruct (_ =? 0) in E.
  all: cbv [mbind M_bind modify mret M_ret] in E; injection E as _ <-.
  all: constructor; cbn; [done|lia|done|first [by eexists | exists []; by rewrite app_nil_r]].
Qed.

Lemma must_returns os c s : returns (must os c) s (λ _ s', grows s s').
Proof using.
  unfold must. apply returns_bind. eapply returns_mono; [apply call_returns|].
  intros r s' Hg. case_match; [by intros ? ? [=]|by apply returns_ret].
Qed.

Lemma find_port_returns ctx n port s : returns (find_port ctx n port) s (λ _ s', grows s s').
Proof using.
  revert port s. induction n as [|n IH]; intros port s; cbn [find_port]; [by intros ? ? [=]|].
  apply returns_bind. eapply returns_mono; [apply call_returns|]. intros r s' Hg.
  case_match; [by apply returns_ret|]. eapply returns_mono; [apply IH|].
  intros ? ? ?. by transitivity s'.
Qed.

(** A device that has been opened has its objects. *)
Lemma open_device_live H nranks :
  returns (open_device H nranks) s0 (λ d s', grows s0 s' ∧ dev_live d s').
Proof using Hnew.
  unfold open_device. destruct (ho_devs H) as [[|x devs]|]; [by intros ? ? [=]| |by intros ? ? [=]].
  apply returns_bind. intros p0 s1 E0. destruct (make_ok NewDevList [] s0) as (s1' & E0' & G1 & _ & _).
  rewrite E0' in E0. injection E0 as _ <-.
  destruct (RcPingpong.pick_device _ _) as [ib|]; [|by intros ? ? [=]].
  apply returns_bind. eapply returns_mono; [by apply need_returns|]. intros ctx s2 (G2 & _ & _).
  assert (grows s0 s2) as F2 by (by transitivity s1').
  apply returns_bind. eapply returns_mono; [by apply need_returns|]. intros pd s3 (G3 & _ & Lpd).
  apply returns_bind. eapply returns_mono; [apply must_returns|]. intros [] s4 G4.
  apply returns_bind. eapply returns_mono; [apply find_port_returns|]. intros port s5 G5. cbv beta in G5.
  assert (grows s0 s5) as F5 by (transitivity s2; [done|]; transitivity s3; [done|]; by transitivity s4).
  apply returns_bind. intros w5 s6 [= <- <-]. case_match; [by intros ? ? [=]|].
  apply returns_bind. eapply returns_mono; [by apply need_returns|]. intros srq s6 (G6 & _ & Lsrq).
  assert (grows s0 s6) as F6 by (by transitivity s5).
  apply returns_bind. eapply returns_mono; [by apply new_returns|]. intros scq s7 (G7 & P7 & Lscq).
  assert (grows s0 s7) as F7 by (by transitivity s6).
  apply returns_bind. eapply returns_mono; [by apply new_returns|]. intros rcq s8 (G8 & P8 & Lrcq).
  assert (grows s0 s8) as F8 by (by transitivity s7). replace ((scq =? 0) || (rcq =? 0)) with false by lia.
  apply returns_bind. eapply returns_mono; [by apply new_returns|]. intros ma s9 (G9 & P9 & _).
  assert (grows s0 s9) as F9 by (by transitivity s8). replace (ma =? 0) with false by lia.
  apply returns_bind. eapply returns_mono; [by apply new_returns|]. intros mr s10 (G10 & P10 & _).
  assert (grows s0 s10) as F10 by (by transitivity s9). replace (mr =? 0) with false by lia.
  apply returns_bind. eapply returns_mono; [by apply new_returns|]. intros q s11 (G11 & P11 & _).
  assert (grows s0 s11) as F11 by (by transitivity s10).
  apply returns_bind. eapply returns_mono; [by apply new_returns|]. intros rm s12 (G12 & P12 & _).
  apply returns_ret. split; [by transitivity s11|].
  clear F2 F5 F6 F7 F8 F9 F10 F11 G1 G2 G3.
  constructor; cbn; try done; repeat first [exact Lpd | exact Lsrq | exact Lscq | exact Lrcq | eapply gr_live; [eassumption|]].
Qed.
End opening.

(** ** The queue pairs of a rank *)

(** From here on the verbs calls succeed. *)
Record calls_succeed (H : host) (s : hw) : Prop := {
  cs_new : ∀ k, h_new (h_world s) k = true;
  cs_int : ∀ k, (h_time s ≤ k)%nat → h_int (h_world s) k = 0;
  cs_inline : wrap_u 32 (ho_inline_size H) ≤ max_inline (h_dev (h_world s)) }.

Lemma calls_succeed_grows H s s' : calls_succeed H s → grows s s' → calls_succeed H s'.
Proof.
  intros [C1 C2 C3] [G1 G2 _ _]. constructor; rewrite G1; [done| |done]. intros k Hk. apply C2. lia.
Qed.

Lemma create_qp_ok H d s :
  dev_live d s → calls_succeed H s →
  ∃ qp s', create_qp H d s = (Done qp, s') ∧ grows s s' ∧ (KQp, qp) ∈ (h_live s').*1.
Proof.
  intros Hd Hc. pose proof Hd as [L1 L2 L3 L4 L5 L6]. unfold create_qp.
  destruct (new_ok (NewQp false QPT_RC max_send_num max_recv_num)
    [(KPd, dev_pd d); (KCq, send_cq d); (KCq, recv_cq d); (KSrq, dev_srq d)] s) as (s1 & E1 & G1 & Lq & T1).
  { apply (cs_new _ _ Hc). }
  { by repeat constructor. }
  rewrite (bind_done _ _ _ _ _ E1). cbv beta. set (qp := Z.of_nat (S (h_time s))) in *.
  replace (qps_mem d =? 0) with false by lia. replace (qp =? 0) with false by lia.
  pose proof (calls_succeed_grows _ _ _ Hc G1) as Hc1. cbn [kind_of] in Lq.
  destruct (call_ok [(KQp, qp)] (QueryQp qp) s1) as (s2 & E2 & G2 & _ & T2); [by repeat constructor|by apply (cs_int _ _ Hc1)|].
  rewrite (bind_done _ _ _ _ _ E2), bind_get. cbn [Z.eqb].
  pose proof (calls_succeed_grows _ _ _ Hc1 G2) as Hc2.
  rewrite (proj2 (Z.leb_le _ _) (cs_inline _ _ Hc2)).
  destruct (must_ok [(KQp, qp)] (ModifyQp qp (qp_init_attrs d)) s2) as (s3 & E3 & G3 & _ & T3);
    [repeat constructor; by apply (gr_live _ _ G2)|by apply (cs_int _ _ Hc2)|].
  rewrite (bind_done _ _ _ _ _ E3). exists qp, s3. split; [done|]. split; [transitivity s1; [done|]; by transitivity s2|].
  by apply (gr_live _ _ G3), (gr_live _ _ G2).
Qed.

Section rank.
Context (H : host) {S : Type} (PM : PmWrapper S) (ST : PmStore S PM).

(** What rank [rank] publishes for the queue pairs [l] to the ranks from [i] on. *)
Fixpoint pairs_of (W : world) (d : dev) (rank i : Z) (l : list Z) : list kv :=
  match l with
  | [] => []
  | qp :: l => (ep_key rank i, ep_name (my_endpoint H W d qp)) :: pairs_of W d rank (i + 1) l
  end.

Lemma pairs_of_elem W d rank i l key v :
  (key, v) ∈ pairs_of W d rank i l ↔
  ∃ k qp, l !! k = Some qp ∧ key = ep_key rank (i + Z.of_nat k) ∧ v = ep_name (my_endpoint H W d qp).
Proof using.
  revert i. induction l as [|q l IH]; intros i; cbn [pairs_of].
  { rewrite elem_of_nil. split; [done|]. by intros (k & qp & E & _). }
  rewrite elem_of_cons, IH. split.
  - intros [[= -> ->]|(k & qp & E & -> & ->)].
    + exists 0%nat, q. split_and!; [done|f_equal; lia|done].
    + exists (Datatypes.S k), qp. split_and!; [done|f_equal; lia|done].
  - intros ([|k] & qp & E & -> & ->); cbn in E.
    + injection E as ->. left. f_equal. f_equal. lia.
    + right. exists k, qp. split_and!; [done|f_equal; lia|done].
Qed.

Lemma pairs_of_length W d rank i l : length (pairs_of W d rank i l) = length l.
Proof using. revert i. induction l as [|q l IH]; intros i; cbn; [done|]. by rewrite IH. Qed.

Lemma publish_qps_ok d rank n : ∀ i st b g l0,
  dev_live d (ib_hw st) → calls_succeed H (ib_hw st) → ps_holds (ib_pm st) b g l0 →
  is_int rank → 0 ≤ i → i + Z.of_nat n ≤ int_max → Z.of_nat (length l0 + n) ≤ ps_room →
  ∃ l st', publish_qps H PM d rank i n st = (Done l, st') ∧ grows (ib_hw st) (ib_hw st') ∧
    length l = n ∧ Forall (λ qp, (KQp, qp) ∈ (h_live (ib_hw st')).*1) l ∧
    ps_holds (ib_pm st') b g (l0 ++ pairs_of (h_world (ib_hw st)) d rank i l).
Proof using.
  induction n as [|n IH]; intros i st b g l0 Hd Hc Hh Hr Hi Hn Hroom; cbn [publish_qps].
  { exists [], st. split; [done|]. split; [done|]. split; [done|]. split; [constructor|].
    cbn. by rewrite app_nil_r. }
  destruct (create_qp_ok H d (ib_hw st) Hd Hc) as (qp & h1 & E1 & G1 & L1).
  rewrite (bind_done _ _ _ _ _ (zoom_done _ _ _ _ E1)), bind_get. cbn [lset ibv_hw ib_hw ib_pm].
  assert (W1 : h_world h1 = h_world (ib_hw st)) by apply (gr_world _ _ G1). rewrite W1.
  unfold is_int, int_min, int_max in *.
  destruct (ps_publish (ib_pm st) b g l0 (ep_key rank i, ep_name (my_endpoint H (h_world (ib_hw st)) d qp)) Hh)
    as (t1 & E2 & H2); [by apply ep_pair_ok; unfold is_int, int_min, int_max; lia|lia|].
  cbn [fst snd] in E2.
  set (st1 := {| ib_hw := h1; ib_pm := ib_pm st |}).
  assert (pm_publish (ep_key rank i) (ep_name (my_endpoint H (h_world (ib_hw st)) d qp)) (lget (Lens := ibv_pm S) st1)
    = (Done tt, t1)) as E2' by exact E2.
  rewrite (bind_done _ _ _ _ _ (zoom_done _ _ _ _ E2')). cbn [lset ibv_pm ib_hw ib_pm st1].
  edestruct (IH (i + 1) {| ib_hw := h1; ib_pm := t1 |}) as (l & st' & E3 & G3 & Hl & Hf & H3); cbn [ib_hw ib_pm].
  { by eapply dev_live_grows. }
  { by eapply calls_succeed_grows. }
  { exact H2. }
  { lia. }
  { lia. }
  { lia. }
  { rewrite length_app. cbn. lia. }
  cbn [ib_hw ib_pm] in *. rewrite (bind_done _ _ _ _ _ E3). exists (qp :: l), st'. split; [done|].
  split; [by transitivity h1|]. split; [cbn; lia|].
  split; [constructor; [by apply (gr_live _ _ G3)|exact Hf]|].
  cbn [pairs_of]. rewrite W1, <-(assoc_L app) in H3. exact H3.
Qed.

Lemma connect_qp_ok d qp e s :
  (KQp, qp) ∈ (h_live s).*1 → 0 < rmrs_mem d → calls_succeed H s →
  ∃ s', connect_qp H d qp e s = (Done (Rmr (p_addr e) (wrap_u 32 (ho_mr_size H)) (p_rkey e)), s') ∧ grows s s' ∧
    ModifyQp qp (qp_rtr_attrs (h_world s) d e) ∈ h_calls s' ∧ ModifyQp qp qp_rts_attrs ∈ h_calls s'.
Proof using.
  intros Hq Hm Hc. unfold connect_qp. rewrite bind_get.
  destruct (must_ok [(KQp, qp)] (ModifyQp qp (qp_rtr_attrs (h_world s) d e)) s) as (s1 & E1 & G1 & C1 & _);
    [by repeat constructor|by apply (cs_int _ _ Hc)|].
  rewrite (bind_done _ _ _ _ _ E1). pose proof (calls_succeed_grows _ _ _ Hc G1) as Hc1.
  destruct (must_ok [(KQp, qp)] (ModifyQp qp qp_rts_attrs) s1) as (s2 & E2 & G2 & C2 & _);
    [repeat constructor; by apply (gr_live _ _ G1)|by apply (cs_int _ _ Hc1)|].
  rewrite (bind_done _ _ _ _ _ E2). replace (rmrs_mem d =? 0) with false by lia.
  exists s2. split; [done|]. split; [by transitivity s1|]. split; [by eapply grows_call|done].
Qed.

(** The queue pair [qp] has been connected to the address [e]. *)
Definition connected (d : dev) (qp : Z) (e : endpoint) (s : hw) : Prop :=
  ModifyQp qp (qp_rtr_attrs (h_world s) d e) ∈ h_calls s ∧ ModifyQp qp qp_rts_attrs ∈ h_calls s.

Lemma connected_grows d qp e s s' : connected d qp e s → grows s s' → connected d qp e s'.
Proof using. intros [C1 C2] G. split; [rewrite (gr_world _ _ G)|]; by eapply grows_call. Qed.

Lemma connect_qps_ok d rank (peer : Z → endpoint) l : ∀ i st b g,
  Forall (λ qp, (KQp, qp) ∈ (h_live (ib_hw st)).*1) l → 0 < rmrs_mem d → calls_succeed H (ib_hw st) →
  ps_holds (ib_pm st) b g [] →
  (∀ k, (k < length l)%nat → ep_ok (peer (i + Z.of_nat k)) ∧
     first_value (ep_key (i + Z.of_nat k) rank) g = Some (ep_name (peer (i + Z.of_nat k)))) →
  ∃ rs st', connect_qps H PM d rank i l st = (Done rs, st') ∧ grows (ib_hw st) (ib_hw st') ∧
    ps_holds (ib_pm st') b g [] ∧
    ∀ k qp, l !! k = Some qp →
      let e := peer (i + Z.of_nat k) in
      rs !! k = Some (Rmr (p_addr e) (wrap_u 32 (ho_mr_size H)) (p_rkey e)) ∧ connected d qp e (ib_hw st').
Proof using.
  induction l as [|q l IH]; intros i st b g Hq Hm Hc Hh Hp; cbn [connect_qps].
  { exists [], st. split; [done|]. split; [done|]. split; [done|]. by intros k qp E. }
  apply Forall_cons in Hq as [Hq Hl].
  destruct (Hp 0%nat ltac:(cbn; lia)) as [He Hv]. rewrite Z.add_0_r in He, Hv.
  pose proof (ep_name_length (peer i)) as Hlen.
  destruct (ps_getname (ib_pm st) b g [] _ _ Hh Hv) as (t1 & E1 & H1); [unfold strlen, PmMpi.STRING_LIMIT; lia|].
  assert (pm_getname (ep_key i rank) (lget (Lens := ibv_pm S) st) = (Done (Some (ep_name (peer i))), t1)) as E1' by exact E1.
  rewrite (bind_done _ _ _ _ _ (zoom_done _ _ _ _ E1')). cbn [lset ibv_pm or_fault]. rewrite bind_ret.
  rewrite ep_roundtrip by done. cbn [or_fault]. rewrite bind_ret.
  destruct (connect_qp_ok d q (peer i) (ib_hw st) Hq Hm Hc) as (h1 & E2 & G2 & C2 & C2').
  set (st1 := {| ib_hw := ib_hw st; ib_pm := t1 |}).
  assert (connect_qp H d q (peer i) (lget (Lens := ibv_hw S) st1) =
    (Done (Rmr (p_addr (peer i)) (wrap_u 32 (ho_mr_size H)) (p_rkey (peer i))), h1)) as E2' by exact E2.
  rewrite (bind_done _ _ _ _ _ (zoom_done _ _ _ _ E2')). cbn [lset ibv_hw ib_pm st1].
  destruct (IH (i + 1) {| ib_hw := h1; ib_pm := t1 |} b g) as (rs & st' & E3 & G3 & H3 & Hk); cbn [ib_hw ib_pm].
  { eapply Forall_impl; [exact Hl|]. intros x Hx. by apply (gr_live _ _ G2). }
  { done. }
  { by eapply calls_succeed_grows. }
  { exact H1. }
  { intros k Hk. replace (i + 1 + Z.of_nat k) with (i + Z.of_nat (Datatypes.S k)) by lia. apply Hp. cbn. lia. }
  cbn [ib_hw ib_pm] in *. rewrite (bind_done _ _ _ _ _ E3). eexists _, st'. split; [reflexivity|].
  split; [by transitivity h1|]. split; [done|]. intros [|k] qp E; cbn in E.
  - injection E as <-. cbv zeta. rewrite Z.add_0_r. split; [done|].
    eapply connected_grows; [|exact G3]. split; [rewrite (gr_world _ _ G2)|]; done.
  - replace (i + Z.of_nat (Datatypes.S k)) with (i + 1 + Z.of_nat k) by lia. by apply Hk.
Qed.
End rank.

(** ** The job *)

Section job.
Context (n : nat) {S : Type} (PM : nat → PmWrapper S) (ST : ∀ r, PmStore S (PM r)).
Context (H : nat → host) (s0 : nat → ibv_state S) (bound : Z).

Abbreviation holds r := (@ps_holds S (PM r) (ST r)).
Abbreviation world_of r := (h_world (ib_hw (s0 r))).

(** The first part of [init] on rank [r], and what it publishes. *)
Definition pub (r : nat) : outcome (Z * dev * list Z) * ibv_state S := init_publish (H r) (PM r) (s0 r).

(** What rank [r] starts from: it is told its rank and the size of the job, the
    device opens, from then on the calls succeed, the numbers of its queue pairs are
    different and below [bound], and its values have the widths of their types. *)
Record starts (r : nat) : Prop := {
  sr_pm : ∃ t, @pm_initialize S (PM r) (ib_pm (s0 r)) = (Done tt, t) ∧
    @pm_get_rank S (PM r) t = (Done (Z.of_nat r), t) ∧ @pm_get_size S (PM r) t = (Done (Z.of_nat n), t) ∧
    holds r t 0%nat [] [] ∧ Z.of_nat n ≤ @ps_room S (PM r) (ST r);
  sr_new : ∀ k, h_new (world_of r) k = true;
  sr_open : ∃ d h, open_device (H r) (Z.of_nat n) (ib_hw (s0 r)) = (Done d, h) ∧ calls_succeed (H r) h ∧
    0 ≤ mr_addr d < 2 ^ 64 ∧ 0 ≤ ho_rkey (H r) (dev_mr d) < 2 ^ 32;
  sr_numbers : ∀ rank d l, (pub r).1 = Done (rank, d, l) →
    NoDup (qp_num (h_dev (world_of r)) <$> l) ∧ Forall (λ q, 0 ≤ q < bound) (qp_num (h_dev (world_of r)) <$> l);
  sr_lid : 0 ≤ port_lid (h_dev (world_of r)) < 2 ^ 16 }.

Definition sent (r : nat) : list kv :=
  match (pub r).1 with
  | Done (rank, d, l) => pairs_of (H r) (world_of r) d rank 0 l
  | _ => []
  end.
Definition all_sent : list kv := concat (sent <$> seq 0 n).

(** The address of the queue pair that rank [i] has made for rank [r]. *)
Definition endpoint_of (i r : nat) : endpoint :=
  match (pub i).1 with
  | Done (_, d, l) => my_endpoint (H i) (world_of i) d (default 0 (l !! r))
  | _ => Endpoint 0 0 0 0
  end.

Context (Hstarts : ∀ r, (r < n)%nat → starts r) (Hn : Z.of_nat n ≤ bound) (Hbound : bound < INT32_MAX).

Lemma pub_ok r : (r < n)%nat →
  ∃ d l st, pub r = (Done (Z.of_nat r, d, l), st) ∧ h_world (ib_hw st) = world_of r ∧
    dev_live d (ib_hw st) ∧ calls_succeed (H r) (ib_hw st) ∧ length l = n ∧
    Forall (λ qp, (KQp, qp) ∈ (h_live (ib_hw st)).*1) l ∧ holds r (ib_pm st) 0%nat [] (sent r) ∧
    (0 ≤ mr_addr d < 2 ^ 64 ∧ 0 ≤ ho_rkey (H r) (dev_mr d) < 2 ^ 32).
Proof using Hstarts Hn Hbound.
  intros Hr. destruct (Hstarts r Hr) as [(t & E1 & E2 & E3 & Hh & Hroom) Hnew (d & h & E4 & Hc & Hv) _ _].
  destruct (open_device_live (ib_hw (s0 r)) Hnew (H r) (Z.of_nat n) d h E4) as [G Hd].
  unfold INT32_MAX in Hbound.
  edestruct (publish_qps_ok (H r) (PM r) (ST r) d (Z.of_nat r) n 0 {| ib_hw := h; ib_pm := t |} 0 [] [])
    as (l & st & E5 & G5 & Hl & Hf & Hs); cbn [ib_hw ib_pm]; try done; try (unfold is_int, int_min, int_max; lia).
  cbn [ib_hw ib_pm app] in *. rewrite (gr_world _ _ G) in Hs.
  assert (pub r = (Done (Z.of_nat r, d, l), st)) as Ep.
  { unfold pub, init_publish. rewrite (bind_done _ _ _ _ _ (zoom_done (Lens0 := ibv_pm S) _ _ _ _ E1)).
    rewrite (bind_done _ _ _ _ _ (zoom_done (Lens0 := ibv_pm S) _ {| ib_hw := ib_hw (s0 r); ib_pm := t |} _ _ E2)).
    rewrite (bind_done _ _ _ _ _ (zoom_done (Lens0 := ibv_pm S) _ {| ib_hw := ib_hw (s0 r); ib_pm := t |} _ _ E3)).
    rewrite (bind_done _ _ _ _ _ (zoom_done (Lens0 := ibv_hw S) _ {| ib_hw := ib_hw (s0 r); ib_pm := t |} _ _ E4)).
    cbn [lset ibv_hw ib_pm]. rewrite Nat2Z.id. by rewrite (bind_done _ _ _ _ _ E5). }
  exists d, l, st. split; [done|]. split; [by rewrite (gr_world _ _ G5), (gr_world _ _ G)|].
  split; [by eapply dev_live_grows|]. split; [by eapply calls_succeed_grows|]. split; [done|].
  split; [done|]. split; [|done].
  unfold sent. rewrite Ep. exact Hs.
Qed.

Lemma endpoint_of_ok i r : (i < n)%nat → (r < n)%nat → ep_ok (endpoint_of i r).
Proof using Hstarts Hn Hbound.
  intros Hi Hr. destruct (pub_ok i Hi) as (d & l & st & E & _ & _ & _ & Hl & _ & _ & Ha & Hk).
  destruct (Hstarts i Hi) as [_ _ _ Hq Hlid]. rewrite E in Hq. destruct (Hq _ _ _ eq_refl) as [_ Hf].
  unfold endpoint_of. rewrite E. cbn [fst]. destruct (lookup_lt_is_Some_2 l r ltac:(lia)) as [qp Eq]. rewrite Eq.
  cbn [default from_option id]. apply Forall_fmap in Hf. pose proof (Forall_lookup_1 _ _ _ _ Hf Eq) as Hqp.
  cbn in Hqp. unfold INT32_MAX in Hbound.
  unfold ep_ok, my_endpoint. cbn [p_addr p_rkey p_qpn p_lid]. lia.
Qed.

(** A rank finds what the peer has published for it. *)
Lemma lookup_peer i r : (i < n)%nat → (r < n)%nat →
  first_value (ep_key (Z.of_nat i) (Z.of_nat r)) all_sent = Some (ep_name (endpoint_of i r)).
Proof using Hstarts Hn Hbound.
  intros Hi Hr.
  assert (∀ i', (i' < n)%nat → ∀ key v, (key, v) ∈ sent i' ↔
    ∃ k, (k < n)%nat ∧ key = ep_key (Z.of_nat i') (Z.of_nat k) ∧ v = ep_name (endpoint_of i' k)) as Hsent.
  { intros i' Hi' key v. destruct (pub_ok i' Hi') as (d & l & st & E & _ & _ & _ & Hl & _).
    unfold sent, endpoint_of. rewrite E. cbn [fst]. rewrite pairs_of_elem. split.
    - intros (k & qp & Ek & -> & ->). exists k. split; [rewrite <-Hl; by eapply lookup_lt_Some|]. rewrite Ek.
      split; [f_equal; lia|done].
    - intros (k & Hk & -> & ->). destruct (lookup_lt_is_Some_2 l k ltac:(lia)) as [qp Ek]. exists k, qp.
      rewrite Ek. split_and!; [done|f_equal; lia|done]. }
  apply first_value_only.
  - unfold all_sent. apply list_elem_of_In, in_concat. exists (sent i). split.
    + apply list_elem_of_In, list_elem_of_fmap. exists i. split; [done|]. apply elem_of_seq. lia.
    + apply list_elem_of_In, (Hsent i Hi). by exists r.
  - intros w Hw. unfold all_sent in Hw. apply list_elem_of_In, in_concat in Hw as (x & Hx & Hw).
    apply list_elem_of_In, list_elem_of_fmap in Hx as (i' & -> & Hi'). apply elem_of_seq in Hi'.
    apply list_elem_of_In, (Hsent i' ltac:(lia)) in Hw as (k & Hk & Ek & ->).
    apply ep_key_inj in Ek as [Ei Er]. f_equal. f_equal; lia.
Qed.

(** The queue pair [qp] of rank [r], with the device [d], is connected to the queue pair
    [qp'] of rank [i]: its last two transitions name the number of [qp'] on the device of
    rank [i] and the address of the port of that device, and agree on the packet
    sequence numbers. *)
Definition joined (r i : nat) (d : dev) (qp qp' : Z) (s : hw) : Prop :=
  let here := h_dev (world_of r) in
  let there := h_dev (world_of i) in
  ModifyQp qp
    [QP_STATE QPS_RTR; QP_AV (AhAttr 0 (port_lid there) 0 0 (dev_port d) 0 (replicate 16 0) 0);
     QP_PATH_MTU (port_active_mtu here); QP_DEST_QPN (qp_num there qp'); QP_RQ_PSN 0; QP_MAX_DEST_RD_ATOMIC 1;
     QP_MIN_RNR_TIMER 12] ∈ h_calls s ∧
  ModifyQp qp
    [QP_STATE QPS_RTS; QP_TIMEOUT 14; QP_RETRY_CNT 7; QP_RNR_RETRY 7; QP_SQ_PSN 0; QP_MAX_QP_RD_ATOMIC 1] ∈ h_calls s.

(** What rank [r] has when [init] has returned [D] in the state [s]: for each rank [i]
    the queue pair it made, connected to the one [qp'] that rank [i] has made for it,
    the address and the key of the memory region of rank [i], and the way back from the
    number of the queue pair. *)
Definition meshed (r : nat) (D : Device) (s : ibv_state S) : Prop :=
  (pub r).1 = Done (Z.of_nat r, the_dev D, qps D) ∧ length (qps D) = n ∧ h_world (ib_hw s) = world_of r ∧
  ∀ i qp, qps D !! i = Some qp →
    (∃ d' l' qp', (pub i).1 = Done (Z.of_nat i, d', l') ∧ l' !! r = Some qp' ∧
       joined r i (the_dev D) qp qp' (ib_hw s) ∧
       rmrs D !! i = Some (Rmr (mr_addr d') (wrap_u 32 (ho_mr_size (H r))) (ho_rkey (H i) (dev_mr d')))) ∧
    qp2rank D !! Z.to_nat (qp_num (h_dev (world_of r)) qp mod qp2rank_mod D) = Some (Z.of_nat i).
End job.

Lemma init_meshed (n : nat) {S : Type} (PM : nat → PmWrapper S) (ST : ∀ r, PmStore S (PM r))
    (H : nat → host) (s0 : nat → ibv_state S) (bound : Z)
    (Hstarts : ∀ r, (r < n)%nat → starts n PM ST H s0 bound r) (Hn : Z.of_nat n ≤ bound) (Hbound : bound < INT32_MAX)
    (Hbarrier : ∀ r, (r < n)%nat → ∃ t, @pm_barrier S (PM r) (ib_pm (pub PM H s0 r).2) = (Done tt, t) ∧
       @ps_holds S (PM r) (ST r) t 1 (all_sent n PM H s0) [])
    (Hagain : ∀ r t, (r < n)%nat → @ps_holds S (PM r) (ST r) t 1 (all_sent n PM H s0) [] →
       ∃ t', @pm_barrier S (PM r) t = (Done tt, t')) :
  ∀ r, (r < n)%nat → ∃ D s, init (H r) (PM r) (s0 r) = (Done D, s) ∧ meshed n PM H s0 r D s.
Proof.
  intros r Hr. destruct (pub_ok n PM ST H s0 bound Hstarts Hn Hbound r Hr)
    as (d & l & st & Ep & Hw & Hd & Hc & Hl & Hq & _ & _).
  destruct (Hbarrier r Hr) as (t & Eb & Ht). rewrite Ep in Eb. cbn [snd] in Eb.
  destruct (connect_qps_ok (H r) (PM r) (ST r) d (Z.of_nat r) (λ z, endpoint_of PM H s0 (Z.to_nat z) r) l 0
    {| ib_hw := ib_hw st; ib_pm := t |} 1 (all_sent n PM H s0)) as (rs & st2 & Ec & G & Ht2 & Hk); cbn [ib_hw ib_pm].
  { done. } { apply (dl_rmrs _ _ Hd). } { done. } { done. }
  { intros k Hlt. rewrite Z.add_0_l, Nat2Z.id. split.
    - apply (endpoint_of_ok n PM ST H s0 bound); [done|done|done|lia|done].
    - apply (lookup_peer n PM ST H s0 bound); [done|done|done|lia|done]. }
  cbn [ib_hw ib_pm] in *.
  destruct (make_table_spec (qp_num (h_dev (h_world (ib_hw (s0 r)))) <$> l) bound) as (j & b & Et & _ & _ & _ & Hb).
  { destruct l; [cbn in Hl; lia|done]. }
  { apply (sr_numbers _ _ _ _ _ _ _ (Hstarts r Hr) (Z.of_nat r) d). by rewrite Ep. }
  { apply (sr_numbers _ _ _ _ _ _ _ (Hstarts r Hr) (Z.of_nat r) d). by rewrite Ep. }
  { rewrite length_fmap. lia. }
  { done. }
  destruct (Hagain r (ib_pm st2) Hr Ht2) as (t3 & Eb2).
  exists (MkDevice d l rs b j), {| ib_hw := ib_hw st2; ib_pm := t3 |}. split.
  - unfold init. rewrite (bind_done _ _ _ _ _ Ep).
    rewrite (bind_done _ _ _ _ _ (zoom_done (Lens0 := ibv_pm S) _ _ _ _ Eb)). cbn [lset ibv_pm].
    unfold init_connect. rewrite (bind_done _ _ _ _ _ Ec), bind_get.
    rewrite (gr_world _ _ G), Hw, Et. by rewrite (bind_done _ _ _ _ _ (zoom_done (Lens0 := ibv_pm S) _ _ _ _ Eb2)).
  - unfold meshed. cbn [the_dev qps rmrs qp2rank qp2rank_mod ib_hw]. rewrite Ep. split; [done|]. split; [done|].
    split; [by rewrite (gr_world _ _ G)|]. intros i qp Ei. destruct (Hk i qp Ei) as [H1 [H2 H3]].
    cbv zeta in H1, H2, H3. rewrite Z.add_0_l, Nat2Z.id in H1, H2. pose proof (lookup_lt_Some _ _ _ Ei).
    split; [|apply Hb; by rewrite list_lookup_fmap, Ei].
    destruct (pub_ok n PM ST H s0 bound Hstarts Hn Hbound i ltac:(lia)) as (d' & l' & st' & Ep' & _ & _ & _ & Hl' & _).
    destruct (lookup_lt_is_Some_2 l' r ltac:(lia)) as [qp' Eq'].
    exists d', l', qp'. unfold endpoint_of in H1, H2. rewrite Ep' in H1, H2 |- *. cbn [fst] in H1, H2 |- *.
    rewrite Eq' in H1, H2. split; [done|]. split; [done|]. split; [|exact H1].
    unfold joined. rewrite (gr_world _ _ G), Hw in H2. by split.
Qed.

(** C9: starting a job: every rank opens its device, makes a queue pair for each rank
    and publishes its address; given a wrapper that at the barrier hands every rank
    the pairs that all of them have published, [init] returns on each rank, and then
    its queue pair to a rank is connected to the number and the port address of the
    very queue pair that the peer has made for it, it knows the address and the key of
    the memory region of the peer, and the table gives the rank of the peer for the
    number of the queue pair. *)
Theorem init_meshes (n : nat) {S : Type} (PM : nat → PmWrapper S) (ST : ∀ r, PmStore S (PM r))
    (H : nat → host) (s0 : nat → ibv_state S) (bound : Z)
    (Hstarts : ∀ r, (r < n)%nat → starts n PM ST H s0 bound r) (Hn : Z.of_nat n ≤ bound) (Hbound : bound < INT32_MAX)
    (Hbarrier : ∀ r, (r < n)%nat → ∃ t, @pm_barrier S (PM r) (ib_pm (pub PM H s0 r).2) = (Done tt, t) ∧
       @ps_holds S (PM r) (ST r) t 1 (all_sent n PM H s0) [])
    (Hagain : ∀ r t, (r < n)%nat → @ps_holds S (PM r) (ST r) t 1 (all_sent n PM H s0) [] →
       ∃ t', @pm_barrier S (PM r) t = (Done tt, t')) :
  ∀ r, (r < n)%nat → ∃ D s, init (H r) (PM r) (s0 r) = (Done D, s) ∧ meshed n PM H s0 r D s.
Proof. by apply (init_meshed n PM ST H s0 bound). Qed.

(** ** Over MPI *)

Section over_mpi.
Context (n : nat) (W : nat → PmMpi.mpi_env) (Halloc : ∀ r k, PmMpi.env_alloc (W r) k = true).
Context (H : nat → host) (s0 : nat → ibv_state PmMpi.pm_mpi) (bound : Z).

Abbreviation PM := (λ r, mpi_wrapper (W r)).
Abbreviation ST := (λ r, mpi_store (W r) (Halloc r)).

(** The states of the ranks before the first barrier. *)
Definition ready_states : list PmMpi.pm_mpi := (λ r, ib_pm (pub PM H s0 r).2) <$> seq 0 n.

Context (Hstarts : ∀ r, (r < n)%nat → starts n PM ST H s0 bound r) (Hn : Z.of_nat n ≤ bound) (Hbound : bound < INT32_MAX).
Context (Hsize : 512 * Z.of_nat (n * n) ≤ int_max).
Context (Hfirst : ∀ r, (r < n)%nat → PmMpiSpec.delivers (W r) ready_states (ib_pm (pub PM H s0 r).2)).
Context (Hsecond : ∀ r t g k, (r < n)%nat → PmMpiSpec.kvs t g [] k → PmMpi.calls t = 2%nat →
  ∃ ss, PmMpiSpec.ready_with ss (replicate n []) ∧ t ∈ ss ∧ PmMpiSpec.delivers (W r) ss t).

Lemma sent_length r : (r < n)%nat → length (sent PM H s0 r) = n.
Proof using Hstarts Hn Hbound.
  intros Hr. destruct (pub_ok n PM ST H s0 bound Hstarts Hn Hbound r Hr) as (d & l & st & E & _ & _ & _ & Hl & _).
  unfold sent. rewrite E. cbn [fst]. by rewrite pairs_of_length.
Qed.

Lemma all_sent_length : length (all_sent n PM H s0) = (n * n)%nat.
Proof using Hstarts Hn Hbound Hsize.
  unfold all_sent. assert (∀ m, (m ≤ n)%nat → length (concat (sent PM H s0 <$> seq 0 m)) = (m * n)%nat) as Hm; [|by apply Hm].
  induction m as [|m IH]; intros Hm; [done|].
  rewrite seq_S, fmap_app, concat_app, length_app, IH by lia. cbn. rewrite app_nil_r, sent_length by lia. lia.
Qed.

Lemma mpi_barrier r : (r < n)%nat →
  ∃ t, PmMpi.lcm_pm_barrier (W r) (ib_pm (pub PM H s0 r).2) = (Done tt, t) ∧
    @ps_holds _ _ (ST r) t 1 (all_sent n PM H s0) [].
Proof using Hstarts Hn Hbound Hsize Hfirst.
  intros Hr.
  assert (∀ r, (r < n)%nat → ∃ k, PmMpiSpec.kvs (ib_pm (pub PM H s0 r).2) [] (sent PM H s0 r) k ∧
    PmMpi.calls (ib_pm (pub PM H s0 r).2) = 0%nat) as Hpub.
  { intros i Hi. destruct (pub_ok n PM ST H s0 bound Hstarts Hn Hbound i Hi) as (d & l & st & E & _ & _ & _ & _ & _ & Hh & _).
    rewrite E. destruct Hh as [[k Hk] Hc]. by exists k. }
  destruct (Hpub r Hr) as (k & Hk & Hc).
  pose proof all_sent_length as Hl. unfold all_sent in Hl.
  assert (PmMpiSpec.ready_with ready_states (sent PM H s0 <$> seq 0 n)) as Hready.
  { apply Forall2_fmap_2, Forall2_same_length_lookup_2; [done|]. intros i x y Hx Hy.
    assert (x = y) as -> by congruence. apply lookup_seq in Hx as [-> Hi].
    destruct (Hpub i Hi) as (k' & Hk' & _). by exists [], k'. }
  assert (ib_pm (pub PM H s0 r).2 ∈ ready_states) as Hin.
  { apply list_elem_of_fmap. exists r. split; [done|]. apply elem_of_seq. lia. }
  destruct (PmMpiSpec.barrier_ok (W r) ready_states (sent PM H s0 <$> seq 0 n) [] (sent PM H s0 r) k _
    Hready Hk Hin (Hfirst r Hr)) as (t & E & K & C).
  - rewrite Hl. exact Hsize.
  - rewrite Hl. cbn [length]. unfold int_max in *. lia.
  - exists t. split; [exact E|]. split; [by eexists|]. rewrite C, Hc. done.
Qed.

Lemma mpi_barrier_again r t : (r < n)%nat → @ps_holds _ _ (ST r) t 1 (all_sent n PM H s0) [] →
  ∃ t', PmMpi.lcm_pm_barrier (W r) t = (Done tt, t').
Proof using Hstarts Hn Hbound Hsize Hsecond.
  intros Hr [[k Hk] Hc]. destruct (Hsecond r t _ k Hr Hk Hc) as (ss & H1 & H2 & H3).
  assert (length (concat (replicate n ([] : list kv))) = 0%nat) as Hz by (clear; induction n; done).
  destruct (PmMpiSpec.barrier_ok (W r) ss (replicate n []) _ [] k t H1 Hk H2 H3) as (t' & E & _).
  - rewrite Hz. unfold int_max. lia.
  - rewrite Hz, all_sent_length. unfold int_max in *. lia.
  - by exists t'.
Qed.
End over_mpi.

(** ** Two ranks over MPI *)

Definition job_dev (r : Z) : device :=
  Verbs.Device 0 0 0 0 0 236 (7 + r) false 4 (λ _, []) (λ p, p) (λ p, 64 * p + r) (λ p, p).
(** Port 0 cannot be queried. *)
Definition job_world (r : Z) : world :=
  World (λ _, true) (λ _, 0) (λ k, if (k =? 4)%nat then 22 else 0) (job_dev r) 0 [].
Definition job_start (r : nat) : ibv_state PmMpi.pm_mpi :=
  Ibv (Hw (job_world (Z.of_nat r)) (OS ∅ ∅ (OS.Net [] [] [] 1 [] true)) 0 [] [] [] [] []) PmMpi.pm_start.
Definition job_host (r : nat) : host := Host None 32 0 (Some [(L "mlx5_0", 1)]) (λ p, 1000 + p).

Definition job_states : list PmMpi.pm_mpi :=
  ready_states 2 (λ r, PmMpi.MpiEnv (λ _, true) (Z.of_nat r) 2 1 (λ _ _, []) (λ _ _ _ _ dst, dst)) job_host job_start.
Definition job_env (r : nat) : PmMpi.mpi_env :=
  PmMpi.MpiEnv (λ _, true) (Z.of_nat r) 2 1
    (λ k _, if (k =? 0)%nat then (λ t, PmMpi.a_size (PmMpi.l_archive t)) <$> job_states else [0; 0])
    (λ k _, PmMpiSpec.scatter (if (k =? 1)%nat then PmMpiSpec.sent <$> job_states else [[]; []])).
Abbreviation job_pm := (λ r, mpi_wrapper (job_env r)).
Definition job_alloc (r k : nat) : PmMpi.env_alloc (job_env r) k = true := eq_refl.

Lemma job_starts r : (r < 2)%nat → starts 2 job_pm (λ r, mpi_store (job_env r) (job_alloc r)) job_host job_start 4096 r.
Proof.
  intros Hr. constructor.
  - destruct (PmMpiSpec.initialize_ok (job_env r) (job_alloc r)) as (t & E & K & C).
    exists t. split; [exact E|]. split; [done|]. split; [done|]. split; [|done]. split; [by exists 0%nat|done].
  - done.
  - assert (∃ d h, open_device (job_host r) 2 (ib_hw (job_start r)) = (Done d, h) ∧ (4 < h_time h)%nat ∧
      0 ≤ mr_addr d < 2 ^ 64 ∧ 0 ≤ ho_rkey (job_host r) (dev_mr d) < 2 ^ 32) as (d & h & E & Ht & Hv).
    { destruct r as [|[|r]]; [..|lia]; (eexists _, _; split; [vm_compute; reflexivity|]; cbn; lia). }
    exists d, h. split; [exact E|]. split; [|exact Hv].
    destruct (open_device_live (ib_hw (job_start r)) (λ _, eq_refl) _ _ d h E) as [[G _ _ _] _].
    constructor; rewrite G; [done| |vm_compute; discriminate]. intros k Hk. cbn.
    by replace (k =? 4)%nat with false by lia.
  - destruct r as [|[|r]]; [..|lia]; intros rank d l E; vm_compute in E; injection E as <- <- <-.
    all: apply (bool_decide_unpack _); vm_compute; exact I.
  - cbn. lia.
Qed.

Lemma job_delivers r : (r < 2)%nat →
  PmMpiSpec.delivers (job_env r) (ready_states 2 job_env job_host job_start) (ib_pm (pub job_pm job_host job_start r).2).
Proof.
  intros Hr. assert (ready_states 2 job_env job_host job_start = job_states) as -> by (vm_compute; reflexivity).
  destruct r as [|[|r]]; [..|lia]; (constructor; [done|vm_compute; reflexivity|]).
  all: intros counts displs dst; cbn [job_env PmMpi.env_allgatherv]; f_equal; vm_compute; reflexivity.
Qed.

Lemma job_delivers_again r t g k : (r < 2)%nat → PmMpiSpec.kvs t g [] k → PmMpi.calls t = 2%nat →
  ∃ ss, PmMpiSpec.ready_with ss (replicate 2 []) ∧ t ∈ ss ∧ PmMpiSpec.delivers (job_env r) ss t.
Proof.
  intros _ Hk Hc. exists [t; t]. pose proof Hk as [es Ho].
  pose proof (PmMpiSpec.ar_size _ _ _ _ (PmMpiSpec.ow_rep _ _ _ _ Ho PmMpi.Local)) as Hs.
  split; [|split; [by left|]].
  - repeat constructor; by exists g, k.
  - constructor; [done| |].
    + rewrite Hc. cbn in *. by rewrite Hs.
    + assert (PmMpiSpec.sent t = []) as Ht.
      { unfold PmMpiSpec.sent. rewrite (PmMpiSpec.local_entries_eq _ _ _ _ Ho).
        pose proof (PmMpiSpec.rep_length _ _ _ _ (PmMpiSpec.ow_rep _ _ _ _ Ho PmMpi.Local)) as Hl. cbn in Hl.
        by destruct (es PmMpi.Local). }
      intros counts displs dst. rewrite Hc. cbn. by rewrite Ht.
Qed.

Lemma init_meshes_witness :
  (∃ D s, init (job_host 0) (job_pm 0%nat) (job_start 0) = (Done D, s) ∧ meshed 2 job_pm job_host job_start 0 D s) ∧
  ∃ D s, init (job_host 1) (job_pm 1%nat) (job_start 1) = (Done D, s) ∧ meshed 2 job_pm job_host job_start 1 D s.
Proof.
  assert (∀ r, (r < 2)%nat → ∃ D s, init (job_host r) (job_pm r) (job_start r) = (Done D, s) ∧
    meshed 2 job_pm job_host job_start r D s) as Hall; [|split; apply Hall; lia].
  apply (init_meshes 2 job_pm (λ r, mpi_store (job_env r) (job_alloc r)) job_host job_start 4096 job_starts).
  - lia.
  - reflexivity.
  - intros r. apply (mpi_barrier 2 job_env job_alloc job_host job_start 4096 job_starts);
      [lia|reflexivity|vm_compute; discriminate|exact job_delivers].
  - intros r t. apply (mpi_barrier_again 2 job_env job_alloc job_host job_start 4096 job_starts);
      [lia|reflexivity|vm_compute; discriminate|exact job_delivers_again].
Defined.
