(* ===== verification/BenchCommon.v ===== *)
(** * What the benchmarks share (benchmarks/bench_common.hpp)

    The schedule of message sizes and iterations, the two routines that fill and
    check a buffer, and the options.  The timing and its report, and the counters
    of PAPI (the default build has none), are left out. *)

From Stdlib Require Import ZifyBool.
From S2P Require Import Prelude CLib.

Local Open Scope Z_scope.

Definition LARGE : Z := 8192.
Definition TOTAL : Z := 4000.
Definition SKIP : Z := 1000.
Definition TOTAL_LARGE : Z := 1000.
Definition SKIP_LARGE : Z := 100.

(** ** The schedule *)

(** [for (i = 0; i < bound; i += 1) f (msg_size, i)], as the calls it makes.
    [iter] is [{0, 1}], its default, in every call of [RUN_VARY_MSG]; the
    parameter of [f] is an [int]. *)
Definition iterations (msg_size bound : Z) : list (Z * Z) :=
  (λ i, (wrap_s 32 msg_size, Z.of_nat i)) <$> seq 0 (Z.to_nat bound).

(** The rounds from [msg_size] on; [loop] and [skip] stay at their small
    values once a size has been large. *)
Fixpoint vary (fuel : nat) (last loop skip msg_size : Z) : outcome (list (Z * Z)) :=
  if msg_size <=? last then
    match fuel with
    | O => Hang
    | S fuel =>
        let loop := if LARGE <=? msg_size then TOTAL_LARGE else loop in
        let skip := if LARGE <=? msg_size then SKIP_LARGE else skip in
        match vary fuel last loop skip (wrap_u 64 (Z.shiftl msg_size 1)) with
        | Done l => Done (iterations msg_size skip ++ iterations msg_size loop ++ l)
        | r => r
        end
    end
  else Done [].

(** [RUN_VARY_MSG ({min, max}, report, f)]: the calls of [f] in order, or that the
    loop never ends.  The bounds are converted to [size_t].  A [size_t] that has
    been doubled 64 times is 0 and stays 0. *)
Definition RUN_VARY_MSG (min_msg_size max_msg_size : Z) : outcome (list (Z * Z)) :=
  vary 64 (wrap_u 64 max_msg_size) TOTAL SKIP (wrap_u 64 min_msg_size).

(** ** Buffers *)

(** [write_buffer (buffer, len, input)] on the bytes from [buffer] on; [None] past
    their end. *)
Definition write_buffer (buffer : list char) (len : Z) (input : char) : option (list char) :=
  if Z.of_nat (length buffer) <? len then None
  else Some (replicate (Z.to_nat len) input ++ drop (Z.to_nat len) buffer).

(** [check_buffer]: whether it returns; otherwise it aborts. *)
Definition check_buffer (buffer : list char) (len : Z) (expect : char) : option bool :=
  if Z.of_nat (length buffer) <? len then None
  else Some (forallb (λ c, (c =c expect)%c) (take (Z.to_nat len) buffer)).

(** ** Options *)

Record config := Config {
  touch_data : bool;
  min_msg_size : Z;
  max_msg_size : Z;
  inline_size : Z }.

(** The defaults.  Some benchmarks have an inline size with an option for it: 236 in
    ibv_pingpong_sendrecv.cpp, 220 in the two that write; the others use the one of
    [DeviceConfig], 0. *)
Definition default_config (inline : option Z) : config := Config true 8 (64 * 1024) (default 0 inline).

(** One option, as [getopt_long] returns it with its argument; one that is not
    known is ignored. *)
Definition parse_bench_opt (with_inline : bool) (c : config) (o : char * cstr) : config :=
  let '(opt, optarg) := o in
  if (opt =c "a")%c then Config (touch_data c) (atoi optarg) (max_msg_size c) (inline_size c)
  else if (opt =c "b")%c then Config (touch_data c) (min_msg_size c) (atoi optarg) (inline_size c)
  else if (opt =c "t")%c then Config (atoi optarg <>z 0)%c (min_msg_size c) (max_msg_size c) (inline_size c)
  else if with_inline && (opt =c "i")%c then
    Config (touch_data c) (min_msg_size c) (max_msg_size c) (atoi optarg)
  else c.

Definition parseArgs (inline : option Z) (opts : list (char * cstr)) : config :=
  foldl (parse_bench_opt (bool_decide (is_Some inline))) (default_config inline) opts.

(** ** What the schedule is *)

(** The sizes: powers of two times the first, up to the last. *)
Definition sizes (first : Z) (n : nat) : list Z := (λ k, first * 2 ^ Z.of_nat k) <$> seq 0 n.

(** The calls for a size: 1000 rounds of warm-up and 4000 that are timed, from 8192
    bytes on 100 and 1000; both count from 0. *)
Definition calls_for (size : Z) : list (Z * Z) :=
  let rounds (n : Z) := (λ i, (size, Z.of_nat i)) <$> seq 0 (Z.to_nat n) in
  if size <? 8192 then rounds 1000 ++ rounds 4000 else rounds 100 ++ rounds 1000.

Lemma sizes_S first n : sizes first (S n) = first :: sizes (first * 2) n.
Proof.
  unfold sizes. cbn [seq fmap list_fmap]. f_equal; [lia|].
  rewrite <-fmap_S_seq, <-list_fmap_compose. apply list_fmap_ext. intros i k _.
  unfold compose. rewrite Nat2Z.inj_succ, Z.pow_succ_r by lia. lia.
Qed.

Lemma double_size size : 0 ≤ size < 2 ^ 63 → wrap_u 64 (Z.shiftl size 1) = size * 2.
Proof. intros H. rewrite Z.shiftl_mul_pow2 by lia. rewrite wrap_u_small; lia. Qed.

(** The rounds of one size are those of its calls. *)
Lemma round_calls size :
  is_int size →
  iterations size (if LARGE <=? size then SKIP_LARGE else SKIP) ++
  iterations size (if LARGE <=? size then TOTAL_LARGE else TOTAL) = calls_for size.
Proof.
  intros H. unfold iterations, calls_for, LARGE. rewrite wrap_s_int by done.
  replace (8192 <=? size) with (negb (size <? 8192)) by lia.
  by destruct (size <? 8192).
Qed.

(** With the rounds that belong to the size, the loop makes the calls of each
    size in turn. *)
Lemma vary_runs fuel last loop skip size :
  0 < size → last ≤ int_max → last < size * 2 ^ Z.of_nat fuel →
  (if LARGE <=? size then True else loop = TOTAL ∧ skip = SKIP) →
  ∃ n, vary fuel last loop skip size = Done (sizes size n ≫= calls_for) ∧
    (∀ k, (k < n)%nat ↔ size * 2 ^ Z.of_nat k ≤ last).
Proof.
  unfold int_max. revert loop skip size. induction fuel as [|fuel IH]; intros loop skip size H0 Hl Hf Hr; cbn [vary].
  { replace (size <=? last) with false by lia. exists 0%nat. split; [done|]. intros k.
    assert (0 < 2 ^ Z.of_nat k) by lia. split; [lia|nia]. }
  destruct (size <=? last) eqn:E.
  2:{ exists 0%nat. split; [done|]. intros k. assert (0 < 2 ^ Z.of_nat k) by lia. split; [lia|nia]. }
  rewrite double_size by lia.
  destruct (IH (if LARGE <=? size then TOTAL_LARGE else loop) (if LARGE <=? size then SKIP_LARGE else skip)
    (size * 2)) as (n & En & Hk).
  { lia. } { done. }
  { rewrite Nat2Z.inj_succ, Z.pow_succ_r in Hf by lia. nia. }
  { destruct (LARGE <=? size) eqn:El; [by replace (LARGE <=? size * 2) with true by lia|].
    by destruct (LARGE <=? size * 2). }
  exists (S n). split.
  - rewrite En, sizes_S. cbn [mbind list_bind]. rewrite <-(round_calls size), <-(assoc_L app)
      by (unfold is_int, int_min, int_max; lia).
    by destruct (LARGE <=? size); [|destruct Hr as [-> ->]].
  - intros [|k].
    + change (2 ^ Z.of_nat 0) with 1. split; lia.
    + specialize (Hk k). rewrite Nat2Z.inj_succ, Z.pow_succ_r by lia.
      replace (size * (2 * 2 ^ Z.of_nat k)) with (size * 2 * 2 ^ Z.of_nat k) by lia. rewrite <-Hk. lia.
Qed.

Lemma vary_stops fuel last loop skip size : last < size → vary fuel last loop skip size = Done [].
Proof. intros H. destruct fuel; cbn [vary]; by replace (size <=? last) with false by lia. Qed.

(** A size none of whose multiples, as they wrap, is above the last goes on for ever,
    however many rounds are followed. *)
Lemma vary_hangs last size :
  0 ≤ size < 2 ^ 64 → (∀ k : nat, wrap_u 64 (size * 2 ^ Z.of_nat k) ≤ last) →
  ∀ fuel loop skip, vary fuel last loop skip size = Hang.
Proof.
  intros Hs H fuel. revert size Hs H. induction fuel as [|fuel IH]; intros size Hs H loop skip; cbn [vary];
    (pose proof (H 0%nat) as H0; change (2 ^ Z.of_nat 0) with 1 in H0; rewrite Z.mul_1_r, wrap_u_small in H0 by done;
     replace (size <=? last) with true by lia); [done|].
  rewrite IH; [done| |].
  - unfold wrap_u. apply Z.mod_pos_bound. lia.
  - intros k. specialize (H (S k)). rewrite Nat2Z.inj_succ, Z.pow_succ_r in H by lia.
    unfold wrap_u in *. rewrite Zmult_mod_idemp_l, Z.shiftl_mul_pow2 by lia.
    by replace (size * 2 ^ 1 * 2 ^ Z.of_nat k) with (size * (2 * 2 ^ Z.of_nat k)) by lia.
Qed.

(** A negative number as a [size_t]. *)
Lemma mod_negative z : - 2 ^ 64 ≤ z < 0 → z mod 2 ^ 64 = 2 ^ 64 + z.
Proof. intros H. symmetry. apply Z.mod_unique with (-1); lia. Qed.

(** The multiples of an [int] as a [size_t] stay below the greatest [size_t] values
    that come from an [int]. *)
Lemma doubled_below m k max :
  is_int m → int_min ≤ max < 0 → 0 ≤ m ∨ m ≤ max →
  wrap_u 64 (wrap_u 64 m * 2 ^ Z.of_nat k) ≤ wrap_u 64 max.
Proof.
  unfold is_int, int_min, int_max, wrap_u. intros Hm Hx Hc. rewrite Zmult_mod_idemp_l.
  rewrite (mod_negative max) by lia.
  destruct (decide (k ≤ 32)%nat) as [Hk|Hk].
  - assert (0 < 2 ^ Z.of_nat k ≤ 2 ^ 32) by (split; [lia|apply Z.pow_le_mono_r; lia]).
    destruct Hc as [Hc|Hc].
    + rewrite Z.mod_small by nia. nia.
    + rewrite mod_negative by nia. nia.
  - replace (Z.of_nat k) with (33 + (Z.of_nat k - 33)) by lia. rewrite Z.pow_add_r by lia.
    replace (m * (2 ^ 33 * 2 ^ (Z.of_nat k - 33))) with (2 ^ 33 * (m * 2 ^ (Z.of_nat k - 33))) by lia.
    change (2 ^ 64) with (2 ^ 33 * 2 ^ 31) at 1. rewrite Z.mul_mod_distr_l by lia.
    pose proof (Z.mod_pos_bound (m * 2 ^ (Z.of_nat k - 33)) (2 ^ 31) ltac:(lia)). lia.
Qed.

(** Every call is for a size between the bounds. *)
Lemma calls_in_bounds min max calls :
  0 < min → is_int min → 0 ≤ max → is_int max → RUN_VARY_MSG min max = Done calls →
  Forall (λ call, 0 < call.1 ≤ max) calls.
Proof.
  unfold is_int, int_min, int_max. intros H0 Hi H1 Hm. unfold RUN_VARY_MSG.
  rewrite (wrap_u_small 64 max), (wrap_u_small 64 min) by lia.
  destruct (vary_runs 64 max TOTAL SKIP min) as (n & -> & Hk);
    [lia|unfold int_max; lia| |by destruct (LARGE <=? min)|].
  { change (2 ^ Z.of_nat 64) with (2 ^ 64). lia. }
  intros [= <-]. apply Forall_forall. intros [x i] (size & Hx & Hs)%list_elem_of_bind.
  apply list_elem_of_fmap in Hs as (k & -> & Hin). apply elem_of_seq in Hin as [_ Hlt].
  assert (x = min * 2 ^ Z.of_nat k) as ->.
  { unfold calls_for in Hx. case_match; apply elem_of_app in Hx as [Hx|Hx];
      by apply list_elem_of_fmap in Hx as (j & [= -> _] & _). }
  cbn [fst]. pose proof (proj1 (Hk k) Hlt). assert (0 < 2 ^ Z.of_nat k) by lia. split; [nia|done].
Qed.

(** The bounds for which the loop never ends. *)
Definition endless (min max : Z) : Prop := min = 0 ∨ (max < 0 ∧ (0 < min ∨ min ≤ max)).

(** C36: the schedule of a benchmark, for all bounds that are [int]s.  For a positive
    least size and a greatest size that is not negative the loop ends, and makes for
    each of the sizes [min], [2 min], [4 min], ... up to the greatest first the calls of
    the warm-up and then those that are timed: 1000 and 4000, from 8192 bytes on 100
    and 1000.  For a least size of 0, and for a greatest size that is negative, unless
    the least size is negative too and above it, the loop never ends, however many
    rounds are followed; for the other negative least sizes nothing is called. *)
Theorem RUN_VARY_MSG_spec (min max : Z) (Hmin : is_int min) (Hmax : is_int max) :
  (0 < min → 0 ≤ max → ∃ n, RUN_VARY_MSG min max = Done (sizes min n ≫= calls_for) ∧
     ∀ k, (k < n)%nat ↔ min * 2 ^ Z.of_nat k ≤ max) ∧
  (endless min max → RUN_VARY_MSG min max = Hang ∧
     ∀ fuel, vary fuel (wrap_u 64 max) TOTAL SKIP (wrap_u 64 min) = Hang) ∧
  (min < 0 → ¬ endless min max → RUN_VARY_MSG min max = Done []).
Proof.
  pose proof Hmin as Hmin'. pose proof Hmax as Hmax'. unfold is_int, int_min, int_max in Hmin', Hmax'.
  split; [|split].
  - intros H1 H2. unfold RUN_VARY_MSG. rewrite (wrap_u_small 64 max), (wrap_u_small 64 min) by lia.
    apply vary_runs; [lia|unfold int_max; lia| |by destruct (LARGE <=? min)].
    change (2 ^ Z.of_nat 64) with (2 ^ 64). nia.
  - intros Hn. assert (∀ fuel, vary fuel (wrap_u 64 max) TOTAL SKIP (wrap_u 64 min) = Hang) as Hh; [|split; [apply Hh|exact Hh]].
    intros fuel. apply vary_hangs; [unfold wrap_u; apply Z.mod_pos_bound; lia|]. intros k.
    destruct Hn as [-> | [Hneg Hn]].
    + change (wrap_u 64 0) with 0. rewrite Z.mul_0_l. unfold wrap_u.
      pose proof (Z.mod_pos_bound max (2 ^ 64) ltac:(lia)). rewrite Z.mod_0_l by lia. lia.
    + apply doubled_below; [done|unfold int_min; lia|lia].
  - intros H Hn. unfold RUN_VARY_MSG, endless in *. apply vary_stops. unfold wrap_u. rewrite (mod_negative min) by lia.
    destruct (decide (0 ≤ max)); [rewrite Z.mod_small by lia|rewrite mod_negative by lia]; lia.
Qed.

Lemma RUN_VARY_MSG_spec_witness :
  RUN_VARY_MSG 0 4 = Hang ∧ RUN_VARY_MSG 8 (-1) = Hang ∧ RUN_VARY_MSG (-1) (-8) = Done [] ∧
  ∃ n, RUN_VARY_MSG 4096 20000 = Done (sizes 4096 n ≫= calls_for).
Proof.
  assert (∀ z, -8 ≤ z ≤ 20000 → is_int z) as Hint by (unfold is_int, int_min, int_max; lia).
  split; [|split; [|split]].
  - apply (RUN_VARY_MSG_spec 0 4); [apply Hint; lia..|by left].
  - apply (RUN_VARY_MSG_spec 8 (-1)); [apply Hint; lia..|right; lia].
  - destruct (RUN_VARY_MSG_spec (-1) (-8) (Hint (-1) ltac:(lia)) (Hint (-8) ltac:(lia))) as (_ & _ & H).
    apply H; unfold endless; lia.
  - destruct (RUN_VARY_MSG_spec 4096 20000 (Hint 4096 ltac:(lia)) (Hint 20000 ltac:(lia))) as [H _].
    destruct (H ltac:(lia) ltac:(lia)) as (n & E & _). by exists n.
Defined.

(** ** What is written is found *)

Lemma write_buffer_length buffer len input b :
  write_buffer buffer len input = Some b → length b = length buffer.
Proof.
  unfold write_buffer. case_match; [done|]. intros [= <-]. rewrite length_app, length_replicate, length_drop. lia.
Qed.

Lemma check_written rest len input :
  0 ≤ len → check_buffer (replicate (Z.to_nat len) input ++ rest) len input = Some true.
Proof.
  intros H. unfold check_buffer. rewrite length_app, length_replicate.
  replace (Z.of_nat (Z.to_nat len + length rest) <? len) with false by lia. f_equal.
  rewrite take_app_length' by (by rewrite length_replicate).
  apply forallb_forall. intros c Hc. apply list_elem_of_In in Hc.
  apply elem_of_replicate in Hc as [-> _]. apply char_eqb_refl.
Qed.
