(* ===== verification/BenchNet.v ===== *)
(** * Two benchmark processes over a reliable connection
      (benchmarks/ibv_common.hpp)

    The posting and polling functions of ibv_common.hpp over the state of one
    process, and the network between two of them: the adapter of a process works
    off its send queue, moves data between the memories of the two and adds
    completions.  The adapters and the processes take their steps in any order.
    [ev] says that all schedules of a network end in a state with a property, none
    of them failing. *)

From Stdlib Require Import ZifyBool.
From S2P Require Import Prelude CLib LcmArchive DeviceConfig BenchCommon.

Local Open Scope Z_scope.

(** The two processes and the adapters of their hosts. *)
Inductive agent := ProcA | ProcB | NicA | NicB.

#[global] Instance agent_eq_dec : EqDecision agent.
Proof. solve_decision. Defined.

(** ** Memory

    The registered memory of a process is cut into slots: the messages to send,
    the buffer control messages arrive in, and the two data buffers.  A pointer of
    the program is a slot; as an integer it is the address of the slot. *)
Inductive slot := SRts | SRtr | SFin | SCtl | SSend | SRecv.

#[global] Instance slot_eq_dec : EqDecision slot.
Proof. solve_decision. Defined.

(** The slots in the order in which [run] cuts them off, with their sizes. *)
Abbreviation layout := (list (slot * Z)).

Fixpoint slot_addr (base : Z) (lay : layout) (s : slot) : Z :=
  match lay with
  | [] => 0
  | (s', size) :: lay => if decide (s = s') then base else slot_addr (base + size) lay s
  end.

Definition layout_size (lay : layout) : Z := foldr (λ x n, x.2 + n) 0 lay.

Fixpoint slot_of (base : Z) (lay : layout) (z : Z) : option slot :=
  match lay with
  | [] => None
  | (s, size) :: lay => if z =? base then Some s else slot_of (base + size) lay z
  end.

(** What does not change in a process: its rank, the number of its queue pair
    to the other process, the table that gives the rank for such a number, its
    memory, the key and the length of its region, what it knows of the region of the other
    process, and the addresses [malloc] returns. *)
Record env := Env {
  v_rank : Z;
  v_qpn : Z;
  v_qp2rank : list Z;
  v_qp2rank_mod : Z;
  v_layout : layout;
  v_mr_addr : Z;
  v_rkey : Z;
  v_mr_size : Z;
  v_rmr_addr : Z;
  v_rmr_rkey : Z;
  v_inline_size : Z;
  v_alloc : nat → Z }.

Definition addr_of (W : env) (s : slot) : Z := slot_addr (v_mr_addr W) (v_layout W) s.

(** The bytes a process writes: ['a' + rank]. *)
Definition value_of (rank : Z) : char := ascii_of_nat (97 + Z.to_nat rank).

Inductive wr_opcode := WR_SEND | WR_SEND_WITH_IMM | WR_RDMA_WRITE | WR_RDMA_WRITE_WITH_IMM | WR_RDMA_READ.
Inductive wc_opcode := WC_SEND | WC_RDMA_WRITE | WC_RDMA_READ | WC_RECV | WC_RECV_RDMA_WITH_IMM.

#[global] Instance wc_opcode_eq_dec : EqDecision wc_opcode.
Proof. solve_decision. Defined.

(** [struct ibv_wc]. *)
Record bwc := BWc { c_wr_id : Z; c_status : Z; c_opcode : wc_opcode; c_imm_data : Z; c_qp_num : Z }.
Definition IBV_WC_SUCCESS : Z := 0.

Section net.
(** The control messages, and the structures that are allocated for a transfer. *)
Context {msg ctx : Type}.

Inductive cell := CMsg (m : option msg) | CBuf (b : list char).

Record mem := Mem { m_rts : option msg; m_rtr : option msg; m_fin : option msg; m_ctl : option msg;
  m_send : list char; m_recv : list char }.

Definition load (s : slot) (m : mem) : cell :=
  match s with
  | SRts => CMsg (m_rts m)
  | SRtr => CMsg (m_rtr m)
  | SFin => CMsg (m_fin m)
  | SCtl => CMsg (m_ctl m)
  | SSend => CBuf (m_send m)
  | SRecv => CBuf (m_recv m)
  end.

Definition store_msg (s : slot) (x : msg) (m : mem) : option mem :=
  match s with
  | SRts => Some (Mem (Some x) (m_rtr m) (m_fin m) (m_ctl m) (m_send m) (m_recv m))
  | SRtr => Some (Mem (m_rts m) (Some x) (m_fin m) (m_ctl m) (m_send m) (m_recv m))
  | SFin => Some (Mem (m_rts m) (m_rtr m) (Some x) (m_ctl m) (m_send m) (m_recv m))
  | SCtl => Some (Mem (m_rts m) (m_rtr m) (m_fin m) (Some x) (m_send m) (m_recv m))
  | SSend | SRecv => None
  end.

Definition store_buf (s : slot) (b : list char) (m : mem) : option mem :=
  match s with
  | SSend => Some (Mem (m_rts m) (m_rtr m) (m_fin m) (m_ctl m) b (m_recv m))
  | SRecv => Some (Mem (m_rts m) (m_rtr m) (m_fin m) (m_ctl m) (m_send m) b)
  | _ => None
  end.

(** The first [len] bytes of a buffer over those of another. *)
Definition copy_bytes (len : Z) (src dst : list char) : option (list char) :=
  if (Z.of_nat (length src) <? len) || (Z.of_nat (length dst) <? len) then None
  else Some (take (Z.to_nat len) src ++ drop (Z.to_nat len) dst).

(** [len] bytes of [c] to a slot with [room] bytes. *)
Definition copy_cell (c : cell) (len room : Z) (dst : slot) (m : mem) : option mem :=
  if room <? len then None
  else
    match c, load dst m with
    | CMsg (Some x), CMsg _ => store_msg dst x m
    | CBuf b, CBuf b' => b ← copy_bytes len b b'; store_buf dst b m
    | _, _ => None
    end.

(** ** A process *)

(** A send request: [w_inline] is the data when it is taken at once; and a
    receive. *)
Record send_wr := SendWr { w_wr_id : Z; w_opcode : wr_opcode; w_buf : slot; w_len : Z; w_inline : option cell;
  w_imm : Z; w_raddr : Z; w_rkey : Z }.
Record recv_wr := RecvWr { r_wr_id : Z; r_buf : slot; r_len : Z }.

(** Its memory; the send queue, the shared receive queue and the completion
    queues of its device; [posted_recv_num]; the number of calls of [malloc] and
    what they allocated; the archive; the local [wc]. *)
Record endst := End {
  x_mem : mem;
  x_sq : list send_wr;
  x_rq : list recv_wr;
  x_scq : list bwc;
  x_rcq : list bwc;
  x_posted : Z;
  x_nalloc : nat;
  x_heap : gmap Z ctx;
  x_arch : lcm_archive;
  x_wc : option bwc }.

Definition set_mem (v : mem) (e : endst) : endst :=
  End v (x_sq e) (x_rq e) (x_scq e) (x_rcq e) (x_posted e) (x_nalloc e) (x_heap e) (x_arch e) (x_wc e).
Definition set_sq (v : list send_wr) (e : endst) : endst :=
  End (x_mem e) v (x_rq e) (x_scq e) (x_rcq e) (x_posted e) (x_nalloc e) (x_heap e) (x_arch e) (x_wc e).
Definition set_rq (v : list recv_wr) (e : endst) : endst :=
  End (x_mem e) (x_sq e) v (x_scq e) (x_rcq e) (x_posted e) (x_nalloc e) (x_heap e) (x_arch e) (x_wc e).
Definition set_scq (v : list bwc) (e : endst) : endst :=
  End (x_mem e) (x_sq e) (x_rq e) v (x_rcq e) (x_posted e) (x_nalloc e) (x_heap e) (x_arch e) (x_wc e).
Definition set_rcq (v : list bwc) (e : endst) : endst :=
  End (x_mem e) (x_sq e) (x_rq e) (x_scq e) v (x_posted e) (x_nalloc e) (x_heap e) (x_arch e) (x_wc e).
Definition set_posted (v : Z) (e : endst) : endst :=
  End (x_mem e) (x_sq e) (x_rq e) (x_scq e) (x_rcq e) v (x_nalloc e) (x_heap e) (x_arch e) (x_wc e).
Definition set_heap (n : nat) (v : gmap Z ctx) (e : endst) : endst :=
  End (x_mem e) (x_sq e) (x_rq e) (x_scq e) (x_rcq e) (x_posted e) n v (x_arch e) (x_wc e).
Definition set_arch (v : lcm_archive) (e : endst) : endst :=
  End (x_mem e) (x_sq e) (x_rq e) (x_scq e) (x_rcq e) (x_posted e) (x_nalloc e) (x_heap e) v (x_wc e).
Definition set_wc (v : option bwc) (e : endst) : endst :=
  End (x_mem e) (x_sq e) (x_rq e) (x_scq e) (x_rcq e) (x_posted e) (x_nalloc e) (x_heap e) (x_arch e) v.

(** A statement of a benchmark; [Hang] is waiting for a completion. *)
Abbreviation op := (M endst ()).

(** [MLOG_Assert]: the process ends when the condition is false. *)
Definition bench_assert (b : bool) : op := if b then mret tt else exit_ 134.

(** [malloc] of a structure and the assignments to its fields; the address is not
    tested. *)
Definition malloc (W : env) (c : ctx) : M endst Z :=
  e ← get;
  let p := v_alloc W (x_nalloc e) in
  if p =? 0 then fault_ NullDeref
  else modify (set_heap (S (x_nalloc e)) (<[p := c]> (x_heap e)));; mret p.

(** [delete ctx] of what [malloc] returned. *)
Definition delete_ctx (p : Z) : op :=
  e ← get;
  match x_heap e !! p with
  | Some _ => modify (set_heap (x_nalloc e) (delete p (x_heap e)))
  | None => fault_ UseAfterFree
  end.

Definition read_ctx (p : Z) : M endst ctx :=
  e ← get; or_fault UseAfterFree (x_heap e !! p).

(** A message is written through its pointer, or read through an integer that was
    one. *)
Definition put_msg (s : slot) (x : msg) : op :=
  e ← get; m ← or_fault OutOfBounds (store_msg s x (x_mem e)); modify (set_mem m).

Definition get_msg (s : slot) : M endst msg :=
  e ← get;
  match load s (x_mem e) with
  | CMsg (Some x) => mret x
  | CMsg None => fault_ Uninitialised
  | CBuf _ => fault_ OutOfBounds
  end.

Definition get_msg_at (W : env) (z : Z) : M endst msg :=
  s ← or_fault OutOfBounds (slot_of (v_mr_addr W) (v_layout W) z); get_msg s.

(** ** The functions of ibv_common.hpp *)

Definition ENOMEM : Z := 12.

(** [ibv_post_srq_recv] on a queue of [max_recv_num] requests. *)
Definition post_srq_recv (r : recv_wr) : M endst Z :=
  e ← get;
  if max_recv_num <=? Z.of_nat (length (x_rq e)) then mret ENOMEM
  else modify (set_rq (x_rq e ++ [r]));; mret 0.

Definition postRecv (buf : slot) (size user_context : Z) : M endst Z :=
  e ← get;
  modify (set_posted (x_posted e + 1));;
  post_srq_recv (RecvWr user_context buf size).

Fixpoint postRecvs (n : nat) (buf : slot) (size user_context : Z) : op :=
  match n with
  | O => mret tt
  | S n =>
      ret ← postRecv buf size user_context;
      bench_assert (ret =? 0);;
      postRecvs n buf size user_context
  end.

Definition checkAndPostRecvs (buf : slot) (size user_context : Z) : op :=
  e ← get;
  if x_posted e <? min_recv_num then
    postRecvs (Z.to_nat (max_recv_num - x_posted e)) buf size user_context
  else mret tt.

(** [ibv_post_send] on the queue pair to [rank]: the requests whose completion
    has not been polled take up the send queue.  The queue pair of a process to
    itself is not modelled. *)
Definition post_send (W : env) (rank : Z) (w : send_wr) : M endst Z :=
  e ← get;
  if rank <>z 1 - v_rank W then fault_ OutOfBounds
  else if max_send_num <=? Z.of_nat (length (x_sq e) + length (x_scq e)) then mret ENOMEM
  else modify (set_sq (x_sq e ++ [w]));; mret 0.

(** The data of a request that is sent inline is taken when it is posted. *)
Definition inline_data (W : env) (e : endst) (buf : slot) (size : Z) : option cell :=
  if send_inline && (size <=? v_inline_size W) then Some (load buf (x_mem e)) else None.

Definition postSend (W : env) (rank : Z) (buf : slot) (size user_context : Z) : M endst Z :=
  e ← get;
  post_send W rank (SendWr user_context WR_SEND buf size (inline_data W e buf size) 0 0 0).

Definition postSendImm (W : env) (rank : Z) (buf : slot) (size data user_context : Z) : M endst Z :=
  e ← get;
  post_send W rank (SendWr user_context WR_SEND_WITH_IMM buf size (inline_data W e buf size) data 0 0).

Definition postWrite (W : env) (rank : Z) (buf : slot) (size remote_addr rkey user_context : Z) : M endst Z :=
  e ← get;
  post_send W rank (SendWr user_context WR_RDMA_WRITE buf size (inline_data W e buf size) 0 remote_addr rkey).

Definition postWriteImm (W : env) (rank : Z) (buf : slot) (size remote_addr rkey data user_context : Z) :
    M endst Z :=
  e ← get;
  post_send W rank
    (SendWr user_context WR_RDMA_WRITE_WITH_IMM buf size (inline_data W e buf size) data remote_addr rkey).

Definition postRead (W : env) (rank : Z) (buf : slot) (size remote_addr rkey user_context : Z) : M endst Z :=
  post_send W rank (SendWr user_context WR_RDMA_READ buf size None 0 remote_addr rkey).

(** [pollCQ] on the two queues: it polls until there is a completion. *)
Definition pollCQ_send : M endst bwc :=
  e ← get;
  match x_scq e with
  | [] => hang_
  | wc :: l => modify (λ e, set_wc (Some wc) (set_scq l e));; mret wc
  end.

Definition pollCQ_recv : M endst bwc :=
  e ← get;
  match x_rcq e with
  | [] => hang_
  | wc :: l => modify (λ e, set_wc (Some wc) (set_rcq l e));; mret wc
  end.

(** [wc.status == IBV_WC_SUCCESS && wc.opcode == opcode]. *)
Definition is_success (wc : bwc) (opcode : wc_opcode) : bool :=
  (c_status wc =? IBV_WC_SUCCESS) && bool_decide (c_opcode wc = opcode).

(** [device->qp2rank[wc.qp_num % device->qp2rank_mod]]. *)
Definition src_rank (W : env) (wc : bwc) : M endst Z :=
  or_fault OutOfBounds (v_qp2rank W !! Z.to_nat (c_qp_num wc mod v_qp2rank_mod W)).

(** The local variable [wc]. *)
Definition local_wc : M endst bwc := e ← get; or_fault Uninitialised (x_wc e).

(** ** Statements the benchmarks have in common *)

(** [wc = pollCQ (send_cq)], without and with [MLOG_Assert (...)]. *)
Definition poll_send : op := pollCQ_send;; mret tt.

Definition wait_send (opcode : wc_opcode) : op :=
  wc ← pollCQ_send; bench_assert (is_success wc opcode).

(** [write_buffer] and [check_buffer] on a slot. *)
Definition fill_buffer (touch : bool) (s : slot) (len : Z) (input : char) : op :=
  if touch then
    e ← get;
    match load s (x_mem e) with
    | CBuf b =>
        b ← or_fault OutOfBounds (write_buffer b len input);
        m ← or_fault OutOfBounds (store_buf s b (x_mem e));
        modify (set_mem m)
    | CMsg _ => fault_ OutOfBounds
    end
  else mret tt.

Definition verify_buffer (touch : bool) (s : slot) (len : Z) (expect : char) : op :=
  if touch then
    e ← get;
    match load s (x_mem e) with
    | CBuf b => ok ← or_fault OutOfBounds (check_buffer b len expect); bench_assert ok
    | CMsg _ => fault_ OutOfBounds
    end
  else mret tt.

(** [wc = pollCQ (recv_cq)], the assertion [ok], and the receive is posted again. *)
Definition take_recv (ok : bwc → bool) (buf : slot) (size user_context : Z) : op :=
  wc ← pollCQ_recv;
  bench_assert (ok wc);;
  e ← get;
  modify (set_posted (x_posted e - 1));;
  checkAndPostRecvs buf size user_context.

(** A process behind [init]: nothing is posted, nothing allocated. *)
Definition start (m : mem) : endst := End m [] [] [] [] 0 0 ∅ (LcmArchive None 0) None.

(** ** The network *)

Definition complete (W : env) (w : send_wr) (opcode : wc_opcode) (e : endst) : endst :=
  set_scq (x_scq e ++ [BWc (w_wr_id w) IBV_WC_SUCCESS opcode 0 (v_qpn W)]) e.

Definition arrive (W : env) (r : recv_wr) (opcode : wc_opcode) (imm : Z) (l : list recv_wr) (e : endst) : endst :=
  set_rcq (x_rcq e ++ [BWc (r_wr_id r) IBV_WC_SUCCESS opcode imm (v_qpn W)]) (set_rq l e).

(** The slot of process [W] that a remote address names, with the right key. *)
Definition remote_slot (W : env) (w : send_wr) : option slot :=
  if w_rkey w =? v_rkey W then slot_of (v_mr_addr W) (v_layout W) (w_raddr w) else None.

(** The adapter of [a] executes the first request of the send queue; the data is
    read now, unless it was taken when the request was posted.  A message for
    which [b] has no receive is tried again and again.  An access outside a slot
    or with a wrong key is an error of the connection. *)
Definition nic (Wa Wb : env) (a b : endst) : outcome (endst * endst) :=
  match x_sq a with
  | [] => Hang
  | w :: q =>
      let a := set_sq q a in
      let data := default (load (w_buf w) (x_mem a)) (w_inline w) in
      match w_opcode w with
      | WR_SEND | WR_SEND_WITH_IMM =>
          match x_rq b with
          | [] => Hang
          | r :: l =>
              match copy_cell data (w_len w) (r_len r) (r_buf r) (x_mem b) with
              | Some m => Done (complete Wa w WC_SEND a, arrive Wb r WC_RECV (w_imm w) l (set_mem m b))
              | None => Fault OutOfBounds
              end
          end
      | WR_RDMA_WRITE =>
          match s ← remote_slot Wb w; copy_cell data (w_len w) (w_len w) s (x_mem b) with
          | Some m => Done (complete Wa w WC_RDMA_WRITE a, set_mem m b)
          | None => Fault OutOfBounds
          end
      | WR_RDMA_WRITE_WITH_IMM =>
          match x_rq b with
          | [] => Hang
          | r :: l =>
              match s ← remote_slot Wb w; copy_cell data (w_len w) (w_len w) s (x_mem b) with
              | Some m =>
                  Done (complete Wa w WC_RDMA_WRITE a, arrive Wb r WC_RECV_RDMA_WITH_IMM (w_imm w) l (set_mem m b))
              | None => Fault OutOfBounds
              end
          end
      | WR_RDMA_READ =>
          match s ← remote_slot Wb w; copy_cell (load s (x_mem b)) (w_len w) (w_len w) (w_buf w) (x_mem a) with
          | Some m => Done (complete Wa w WC_RDMA_READ (set_mem m a), b)
          | None => Fault OutOfBounds
          end
      end
  end.

(** Two processes with what is left of their programs. *)
Record net := Net { n_a : endst; n_b : endst; n_pa : list op; n_pb : list op }.

Definition run_op (p : list op) (e : endst) : outcome (endst * list op) :=
  match p with
  | [] => Hang
  | o :: p =>
      match o e with
      | (Done _, e) => Done (e, p)
      | (Exited z, _) => Exited z
      | (Fault f, _) => Fault f
      | (Hang, _) => Hang
      end
  end.

Definition outcome_map {A B} (f : A → B) (o : outcome A) : outcome B :=
  match o with Done a => Done (f a) | Exited z => Exited z | Fault f => Fault f | Hang => Hang end.

Context (Wa Wb : env).

(** One step of an agent; [Hang] when it has nothing to do. *)
Definition agent_step (ag : agent) (s : net) : outcome net :=
  let '(Net a b pa pb) := s in
  match ag with
  | ProcA => outcome_map (λ '(a, pa), Net a b pa pb) (run_op pa a)
  | ProcB => outcome_map (λ '(b, pb), Net a b pa pb) (run_op pb b)
  | NicA => outcome_map (λ '(a, b), Net a b pa pb) (nic Wa Wb a b)
  | NicB => outcome_map (λ '(b, a), Net a b pa pb) (nic Wb Wa b a)
  end.

Definition fails {A} (o : outcome A) : Prop :=
  match o with Exited _ | Fault _ => True | _ => False end.

(** All schedules from [s] lead to a state with [P], and no agent fails on the way. *)
Inductive ev (P : net → Prop) (s : net) : Prop :=
  | ev_here : P s → ev P s
  | ev_step :
      (∃ ag s', agent_step ag s = Done s') → (∀ ag, ~ fails (agent_step ag s)) →
      (∀ ag s', agent_step ag s = Done s' → ev P s') → ev P s.

(** Nothing can happen any more. *)
Definition stopped (s : net) : Prop := ∀ ag, agent_step ag s = Hang.

End net.
