(* ===== verification/BenchSched.v ===== *)
(** * Schedules of two benchmark processes

    A statement that touches neither the memory nor the send queue of its process
    commutes with everything the adapters and the other process can do, so that it
    may be taken first ([ev_local_a], [ev_local_b]); with this, the schedules that
    are left of a benchmark are few.  [ev_run] is what [ev] says of every run. *)

From Stdlib Require Import ZifyBool.
From S2P Require Import Prelude CLib LcmArchive DeviceConfig BenchCommon BenchNet.

Local Open Scope Z_scope.

Section sched.
Context {msg ctx : Type} (Wa Wb : env).

Abbreviation endst := (@endst msg ctx).
Abbreviation net := (@net msg ctx).
Abbreviation op := (M endst ()).
Abbreviation step := (agent_step Wa Wb).
Abbreviation ev := (ev Wa Wb).

(** ** Statements that are local to their process *)

(** What such a statement may do: take completions, post receives and change
    what only the process itself sees. *)
Record delta := Delta {
  d_scq : nat;
  d_rcq : nat;
  d_rq : list recv_wr;
  d_posted : Z;
  d_nalloc : nat;
  d_heap : gmap Z ctx;
  d_arch : lcm_archive;
  d_wc : option bwc }.

Definition apply_delta (d : delta) (e : endst) : endst :=
  End (x_mem e) (x_sq e) (x_rq e ++ d_rq d) (drop (d_scq d) (x_scq e)) (drop (d_rcq d) (x_rcq e))
    (d_posted d) (d_nalloc d) (d_heap d) (d_arch d) (d_wc d).

(** What the adapters may do meanwhile, as the process sees it. *)
Record sees (e e' : endst) : Prop := {
  se_scq : ∃ l, x_scq e' = x_scq e ++ l;
  se_rcq : ∃ l, x_rcq e' = x_rcq e ++ l;
  se_rq : ∃ l, x_rq e = l ++ x_rq e';
  se_posted : x_posted e' = x_posted e;
  se_nalloc : x_nalloc e' = x_nalloc e;
  se_heap : x_heap e' = x_heap e;
  se_arch : x_arch e' = x_arch e;
  se_wc : x_wc e' = x_wc e }.

Lemma sees_refl e : sees e e.
Proof. constructor; try done; exists []; by rewrite ?app_nil_r. Qed.

Lemma sees_mem e m : sees e (set_mem m e).
Proof. by destruct (sees_refl e). Qed.

Record local (o : op) (e : endst) (d : delta) : Prop := {
  lo_scq : (d_scq d ≤ length (x_scq e))%nat;
  lo_rcq : (d_rcq d ≤ length (x_rcq e))%nat;
  lo_run : ∀ e', sees e e' → o e' = (Done tt, apply_delta d e') }.

Lemma local_sees o e e' d : local o e d → sees e e' → local o e' d.
Proof.
  intros [H1 H2 H3] Hs. destruct Hs as [[l1 E1] [l2 E2] [l3 E3] E4 E5 E6 E7 E8].
  constructor; [rewrite E1, length_app; lia|rewrite E2, length_app; lia|].
  intros e'' [[k1 F1] [k2 F2] [k3 F3] F4 F5 F6 F7 F8]. apply H3. constructor; try congruence.
  - exists (l1 ++ k1). by rewrite F1, E1, (assoc_L app).
  - exists (l2 ++ k2). by rewrite F2, E2, (assoc_L app).
  - exists (l3 ++ k3). by rewrite E3, F3, (assoc_L app).
Qed.

(** The adapter as the one that sends. *)
Lemma nic_sender (W W' : env) (a b : endst) (d : delta) :
  (d_scq d ≤ length (x_scq a))%nat →
  nic W W' (apply_delta d a) b = outcome_map (λ '(a', b'), (apply_delta d a', b')) (nic W W' a b) ∧
  ∀ a' b', nic W W' a b = Done (a', b') → sees a a'.
Proof.
  intros Hd. destruct a as [m sq rq scq rcq p n h ar w]. unfold nic. cbn [apply_delta x_sq x_scq x_mem] in *.
  destruct sq as [|r sq]; [split; [done|discriminate]|]. cbn [set_sq apply_delta x_mem x_sq x_rq x_scq x_rcq].
  assert (∀ op m', sees (End m (r :: sq) rq scq rcq p n h ar w)
    (complete W r op (set_mem m' (End m sq rq scq rcq p n h ar w)))) as Hsee.
  { intros op m'. constructor; cbn; try done; [by eexists|exists []; by rewrite app_nil_r|by exists []]. }
  destruct (w_opcode r).
  all: repeat match goal with
    | |- context [match x_rq ?e with _ => _ end] => destruct (x_rq e)
    | |- context [match ?o with Some _ => _ | None => _ end] => destruct o
    end; cbn [outcome_map]; split; try discriminate; try done.
  all: try (intros a' b' [= <- <-]; apply (Hsee _ m) || apply Hsee).
  all: f_equal; f_equal; unfold complete, apply_delta, set_mem, set_scq; cbn; try by rewrite drop_app_le.
Qed.

(** The adapter of the other process, [a] being the one that receives. *)
Lemma nic_receiver (W W' : env) (a b : endst) (d : delta) :
  (d_rcq d ≤ length (x_rcq a))%nat →
  match nic W W' b a with
  | Done (b', a') => nic W W' b (apply_delta d a) = Done (b', apply_delta d a') ∧ sees a a'
  | Hang => True
  | _ => fails (nic W W' b (apply_delta d a))
  end.
Proof.
  intros Hd. destruct a as [m sq rq scq rcq p n h ar w]. unfold nic. cbn [apply_delta x_sq x_scq x_mem x_rcq] in *.
  destruct (x_sq b) as [|r l]; [done|]. cbn [x_rq x_mem apply_delta].
  assert (∀ r q op i m', rq = r :: q → sees (End m sq rq scq rcq p n h ar w)
    (arrive W' r op i q (set_mem m' (End m sq rq scq rcq p n h ar w)))) as Hsee.
  { intros r' q op i m' ->. constructor; cbn; try done; [exists []; by rewrite app_nil_r|by eexists|by exists [r']]. }
  destruct (w_opcode r).
  all: repeat match goal with
    | |- context [match ?q with [] => _ | _ => _ end] => is_var q; destruct q as [|? ?]; cbn [app]; try done
    | |- context [match ?o with Some _ => _ | None => _ end] => destruct o; try done
    end.
  all: split; [|by (apply Hsee || apply sees_mem)].
  all: unfold arrive, apply_delta, set_mem, set_rcq, set_rq; cbn; rewrite ?drop_app_le by done; done.
Qed.

(** ** Taking a local statement first *)

Definition fails_step (s : net) : Prop := ∃ ag, fails (step ag s).

Lemma outcome_map_done {A B} (f : A → B) (o : outcome A) b :
  outcome_map f o = Done b → ∃ a, o = Done a ∧ b = f a.
Proof. destruct o; intros [= <-]. by eexists. Qed.

Lemma fails_map {A B} (f : A → B) (o : outcome A) : fails (outcome_map f o) ↔ fails o.
Proof. by destruct o. Qed.

(** Process A can take a local statement before any other step. *)
Lemma local_commutes_a o a b pa pb d ag s' :
  local o a d → ag ≠ ProcA → step ag (Net a b (o :: pa) pb) = Done s' →
  ∃ a' b' pb', s' = Net a' b' (o :: pa) pb' ∧ local o a' d ∧
    step ag (Net (apply_delta d a) b pa pb) = Done (Net (apply_delta d a') b' pa pb').
Proof.
  intros Hl Hag. destruct ag; [done|..]; cbn [agent_step]; intros ([e x] & E & ->)%outcome_map_done.
  - exists a, e, x. by rewrite E.
  - destruct (nic_sender Wa Wb a b d (lo_scq _ _ _ Hl)) as [En Hs]. rewrite En, E. cbn [outcome_map].
    exists e, x, pb. split; [done|]. split; [|done]. apply (local_sees o a); [done|by apply (Hs e x)].
  - pose proof (nic_receiver Wb Wa a b d (lo_rcq _ _ _ Hl)) as Hn. rewrite E in Hn. destruct Hn as [-> Hs].
    exists x, e, pb. split; [done|]. split; [by apply (local_sees o a)|done].
Qed.

Lemma local_fails_a o a b pa pb d ag :
  local o a d → fails (step ag (Net a b (o :: pa) pb)) →
  fails (step ag (Net (apply_delta d a) b pa pb)).
Proof.
  intros Hl. destruct ag; cbn [agent_step]; rewrite !fails_map.
  - cbn [run_op]. by rewrite (lo_run _ _ _ Hl a (sees_refl a)).
  - done.
  - destruct (nic_sender Wa Wb a b d (lo_scq _ _ _ Hl)) as [-> _]. by rewrite fails_map.
  - pose proof (nic_receiver Wb Wa a b d (lo_rcq _ _ _ Hl)) as Hn. by destruct (nic Wb Wa b a) as [[]| | |].
Qed.

Lemma local_runs_a o a b pa pb d :
  local o a d → step ProcA (Net a b (o :: pa) pb) = Done (Net (apply_delta d a) b pa pb).
Proof. intros Hl. cbn [agent_step run_op]. by rewrite (lo_run _ _ _ Hl a (sees_refl a)). Qed.

(** A property of states in which nothing can happen any more. *)
Definition final (P : net → Prop) : Prop := ∀ s, P s → stopped Wa Wb s.

Lemma ev_local_a (P : net → Prop) o a b pa pb d :
  final P → local o a d → ev P (Net (apply_delta d a) b pa pb) → ev P (Net a b (o :: pa) pb).
Proof.
  intros HP Hl Hev. remember (Net (apply_delta d a) b pa pb) as s eqn:Es.
  revert a b pb Es Hl. induction Hev as [s Hs|s Hex Hf Hev IH]; intros a b pb -> Hl.
  - apply ev_step.
    + exists ProcA. eexists. by apply local_runs_a.
    + intros ag Hfail%(local_fails_a o a b pa pb d ag Hl). by rewrite (HP _ Hs) in Hfail.
    + intros ag s' E. destruct (decide (ag = ProcA)) as [->|Hag].
      * rewrite (local_runs_a o a b pa pb d Hl) in E. injection E as <-. by apply ev_here.
      * destruct (local_commutes_a _ _ _ _ _ _ _ _ Hl Hag E) as (a' & b' & pb' & _ & _ & E').
        by rewrite (HP _ Hs) in E'.
  - apply ev_step.
    + exists ProcA. eexists. by apply local_runs_a.
    + intros ag Hfail%(local_fails_a o a b pa pb d ag Hl). by apply (Hf ag).
    + intros ag s' E. destruct (decide (ag = ProcA)) as [->|Hag].
      * rewrite (local_runs_a o a b pa pb d Hl) in E. injection E as <-. by apply ev_step.
      * destruct (local_commutes_a _ _ _ _ _ _ _ _ Hl Hag E) as (a' & b' & pb' & -> & Hl' & E').
        by apply (IH ag _ E').
Qed.
(** ** Following the only agent that can move *)

Lemma ev_one (P : net → Prop) ag s s' :
  step ag s = Done s' → (∀ ag', ag' ≠ ag → step ag' s = Hang) → ev P s' → ev P s.
Proof.
  intros E Ho Hev. apply ev_step.
  - by exists ag, s'.
  - intros ag' Hf. destruct (decide (ag' = ag)) as [->|Hne]; [by rewrite E in Hf|by rewrite Ho in Hf].
  - intros ag' s'' E'. destruct (decide (ag' = ag)) as [->|Hne]; [congruence|by rewrite Ho in E'].
Qed.

(** Two agents can move. *)
Lemma ev_either (P : net → Prop) ag1 ag2 s s1 s2 :
  step ag1 s = Done s1 → step ag2 s = Done s2 →
  (∀ ag, ag ≠ ag1 → ag ≠ ag2 → step ag s = Hang) → ev P s1 → ev P s2 → ev P s.
Proof.
  intros E1 E2 Ho H1 H2. apply ev_step.
  - by exists ag1, s1.
  - intros ag Hf. destruct (decide (ag = ag1)) as [->|]; [by rewrite E1 in Hf|].
    destruct (decide (ag = ag2)) as [->|]; [by rewrite E2 in Hf|by rewrite Ho in Hf].
  - intros ag s' E. destruct (decide (ag = ag1)) as [->|]; [congruence|].
    destruct (decide (ag = ag2)) as [->|]; [congruence|by rewrite Ho in E].
Qed.

(** Process A has a statement to run, and meanwhile process B, or its adapter, runs;
    the rest of both is the same whether A has run its statement or not. *)
Lemma ev_beside_proc (P : net → Prop) o pa pb pb' a0 a1 b b' :
  o a0 = (Done tt, a1) → run_op pb b = Done (b', pb') →
  x_sq a0 = [] → x_sq a1 = [] → x_sq b = [] → run_op pa a1 = Hang →
  ev P (Net a0 b' (o :: pa) pb') ∧ ev P (Net a1 b' pa pb') →
  ev P (Net a0 b (o :: pa) pb) ∧ ev P (Net a1 b pa pb).
Proof.
  intros Ho Hb H0 H1 Hs Ha [E0 E1].
  assert (ev P (Net a1 b pa pb)) as Hev.
  { eapply (ev_one P ProcB); [cbn [agent_step]; by rewrite Hb| |done].
    intros [] Hne; cbn [agent_step]; try done; unfold nic; rewrite ?Ha, ?H1, ?Hs; done. }
  split; [|done]. eapply (ev_either P ProcA ProcB).
  - cbn [agent_step run_op]. by rewrite Ho.
  - cbn [agent_step]. by rewrite Hb.
  - intros [] Hna Hnb; cbn [agent_step]; try done; unfold nic; by rewrite ?H0, ?Hs.
  - done.
  - done.
Qed.

Lemma ev_beside_nic (P : net → Prop) o pa pb a0 a0' a1 a1' b b' :
  o a0 = (Done tt, a1) → nic Wb Wa b a0 = Done (b', a0') → nic Wb Wa b a1 = Done (b', a1') →
  x_sq a0 = [] → x_sq a1 = [] → run_op pb b = Hang → run_op pa a1 = Hang →
  ev P (Net a0' b' (o :: pa) pb) ∧ ev P (Net a1' b' pa pb) →
  ev P (Net a0 b (o :: pa) pb) ∧ ev P (Net a1 b pa pb).
Proof.
  intros Ho Hn0 Hn1 H0 H1 Hb Ha [E0 E1].
  assert (ev P (Net a1 b pa pb)) as Hev.
  { eapply (ev_one P NicB); [cbn [agent_step]; by rewrite Hn1| |done].
    intros [] Hne; cbn [agent_step]; try done; unfold nic; rewrite ?Ha, ?H1, ?Hb; done. }
  split; [|done]. eapply (ev_either P ProcA NicB).
  - cbn [agent_step run_op]. by rewrite Ho.
  - cbn [agent_step]. by rewrite Hn0.
  - intros [] Hna Hnb; cbn [agent_step]; try done; unfold nic; rewrite ?H0, ?Hb; done.
  - done.
  - done.
Qed.

Lemma ev_mono (P Q : net → Prop) s : (∀ s, P s → Q s) → ev P s → ev Q s.
Proof.
  intros HPQ. induction 1 as [s H|s Hex Hf _ IH]; [by apply ev_here, HPQ|by apply ev_step].
Qed.

(** ** What [ev] says of a run *)

Definition some_step (s s' : net) : Prop := ∃ ag, step ag s = Done s'.

(** The agents of a list take a step each. *)
Fixpoint exec (ags : list agent) (s : net) : outcome net :=
  match ags with
  | [] => Done s
  | ag :: ags => match step ag s with Done s => exec ags s | r => r end
  end.

Lemma exec_reach ags s s' : exec ags s = Done s' → rtc some_step s s'.
Proof.
  revert s. induction ags as [|ag ags IH]; intros s; cbn [exec]; [by intros [= ->]|].
  destruct (step ag s) as [s1| | |] eqn:E; [|done..]. intros H%IH. eapply rtc_l; [by exists ag|done].
Qed.

Lemma ev_steps (P : net → Prop) s s' : final P → ev P s → rtc some_step s s' → ev P s'.
Proof.
  intros HP Hev Hr. induction Hr as [|s s1 s2 [ag E] _ IH]; [done|]. apply IH.
  destruct Hev as [H|_ _ H]; [by rewrite (HP _ H) in E|by eapply H].
Qed.

(** Every run from [s] is finite; in every state on its way no agent fails, and it
    can go on until it is in a state with [P]. *)
Definition completes (P : net → Prop) (s : net) : Prop :=
  Acc (λ s2 s1, some_step s1 s2) s ∧
  ∀ s', rtc some_step s s' → (∀ ag, ~ fails (step ag s')) ∧ (P s' ∨ ∃ s'', some_step s' s'').

Lemma ev_run (P : net → Prop) s : final P → ev P s → completes P s.
Proof.
  intros HP Hev. split.
  - induction Hev as [s Hs|s _ _ _ IH]; constructor; intros s' [ag E]; [by rewrite (HP _ Hs) in E|by eapply IH].
  - intros s' Hr. destruct (ev_steps P s s' HP Hev Hr) as [H|(ag & s'' & E) Hf _].
    + split; [|by left]. intros ag Hf. by rewrite (HP _ H) in Hf.
    + split; [done|]. right. exists s'', ag. done.
Qed.
(** ** What holds all the way *)

Definition ever (I : net → Prop) (s : net) : Prop := ∀ s', rtc some_step s s' → I s'.

(** [ev] with an invariant of the states on the way. *)
Definition evi (I P : net → Prop) (s : net) : Prop := ev P s ∧ ever I s.

Lemma evi_true (P : net → Prop) s : evi (λ _, True) P s ↔ ev P s.
Proof. split; [by intros []|by intros H; split]. Qed.

Lemma ever_step (I : net → Prop) s : I s → (∀ ag s', step ag s = Done s' → ever I s') → ever I s.
Proof. intros HI H s' Hr. destruct Hr as [|s s1 s2 [ag E] Hr]; [done|by apply (H ag s1 E)]. Qed.

Lemma evi_mono (I I' P : net → Prop) s : (∀ s, I s → I' s) → evi I P s → evi I' P s.
Proof. intros H [H1 H2]. split; [done|]. intros s' Hr. by apply H, H2. Qed.

Lemma evi_here (I P : net → Prop) s : final P → P s → I s → evi I P s.
Proof.
  intros HP Hs HI. split; [by apply ev_here|]. apply ever_step; [done|]. intros ag s' E.
  by rewrite (HP _ Hs) in E.
Qed.

Lemma evi_one (I P : net → Prop) ag s s' :
  I s → step ag s = Done s' → (∀ ag', ag' ≠ ag → step ag' s = Hang) → evi I P s' → evi I P s.
Proof.
  intros HI E Ho [Hev Hi]. split; [by eapply ev_one|]. apply ever_step; [done|]. intros ag' s'' E'.
  destruct (decide (ag' = ag)) as [->|Hne]; [|by rewrite Ho in E'].
  rewrite E in E'. by injection E' as <-.
Qed.

(** The states in which a local statement is still to be run are like those in
    which it has been. *)
Lemma ever_local_a (I : net → Prop) o a b pa pb d :
  local o a d →
  (∀ a b pb, I (Net (apply_delta d a) b pa pb) → I (Net a b (o :: pa) pb)) →
  ever I (Net (apply_delta d a) b pa pb) → ever I (Net a b (o :: pa) pb).
Proof.
  intros Hl Hback Hi s' Hr. remember (Net a b (o :: pa) pb) as s eqn:Es.
  revert a b pb Es Hl Hi. induction Hr as [s|s s1 s2 [ag E] Hr IH]; intros a b pb -> Hl Hi.
  { by apply Hback, Hi. }
  destruct (decide (ag = ProcA)) as [->|Hag].
  - rewrite (local_runs_a o a b pa pb d Hl) in E. injection E as <-. by apply Hi.
  - destruct (local_commutes_a _ _ _ _ _ _ _ _ Hl Hag E) as (a' & b' & pb' & -> & Hl' & E').
    apply (IH a' b' pb' eq_refl Hl'). intros s3 Hr3. apply Hi. eapply rtc_l; [by exists ag|done].
Qed.

Lemma evi_local_a (I P : net → Prop) o a b pa pb d :
  final P → local o a d →
  (∀ a b pb, I (Net (apply_delta d a) b pa pb) → I (Net a b (o :: pa) pb)) →
  evi I P (Net (apply_delta d a) b pa pb) → evi I P (Net a b (o :: pa) pb).
Proof. intros HP Hl Hb [H1 H2]. split; [by eapply ev_local_a|by eapply ever_local_a]. Qed.

End sched.

(** ** The two processes are alike *)

Section swap.
Context {msg ctx : Type} (Wa Wb : env).

Definition swap_net (s : @net msg ctx) : net := Net (n_b s) (n_a s) (n_pb s) (n_pa s).

Definition swap_agent (ag : agent) : agent :=
  match ag with ProcA => ProcB | ProcB => ProcA | NicA => NicB | NicB => NicA end.

Lemma swap_agent_step ag s :
  agent_step Wb Wa (swap_agent ag) (swap_net s) = outcome_map swap_net (agent_step Wa Wb ag s).
Proof.
  destruct s as [a b pa pb], ag; cbn [agent_step swap_agent swap_net n_a n_b n_pa n_pb].
  - by destruct (run_op pa a) as [[]| | |].
  - by destruct (run_op pb b) as [[]| | |].
  - by destruct (nic Wa Wb a b) as [[]| | |].
  - by destruct (nic Wb Wa b a) as [[]| | |].
Qed.

Lemma swap_net_swap s : swap_net (swap_net s) = s.
Proof. by destruct s. Qed.

Lemma swap_agent_swap ag : swap_agent (swap_agent ag) = ag.
Proof. by destruct ag. Qed.

Lemma ev_swap (P : net → Prop) s :
  ev Wb Wa (λ s, P (swap_net s)) (swap_net s) → ev Wa Wb P s.
Proof.
  intros Hev. remember (swap_net s) as t eqn:Et. revert s Et.
  induction Hev as [t Ht|t (ag & t' & E) Hf _ IH]; intros s ->.
  - apply ev_here. by rewrite swap_net_swap in Ht.
  - apply ev_step.
    + rewrite <-(swap_agent_swap ag), swap_agent_step in E. apply outcome_map_done in E as (s' & E & _).
      by eexists _, _.
    + intros ag' Hfail. apply (Hf (swap_agent ag')). by rewrite swap_agent_step, fails_map.
    + intros ag' s' E'. apply (IH (swap_agent ag') (swap_net s')); [|done].
      by rewrite swap_agent_step, E'.
Qed.

Lemma ev_swap_back (P : net → Prop) s :
  ev Wa Wb P (swap_net s) → ev Wb Wa (λ s, P (swap_net s)) s.
Proof.
  intros Hev. rewrite <-(swap_net_swap s) in Hev |- *. remember (swap_net s) as t eqn:Et. clear s Et.
  rewrite swap_net_swap in Hev. induction Hev as [t Ht|t (ag & t' & E) Hf _ IH].
  - apply ev_here. by rewrite swap_net_swap.
  - apply ev_step.
    + exists (swap_agent ag), (swap_net t'). by rewrite swap_agent_step, E.
    + intros ag' Hfail. apply (Hf (swap_agent ag')).
      rewrite <-(swap_agent_swap ag'), swap_agent_step, fails_map in Hfail. done.
    + intros ag' s' E'. rewrite <-(swap_agent_swap ag'), swap_agent_step in E'.
      apply outcome_map_done in E' as (t'' & E' & ->). by apply (IH (swap_agent ag')).
Qed.

Lemma final_swap (P : net → Prop) : final Wa Wb P → final Wb Wa (λ s, P (swap_net s)).
Proof.
  intros HP s Hs ag. rewrite <-(swap_agent_swap ag), <-(swap_net_swap s), swap_agent_step.
  by rewrite (HP _ Hs (swap_agent ag)).
Qed.

Lemma some_step_swap s s' : some_step Wa Wb s s' → some_step Wb Wa (swap_net s) (swap_net s').
Proof. intros [ag E]. exists (swap_agent ag). by rewrite swap_agent_step, E. Qed.

Lemma ever_swap (I : net → Prop) s :
  ever Wb Wa (λ s, I (swap_net s)) (swap_net s) → ever Wa Wb I s.
Proof.
  intros Hi s' Hr. rewrite <-(swap_net_swap s'). apply (Hi (swap_net s')).
  apply (rtc_congruence swap_net (R := some_step Wa Wb)); [exact some_step_swap|done].
Qed.

Lemma evi_swap (I P : net → Prop) s :
  evi Wb Wa (λ s, I (swap_net s)) (λ s, P (swap_net s)) (swap_net s) → evi Wa Wb I P s.
Proof. intros [H1 H2]. split; [by apply ev_swap|by apply ever_swap]. Qed.
End swap.

Section sched_b.
Context {msg ctx : Type} (Wa Wb : env).

Lemma ev_local_b (P : @net msg ctx → Prop) o a b pa pb d :
  final Wa Wb P → local o b d → ev Wa Wb P (Net a (apply_delta d b) pa pb) →
  ev Wa Wb P (Net a b pa (o :: pb)).
Proof.
  intros HP Hl Hev. apply ev_swap.
  apply (ev_local_a Wb Wa _ o b a pb pa d); [by apply final_swap|done|by apply ev_swap_back].
Qed.

Lemma ever_swap_back (I : @net msg ctx → Prop) s :
  ever Wa Wb I (swap_net s) → ever Wb Wa (λ s, I (swap_net s)) s.
Proof.
  intros Hi. apply (ever_swap Wb Wa). intros s' Hr. rewrite swap_net_swap. by apply Hi.
Qed.

Lemma evi_swap_back (I P : @net msg ctx → Prop) s :
  evi Wa Wb I P (swap_net s) → evi Wb Wa (λ s, I (swap_net s)) (λ s, P (swap_net s)) s.
Proof. intros [H1 H2]. split; [by apply ev_swap_back|by apply ever_swap_back]. Qed.

Lemma evi_local_b (I P : @net msg ctx → Prop) o a b pa pb d :
  final Wa Wb P → local o b d →
  (∀ a b pa, I (Net a (apply_delta d b) pa pb) → I (Net a b pa (o :: pb))) →
  evi Wa Wb I P (Net a (apply_delta d b) pa pb) → evi Wa Wb I P (Net a b pa (o :: pb)).
Proof.
  intros HP Hl Hb Hev. apply evi_swap.
  apply (evi_local_a Wb Wa _ _ o b a pb pa d); [by apply final_swap|done| |by apply evi_swap_back].
  intros b' a' pa' H. by apply Hb.
Qed.
End sched_b.


(** Run the first statement of a program, whose run [tac] finds; compute the fields
    of a state. *)
Ltac flat := cbn [x_mem x_sq x_rq x_scq x_rcq x_posted x_nalloc x_heap x_arch x_wc set_mem set_sq set_rq set_scq
  set_rcq set_posted set_heap set_arch set_wc m_rts m_rtr m_fin m_ctl m_send m_recv].
Tactic Notation "then_by" tactic(tac) := erewrite bind_done by tac; cbv beta iota zeta; flat.

(** ** The common statements *)

Section statements.
Context {msg ctx : Type}.
Implicit Types (e a b : @endst msg ctx) (m : @mem msg) (d : @delta ctx).

(** The receives posted at once. *)
Lemma postRecvs_run n buf size uctx e :
  (n + length (x_rq e) ≤ Z.to_nat max_recv_num)%nat →
  postRecvs n buf size uctx e =
  (Done tt, End (x_mem e) (x_sq e) (x_rq e ++ replicate n (RecvWr uctx buf size)) (x_scq e) (x_rcq e)
     (x_posted e + Z.of_nat n) (x_nalloc e) (x_heap e) (x_arch e) (x_wc e)).
Proof.
  revert e. induction n as [|n IH]; intros [m sq rq scq rcq p k h ar w] Hn; cbn [postRecvs x_rq] in *.
  { cbn [replicate]. rewrite app_nil_r. unfold mret, M_ret. cbn. by rewrite Z.add_0_r. }
  unfold max_recv_num in Hn.
  assert (postRecv buf size uctx (End m sq rq scq rcq p k h ar w) =
    (Done 0, End m sq (rq ++ [RecvWr uctx buf size]) scq rcq (p + 1) k h ar w)) as E.
  { unfold postRecv, post_srq_recv, mbind, M_bind, get, modify. cbn -[Z.leb max_recv_num Z.of_nat Z.add].
    assert (max_recv_num <=? Z.of_nat (length rq) = false) as -> by (unfold max_recv_num; lia). done. }
  rewrite (bind_done _ _ _ _ _ E). unfold bench_assert at 1. change (0 =? 0) with true. cbv iota.
  rewrite bind_ret, IH.
  2:{ cbn [x_rq]. rewrite length_app. cbn. unfold max_recv_num. lia. }
  cbn [x_mem x_sq x_rq x_scq x_rcq x_posted x_nalloc x_heap x_arch x_wc]. rewrite <-(assoc_L app). cbn [app replicate].
  f_equal. f_equal. lia.
Qed.

Lemma sees_rq_length e e' : sees e e' → (length (x_rq e') ≤ length (x_rq e))%nat.
Proof. intros [_ _ [l ->] _ _ _ _ _]. rewrite length_app. lia. Qed.

(** The receives that are missing are posted. *)
Lemma check_post_local e buf size uctx n :
  x_posted e = max_recv_num - Z.of_nat n → (0 < n)%nat → (n + length (x_rq e) ≤ Z.to_nat max_recv_num)%nat →
  local (checkAndPostRecvs buf size uctx) e
    (Delta 0 0 (replicate n (RecvWr uctx buf size)) max_recv_num (x_nalloc e) (x_heap e) (x_arch e) (x_wc e)).
Proof.
  intros Hp Hn Hl. constructor; cbn; [lia|lia|]. intros e' Hs. pose proof (sees_rq_length e e' Hs) as Hlen.
  destruct Hs as [_ _ _ E1 E2 E3 E4 E5]. unfold checkAndPostRecvs. rewrite bind_get, E1, Hp.
  assert (max_recv_num - Z.of_nat n <? min_recv_num = true) as -> by (unfold max_recv_num, min_recv_num; lia).
  replace (Z.to_nat (max_recv_num - (max_recv_num - Z.of_nat n))) with n by lia.
  rewrite postRecvs_run by lia. unfold apply_delta. cbn. rewrite E1, E2, E3, E4, E5, Hp.
  by replace (max_recv_num - Z.of_nat n + Z.of_nat n) with max_recv_num by lia.
Qed.

(** A receive completion is taken, and its receive posted again. *)
Lemma take_recv_local ok buf size uctx e wc l :
  x_rcq e = wc :: l → ok wc = true → x_posted e = max_recv_num →
  (length (x_rq e) < Z.to_nat max_recv_num)%nat →
  local (take_recv ok buf size uctx) e
    (Delta 0 1 [RecvWr uctx buf size] max_recv_num (x_nalloc e) (x_heap e) (x_arch e) (Some wc)).
Proof.
  intros Hr Hok Hp Hl. constructor; cbn; [lia|by rewrite Hr; cbn; lia|]. intros e' Hs.
  pose proof (sees_rq_length e e' Hs) as Hlen. destruct Hs as [_ [l2 E0] _ E1 E2 E3 E4 E5]. rewrite Hr in E0.
  assert (pollCQ_recv e' = (Done wc, set_wc (Some wc) (set_rcq (l ++ l2) e'))) as E.
  { unfold pollCQ_recv. by rewrite bind_get, E0. }
  unfold take_recv. rewrite (bind_done _ _ _ _ _ E). unfold bench_assert. rewrite Hok, bind_ret, bind_get.
  rewrite (bind_done (modify _) _ _ _ _ eq_refl). unfold set_posted, set_wc, set_rcq.
  cbn [x_mem x_sq x_rq x_scq x_rcq x_posted x_nalloc x_heap x_arch x_wc].
  match goal with |- checkAndPostRecvs _ _ _ ?e1 = _ => pose proof (check_post_local e1 buf size uctx 1) as Hc end.
  cbn [x_posted x_rq x_nalloc x_heap x_arch x_wc] in Hc.
  rewrite (lo_run _ _ _ (Hc ltac:(lia) ltac:(lia) ltac:(unfold max_recv_num in *; lia)) _ (sees_refl _)).
  unfold apply_delta. cbn. by rewrite E0, E2, E3, E4, !drop_0.
Qed.

(** A send completion is taken. *)
Lemma wait_send_local opcode e wc l :
  x_scq e = wc :: l → is_success wc opcode = true →
  local (wait_send opcode) e (Delta 1 0 [] (x_posted e) (x_nalloc e) (x_heap e) (x_arch e) (Some wc)).
Proof.
  intros Hr Hok. constructor; cbn; [by rewrite Hr; cbn; lia|lia|]. intros e' Hs.
  destruct Hs as [[l2 E0] _ _ E1 E2 E3 E4 E5]. rewrite Hr in E0.
  assert (pollCQ_send e' = (Done wc, set_wc (Some wc) (set_scq (l ++ l2) e'))) as E.
  { unfold pollCQ_send. by rewrite bind_get, E0. }
  unfold wait_send. rewrite (bind_done _ _ _ _ _ E). unfold bench_assert. rewrite Hok.
  unfold apply_delta, set_wc, set_scq, mret, M_ret. cbn. by rewrite E0, E1, E2, E3, E4, app_nil_r, !drop_0.
Qed.
Lemma poll_send_local e wc l :
  x_scq e = wc :: l →
  local poll_send e (Delta 1 0 [] (x_posted e) (x_nalloc e) (x_heap e) (x_arch e) (Some wc)).
Proof.
  intros Hr. constructor; cbn; [by rewrite Hr; cbn; lia|lia|]. intros e' Hs.
  destruct Hs as [[l2 E0] _ _ E1 E2 E3 E4 E5]. rewrite Hr in E0.
  unfold poll_send, pollCQ_send. rewrite bind_assoc, bind_get, E0. cbn [app].
  unfold apply_delta, mbind, M_bind, modify, set_wc, set_scq. cbn. by rewrite E0, E1, E2, E3, E4, app_nil_r, !drop_0.
Qed.

(** An assertion that holds. *)
Lemma assert_local (t : bool) e :
  t = true →
  local (bench_assert t) e (Delta 0 0 [] (x_posted e) (x_nalloc e) (x_heap e) (x_arch e) (x_wc e)).
Proof.
  intros ->. constructor; cbn; [lia|lia|]. intros e' [_ _ _ E1 E2 E3 E4 E5]. destruct e' as [m sq rq scq rcq p n h ar w].
  cbn in *. subst. unfold apply_delta. cbn. by rewrite app_nil_r, !drop_0.
Qed.

(** A statement that only changes the archive. *)
Lemma arch_local (o : M endst ()) e ar :
  (∀ e', x_arch e' = x_arch e → o e' = (Done tt, set_arch ar e')) →
  local o e (Delta 0 0 [] (x_posted e) (x_nalloc e) (x_heap e) ar (x_wc e)).
Proof.
  intros Ho. constructor; cbn; [lia|lia|]. intros e' [_ _ _ E1 E2 E3 E4 E5]. rewrite Ho by done.
  unfold set_arch, apply_delta. cbn. by rewrite E1, E2, E3, E5, app_nil_r, !drop_0.
Qed.

(** ** Addresses *)

Lemma slot_addr_above base (lay : layout) s :
  Forall (λ x, 0 < x.2) lay → s ∈ lay.*1 → base ≤ slot_addr base lay s.
Proof.
  intros Hl. revert base. induction Hl as [|[s' n] lay Hn Hl IH]; intros base Hs; [by apply elem_of_nil in Hs|].
  cbn in *. case_decide; [done|]. apply elem_of_cons in Hs as [?|Hs]; [done|]. specialize (IH (base + n) Hs). lia.
Qed.

(** The address of a slot names the slot. *)
Lemma slot_of_addr base (lay : layout) s :
  Forall (λ x, 0 < x.2) lay → s ∈ lay.*1 → slot_of base lay (slot_addr base lay s) = Some s.
Proof.
  intros Hl. revert base. induction Hl as [|[s' n] lay Hn Hl IH]; intros base Hs; [by apply elem_of_nil in Hs|].
  cbn in *. case_decide; [subst; by rewrite Z.eqb_refl|].
  apply elem_of_cons in Hs as [?|Hs]; [done|]. pose proof (slot_addr_above (base + n) lay s Hl Hs).
  replace (slot_addr (base + n) lay s =? base) with false by lia. by apply IH.
Qed.

(** ** Runs of the statements that are not local *)

Lemma malloc_run W (c : ctx) e :
  v_alloc W (x_nalloc e) ≠ 0 →
  malloc W c e = (Done (v_alloc W (x_nalloc e)),
    set_heap (S (x_nalloc e)) (<[v_alloc W (x_nalloc e) := c]> (x_heap e)) e).
Proof. intros H. unfold malloc. rewrite bind_get. cbv zeta. by apply Z.eqb_neq in H as ->. Qed.

Lemma delete_run p (c : ctx) e :
  x_heap e !! p = Some c →
  delete_ctx p e = (Done tt, set_heap (x_nalloc e) (delete p (x_heap e)) e).
Proof. intros H. unfold delete_ctx. by rewrite bind_get, H. Qed.

Lemma post_send_run W rank w e :
  rank = 1 - v_rank W → (length (x_sq e) + length (x_scq e) < 8)%nat →
  post_send W rank w e = (Done 0, set_sq (x_sq e ++ [w]) e).
Proof.
  intros -> H. unfold post_send. rewrite bind_get, Z.eqb_refl. cbn [negb].
  by replace (max_send_num <=? Z.of_nat (length (x_sq e) + length (x_scq e))) with false
    by (unfold max_send_num; lia).
Qed.

Lemma get_msg_at_run W s (x : msg) e :
  Forall (λ x, 0 < x.2) (v_layout W) → s ∈ (v_layout W).*1 → load s (x_mem e) = CMsg (Some x) →
  get_msg_at W (addr_of W s) e = (Done x, e).
Proof.
  intros H1 H2 H3. unfold get_msg_at, addr_of. rewrite slot_of_addr by done.
  unfold or_fault. rewrite bind_ret. unfold get_msg. by rewrite bind_get, H3.
Qed.

Lemma src_rank_run W wc r e :
  v_qp2rank W !! Z.to_nat (c_qp_num wc mod v_qp2rank_mod W) = Some r →
  src_rank W wc e = (Done r, e).
Proof. intros H. unfold src_rank. by rewrite H. Qed.

Lemma local_wc_run wc e : x_wc e = Some wc → local_wc e = (Done wc, e).
Proof. intros H. unfold local_wc. by rewrite bind_get, H. Qed.

Lemma assert_run (t : bool) e : t = true → bench_assert t e = (Done tt, e).
Proof. by intros ->. Qed.

Lemma put_msg_run s x m e : store_msg s x (x_mem e) = Some m → put_msg s x e = (Done tt, set_mem m e).
Proof. intros H. unfold put_msg. rewrite bind_get, H. done. Qed.

(** A request whose data is what its buffer holds, taken when it was posted or not. *)
Definition data_now (w : @send_wr msg) m : Prop :=
  w_inline w = None ∨ w_inline w = Some (load (w_buf w) m).

Lemma data_now_default w m : data_now w m → default (load (w_buf w) m) (w_inline w) = load (w_buf w) m.
Proof. by intros [-> | ->]. Qed.

Lemma inline_now W e m buf size op wr_id imm addr key :
  m = x_mem e → data_now (SendWr wr_id op buf size (inline_data W e buf size) imm addr key) m.
Proof. intros ->. unfold inline_data. case_match; [by right|by left]. Qed.

(** A control message arrives. *)
Lemma nic_send_run W W' a b w q r l x m :
  x_sq a = w :: q → w_opcode w = WR_SEND_WITH_IMM → w_inline w = None →
  load (w_buf w) (x_mem a) = CMsg (Some x) → x_rq b = r :: l → r_buf r = SCtl → w_len w ≤ r_len r →
  x_mem b = m →
  nic W W' a b = Done (complete W w WC_SEND (set_sq q a),
    arrive W' r WC_RECV (w_imm w) l
      (set_mem (Mem (m_rts m) (m_rtr m) (m_fin m) (Some x) (m_send m) (m_recv m)) b)).
Proof.
  intros H1 H2 H3 H4 H5 H6 H7 <-. unfold nic. rewrite H1, H2, H3, H5. cbn [default x_mem set_sq]. rewrite H4, H6.
  unfold copy_cell. replace (r_len r <? w_len w) with false by lia. done.
Qed.

Lemma copy_bytes_run len src dst :
  len ≤ Z.of_nat (length src) → len ≤ Z.of_nat (length dst) →
  copy_bytes len src dst = Some (take (Z.to_nat len) src ++ drop (Z.to_nat len) dst).
Proof.
  intros H1 H2. unfold copy_bytes.
  by replace ((Z.of_nat (length src) <? len) || (Z.of_nat (length dst) <? len)) with false by lia.
Qed.

(** What a remote address names. *)
Lemma remote_slot_run W (w : @send_wr msg) s :
  w_rkey w = v_rkey W → w_raddr w = addr_of W s →
  Forall (λ x, 0 < x.2) (v_layout W) → s ∈ (v_layout W).*1 → remote_slot W w = Some s.
Proof.
  intros H1 H2 H3 H4. unfold remote_slot. rewrite H1, H2, Z.eqb_refl. unfold addr_of. by rewrite slot_of_addr.
Qed.

(** Data is written from the send buffer of one process to the receive buffer of
    the other. *)
Lemma copy_data_run len m m' :
  len ≤ Z.of_nat (length (m_send m)) → len ≤ Z.of_nat (length (m_recv m')) →
  copy_cell (load SSend m) len len SRecv m' =
  Some (Mem (m_rts m') (m_rtr m') (m_fin m') (m_ctl m') (m_send m')
    (take (Z.to_nat len) (m_send m) ++ drop (Z.to_nat len) (m_recv m'))).
Proof.
  intros H1 H2. unfold copy_cell. replace (len <? len) with false by lia. cbn [load].
  by rewrite copy_bytes_run by done.
Qed.

(** Data is written. *)
Lemma nic_write_run W W' a b w q :
  x_sq a = w :: q → w_opcode w = WR_RDMA_WRITE → data_now w (x_mem a) → w_buf w = SSend →
  w_rkey w = v_rkey W' → w_raddr w = addr_of W' SRecv →
  Forall (λ x, 0 < x.2) (v_layout W') → SRecv ∈ (v_layout W').*1 →
  w_len w ≤ Z.of_nat (length (m_send (x_mem a))) → w_len w ≤ Z.of_nat (length (m_recv (x_mem b))) →
  nic W W' a b = Done (complete W w WC_RDMA_WRITE (set_sq q a),
    set_mem (Mem (m_rts (x_mem b)) (m_rtr (x_mem b)) (m_fin (x_mem b)) (m_ctl (x_mem b)) (m_send (x_mem b))
      (take (Z.to_nat (w_len w)) (m_send (x_mem a)) ++ drop (Z.to_nat (w_len w)) (m_recv (x_mem b)))) b).
Proof.
  intros H1 H2 H3 H4 H5 H6 H8 H9 H10 H11. unfold nic. rewrite H1, H2. cbn [x_mem set_sq]. rewrite (data_now_default _ _ H3), H4.
  rewrite (remote_slot_run W' w SRecv) by done. cbn [mbind option_bind]. by rewrite copy_data_run by done.
Qed.

(** Data and a notice arrive together. *)
Lemma nic_write_imm_run W W' a b w q r l :
  x_sq a = w :: q → w_opcode w = WR_RDMA_WRITE_WITH_IMM → data_now w (x_mem a) → w_buf w = SSend →
  w_rkey w = v_rkey W' → w_raddr w = addr_of W' SRecv → x_rq b = r :: l →
  Forall (λ x, 0 < x.2) (v_layout W') → SRecv ∈ (v_layout W').*1 →
  w_len w ≤ Z.of_nat (length (m_send (x_mem a))) → w_len w ≤ Z.of_nat (length (m_recv (x_mem b))) →
  nic W W' a b = Done (complete W w WC_RDMA_WRITE (set_sq q a),
    arrive W' r WC_RECV_RDMA_WITH_IMM (w_imm w) l
      (set_mem (Mem (m_rts (x_mem b)) (m_rtr (x_mem b)) (m_fin (x_mem b)) (m_ctl (x_mem b)) (m_send (x_mem b))
        (take (Z.to_nat (w_len w)) (m_send (x_mem a)) ++ drop (Z.to_nat (w_len w)) (m_recv (x_mem b)))) b)).
Proof.
  intros H1 H2 H3 H4 H5 H6 H7 H8 H9 H10 H11. unfold nic. rewrite H1, H2, H7. cbn [x_mem set_sq]. rewrite (data_now_default _ _ H3), H4.
  rewrite (remote_slot_run W' w SRecv) by done. cbn [mbind option_bind]. by rewrite copy_data_run by done.
Qed.

(** Data is sent into a receive buffer. *)
Lemma nic_send_data_run W W' a b w q r l :
  x_sq a = w :: q → w_opcode w = WR_SEND → data_now w (x_mem a) → w_buf w = SSend →
  x_rq b = r :: l → r_buf r = SRecv → w_len w ≤ r_len r →
  w_len w ≤ Z.of_nat (length (m_send (x_mem a))) → w_len w ≤ Z.of_nat (length (m_recv (x_mem b))) →
  nic W W' a b = Done (complete W w WC_SEND (set_sq q a),
    arrive W' r WC_RECV (w_imm w) l
      (set_mem (Mem (m_rts (x_mem b)) (m_rtr (x_mem b)) (m_fin (x_mem b)) (m_ctl (x_mem b)) (m_send (x_mem b))
        (take (Z.to_nat (w_len w)) (m_send (x_mem a)) ++ drop (Z.to_nat (w_len w)) (m_recv (x_mem b)))) b)).
Proof.
  intros H1 H2 H3 H4 H5 H6 H7 H8 H9. unfold nic. rewrite H1, H2, H5. cbn [x_mem set_sq].
  rewrite (data_now_default _ _ H3), H4, H6.
  unfold copy_cell. replace (r_len r <? w_len w) with false by lia. cbn [load].
  by rewrite copy_bytes_run by done.
Qed.

(** Data is read from the other process. *)
Lemma nic_read_run W W' a b w q :
  x_sq a = w :: q → w_opcode w = WR_RDMA_READ → w_buf w = SRecv →
  w_rkey w = v_rkey W' → w_raddr w = addr_of W' SSend →
  Forall (λ x, 0 < x.2) (v_layout W') → SSend ∈ (v_layout W').*1 →
  w_len w ≤ Z.of_nat (length (m_send (x_mem b))) → w_len w ≤ Z.of_nat (length (m_recv (x_mem a))) →
  nic W W' a b = Done (complete W w WC_RDMA_READ (set_mem
    (Mem (m_rts (x_mem a)) (m_rtr (x_mem a)) (m_fin (x_mem a)) (m_ctl (x_mem a)) (m_send (x_mem a))
      (take (Z.to_nat (w_len w)) (m_send (x_mem b)) ++ drop (Z.to_nat (w_len w)) (m_recv (x_mem a))))
    (set_sq q a)), b).
Proof.
  intros H1 H2 H4 H5 H6 H8 H9 H10 H11. unfold nic. rewrite H1, H2, H4. cbn [x_mem set_sq].
  rewrite (remote_slot_run W' w SSend) by done. cbn [mbind option_bind]. by rewrite copy_data_run by done.
Qed.

(** A buffer is filled, and checked. *)
Definition filled (touch : bool) (len : Z) (input : char) (m : @mem msg) : mem :=
  if touch then
    Mem (m_rts m) (m_rtr m) (m_fin m) (m_ctl m)
      (replicate (Z.to_nat len) input ++ drop (Z.to_nat len) (m_send m)) (m_recv m)
  else m.

Lemma fill_send_run touch (len : Z) input e :
  len ≤ Z.of_nat (length (m_send (x_mem e))) →
  fill_buffer touch SSend len input e = (Done tt, set_mem (filled touch len input (x_mem e)) e).
Proof.
  intros H. unfold fill_buffer. destruct touch; [|by destruct e]. rewrite bind_get. cbn [load]. unfold write_buffer.
  by replace (Z.of_nat (length (m_send (x_mem e))) <? len) with false by lia.
Qed.

Lemma filled_length touch len input m :
  0 ≤ len → len ≤ Z.of_nat (length (m_send m)) → length (m_send (filled touch len input m)) = length (m_send m).
Proof.
  intros H0 H. destruct touch; [|done]. cbn [filled m_send]. rewrite length_app, length_replicate, length_drop. lia.
Qed.

Lemma take_filled len input m :
  0 ≤ len → take (Z.to_nat len) (m_send (filled true len input m)) = replicate (Z.to_nat len) input.
Proof. intros H. cbn [filled m_send]. apply take_app_length'. by rewrite length_replicate. Qed.

Lemma verify_recv_run touch (len : Z) expect e :
  0 ≤ len → (touch = true → ∃ rest, m_recv (x_mem e) = replicate (Z.to_nat len) expect ++ rest) →
  verify_buffer touch SRecv len expect e = (Done tt, e).
Proof.
  intros H Hr. unfold verify_buffer. destruct touch; [|done]. rewrite bind_get. cbn [load].
  destruct (Hr eq_refl) as [rest ->]. by rewrite check_written by done.
Qed.
End statements.

(** ** A benchmark run *)

(** What [init] and the start of [run] have made of process [r]. *)
Record process_ok (lay : layout) (r : Z) (W : env) : Prop := {
  pr_rank : v_rank W = r;
  pr_table : v_qp2rank W !! Z.to_nat (v_qpn W mod v_qp2rank_mod W) = Some (1 - r);
  pr_layout : v_layout W = lay;
  pr_positive : Forall (λ x, 0 < x.2) lay;
  pr_size : layout_size lay ≤ v_mr_size W;
  pr_alloc : ∀ n, v_alloc W n ≠ 0 }.

(** The size of a call is one the buffers have room for. *)
Definition call_ok (c : config) (call : Z * Z) : Prop := 0 < call.1 ≤ max_msg_size c.

(** The calls of [f] that a benchmark with the configuration [c] makes. *)
Record schedule_ok (c : config) (calls : list (Z * Z)) : Prop := {
  so_min : 0 < min_msg_size c;
  so_min_int : is_int (min_msg_size c);
  so_max : 0 < max_msg_size c;
  so_max_int : is_int (max_msg_size c);
  so_calls : RUN_VARY_MSG (min_msg_size c) (max_msg_size c) = Done calls }.

Lemma schedule_calls c calls : schedule_ok c calls → Forall (call_ok c) calls.
Proof. intros [H1 H2 H3 H4 H5]. apply (calls_in_bounds _ _ _ H1 H2); [lia|done|done]. Qed.

(** There is a schedule for all positive sizes, so for the defaults; [n] is the number
    of sizes. *)
Lemma schedule_exists c :
  0 < min_msg_size c → is_int (min_msg_size c) → 0 < max_msg_size c → is_int (max_msg_size c) →
  ∃ n, schedule_ok c (sizes (min_msg_size c) n ≫= calls_for) ∧
    ∀ k, (k < n)%nat ↔ min_msg_size c * 2 ^ Z.of_nat k ≤ max_msg_size c.
Proof.
  intros H1 H2 H3 H4. pose proof H2 as H2'. pose proof H4 as H4'. unfold is_int, int_min, int_max in H2', H4'.
  destruct (vary_runs 64 (max_msg_size c) TOTAL SKIP (min_msg_size c)) as (n & E & Hn);
    [lia|unfold int_max; lia| |by destruct (LARGE <=? min_msg_size c)|].
  { change (2 ^ Z.of_nat 64) with (2 ^ 64). lia. }
  exists n. split; [|exact Hn]. constructor; try done. unfold RUN_VARY_MSG. by rewrite !wrap_u_small by lia.
Qed.

Lemma schedule_of c n :
  0 < min_msg_size c → is_int (min_msg_size c) → is_int (max_msg_size c) →
  min_msg_size c * 2 ^ Z.of_nat n ≤ max_msg_size c < min_msg_size c * 2 ^ Z.of_nat (S n) →
  schedule_ok c (sizes (min_msg_size c) (S n) ≫= calls_for).
Proof.
  intros H1 H2 H4 Hn. assert (0 < 2 ^ Z.of_nat n) by lia.
  destruct (schedule_exists c H1 H2 ltac:(nia) H4) as (m & Hs & Hm).
  pose proof (proj2 (Hm n) ltac:(lia)). assert (~ (S n < m)%nat) by (rewrite Hm; lia).
  by replace (S n) with m by lia.
Qed.

Lemma default_schedule inline : ∃ calls, schedule_ok (parseArgs inline []) calls.
Proof.
  destruct (schedule_exists (parseArgs inline [])) as (n & H & _); try done; [..|by eexists];
    vm_compute; split; discriminate.
Qed.

Section benchmark.
Context {msg ctx : Type}.
Implicit Types (e : @endst msg ctx) (m : @mem msg).

(** Both data buffers have the greatest size of a message. *)
Definition bufs_ok (c : config) m : Prop :=
  Z.of_nat (length (m_send m)) = max_msg_size c ∧ Z.of_nat (length (m_recv m)) = max_msg_size c.

(** Both processes are through with their programs; nothing is under way and
    nothing allocated, and all receives are posted. *)
Definition end_finished e : Prop :=
  x_sq e = [] ∧ x_scq e = [] ∧ x_rcq e = [] ∧ length (x_rq e) = 8%nat ∧ x_posted e = max_recv_num ∧
  x_heap e = ∅ ∧ lcm_ptr (x_arch e) = None.

Definition finished (s : @net msg ctx) : Prop :=
  n_pa s = [] ∧ n_pb s = [] ∧ end_finished (n_a s) ∧ end_finished (n_b s).

Lemma finished_final Wa Wb : final Wa Wb finished.
Proof.
  intros [a b pa pb] (H1 & H2 & (H3 & _) & (H4 & _)). cbn in *. subst.
  intros []; cbn [agent_step]; [done|done|unfold nic; by rewrite H3|unfold nic; by rewrite H4].
Qed.

(** A program that waits for a message. *)
Definition blocked (p : list (M (@endst msg ctx) ())) : Prop := ∀ e, x_rcq e = [] → run_op p e = Hang.

Lemma blocked_nil : blocked [].
Proof. done. Qed.

Lemma blocked_recv ok buf size uctx l : blocked (take_recv ok buf size uctx :: l).
Proof.
  intros e E. unfold run_op, take_recv, pollCQ_recv, mbind, M_bind, get. by rewrite E.
Qed.

(** The check of the data that was received last, when it is still to be done. *)
Definition check_left (c : config) m (peer_value : char) (l : list (M (@endst msg ctx) ())) : Prop :=
  l = [] ∨ ∃ size, 0 < size ∧ l = [verify_buffer (touch_data c) SRecv size peer_value] ∧
    (touch_data c = true → ∃ rest, m_recv m = replicate (Z.to_nat size) peer_value ++ rest).

Context (lay : layout) (r : Z) (W : env) (Hw : process_ok lay r W).

Lemma layout_positive : Forall (λ x, 0 < x.2) (v_layout W).
Proof using Hw. destruct Hw as [_ _ -> ? _ _]. done. Qed.

Lemma in_layout s : s ∈ lay.*1 → s ∈ (v_layout W).*1.
Proof using Hw. by rewrite (pr_layout _ _ _ Hw). Qed.

Lemma not_inline e buf size : v_inline_size W = 0 → 0 < size → inline_data W e buf size = None.
Proof using. intros E H. unfold inline_data. rewrite E. by replace (size <=? 0) with false by lia. Qed.

Lemma ctl_msg_run (x : msg) e wc :
  SCtl ∈ lay.*1 → c_wr_id wc = addr_of W SCtl → m_ctl (x_mem e) = Some x →
  get_msg_at W (c_wr_id wc) e = (Done x, e).
Proof using Hw.
  intros H1 -> H2. apply get_msg_at_run; [apply layout_positive|by apply in_layout|by cbn; rewrite H2].
Qed.

Lemma peer_run e wc : c_qp_num wc = v_qpn W → src_rank W wc e = (Done (1 - r), e).
Proof using Hw. intros E. apply src_rank_run. rewrite E. apply (pr_table _ _ _ Hw). Qed.

Lemma post_to_peer_run (w : @send_wr msg) e :
  (length (x_sq e) + length (x_scq e) < 8)%nat →
  post_send W (1 - r) w e = (Done 0, set_sq (x_sq e ++ [w]) e).
Proof using Hw. apply post_send_run. by rewrite (pr_rank _ _ _ Hw). Qed.
End benchmark.

(** The step of one agent, the other three having nothing to do; a local
    statement that is taken first. *)
Ltac settle := unfold set_mem, set_sq, set_rq, set_scq, set_rcq, set_posted, set_heap, set_arch, set_wc, complete,
  arrive, apply_delta; flat; cbn [d_scq d_rcq d_rq d_posted d_nalloc d_heap d_arch d_wc r_wr_id r_buf r_len w_wr_id
  w_imm w_len app drop]; rewrite ?app_nil_r; change max_recv_num with 8.
Ltac others_wait := let ag := fresh in intros ag; destruct ag; intros ?; first
  [ congruence
  | reflexivity
  | match goal with H : blocked _ |- _ => cbn [agent_step]; rewrite H by reflexivity; reflexivity end ].
Ltac proc_step ag tac :=
  eapply (ev_one _ _ _ ag);
  [ cbn [agent_step run_op]; tac; cbn [outcome_map]; reflexivity
  | others_wait
  | settle ].
Ltac nic_step ag tac :=
  eapply (ev_one _ _ _ ag);
  [ cbn [agent_step]; tac; cbn [outcome_map]; reflexivity
  | others_wait
  | settle ].
Ltac unfold_head t := lazymatch t with ?f _ => unfold_head f | _ => unfold t end.
Ltac is_local := idtac; lazymatch goal with
  | |- local (wait_send _) _ _ => eapply wait_send_local; reflexivity
  | |- local poll_send _ _ => eapply poll_send_local; reflexivity
  | |- local ?o _ _ => unfold_head o; eapply take_recv_local; [reflexivity | reflexivity | reflexivity | apply Nat.ltb_lt; reflexivity]
  end.
Ltac local_a HP tac := eapply (ev_local_a _ _ _ _ _ _ _ _ _ HP); [tac | settle].
Ltac local_b HP tac := eapply (ev_local_b _ _ _ _ _ _ _ _ _ HP); [tac | settle].

(** A request to the other process is posted, and the control message of a
    completion is read; [H] is the [process_ok] of the process. *)
Ltac post_it H := match type of H with process_ok _ _ ?W =>
  rewrite bind_assoc, bind_get, (not_inline W) by done;
  (then_by (apply (post_to_peer_run _ _ _ H); cbn; lia)); try done end.
Ltac read_ctl H tac := then_by (by apply (ctl_msg_run _ _ _ H); [tac|..]).

(** ** Two processes, to run the benchmarks on *)

Definition demo_config : config := Config true 8 16 0.
Definition demo_env (lay : layout) (r : Z) : env :=
  Env r (40 + r) [1; 0] 2 lay (4096 * (r + 1)) (7 + r) (layout_size lay) 0 0 0 (λ n, 64 * Z.of_nat (S n)).
Definition demo_mem {msg} : @mem msg := Mem None None None None (replicate 16 NUL) (replicate 16 NUL).

Lemma demo_process lay r :
  Forall (λ x, 0 < x.2) lay → r = 0 ∨ r = 1 → process_ok lay r (demo_env lay r).
Proof. intros Hl [-> | ->]; (constructor; [reflexivity|reflexivity|reflexivity|done|cbn; lia|intros n; cbn; lia]). Qed.

Definition demo_calls : list (Z * Z) := sizes 8 2 ≫= calls_for.

Lemma demo_schedule : schedule_ok demo_config demo_calls.
Proof. apply (schedule_of demo_config 1); vm_compute; try done; split; discriminate || reflexivity. Qed.
