(* ===== verification/BenchTurns.v ===== *)
(** * Two processes that send in turn

    The loop of most benchmarks: in every iteration process 0 sends and process 1
    receives, then the other way round.  When one transfer, from a state in which
    one process is about to send and the other to receive, ends in such a state with
    the roles changed, the whole loop ends.  And the memory and the states of the
    benchmarks that only have two buffers. *)

From S2P Require Import Prelude CLib LcmArchive BenchCommon BenchNet BenchSched.

Local Open Scope Z_scope.

Section turns.
Context {msg ctx : Type} (c : config).
Abbreviation endst := (@endst msg ctx).
Abbreviation net := (@net msg ctx).
Abbreviation op := (M endst ()).

(** What a process does when it sends and when it receives a message of a size and a
    value, and the states in which it is about to. *)
Context (send_half recv_half : env → Z → char → list op) (to_send to_recv : env → endst → Prop).

Definition turn (W : env) (call : Z * Z) : list op :=
  let msg_size := call.1 in
  let value := value_of (v_rank W) in
  let peer_value := value_of (1 - v_rank W) in
  if v_rank W =? 0
  then send_half W msg_size value ++ recv_half W msg_size peer_value
  else recv_half W msg_size peer_value ++ send_half W msg_size value.

(** What is left of a program is nothing, or goes on with receiving a message. *)
Definition waits (W : env) (p : list op) : Prop :=
  p = [] ∨ ∃ size rest, 0 < size ≤ max_msg_size c ∧ p = recv_half W size (value_of (1 - v_rank W)) ++ rest.

(** One transfer, from the process of [Wa] to that of [Wb], [I] holding all the way;
    [R] is what is known of the programs that are left. *)
Definition transfers_ever (I : net → Prop) (R : list op → list op → Prop) (Wa Wb : env) : Prop :=
  ∀ (P : net → Prop) pa pb a b size,
    final Wa Wb P → waits Wa pa → 0 < size ≤ max_msg_size c → to_send Wa a → to_recv Wb b → R pa pb →
    (∀ a' b', to_recv Wa a' → to_send Wb b' → evi Wa Wb I P (Net a' b' pa pb)) →
    evi Wa Wb I P (Net a b (send_half Wa size (value_of (v_rank Wa)) ++ pa)
      (recv_half Wb size (value_of (v_rank Wa)) ++ pb)).

Definition transfers (Wa Wb : env) : Prop :=
  ∀ (P : net → Prop) pa pb a b size,
    final Wa Wb P → waits Wa pa → 0 < size ≤ max_msg_size c → to_send Wa a → to_recv Wb b →
    (∀ a' b', to_recv Wa a' → to_send Wb b' → ev Wa Wb P (Net a' b' pa pb)) →
    ev Wa Wb P (Net a b (send_half Wa size (value_of (v_rank Wa)) ++ pa)
      (recv_half Wb size (value_of (v_rank Wa)) ++ pb)).

Lemma transfers_true Wa Wb : transfers Wa Wb → transfers_ever (λ _, True) (λ _ _, True) Wa Wb.
Proof.
  intros H P pa pb a b size HP Hw Hs Ha Hb _ Hc. apply evi_true, H; [done..|].
  intros a' b' Ha' Hb'. by apply evi_true, Hc.
Qed.

Context (Wa Wb : env) (Ha : v_rank Wa = 0) (Hb : v_rank Wb = 1).

Lemma turn_a call : turn Wa call = send_half Wa call.1 (value_of 0) ++ recv_half Wa call.1 (value_of 1).
Proof using Ha. unfold turn. by rewrite Ha. Qed.

Lemma turn_b call : turn Wb call = recv_half Wb call.1 (value_of 0) ++ send_half Wb call.1 (value_of 1).
Proof using Hb. unfold turn. by rewrite Hb. Qed.

Lemma waits_b calls : Forall (call_ok c) calls → waits Wb (calls ≫= turn Wb).
Proof using Hb.
  destruct 1 as [|call calls Hok _]; [by left|]. right. cbn [mbind list_bind]. rewrite turn_b, <-(assoc_L app), Hb.
  exists call.1, (send_half Wb call.1 (value_of 1) ++ (calls ≫= turn Wb)). split; [exact Hok|done].
Qed.

Lemma turns_ever (I I' : net → Prop) (Ra Rb : list op → list op → Prop) :
  (∀ s, I' s ↔ I (swap_net s)) → transfers_ever I Ra Wa Wb → transfers_ever I' Rb Wb Wa →
  (∀ a b, to_send Wa a → to_recv Wb b → finished (Net a b [] []) ∧ I (Net a b [] [])) →
  (∀ (call : Z * Z) (calls : list (Z * Z)), Ra (recv_half Wa call.1 (value_of 1) ++ (calls ≫= turn Wa))
                    (send_half Wb call.1 (value_of 1) ++ (calls ≫= turn Wb)) ∧
                 Rb (calls ≫= turn Wb) (calls ≫= turn Wa)) →
  ∀ calls, Forall (call_ok c) calls → ∀ a b, to_send Wa a → to_recv Wb b →
  evi Wa Wb I finished (Net a b (calls ≫= turn Wa) (calls ≫= turn Wb)).
Proof using Ha Hb.
  intros HI Hab Hba Hend HR. pose proof (@finished_final msg ctx Wa Wb) as HP.
  induction 1 as [|[size i] calls Hok Hcalls IH]; intros a b Hsa Hrb.
  { destruct (Hend a b Hsa Hrb). by apply evi_here. }
  destruct (HR (size, i) calls) as [HRa HRb]. cbn [mbind list_bind].
  rewrite turn_a, turn_b, <-!(assoc_L app). cbn [fst] in *.
  unfold transfers_ever in *. rewrite Ha in Hab. rewrite Hb in Hba.
  apply Hab; [done| |exact Hok|done|done|exact HRa|].
  { right. eexists _, _. rewrite Ha. split; [exact Hok|reflexivity]. }
  clear a b Hsa Hrb. intros a b Hra Hsb.
  apply evi_swap. cbn [swap_net n_a n_b n_pa n_pb]. apply (evi_mono _ _ I'); [intros s H; by apply HI|].
  apply Hba; [by apply final_swap|by apply waits_b|exact Hok|done|done|exact HRb|].
  clear a b Hra Hsb. intros b a Hrb Hsa.
  apply (evi_mono _ _ (λ s, I (swap_net s))); [intros s H; by apply HI|]. apply evi_swap_back. by apply IH.
Qed.

Lemma turns_run (Hab : transfers Wa Wb) (Hba : transfers Wb Wa)
    (Hend : ∀ a b, to_send Wa a → to_recv Wb b → finished (Net a b [] [])) calls :
  Forall (call_ok c) calls → ∀ a b, to_send Wa a → to_recv Wb b →
  ev Wa Wb finished (Net a b (calls ≫= turn Wa) (calls ≫= turn Wb)).
Proof using Ha Hb.
  intros Hok a b Hsa Hrb. apply evi_true.
  apply (turns_ever (λ _, True) (λ _, True) (λ _ _, True) (λ _ _, True));
    [done|by apply transfers_true..| |done|done|done|done].
  intros. by split; [apply Hend|].
Qed.
End turns.

(** ** Two buffers *)

(** The registered memory: the buffer that is sent, and the one that is received
    into. *)
Definition plain_layout (c : config) : layout := [(SSend, max_msg_size c); (SRecv, max_msg_size c)].

(** Where the process of [W] believes the receive buffer of the other to be; it knows
    the memory region of the other. *)
Definition remote_recv_buf (c : config) (W : env) : Z := v_rmr_addr W + max_msg_size c.
Definition knows (W W' : env) : Prop := v_rmr_addr W = v_mr_addr W' ∧ v_rmr_rkey W = v_rkey W'.

Lemma remote_recv_addr c r W W' :
  process_ok (plain_layout c) r W' → knows W W' → remote_recv_buf c W = addr_of W' SRecv.
Proof.
  intros Hw [H _]. unfold remote_recv_buf, addr_of. rewrite (pr_layout _ _ _ Hw), H. done.
Qed.

Lemma plain_recv_in c : SRecv ∈ (plain_layout c).*1.
Proof. cbn. rewrite !elem_of_cons. tauto. Qed.

(** A process with all receives posted and nothing under way. *)
Definition plain_at {msg ctx} (c : config) (W : env) (m : @mem msg) n (w : option bwc) : @endst msg ctx :=
  End m [] (replicate 8 (RecvWr (addr_of W SRecv) SRecv (max_msg_size c))) [] [] 8 n ∅ (LcmArchive None 0) w.
Definition plain_idle {msg ctx} (c : config) (W : env) (e : @endst msg ctx) : Prop :=
  ∃ m n w, bufs_ok c m ∧ e = plain_at c W m n w.

(** The demonstration on such processes. *)
Definition plain_env (r : Z) : env :=
  Env r (40 + r) [1; 0] 2 (plain_layout demo_config) (4096 * (r + 1)) (7 + r) 32 (4096 * (2 - r)) (8 - r) 236
    (λ n, 64 * Z.of_nat (S n)).

Lemma plain_env_ok r : r = 0 ∨ r = 1 → process_ok (plain_layout demo_config) r (plain_env r).
Proof.
  intros [-> | ->]; (constructor; [reflexivity|reflexivity|reflexivity| |cbn; lia|intros n; cbn; lia]);
    repeat constructor; cbn; lia.
Qed.
