(* ===== verification/BenchSendrecv.v ===== *)
(** * The pingpong by messages (benchmarks/ibv_pingpong_sendrecv.cpp)

    Each process sends its message from one buffer and receives the other's in a
    second one. *)

From Stdlib Require Import ZifyBool.
From S2P Require Import Prelude CLib LcmArchive DeviceConfig BenchCommon BenchNet BenchSched BenchTurns.

Local Open Scope Z_scope.

(** There are no control messages, and nothing is allocated. *)
Abbreviation endst := (@endst Empty_set Empty_set).
Abbreviation op := (M endst ()).

(** The options; the inline size is 236 bytes unless one says otherwise. *)
Definition parseArgs : list (char * cstr) → config := BenchCommon.parseArgs (Some 236).

Section program.
Context (c : config) (W : env).

(** [wc = pollCQ (recv_cq)] and the lines behind it. *)
Definition recv_message : op :=
  take_recv (λ wc, is_success wc WC_RECV) SRecv (max_msg_size c) (addr_of W SRecv).

Definition post_message (msg_size : Z) : op :=
  ret ← postSend W (1 - v_rank W) SSend msg_size 0;
  bench_assert (ret =? 0).

Definition send_half (msg_size : Z) (value : char) : list op :=
  [ fill_buffer (touch_data c) SSend msg_size value;
    post_message msg_size;
    wait_send WC_SEND ].

Definition recv_half (msg_size : Z) (peer_value : char) : list op :=
  [ recv_message;
    verify_buffer (touch_data c) SRecv msg_size peer_value ].
End program.

Definition iteration (c : config) (W : env) (call : Z * Z) : list op :=
  turn (send_half c) (recv_half c) W call.

(** [run] behind [init], given the calls that [RUN_VARY_MSG] makes. *)
Definition run (c : config) (W : env) (calls : list (Z * Z)) : list op :=
  checkAndPostRecvs SRecv (max_msg_size c) (addr_of W SRecv) :: (calls ≫= iteration c W).

(** ** One message *)

Section transfer.
Context (c : config) (r : Z) (Wa Wb : env) (Ha : process_ok (plain_layout c) r Wa).

Lemma post_message_run m rq n ar w size :
  post_message Wa size (End m [] rq [] [] 8 n ∅ ar w) =
  (Done tt, End m [SendWr 0 WR_SEND SSend size
     (inline_data Wa (End m [] rq [] [] 8 n ∅ ar w : endst) SSend size) 0 0 0] rq [] [] 8 n ∅ ar w).
Proof using Ha.
  unfold post_message, postSend. rewrite bind_assoc, bind_get, (pr_rank _ _ _ Ha).
  then_by (apply (post_to_peer_run _ _ _ Ha); cbn; lia). done.
Qed.

Lemma message_transfers : transfers c (send_half c) (recv_half c) (plain_idle c) (plain_idle c) Wa Wb.
Proof using Ha.
  intros P pa pb a b size HP Hw Hs (ma & na & wa & [La1 La2] & ->) (mb & nb & wb & [Lb1 Lb2] & ->) Hcont.
  assert (blocked pa) as Hblk.
  { destruct Hw as [->|(s & rest & _ & ->)]; [apply blocked_nil|]. unfold recv_half, recv_message. cbn [app].
    apply blocked_recv. }
  unfold send_half, recv_half, plain_at. cbn [app].
  proc_step ProcA ltac:(rewrite fill_send_run by (flat; lia)).
  assert (length (m_send (filled (touch_data c) size (value_of (v_rank Wa)) ma)) = length (m_send ma)) as Hlen
    by (apply filled_length; lia).
  proc_step ProcA ltac:(rewrite post_message_run).
  nic_step NicA ltac:(erewrite nic_send_data_run by first
    [reflexivity | by apply inline_now | cbn [w_len r_len x_mem]; lia]).
  local_a HP is_local. local_b HP is_local.
  proc_step ProcB ltac:(rewrite verify_recv_run; [|lia|
    intros Ht; rewrite Ht; cbn [x_mem m_recv]; rewrite take_filled by lia; by eexists]).
  apply Hcont; eexists _, _, _; (split; [|reflexivity]); split; cbn [m_send m_recv]; try lia.
  - by destruct (touch_data c).
  - rewrite length_app, length_take, length_drop. lia.
Qed.
End transfer.

(** The pingpong by messages: however the steps of the two processes and of their
    adapters interleave, the run ends, no assertion fails and nothing outside the two
    buffers is touched; every message has its receive posted, and each side finds the
    data the other has sent (when it looks at it), whether a message is sent inline or
    not. *)
Theorem sendrecv_completes (c : config) (Wa Wb : env) (ma mb : mem) (calls : list (Z * Z))
    (Ha : process_ok (plain_layout c) 0 Wa) (Hb : process_ok (plain_layout c) 1 Wb)
    (La : bufs_ok c ma) (Lb : bufs_ok c mb) (Hcalls : schedule_ok c calls) :
  completes Wa Wb finished (Net (start ma) (start mb) (run c Wa calls) (run c Wb calls)).
Proof.
  pose proof (@finished_final Empty_set Empty_set Wa Wb) as HP. apply ev_run; [done|].
  pose proof (schedule_calls _ _ Hcalls) as Hok.
  unfold run, start.
  local_a HP ltac:(apply (check_post_local _ _ _ _ 8); [reflexivity|lia|apply Nat.leb_le; reflexivity]).
  local_b HP ltac:(apply (check_post_local _ _ _ _ 8); [reflexivity|lia|apply Nat.leb_le; reflexivity]).
  apply (turns_run c (send_half c) (recv_half c) (plain_idle c) (plain_idle c)).
  - apply (pr_rank _ _ _ Ha).
  - apply (pr_rank _ _ _ Hb).
  - apply (message_transfers c 0 Wa Wb Ha).
  - apply (message_transfers c 1 Wb Wa Hb).
  - intros a b (m & n & w & _ & ->) (m' & n' & w' & _ & ->). done.
  - exact Hok.
  - by exists ma, 0%nat, None.
  - by exists mb, 0%nat, None.
Qed.

(** ** Two processes *)

Lemma sendrecv_completes_witness :
  completes (plain_env 0) (plain_env 1) finished
    (Net (start demo_mem) (start demo_mem)
       (run demo_config (plain_env 0) demo_calls) (run demo_config (plain_env 1) demo_calls)).
Proof.
  apply sendrecv_completes.
  - apply plain_env_ok. by left.
  - apply plain_env_ok. by right.
  - split; reflexivity.
  - split; reflexivity.
  - exact demo_schedule.
Defined.
