(* ===== verification/BenchWriteImm.v ===== *)
(** * The pingpong by writes with immediate data (benchmarks/ibv_pingpong_write_imm.cpp)

    Each process writes its message into the receive buffer of the other, which is
    told by a completion. *)

From Stdlib Require Import ZifyBool.
From S2P Require Import Prelude CLib LcmArchive DeviceConfig BenchCommon BenchNet BenchSched BenchTurns.

Local Open Scope Z_scope.

Abbreviation endst := (@endst Empty_set Empty_set).
Abbreviation op := (M endst ()).

(** The options; the inline size is 220 bytes unless one says otherwise. *)
Definition parseArgs : list (char * cstr) → config := BenchCommon.parseArgs (Some 220).

Section program.
Context (c : config) (W : env).

(** [wc = pollCQ (recv_cq)] and the lines behind it. *)
Definition recv_message : op :=
  take_recv (λ wc, is_success wc WC_RECV_RDMA_WITH_IMM) SRecv (max_msg_size c) (addr_of W SRecv).

Definition post_message (msg_size : Z) : op :=
  ret ← postWriteImm W (1 - v_rank W) SSend msg_size (remote_recv_buf c W) (v_rmr_rkey W) (77 + v_rank W) 0;
  bench_assert (ret =? 0).

Definition send_half (msg_size : Z) (value : char) : list op :=
  [ fill_buffer (touch_data c) SSend msg_size value;
    post_message msg_size;
    wait_send WC_RDMA_WRITE ].

Definition recv_half (msg_size : Z) (peer_value : char) : list op :=
  [ recv_message;
    verify_buffer (touch_data c) SRecv msg_size peer_value ].
End program.

Definition iteration (c : config) (W : env) (call : Z * Z) : list op :=
  turn (send_half c) (recv_half c) W call.

(** [run] between its two barriers, given the calls that [RUN_VARY_MSG] makes. *)
Definition run (c : config) (W : env) (calls : list (Z * Z)) : list op :=
  checkAndPostRecvs SRecv (max_msg_size c) (addr_of W SRecv) :: (calls ≫= iteration c W).

(** ** One message *)

Section transfer.
Context (c : config) (r : Z) (Wa Wb : env).
Context (Ha : process_ok (plain_layout c) r Wa) (Hb : process_ok (plain_layout c) (1 - r) Wb) (Hk : knows Wa Wb).

Lemma post_imm_run m rq n ar w size :
  post_message c Wa size (End m [] rq [] [] 8 n ∅ ar w) =
  (Done tt, End m [SendWr 0 WR_RDMA_WRITE_WITH_IMM SSend size
     (inline_data Wa (End m [] rq [] [] 8 n ∅ ar w : endst) SSend size)
     (77 + r) (addr_of Wb SRecv) (v_rkey Wb)] rq [] [] 8 n ∅ ar w).
Proof using Ha Hb Hk.
  unfold post_message, postWriteImm.
  rewrite bind_assoc, bind_get, (pr_rank _ _ _ Ha), (remote_recv_addr c (1 - r) Wa Wb) by done.
  rewrite (proj2 Hk). then_by (apply (post_to_peer_run _ _ _ Ha); cbn; lia). done.
Qed.

Lemma imm_transfers : transfers c (send_half c) (recv_half c) (plain_idle c) (plain_idle c) Wa Wb.
Proof using Ha Hb Hk.
  intros P pa pb a b size HP Hw Hs (ma & na & wa & [La1 La2] & ->) (mb & nb & wb & [Lb1 Lb2] & ->) Hcont.
  assert (blocked pa) as Hblk.
  { destruct Hw as [->|(s & rest & _ & ->)]; [apply blocked_nil|]. unfold recv_half, recv_message. cbn [app].
    apply blocked_recv. }
  unfold send_half, recv_half, plain_at. cbn [app].
  proc_step ProcA ltac:(rewrite fill_send_run by (flat; lia)).
  assert (length (m_send (filled (touch_data c) size (value_of (v_rank Wa)) ma)) = length (m_send ma)) as Hlen
    by (apply filled_length; lia).
  proc_step ProcA ltac:(rewrite post_imm_run).
  nic_step NicA ltac:(erewrite nic_write_imm_run by first
    [reflexivity | by apply inline_now | apply (layout_positive _ _ _ Hb) | apply (in_layout _ _ _ Hb), plain_recv_in
    | cbn [w_len r_len x_mem]; lia]).
  local_a HP is_local. local_b HP is_local.
  proc_step ProcB ltac:(rewrite verify_recv_run; [|lia|
    intros Ht; rewrite Ht; cbn [x_mem m_recv]; rewrite take_filled by lia; by eexists]).
  apply Hcont; eexists _, _, _; (split; [|reflexivity]); split; cbn [m_send m_recv]; try lia.
  - by destruct (touch_data c).
  - rewrite length_app, length_take, length_drop. lia.
Qed.
End transfer.

(** The pingpong by writes with immediate data: however the steps of the two
    processes and of their adapters interleave, the run ends, no assertion fails and
    nothing but the two buffers is touched; every write finds a receive for its
    notice, and each side finds the data the other has written (when it looks at it),
    whether it is sent inline or not. *)
Theorem write_imm_completes (c : config) (Wa Wb : env) (ma mb : mem) (calls : list (Z * Z))
    (Ha : process_ok (plain_layout c) 0 Wa) (Hb : process_ok (plain_layout c) 1 Wb)
    (Hka : knows Wa Wb) (Hkb : knows Wb Wa)
    (La : bufs_ok c ma) (Lb : bufs_ok c mb) (Hcalls : schedule_ok c calls) :
  completes Wa Wb finished (Net (start ma) (start mb) (run c Wa calls) (run c Wb calls)).
Proof.
  pose proof (@finished_final Empty_set Empty_set Wa Wb) as HP. apply ev_run; [done|].
  pose proof (schedule_calls _ _ Hcalls) as Hok. unfold run, start.
  local_a HP ltac:(apply (check_post_local _ _ _ _ 8); [reflexivity|lia|apply Nat.leb_le; reflexivity]).
  local_b HP ltac:(apply (check_post_local _ _ _ _ 8); [reflexivity|lia|apply Nat.leb_le; reflexivity]).
  apply (turns_run c (send_half c) (recv_half c) (plain_idle c) (plain_idle c)).
  - apply (pr_rank _ _ _ Ha).
  - apply (pr_rank _ _ _ Hb).
  - by apply (imm_transfers c 0).
  - by apply (imm_transfers c 1).
  - intros a b (m & n & w & _ & ->) (m' & n' & w' & _ & ->). done.
  - exact Hok.
  - by exists ma, 0%nat, None.
  - by exists mb, 0%nat, None.
Qed.

Lemma write_imm_completes_witness :
  completes (plain_env 0) (plain_env 1) finished
    (Net (start demo_mem) (start demo_mem)
       (run demo_config (plain_env 0) demo_calls) (run demo_config (plain_env 1) demo_calls)).
Proof.
  apply write_imm_completes.
  - apply plain_env_ok. by left.
  - apply plain_env_ok. by right.
  - split; reflexivity.
  - split; reflexivity.
  - split; reflexivity.
  - split; reflexivity.
  - exact demo_schedule.
Defined.
