(* ===== verification/BenchWrite.v ===== *)
(** * The pingpong by writes (benchmarks/ibv_pingpong_write.cpp)

    Each process writes its message into the receive buffer of the other, which
    watches the first and the last byte of it; before it sends, a process puts its own
    value there, so that it can see the next message.  An adapter moves a message in
    one step; a message whose bytes arrive in another order is not modelled. *)

From Stdlib Require Import ZifyBool ZifyNat.
From S2P Require Import Prelude CLib LcmArchive DeviceConfig BenchCommon BenchNet BenchSched BenchTurns.

Local Open Scope Z_scope.

Abbreviation endst := (@endst Empty_set Empty_set).
Abbreviation op := (M endst ()).
Abbreviation mem := (@mem Empty_set).

(** The options; the inline size is 220 bytes unless one says otherwise. *)
Definition parseArgs : list (char * cstr) → config := BenchCommon.parseArgs (Some 220).

Section program.
Context (c : config).

(** [while (!(buf[msg_size-1] == peer_value && buf[0] == peer_value)) continue]. *)
Definition watch (msg_size : Z) (peer_value : char) : op :=
  e ← get;
  last ← or_fault OutOfBounds (m_recv (x_mem e) !! Z.to_nat (msg_size - 1));
  first ← or_fault OutOfBounds (m_recv (x_mem e) !! 0%nat);
  if (last =c peer_value)%c && (first =c peer_value)%c then mret tt else hang_.

(** [buf[i] = value]. *)
Definition poke (i : Z) (value : char) : op :=
  e ← get;
  let m := x_mem e in
  if (0 <=? i) && (i <? Z.of_nat (length (m_recv m))) then
    modify (set_mem (Mem (m_rts m) (m_rtr m) (m_fin m) (m_ctl m) (m_send m) (<[Z.to_nat i := value]> (m_recv m))))
  else fault_ OutOfBounds.

Definition post_message (W : env) (msg_size : Z) : op :=
  ret ← postWrite W (1 - v_rank W) SSend msg_size (remote_recv_buf c W) (v_rmr_rkey W) 0;
  bench_assert (ret =? 0).

Definition send_half (W : env) (msg_size : Z) (value : char) : list op :=
  [ poke 0 value;
    poke (msg_size - 1) value;
    fill_buffer (touch_data c) SSend msg_size value;
    post_message W msg_size;
    wait_send WC_RDMA_WRITE ].

Definition recv_half (W : env) (msg_size : Z) (peer_value : char) : list op :=
  [ watch msg_size peer_value;
    verify_buffer (touch_data c) SRecv msg_size peer_value ].
End program.

Definition iteration (c : config) (W : env) (call : Z * Z) : list op :=
  turn (send_half c) (recv_half c) W call.

(** The two calls of [memset] before the first barrier. *)
Definition prepare (c : config) (W : env) (m : mem) : mem :=
  Mem (m_rts m) (m_rtr m) (m_fin m) (m_ctl m)
    (replicate (Z.to_nat (max_msg_size c)) (value_of (v_rank W))) (replicate (Z.to_nat (max_msg_size c)) NUL).

(** [run] between its two barriers, given the calls that [RUN_VARY_MSG] makes. *)
Definition run (c : config) (W : env) (calls : list (Z * Z)) : list op :=
  checkAndPostRecvs SRecv (max_msg_size c) (addr_of W SRecv) :: (calls ≫= iteration c W).

(** ** The statements *)

Lemma watch_waits msg_size peer e x :
  m_recv (x_mem e) !! 0%nat = Some x → x ≠ peer → 0 < msg_size ≤ Z.of_nat (length (m_recv (x_mem e))) →
  watch msg_size peer e = (Hang, e).
Proof.
  intros H0 Hx Hs. unfold watch. rewrite bind_get, H0.
  destruct (lookup_lt_is_Some_2 (m_recv (x_mem e)) (Z.to_nat (msg_size - 1)) ltac:(lia)) as [y ->].
  cbn [or_fault]. rewrite !bind_ret. by rewrite (char_eqb_ne x peer), andb_false_r.
Qed.

Lemma watch_sees msg_size peer e rest :
  m_recv (x_mem e) = replicate (Z.to_nat msg_size) peer ++ rest → 0 < msg_size →
  watch msg_size peer e = (Done tt, e).
Proof.
  intros H Hs. unfold watch. rewrite bind_get, H.
  rewrite !lookup_app_l by (rewrite length_replicate; lia). rewrite !lookup_replicate_2 by lia.
  cbn [or_fault]. rewrite !bind_ret. by rewrite char_eqb_refl.
Qed.

Lemma poke_run i value e :
  0 ≤ i < Z.of_nat (length (m_recv (x_mem e))) →
  poke i value e = (Done tt, set_mem (Mem (m_rts (x_mem e)) (m_rtr (x_mem e)) (m_fin (x_mem e)) (m_ctl (x_mem e))
    (m_send (x_mem e)) (<[Z.to_nat i := value]> (m_recv (x_mem e)))) e).
Proof.
  intros H. unfold poke. rewrite bind_get.
  by replace ((0 <=? i) && (i <? Z.of_nat (length (m_recv (x_mem e))))) with true by lia.
Qed.

(** ** One message *)

(** A process that is about to send has its value in the whole buffer it sends; one
    that is about to receive has not the value of the other in its first byte. *)
Definition to_send (c : config) (W : env) (e : endst) : Prop :=
  ∃ m n w, bufs_ok c m ∧ m_send m = replicate (Z.to_nat (max_msg_size c)) (value_of (v_rank W)) ∧ e = plain_at c W m n w.
Definition to_recv (c : config) (W : env) (e : endst) : Prop :=
  ∃ m n w, bufs_ok c m ∧ m_send m = replicate (Z.to_nat (max_msg_size c)) (value_of (v_rank W)) ∧ e = plain_at c W m n w ∧
    ∃ x, m_recv m !! 0%nat = Some x ∧ x ≠ value_of (1 - v_rank W).

(** ** Lockstep

    An iteration has seven statements.  Process 0 posts its message with the fourth
    and watches with the sixth of them; process 1 watches with the first and posts
    with the sixth.  [posts_left r p] are the messages that process [r] has still to
    post when [p] is left of its program, [watches_left r p] those it has still to
    take. *)
Definition per_iteration : nat := 7.
Definition posts_left (r : Z) (p : list op) : nat :=
  (length p + (if (r =? 0)%Z then 3 else 5)) / per_iteration.
Definition watches_left (r : Z) (p : list op) : nat :=
  (length p + (if (r =? 0)%Z then 5 else 0)) / per_iteration.

(** A process has taken no more messages than the other has posted and its adapter
    has delivered. *)
Definition in_lockstep (ra rb : Z) (s : @net Empty_set Empty_set) : Prop :=
  (posts_left ra (n_pa s) + length (x_sq (n_a s)) ≤ watches_left rb (n_pb s))%nat ∧
  (posts_left rb (n_pb s) + length (x_sq (n_b s)) ≤ watches_left ra (n_pa s))%nat.

Lemma in_lockstep_swap ra rb s : in_lockstep ra rb s ↔ in_lockstep rb ra (swap_net s).
Proof. unfold in_lockstep. destruct s as [a b pa pb]. cbn [swap_net n_pa n_pb n_a n_b]. tauto. Qed.

(** The statements of [p] that are left, after whole iterations: two of process 0
    and five of process 1 when it is process 1's turn to send, none otherwise. *)
Definition left_over (r : Z) (pa pb : list op) : Prop :=
  ∃ k, length pa = (k * per_iteration + if (r =? 0)%Z then 2 else 0)%nat ∧
       length pb = (k * per_iteration + if (r =? 0)%Z then 5 else 0)%nat.

(** The lockstep of a state whose programs are written out. *)
Ltac in_step := lazymatch goal with
  | Hr : ?r = 0 ∨ ?r = 1, Ka : length ?pa = _, Kb : length ?pb = _ |- _ =>
      unfold in_lockstep, posts_left, watches_left, per_iteration in *; cbn [n_a n_b n_pa n_pb x_sq length apply_delta];
      rewrite ?Ka, ?Kb; clear - Hr; let E := fresh in destruct Hr as [E|E]; rewrite ?E;
      change (1 - 0) with 1; change (1 - 1) with 0; cbn [Z.eqb Pos.eqb]; zify; Z.to_euclidean_division_equations; lia
  end.

(** A step of one agent, [tac] showing that a process that could step watches in
    vain. *)
Ltac wait_step ag step_tac wait_tac :=
  eapply (evi_one _ _ _ _ ag);
  [ in_step
  | cbn [agent_step]; step_tac; cbn [outcome_map]; reflexivity
  | let ag' := fresh in intros ag'; destruct ag'; intros ?; first
      [congruence | reflexivity | cbn [agent_step]; wait_tac; reflexivity]
  | settle ].

Section transfer.
Context (c : config) (r : Z) (Wa Wb : env) (Hr : r = 0 ∨ r = 1).
Context (Ha : process_ok (plain_layout c) r Wa) (Hb : process_ok (plain_layout c) (1 - r) Wb) (Hk : knows Wa Wb).

Lemma post_write_run m rq n ar w size :
  post_message c Wa size (End m [] rq [] [] 8 n ∅ ar w) =
  (Done tt, End m [SendWr 0 WR_RDMA_WRITE SSend size
     (inline_data Wa (End m [] rq [] [] 8 n ∅ ar w : endst) SSend size)
     0 (addr_of Wb SRecv) (v_rkey Wb)] rq [] [] 8 n ∅ ar w).
Proof using Ha Hb Hk.
  unfold post_message, postWrite.
  rewrite bind_assoc, bind_get, (pr_rank _ _ _ Ha), (remote_recv_addr c (1 - r) Wa Wb) by done.
  rewrite (proj2 Hk). then_by (apply (post_to_peer_run _ _ _ Ha); cbn; lia). done.
Qed.

Lemma values_differ : value_of r ≠ value_of (1 - r).
Proof using Hr. clear - Hr. by destruct Hr as [-> | ->]. Qed.

(** What is left of a program watches in vain. *)
Lemma waits_watch p e x :
  waits c (recv_half c) Wa p → bufs_ok c (x_mem e) → m_recv (x_mem e) !! 0%nat = Some x →
  x ≠ value_of (1 - r) → run_op p e = Hang.
Proof using Ha.
  intros [->|(s & rest & Hs & ->)] [_ L2] H0 Hx; [done|]. unfold recv_half. cbn [app run_op].
  rewrite (pr_rank _ _ _ Ha). by rewrite (watch_waits _ _ _ _ H0 Hx) by lia.
Qed.

(** The bytes a process puts down before it sends. *)
Definition poked (size : Z) (value : char) (m : mem) : mem :=
  Mem (m_rts m) (m_rtr m) (m_fin m) (m_ctl m) (m_send m)
    (<[Z.to_nat (size - 1) := value]> (<[0%nat := value]> (m_recv m))).

Lemma poked_first size value m :
  m_recv m ≠ [] → m_recv (poked size value m) !! 0%nat = Some value.
Proof using.
  intros H. cbn [poked m_recv]. destruct (m_recv m) as [|x l]; [done|].
  destruct (decide (Z.to_nat (size - 1) = 0%nat)) as [->|Hn]; [done|]. by rewrite list_lookup_insert_ne by lia.
Qed.

(** The whole buffer that is sent holds one value before it is filled and behind that. *)
Lemma filled_same touch size value (m : mem) :
  0 ≤ size ≤ max_msg_size c → m_send m = replicate (Z.to_nat (max_msg_size c)) value →
  m_send (filled touch size value m) = replicate (Z.to_nat (max_msg_size c)) value.
Proof using.
  intros Hs E. destruct touch; [|done]. cbn [filled m_send]. rewrite E, drop_replicate, <-replicate_add. f_equal. lia.
Qed.

Lemma write_transfers :
  transfers_ever c (send_half c) (recv_half c) (to_send c) (to_recv c) (in_lockstep r (1 - r)) (left_over r) Wa Wb.
Proof using Hr Ha Hb Hk.
  intros P pa pb a b size HP Hw Hs (ma & na & wa & [La1 La2] & Sa & ->) (mb & nb & wb & [Lb1 Lb2] & Sb & -> & x & Hx & Hne) (k & Ka & Kb) Hcont.
  rewrite (pr_rank _ _ _ Ha) in *. rewrite (pr_rank _ _ _ Hb) in *.
  replace (1 - (1 - r)) with r in * by lia.
  unfold send_half, recv_half, plain_at. cbn [app].
  assert (∀ l, run_op (watch size (value_of r) :: l)
    (End mb [] (replicate 8 (RecvWr (addr_of Wb SRecv) SRecv (max_msg_size c))) [] [] 8 nb ∅ (LcmArchive None 0) wb) = Hang) as Hwb.
  { intros l. cbn [run_op]. by rewrite (watch_waits _ _ _ x) by (done || cbn [x_mem]; lia). }
  assert (m_recv ma ≠ []) as Hma by (intros E; rewrite E in La2; cbn in La2; lia).
  wait_step ProcA ltac:(cbn [run_op]; rewrite poke_run by (flat; lia)) ltac:(rewrite Hwb).
  wait_step ProcA ltac:(cbn [run_op]; rewrite poke_run by (flat; cbn [m_recv]; rewrite length_insert; lia)) ltac:(rewrite Hwb).
  cbn [m_rts m_rtr m_fin m_ctl m_send m_recv]. change (Z.to_nat 0) with 0%nat. fold (poked size (value_of r) ma).
  wait_step ProcA ltac:(cbn [run_op]; rewrite fill_send_run by (flat; cbn [poked m_send]; lia)) ltac:(rewrite Hwb).
  wait_step ProcA ltac:(cbn [run_op]; rewrite post_write_run) ltac:(rewrite Hwb).
  set (m1 := filled (touch_data c) size (value_of r) (poked size (value_of r) ma)).
  assert (m_send m1 = replicate (Z.to_nat (max_msg_size c)) (value_of r)) as S1
    by (apply filled_same; [lia|done]).
  assert (m_recv m1 = m_recv (poked size (value_of r) ma)) as R1 by (unfold m1; by destruct (touch_data c)).
  assert (m_recv m1 !! 0%nat = Some (value_of r)) as F1 by (rewrite R1; by apply poked_first).
  assert (bufs_ok c m1) as B1.
  { split; [rewrite S1, length_replicate; lia|]. rewrite R1. cbn [poked m_recv]. by rewrite !length_insert. }
  wait_step NicA ltac:(erewrite nic_write_run by first
    [reflexivity | by apply inline_now | apply (layout_positive _ _ _ Hb) | apply (in_layout _ _ _ Hb), plain_recv_in
    | cbn [w_len x_mem]; destruct B1; lia]) ltac:(rewrite Hwb).
  rewrite S1, take_replicate, Nat.min_l by lia.
  eapply (evi_local_a _ _ _ _ _ _ _ _ _ _ HP); [is_local|intros a' b' pb'; in_step|settle].
  assert (∀ n w rq, run_op pa (End m1 [] rq [] [] 8 n ∅ (LcmArchive None 0) w) = Hang) as Hwa.
  { intros n w rq. by apply (waits_watch _ _ (value_of r) Hw); [done|done|apply values_differ]. }
  wait_step ProcB ltac:(cbn [run_op]; erewrite watch_sees by (reflexivity || lia)) ltac:(rewrite Hwa).
  wait_step ProcB ltac:(cbn [run_op]; rewrite verify_recv_run by (lia || by intros _; eexists)) ltac:(rewrite Hwa).
  apply Hcont.
  - exists m1, na, (Some (BWc 0 IBV_WC_SUCCESS WC_RDMA_WRITE 0 (v_qpn Wa))). rewrite (pr_rank _ _ _ Ha).
    split; [done|]. split; [done|]. split; [done|]. exists (value_of r). split; [done|apply values_differ].
  - eexists _, nb, wb. rewrite (pr_rank _ _ _ Hb). split; [|split; [|reflexivity]]; [|done].
    split; cbn [m_send m_recv]; [done|]. rewrite length_app, length_replicate, length_drop. lia.
Qed.
End transfer.

(** ** The whole run *)

Lemma length_iterations c W calls :
  v_rank W = 0 ∨ v_rank W = 1 → length (calls ≫= iteration c W) = (length calls * per_iteration + 0)%nat.
Proof.
  intros Hr. induction calls as [|call calls IH]; [done|]. cbn [mbind list_bind]. rewrite length_app.
  setoid_rewrite IH. unfold iteration, turn. destruct Hr as [-> | ->]; cbn; lia.
Qed.

(** C11: the pingpong by writes: however the steps of the two processes and of their
    adapters interleave, the run ends and no assertion fails.  In every state on the
    way neither process has taken more messages than the other has posted and its
    adapter has delivered: it takes neither its own bytes nor those of an earlier
    iteration for the message it waits for. *)
Theorem write_completes (c : config) (Wa Wb : env) (ma mb : mem) (calls : list (Z * Z))
    (Ha : process_ok (plain_layout c) 0 Wa) (Hb : process_ok (plain_layout c) 1 Wb)
    (Hka : knows Wa Wb) (Hkb : knows Wb Wa) (Hcalls : schedule_ok c calls) :
  let s := Net (start (prepare c Wa ma)) (start (prepare c Wb mb)) (run c Wa calls) (run c Wb calls) in
  completes Wa Wb finished s ∧
  ∀ s', rtc (some_step Wa Wb) s s' → in_lockstep 0 1 s'.
Proof.
  pose proof (@finished_final Empty_set Empty_set Wa Wb) as HP. intros s.
  assert (evi Wa Wb (in_lockstep 0 1) finished s) as [H1 H2]; [|split; [by apply ev_run|done]].
  pose proof (schedule_calls _ _ Hcalls) as Hok. pose proof (so_max _ _ Hcalls) as Hmax.
  assert ((0 = 0 ∨ 0 = 1)) as Hr by by left.
  pose proof (length_iterations c Wa calls ltac:(left; apply (pr_rank _ _ _ Ha))) as Ka.
  pose proof (length_iterations c Wb calls ltac:(right; apply (pr_rank _ _ _ Hb))) as Kb.
  unfold s, run, start.
  eapply (evi_local_a _ _ _ _ _ _ _ _ _ _ HP);
    [apply (check_post_local _ _ _ _ 8); [reflexivity|lia|apply Nat.leb_le; reflexivity]|intros a' b' pb'; in_step|settle].
  eapply (evi_local_b _ _ _ _ _ _ _ _ _ _ HP);
    [apply (check_post_local _ _ _ _ 8); [reflexivity|lia|apply Nat.leb_le; reflexivity]|intros a' b' pb'; in_step|settle].
  assert (∀ W m, bufs_ok c (prepare c W m)) as Hbufs.
  { intros W m. split; cbn [prepare m_send m_recv]; rewrite length_replicate; lia. }
  apply (turns_ever c (send_half c) (recv_half c) (to_send c) (to_recv c)) with
    (I' := in_lockstep 1 0) (Ra := left_over 0) (Rb := left_over 1).
  - apply (pr_rank _ _ _ Ha).
  - apply (pr_rank _ _ _ Hb).
  - apply in_lockstep_swap.
  - apply (write_transfers c 0); by auto.
  - apply (write_transfers c 1); by auto.
  - intros a b (m & n & w & _ & _ & ->) (m' & n' & w' & _ & _ & -> & _). done.
  - intros call l. pose proof (length_iterations c Wa l ltac:(left; apply (pr_rank _ _ _ Ha))) as La.
    pose proof (length_iterations c Wb l ltac:(right; apply (pr_rank _ _ _ Hb))) as Lb.
    change (iteration c Wa) with (turn (send_half c) (recv_half c) Wa) in La.
    change (iteration c Wb) with (turn (send_half c) (recv_half c) Wb) in Lb.
    split; exists (length l); rewrite ?length_app, La, Lb; cbn [recv_half send_half length Z.eqb]; lia.
  - exact Hok.
  - exists (prepare c Wa ma), 0%nat, None. by split; [apply Hbufs|].
  - exists (prepare c Wb mb), 0%nat, None. split; [apply Hbufs|]. split; [done|]. split; [done|].
    exists NUL. rewrite (pr_rank _ _ _ Hb). split; [|done]. cbn [prepare m_recv]. apply lookup_replicate_2. lia.
Qed.

Lemma write_completes_witness :
  let s := Net (start (prepare demo_config (plain_env 0) demo_mem)) (start (prepare demo_config (plain_env 1) demo_mem))
       (run demo_config (plain_env 0) demo_calls) (run demo_config (plain_env 1) demo_calls) in
  completes (plain_env 0) (plain_env 1) finished s ∧
  ∀ s', rtc (some_step (plain_env 0) (plain_env 1)) s s' → in_lockstep 0 1 s'.
Proof.
  apply write_completes.
  - apply plain_env_ok. by left.
  - apply plain_env_ok. by right.
  - split; reflexivity.
  - split; reflexivity.
  - exact demo_schedule.
Defined.
