(* ===== verification/BenchRead.v ===== *)
(** * The pingpong by reads (benchmarks/ibv_pingpong_read.cpp)

    Process 1 fills its buffer once and tells process 0 to start, which reads it in
    every iteration and tells process 1 when it is through.  There is one buffer: it is
    sent, read into, and the place where the two signals arrive. *)

From Stdlib Require Import ZifyBool.
From S2P Require Import Prelude CLib LcmArchive DeviceConfig BenchCommon BenchNet BenchSched BenchTurns.

Local Open Scope Z_scope.

Abbreviation endst := (@endst Empty_set Empty_set).
Abbreviation op := (M endst ()).
Abbreviation mem := (@mem Empty_set).

(** The registered memory: [device.mr_addr] with [device.mr_size] bytes. *)
Definition read_layout (c : config) : layout := [(SRecv, max_msg_size c)].

(** The options; there is none for the inline size. *)
Definition parseArgs : list (char * cstr) → config := BenchCommon.parseArgs None.

Section program.
Context (CACHE_LINE_SIZE : Z) (c : config) (W : env).

(** A signal is sent; the result of [postSend] is not looked at. *)
Definition post_signal : op :=
  postSend W (1 - v_rank W) SRecv CACHE_LINE_SIZE 0;; mret tt.

(** [wc = pollCQ (recv_cq)] and the lines behind it. *)
Definition wait_signal : op :=
  take_recv (λ wc, is_success wc WC_RECV) SRecv (max_msg_size c) (addr_of W SRecv).

Definition post_message (msg_size : Z) : op :=
  ret ← postRead W (1 - v_rank W) SRecv msg_size (v_rmr_addr W) (v_rmr_rkey W) 0;
  bench_assert (ret =? 0).

Definition iteration (call : Z * Z) : list op :=
  let msg_size := call.1 in
  [ fill_buffer (touch_data c) SRecv msg_size (value_of (v_rank W));
    post_message msg_size;
    wait_send WC_RDMA_READ;
    verify_buffer (touch_data c) SRecv msg_size (value_of (1 - v_rank W)) ].

(** The call of [memset] before the first barrier. *)
Definition prepare (m : mem) : mem :=
  Mem (m_rts m) (m_rtr m) (m_fin m) (m_ctl m) (m_send m) (replicate (Z.to_nat (max_msg_size c)) NUL).

(** [run] between its two barriers, given the calls that [RUN_VARY_MSG] makes. *)
Definition run (calls : list (Z * Z)) : list op :=
  checkAndPostRecvs SRecv (max_msg_size c) (addr_of W SRecv) ::
  (if v_rank W =? 0 then
    wait_signal :: (calls ≫= iteration) ++ [post_signal; wait_send WC_SEND]
  else
    [ fill_buffer (touch_data c) SRecv (max_msg_size c) (value_of (v_rank W));
      post_signal;
      wait_send WC_SEND;
      wait_signal ]).
End program.

(** ** The statements *)

Definition set_recv (b : list char) (m : mem) : mem := Mem (m_rts m) (m_rtr m) (m_fin m) (m_ctl m) (m_send m) b.

(** The bytes of the buffer behind [fill_buffer]. *)
Definition filled_bytes (touch : bool) (len : Z) (input : char) (b : list char) : list char :=
  if touch then replicate (Z.to_nat len) input ++ drop (Z.to_nat len) b else b.

Lemma filled_bytes_length touch len input b :
  0 ≤ len ≤ Z.of_nat (length b) → length (filled_bytes touch len input b) = length b.
Proof. intros H. destruct touch; [|done]. cbn [filled_bytes]. rewrite length_app, length_replicate, length_drop. lia. Qed.

Lemma fill_recv_run touch len input (e : endst) :
  len ≤ Z.of_nat (length (m_recv (x_mem e))) →
  fill_buffer touch SRecv len input e =
  (Done tt, set_mem (set_recv (filled_bytes touch len input (m_recv (x_mem e))) (x_mem e)) e).
Proof.
  intros H. unfold fill_buffer. destruct touch; [|by destruct e as [[]]]. rewrite bind_get. cbn [load]. unfold write_buffer.
  by replace (Z.of_nat (length (m_recv (x_mem e))) <? len) with false by lia.
Qed.

(** The first [len] bytes of one buffer replace those of the other. *)
Definition over (len : Z) (src dst : list char) : list char := take (Z.to_nat len) src ++ drop (Z.to_nat len) dst.

Lemma over_length len src dst :
  0 ≤ len ≤ Z.of_nat (length src) → len ≤ Z.of_nat (length dst) → length (over len src dst) = length dst.
Proof. intros H1 H2. unfold over. rewrite length_app, length_take, length_drop. lia. Qed.

Lemma copy_recv_run len room m m' :
  len ≤ room → len ≤ Z.of_nat (length (m_recv m)) → len ≤ Z.of_nat (length (m_recv m')) →
  copy_cell (load SRecv m) len room SRecv m' = Some (set_recv (over len (m_recv m) (m_recv m')) m').
Proof.
  intros Hr H1 H2. unfold copy_cell. replace (room <? len) with false by lia. cbn [load].
  by rewrite copy_bytes_run by done.
Qed.

Lemma nic_signal_run W W' (a b : endst) w r l :
  x_sq a = [w] → w_opcode w = WR_SEND → data_now w (x_mem a) → w_buf w = SRecv →
  x_rq b = r :: l → r_buf r = SRecv → w_len w ≤ r_len r →
  w_len w ≤ Z.of_nat (length (m_recv (x_mem a))) → w_len w ≤ Z.of_nat (length (m_recv (x_mem b))) →
  nic W W' a b = Done (complete W w WC_SEND (set_sq [] a),
    arrive W' r WC_RECV (w_imm w) l
      (set_mem (set_recv (over (w_len w) (m_recv (x_mem a)) (m_recv (x_mem b))) (x_mem b)) b)).
Proof.
  intros H1 H2 H3 H4 H5 H6 H7 H8 H9. unfold nic. rewrite H1, H2, H5. cbn [x_mem set_sq].
  rewrite (data_now_default _ _ H3), H4, H6. by rewrite copy_recv_run by done.
Qed.

Lemma nic_read_recv_run W W' (a b : endst) w :
  x_sq a = [w] → w_opcode w = WR_RDMA_READ → w_buf w = SRecv →
  w_rkey w = v_rkey W' → w_raddr w = addr_of W' SRecv →
  Forall (λ x, 0 < x.2) (v_layout W') → SRecv ∈ (v_layout W').*1 →
  w_len w ≤ Z.of_nat (length (m_recv (x_mem b))) → w_len w ≤ Z.of_nat (length (m_recv (x_mem a))) →
  nic W W' a b = Done (complete W w WC_RDMA_READ
    (set_mem (set_recv (over (w_len w) (m_recv (x_mem b)) (m_recv (x_mem a))) (x_mem a)) (set_sq [] a)), b).
Proof.
  intros H1 H2 H4 H5 H6 H8 H9 H10 H11. unfold nic. rewrite H1, H2, H4. cbn [x_mem set_sq].
  rewrite (remote_slot_run W' w SRecv) by done. cbn [mbind option_bind]. by rewrite copy_recv_run by (done || lia).
Qed.

Section one.
Context (CACHE_LINE_SIZE : Z) (c : config) (r : Z) (W : env) (Hw : process_ok (read_layout c) r W).

Lemma post_signal_run m rq n ar w :
  post_signal CACHE_LINE_SIZE W (End m [] rq [] [] 8 n ∅ ar w) =
  (Done tt, End m [SendWr 0 WR_SEND SRecv CACHE_LINE_SIZE
     (inline_data W (End m [] rq [] [] 8 n ∅ ar w : endst) SRecv CACHE_LINE_SIZE) 0 0 0] rq [] [] 8 n ∅ ar w).
Proof using Hw.
  unfold post_signal, postSend. rewrite bind_assoc, bind_get, (pr_rank _ _ _ Hw).
  then_by (apply (post_to_peer_run _ _ _ Hw); cbn; lia). done.
Qed.

Lemma post_read_run m rq n ar w size :
  post_message W size (End m [] rq [] [] 8 n ∅ ar w) =
  (Done tt, End m [SendWr 0 WR_RDMA_READ SRecv size None 0 (v_rmr_addr W) (v_rmr_rkey W)] rq [] [] 8 n ∅ ar w : endst).
Proof using Hw.
  unfold post_message, postRead. rewrite (pr_rank _ _ _ Hw).
  then_by (apply (post_to_peer_run _ _ _ Hw); cbn; lia). done.
Qed.

Lemma buffer_in : SRecv ∈ (read_layout c).*1.
Proof using. by constructor. Qed.

Lemma recv_addr : addr_of W SRecv = v_mr_addr W.
Proof using Hw. unfold addr_of. by rewrite (pr_layout _ _ _ Hw). Qed.
End one.

(** ** The run *)

(** The buffer has the greatest size of a message; that of process 1 also has its
    bytes. *)
Definition room (c : config) (m : mem) : Prop := Z.of_nat (length (m_recv m)) = max_msg_size c.
Definition source (c : config) (m : mem) : Prop :=
  room c m ∧ (touch_data c = true → m_recv m = replicate (Z.to_nat (max_msg_size c)) (value_of 1)).

Section two.
Context (c : config) (Wa Wb : env).
Context (Ha : process_ok (read_layout c) 0 Wa) (Hb : process_ok (read_layout c) 1 Wb) (Hk : knows Wa Wb).

(** An iteration: process 0 has the bytes of process 1 in its buffer. *)
Lemma read_iteration (P : net → Prop) pa pb ma mb na nb wa wb call :
  blocked pb → call_ok c call → room c ma → source c mb →
  (∀ m w, room c m → ev Wa Wb P (Net (plain_at c Wa m na w) (plain_at c Wb mb nb wb) pa pb)) → final Wa Wb P →
  ev Wa Wb P (Net (plain_at c Wa ma na wa) (plain_at c Wb mb nb wb) (iteration c Wa call ++ pa) pb).
Proof using Ha Hb Hk.
  intros Hblk Hs La [Lb Tb] Hcont HP. unfold call_ok, room in *. destruct Hk as [Hk1 Hk2].
  unfold iteration, plain_at in *. rewrite (pr_rank _ _ _ Ha). cbn [app].
  proc_step ProcA ltac:(rewrite fill_recv_run by (flat; lia)).
  proc_step ProcA ltac:(rewrite (post_read_run c 0) by done).
  nic_step NicA ltac:(erewrite nic_read_recv_run by first
    [ reflexivity | exact Hk2 | cbn [w_raddr]; rewrite (recv_addr c 1) by done; exact Hk1 | apply (layout_positive _ _ _ Hb)
    | apply (in_layout _ _ _ Hb), buffer_in
    | cbn [w_len x_mem set_recv m_recv]; rewrite ?filled_bytes_length; lia ]).
  local_a HP is_local.
  proc_step ProcA ltac:(rewrite verify_recv_run; [|lia|intros Ht; cbn [x_mem set_recv m_recv]; rewrite (Tb Ht);
    unfold over; rewrite take_replicate, Nat.min_l by lia; by eexists]).
  apply Hcont. cbn [set_recv m_recv]. rewrite over_length by (rewrite ?filled_bytes_length; lia).
  rewrite filled_bytes_length by lia. done.
Qed.

Lemma read_loop (P : net → Prop) pa pb mb na nb wb calls :
  blocked pb → Forall (call_ok c) calls → source c mb → final Wa Wb P →
  (∀ m w, room c m → ev Wa Wb P (Net (plain_at c Wa m na w) (plain_at c Wb mb nb wb) pa pb)) →
  ∀ ma wa, room c ma →
  ev Wa Wb P (Net (plain_at c Wa ma na wa) (plain_at c Wb mb nb wb) ((calls ≫= iteration c Wa) ++ pa) pb).
Proof using Ha Hb Hk.
  intros Hblk Hok Hmb HP Hcont. induction Hok as [|call calls Hcall _ IH]; intros ma wa La; [by apply Hcont|].
  cbn [mbind list_bind]. rewrite <-(assoc_L app). by apply read_iteration.
Qed.
End two.

(** C12: the pingpong by reads: however the steps of the two processes and of their
    adapters interleave, the run ends and no assertion fails: process 0 begins after
    the signal of process 1, whose buffer is filled by then and is not written until
    the last read is done, and finds the bytes of process 1 in every iteration; the
    other signal lets process 1 end.  The buffer must have room for a signal. *)
Theorem read_completes (CACHE_LINE_SIZE : Z) (c : config) (Wa Wb : env) (ma mb : mem) (calls : list (Z * Z))
    (Ha : process_ok (read_layout c) 0 Wa) (Hb : process_ok (read_layout c) 1 Wb) (Hk : knows Wa Wb)
    (Hroom : 0 ≤ CACHE_LINE_SIZE ≤ max_msg_size c) (Hcalls : schedule_ok c calls) :
  completes Wa Wb finished
    (Net (start (prepare c ma)) (start (prepare c mb)) (run CACHE_LINE_SIZE c Wa calls) (run CACHE_LINE_SIZE c Wb calls)).
Proof.
  pose proof (@finished_final Empty_set Empty_set Wa Wb) as HP. apply ev_run; [done|].
  pose proof (schedule_calls _ _ Hcalls) as Hok. unfold run, start.
  rewrite (pr_rank _ _ _ Ha), (pr_rank _ _ _ Hb). cbn [Z.eqb Pos.eqb].
  assert (∀ m, Z.of_nat (length (m_recv (prepare c m))) = max_msg_size c) as Hlen
    by (intros m; cbn [prepare m_recv]; rewrite length_replicate; lia).
  pose proof (Hlen ma) as La. pose proof (Hlen mb) as Lb.
  local_a HP ltac:(apply (check_post_local _ _ _ _ 8); [reflexivity|lia|apply Nat.leb_le; reflexivity]).
  local_b HP ltac:(apply (check_post_local _ _ _ _ 8); [reflexivity|lia|apply Nat.leb_le; reflexivity]).
  proc_step ProcB ltac:(rewrite fill_recv_run by (flat; lia)).
  proc_step ProcB ltac:(rewrite (post_signal_run CACHE_LINE_SIZE c 1) by done).
  nic_step NicB ltac:(erewrite nic_signal_run by first
    [ reflexivity | by apply inline_now | cbn [w_len r_len x_mem set_recv m_recv];
      rewrite ?filled_bytes_length; lia ]).
  local_b HP is_local.
  local_a HP is_local.
  apply (read_loop c Wa Wb Ha Hb Hk (λ s, finished s)).
  - unfold wait_signal. apply blocked_recv.
  - exact Hok.
  - split; [unfold room; cbn [set_recv m_recv]; rewrite filled_bytes_length; lia|].
    intros Ht. cbn [set_recv m_recv]. rewrite Ht. cbn [filled_bytes]. rewrite drop_ge by lia. apply app_nil_r.
  - done.
  - intros m w L. unfold room in L. unfold plain_at.
    proc_step ProcA ltac:(rewrite (post_signal_run CACHE_LINE_SIZE c 0) by done).
    nic_step NicA ltac:(erewrite nic_signal_run by first
      [ reflexivity | by apply inline_now | cbn [w_len r_len x_mem set_recv m_recv];
        rewrite ?filled_bytes_length; lia ]).
    local_a HP is_local.
    local_b HP is_local.
    by apply ev_here.
  - unfold room. cbn [set_recv m_recv w_len]. rewrite over_length by (rewrite ?filled_bytes_length; lia). done.
Qed.

(** Processes with one buffer of 64 bytes. *)
Definition read_config : config := Config true 64 64 0.
Definition read_env (r : Z) : env :=
  Env r (40 + r) [1; 0] 2 (read_layout read_config) (4096 * (r + 1)) (7 + r) 64 (4096 * (2 - r)) (8 - r) 0
    (λ n, 64 * Z.of_nat (S n)).
Definition read_calls : list (Z * Z) := sizes 64 1 ≫= calls_for.

Lemma read_schedule : schedule_ok read_config read_calls.
Proof. apply (schedule_of read_config 0); vm_compute; try done; split; discriminate || reflexivity. Qed.

Lemma read_env_ok r : r = 0 ∨ r = 1 → process_ok (read_layout read_config) r (read_env r).
Proof.
  intros [-> | ->]; (constructor; [reflexivity|reflexivity|reflexivity| |cbn; lia|intros n; cbn; lia]);
    repeat constructor; cbn; lia.
Qed.

Lemma read_completes_witness :
  completes (read_env 0) (read_env 1) finished
    (Net (start (prepare read_config demo_mem)) (start (prepare read_config demo_mem))
       (run 64 read_config (read_env 0) read_calls) (run 64 read_config (read_env 1) read_calls)).
Proof.
  apply read_completes.
  - apply read_env_ok. by left.
  - apply read_env_ok. by right.
  - split; reflexivity.
  - split; vm_compute; discriminate.
  - exact read_schedule.
Defined.
