(* ===== verification/BenchMpi.v ===== *)
(** * The pingpong over MPI (benchmarks/mpi_pingpong.cpp)

    Two ranks of an MPI job that send to each other in turn.  The MPI library is what
    its standard says of it: messages between two ranks arrive in order; [MPI_Send]
    returns when the message has been received, and may return before, when the
    library has kept a copy.  What a program needs must not hang on that: the run is
    shown to end whatever the library does. *)

From Stdlib Require Import ZifyBool.
From S2P Require Import Prelude CLib BenchCommon.
From S2P Require BenchSched.

Local Open Scope Z_scope.

(** The two buffers, which [posix_memalign] has allocated, and the statements;
    [OWait] is the rest of an [MPI_Send] whose message is on its way. *)
Inductive buffer := SendBuf | RecvBuf.
Inductive mop :=
  | OFill (s : buffer) (len : Z) (input : char)
  | OCheck (s : buffer) (len : Z) (expect : char)
  | OSend (s : buffer) (len : Z)
  | OWait
  | ORecv (s : buffer) (len : Z).

Record rank := Rank { k_send : list char; k_recv : list char; k_ops : list mop }.

Definition get_buf (s : buffer) (p : rank) : list char :=
  match s with SendBuf => k_send p | RecvBuf => k_recv p end.
Definition put_buf (s : buffer) (b : list char) (p : rank) : rank :=
  match s with SendBuf => Rank b (k_recv p) (k_ops p) | RecvBuf => Rank (k_send p) b (k_ops p) end.
Definition goto (l : list mop) (p : rank) : rank := Rank (k_send p) (k_recv p) l.

(** One step of a rank: [out] holds its messages that are on their way, [inn] those
    to it.  [early]: the library lets [MPI_Send] return before the message has been
    received.  A message longer than [MPI_Recv] allows is an error that ends the
    program, as [MPI_CHECK] does with every error. *)
Definition rank_step (early : bool) (p : rank) (out inn : list (list char)) :
    outcome (rank * list (list char) * list (list char)) :=
  match k_ops p with
  | [] => Hang
  | OFill s len input :: l =>
      match write_buffer (get_buf s p) len input with
      | Some b => Done (put_buf s b (goto l p), out, inn)
      | None => Fault OutOfBounds
      end
  | OCheck s len expect :: l =>
      match check_buffer (get_buf s p) len expect with
      | Some true => Done (goto l p, out, inn)
      | Some false => Exited 134
      | None => Fault OutOfBounds
      end
  | OSend s len :: l =>
      if Z.of_nat (length (get_buf s p)) <? len then Fault OutOfBounds
      else Done (goto l p, out ++ [take (Z.to_nat len) (get_buf s p)], inn)
  | OWait :: l =>
      if early || bool_decide (out = []) then Done (goto l p, out, inn) else Hang
  | ORecv s len :: l =>
      match inn with
      | [] => Hang
      | m :: inn =>
          if len <? Z.of_nat (length m) then Exited 1
          else if (length (get_buf s p) <? length m)%nat then Fault OutOfBounds
          else Done (put_buf s (m ++ drop (length m) (get_buf s p)) (goto l p), out, inn)
      end
  end.

(** ** The program *)

Definition MPI_Send (s : buffer) (len : Z) : list mop := [OSend s len; OWait].

(** The options; there is none for the inline size. *)
Definition parseArgs : list (char * cstr) → config := BenchCommon.parseArgs None.

(** [if (config.touch_data)]. *)
Definition touched (c : config) (o : mop) : list mop := if touch_data c then [o] else [].

Definition send_half (c : config) (s : buffer) (len : Z) (value : char) : list mop :=
  touched c (OFill s len value) ++ MPI_Send s len.
Definition recv_half (c : config) (s : buffer) (len : Z) (peer_value : char) : list mop :=
  ORecv s len :: touched c (OCheck s len peer_value).

(** Rank 1 uses the two buffers the other way round. *)
Definition iteration_0 (c : config) (call : Z * Z) : list mop :=
  send_half c SendBuf call.1 "a"%char ++ recv_half c RecvBuf call.1 "b"%char.
Definition iteration_1 (c : config) (call : Z * Z) : list mop :=
  recv_half c SendBuf call.1 "a"%char ++ send_half c RecvBuf call.1 "b"%char.

(** [run], given the calls that [RUN_VARY_MSG] makes. *)
Definition run (c : config) (rank : Z) (calls : list (Z * Z)) : list mop :=
  if rank =? 0 then calls ≫= iteration_0 c else calls ≫= iteration_1 c.

(** ** Two ranks *)

Record mnet := MNet { k_a : rank; k_b : rank; k_ab : list (list char); k_ba : list (list char) }.

Definition mstep (early : bool) (first : bool) (s : mnet) : outcome mnet :=
  if first then
    match rank_step early (k_a s) (k_ab s) (k_ba s) with
    | Done (a, ab, ba) => Done (MNet a (k_b s) ab ba)
    | Exited z => Exited z
    | Fault f => Fault f
    | Hang => Hang
    end
  else
    match rank_step early (k_b s) (k_ba s) (k_ab s) with
    | Done (b, ba, ab) => Done (MNet (k_a s) b ab ba)
    | Exited z => Exited z
    | Fault f => Fault f
    | Hang => Hang
    end.

Definition mfails (o : outcome mnet) : Prop := match o with Exited _ | Fault _ => True | _ => False end.

Definition some_mstep (s s' : mnet) : Prop := ∃ early first, mstep early first s = Done s'.

(** Every run from [s] ends; on its way no rank fails, and as long as it is not in a
    state with [P] it goes on also when the library keeps no copies. *)
Definition mcompletes (P : mnet → Prop) (s : mnet) : Prop :=
  Acc (λ s2 s1, some_mstep s1 s2) s ∧
  ∀ s', rtc some_mstep s s' →
    (∀ early first, ~ mfails (mstep early first s')) ∧ (P s' ∨ ∃ first s'', mstep false first s' = Done s'').

(** Both ranks are through, and no message is left. *)
Definition mfinished (s : mnet) : Prop := k_ops (k_a s) = [] ∧ k_ops (k_b s) = [] ∧ k_ab s = [] ∧ k_ba s = [].

(** ** Following the schedules *)

(** All schedules from [s] lead to a state with [P], and no rank fails on the way. *)
Inductive mev (P : mnet → Prop) (s : mnet) : Prop :=
  | mev_here : P s → mev P s
  | mev_step :
      (∃ first s', mstep false first s = Done s') → (∀ early first, ~ mfails (mstep early first s)) →
      (∀ early first s', mstep early first s = Done s' → mev P s') → mev P s.

Definition mfinal (P : mnet → Prop) : Prop := ∀ s, P s → ∀ early first, mstep early first s = Hang.

Lemma mev_steps P s s' : mfinal P → mev P s → rtc some_mstep s s' → mev P s'.
Proof.
  intros HP Hev Hr. induction Hr as [|s s1 s2 (early & first & E) _ IH]; [done|]. apply IH.
  destruct Hev as [H|_ _ H]; [by rewrite (HP _ H) in E|by eapply H].
Qed.

Lemma mev_run P s : mfinal P → mev P s → mcompletes P s.
Proof.
  intros HP Hev. split.
  - induction Hev as [s Hs|s _ _ _ IH]; constructor; intros s' (early & first & E);
      [by rewrite (HP _ Hs) in E|by eapply IH].
  - intros s' Hr. destruct (mev_steps P s s' HP Hev Hr) as [H|Hex Hf _].
    + split; [|by left]. intros early first Hf. by rewrite (HP _ H) in Hf.
    + split; [done|by right].
Qed.

(** The ranks are alike. *)
Definition mswap (s : mnet) : mnet := MNet (k_b s) (k_a s) (k_ba s) (k_ab s).

Lemma mswap_step early first s s' :
  mstep early first s = Done s' → mstep early (negb first) (mswap s) = Done (mswap s').
Proof.
  destruct s as [a b ab ba], first; unfold mstep, mswap; cbn [k_a k_b k_ab k_ba negb].
  - by destruct (rank_step early a ab ba) as [[[a' ab'] ba']| | |]; intros [= <-].
  - by destruct (rank_step early b ba ab) as [[[b' ba'] ab']| | |]; intros [= <-].
Qed.

Lemma mswap_fails early first s : mfails (mstep early first s) → mfails (mstep early (negb first) (mswap s)).
Proof.
  destruct s as [a b ab ba], first; unfold mstep, mswap; cbn [k_a k_b k_ab k_ba negb].
  - by destruct (rank_step early a ab ba) as [[[a' ab'] ba']| | |].
  - by destruct (rank_step early b ba ab) as [[[b' ba'] ab']| | |].
Qed.

Lemma mswap_swap s : mswap (mswap s) = s.
Proof. by destruct s. Qed.

Lemma mev_swap P s : mev (λ s, P (mswap s)) (mswap s) → mev P s.
Proof.
  intros Hev. remember (mswap s) as t eqn:Et. revert s Et.
  induction Hev as [t Ht|t (first & t' & E) Hf _ IH]; intros s ->.
  - apply mev_here. by rewrite mswap_swap in Ht.
  - apply mev_step.
    + exists (negb first), (mswap t'). rewrite <-(mswap_swap s). by apply mswap_step.
    + intros early f Hfail%mswap_fails. by apply Hf in Hfail.
    + intros early f s' E'%mswap_step. by apply (IH _ _ _ E').
Qed.

(** A statement of rank A that needs nothing from the other, none of its own messages
    being on its way, may be taken first. *)
Definition alone_step (a a' : rank) : Prop := ∀ early inn, rank_step early a [] inn = Done (a', [], inn).

Lemma inn_empty early b out b' out' inn' : rank_step early b out [] = Done (b', out', inn') → inn' = [].
Proof.
  unfold rank_step. intros H.
  repeat match type of H with context [match ?x with _ => _ end] => destruct x; try discriminate end;
    by injection H.
Qed.

Lemma mev_alone_a P a a' b ba :
  mfinal P → alone_step a a' → mev P (MNet a' b [] ba) → mev P (MNet a b [] ba).
Proof.
  intros HP Ha Hev. remember (MNet a' b [] ba) as s eqn:Es. revert b ba Es.
  assert (∀ early b ba, mstep early true (MNet a b [] ba) = Done (MNet a' b [] ba)) as Hstep.
  { intros early b ba. unfold mstep. cbn [k_a k_b k_ab k_ba]. by rewrite Ha. }
  assert (∀ early b ba s', mstep early false (MNet a b [] ba) = Done s' →
    ∃ b2 ba2, s' = MNet a b2 [] ba2 ∧ mstep early false (MNet a' b [] ba) = Done (MNet a' b2 [] ba2)) as Hb.
  { intros early b ba s'. unfold mstep. cbn [k_a k_b k_ab k_ba].
    destruct (rank_step early b ba []) as [[[b2 ba2] ab2]| | |] eqn:E; try done.
    intros [= <-]. apply inn_empty in E as ->. by exists b2, ba2. }
  assert (∀ early b ba, mfails (mstep early false (MNet a b [] ba)) → mfails (mstep early false (MNet a' b [] ba))) as Hbf.
  { intros early b ba. unfold mstep. cbn [k_a k_b k_ab k_ba]. by destruct (rank_step early b ba []) as [[[]]| | |]. }
  induction Hev as [s Hs|s Hex Hf Hev IH]; intros b ba ->.
  - apply mev_step; [exists true, (MNet a' b [] ba); apply Hstep| |].
    + intros early [|]; [rewrite Hstep; by intros []|]. intros Hfail%Hbf. by rewrite (HP _ Hs) in Hfail.
    + intros early [|] s' E; [rewrite Hstep in E; injection E as <-; by apply mev_here|].
      apply Hb in E as (b2 & ba2 & _ & E). by rewrite (HP _ Hs) in E.
  - apply mev_step; [exists true, (MNet a' b [] ba); apply Hstep| |].
    + intros early [|]; [rewrite Hstep; by intros []|]. intros Hfail%Hbf. by apply Hf in Hfail.
    + intros early [|] s' E; [rewrite Hstep in E; injection E as <-; by apply mev_step|].
      apply Hb in E as (b2 & ba2 & -> & E). by apply (IH _ _ _ E).
Qed.

Lemma mfinal_swap P : mfinal P → mfinal (λ s, P (mswap s)).
Proof.
  intros HP s Hs early first. pose proof (HP (mswap s) Hs early (negb first)) as E.
  destruct (mstep early first s) as [s'| | |] eqn:E'; [| | |done].
  - apply mswap_step in E'. by rewrite E' in E.
  - exfalso. assert (mfails (mstep early first s)) as Hfail by by rewrite E'. apply mswap_fails in Hfail. by rewrite E in Hfail.
  - exfalso. assert (mfails (mstep early first s)) as Hfail by by rewrite E'. apply mswap_fails in Hfail. by rewrite E in Hfail.
Qed.

Lemma mev_swap_back P s : mev P s → mev (λ s, P (mswap s)) (mswap s).
Proof.
  intros Hev. apply mev_swap. rewrite mswap_swap.
  induction Hev as [s Hs|s Hex Hf _ IH]; [apply mev_here; by rewrite mswap_swap|by apply mev_step].
Qed.

Lemma mev_alone_b P a b b' ab :
  mfinal P → alone_step b b' → mev P (MNet a b' ab []) → mev P (MNet a b ab []).
Proof.
  intros HP Hb Hev%mev_swap_back. apply mev_swap. unfold mswap at 2 in Hev. unfold mswap at 2.
  by apply (mev_alone_a _ _ b'); [apply mfinal_swap|..].
Qed.

(** ** One message *)

Section transfer.
Context (c : config).

Definition room (p : rank) : Prop :=
  Z.of_nat (length (k_send p)) = max_msg_size c ∧ Z.of_nat (length (k_recv p)) = max_msg_size c.

Lemma room_length s p : room p → Z.of_nat (length (get_buf s p)) = max_msg_size c.
Proof using. by intros [H1 H2]; destruct s. Qed.

Lemma room_put s p b l : room p → length b = length (get_buf s p) → room (put_buf s b (goto l p)).
Proof using. intros [H1 H2] E. destruct s; split; cbn in *; lia. Qed.

(** A rank with nothing to do but to receive, if anything. *)
Definition receives (l : list mop) : Prop := l = [] ∨ ∃ s len l', l = ORecv s len :: l'.

Lemma receives_waits early p out : receives (k_ops p) → rank_step early p out [] = Hang.
Proof using. unfold rank_step. by intros [-> | (s & len & l & ->)]. Qed.

(** The message on its way is received, before [MPI_Send] returns or behind. *)
Lemma message_received P a pa b b' m :
  mfinal P → receives pa → (∀ early, rank_step early b [] [m] = Done (b', [], [])) →
  mev P (MNet (goto pa a) b' [] []) → mev P (MNet (goto (OWait :: pa) a) b [m] []).
Proof using.
  intros HP Hpa Hb Hev.
  assert (∀ early inn, rank_step early (goto pa a) inn [] = Hang) as Hwait by (intros; apply receives_waits; exact Hpa).
  assert (alone_step (goto (OWait :: pa) a) (goto pa a)) as Halone by (intros [|] inn; done).
  assert (∀ early a', mstep early false (MNet a' b [m] []) = Done (MNet a' b' [] [])) as Hrecv.
  { intros early a'. unfold mstep. cbn [k_a k_b k_ab k_ba]. by rewrite Hb. }
  assert (mev P (MNet (goto pa a) b [m] [])) as Hearly.
  { apply mev_step; [exists false; eexists; apply Hrecv| |].
    - intros early [|]; [|rewrite Hrecv; by intros []]. unfold mstep. cbn [k_a k_b k_ab k_ba]. rewrite Hwait. by intros [].
    - intros early [|] s'; [unfold mstep; cbn [k_a k_b k_ab k_ba]; by rewrite Hwait|]. rewrite Hrecv. by intros [= <-]. }
  apply mev_step; [exists false; eexists; apply Hrecv| |].
  - intros early [|]; [|rewrite Hrecv; by intros []]. by destruct early; intros [].
  - intros early [|] s'.
    + destruct early; [|done]. by intros [= <-].
    + rewrite Hrecv. intros [= <-]. by apply (mev_alone_a _ _ _ _ _ HP Halone).
Qed.

(** What the sender does first is its own. *)
Lemma fill_alone P a b l s size value :
  mfinal P → 0 < size ≤ max_msg_size c → room a → k_ops a = touched c (OFill s size value) ++ l →
  ∃ a1, room a1 ∧ k_ops a1 = l ∧ (mev P (MNet a1 b [] []) → mev P (MNet a b [] [])) ∧
    (touch_data c = true → take (Z.to_nat size) (get_buf s a1) = replicate (Z.to_nat size) value).
Proof using.
  intros HP Hs Ra Ea. unfold touched in Ea. destruct (touch_data c); [|by exists a].
  pose proof (room_length s a Ra) as La.
  exists (put_buf s (replicate (Z.to_nat size) value ++ drop (Z.to_nat size) (get_buf s a)) (goto l a)).
  split; [|split; [by destruct s|split]].
  - apply room_put; [done|]. rewrite length_app, length_replicate, length_drop. lia.
  - apply (mev_alone_a _ _ _ _ _ HP). intros early inn. unfold rank_step. rewrite Ea. cbn [app]. unfold write_buffer.
    by replace (Z.of_nat (length (get_buf s a)) <? size) with false by lia.
  - intros _. assert (∀ x, get_buf s (put_buf s x (goto l a)) = x) as -> by (by destruct s).
    apply take_app_length'. by rewrite length_replicate.
Qed.

(** What the receiver does last is its own. *)
Lemma check_alone P a b l s size value rest :
  mfinal P → 0 < size → k_ops b = touched c (OCheck s size value) ++ l →
  (touch_data c = true → get_buf s b = replicate (Z.to_nat size) value ++ rest) →
  mev P (MNet a (goto l b) [] []) → mev P (MNet a b [] []).
Proof using.
  intros HP Hs Eb Hv. unfold touched in Eb. destruct (touch_data c); [|cbn [app] in Eb; subst l; by destruct b].
  apply (mev_alone_b _ _ _ _ _ HP). intros early inn. unfold rank_step. rewrite Eb. cbn [app].
  by rewrite Hv, check_written by (done || lia).
Qed.

Lemma half_run P a b pa pb sa sb size value :
  mfinal P → 0 < size ≤ max_msg_size c → receives pa → room a → room b →
  k_ops a = send_half c sa size value ++ pa → k_ops b = recv_half c sb size value ++ pb →
  (∀ a' b', room a' → room b' → k_ops a' = pa → k_ops b' = pb → mev P (MNet a' b' [] [])) →
  mev P (MNet a b [] []).
Proof using.
  intros HP Hs Hpa Ra Rb Ea Eb Hcont. unfold send_half, recv_half, MPI_Send in *.
  rewrite <-(assoc_L app) in Ea. cbn [app] in Ea, Eb.
  destruct (fill_alone P a b _ sa size value HP Hs Ra Ea) as (a1 & Ra1 & Ea1 & Hfill & Hm). apply Hfill.
  pose proof (room_length sa a1 Ra1) as La. pose proof (room_length sb b Rb) as Lb.
  set (m := take (Z.to_nat size) (get_buf sa a1)) in *.
  assert (length m = Z.to_nat size) as Hlen by (unfold m; rewrite length_take; lia).
  assert (∀ early, mstep early true (MNet a1 b [] []) = Done (MNet (goto (OWait :: pa) a1) b [m] [])) as Hsend.
  { intros early. unfold mstep, rank_step. cbn [k_a k_b k_ab k_ba]. rewrite Ea1.
    replace (Z.of_nat (length (get_buf sa a1)) <? size) with false by lia. done. }
  assert (∀ early, mstep early false (MNet a1 b [] []) = Hang) as Hwait.
  { intros early. unfold mstep, rank_step. cbn [k_a k_b k_ab k_ba]. by rewrite Eb. }
  apply mev_step; [exists true; eexists; apply Hsend| |].
  { intros early [|]; [rewrite Hsend|rewrite Hwait]; by intros []. }
  intros early [|] s'; [rewrite Hsend; intros [= <-]|by rewrite Hwait].
  set (b1 := put_buf sb (m ++ drop (length m) (get_buf sb b)) (goto (touched c (OCheck sb size value) ++ pb) b)).
  apply (message_received P a1 pa b b1 m HP Hpa).
  - intros e. unfold rank_step. rewrite Eb, Hlen. replace (size <? Z.of_nat (Z.to_nat size)) with false by lia.
    replace (length (get_buf sb b) <? Z.to_nat size)%nat with false by lia. unfold b1. by rewrite Hlen.
  - assert (room b1) as Rb1 by (apply room_put; [done|rewrite length_app, length_drop; lia]).
    apply (check_alone P _ b1 pb sb size value (drop (length m) (get_buf sb b)) HP); [lia|by destruct sb| |].
    + intros Ht. rewrite <-(Hm Ht). by destruct sb.
    + by apply Hcont; [destruct Ra1; split|destruct Rb1; split| |].
Qed.
End transfer.

Lemma mfinished_final : mfinal mfinished.
Proof.
  intros [a b ab ba] (Ea & Eb & Eab & Eba) early first. cbn [k_a k_b k_ab k_ba] in *. subst ab ba.
  destruct first; unfold mstep, rank_step; cbn [k_a k_b k_ab k_ba]; by rewrite ?Ea, ?Eb.
Qed.

Lemma iterations_end c calls : Forall (λ call, 0 < call.1 ≤ max_msg_size c) calls →
  ∀ a b, room c a → room c b → k_ops a = calls ≫= iteration_0 c → k_ops b = calls ≫= iteration_1 c →
  mev mfinished (MNet a b [] []).
Proof.
  induction 1 as [|[size i] calls Hok Hcalls IH]; intros a b Ra Rb Ea Eb; [by apply mev_here|].
  cbn [mbind list_bind] in Ea, Eb. unfold iteration_0 in Ea at 1. unfold iteration_1 in Eb at 1.
  rewrite <-(assoc_L app) in Ea, Eb. cbn [fst] in *.
  apply (half_run c mfinished a b _ _ _ _ _ _ mfinished_final Hok) with (4 := Ea) (5 := Eb); [|done|done|].
  { right. by eexists _, _, _. }
  clear a b Ra Rb Ea Eb. intros a b Ra Rb Ea Eb. apply mev_swap. unfold mswap at 2. cbn [k_a k_b k_ab k_ba].
  apply (half_run c _ b a _ _ _ _ _ _ (mfinal_swap _ mfinished_final) Hok) with (4 := Eb) (5 := Ea); [|done|done|].
  { destruct Hcalls as [|[size' i'] calls']; [by left|right]. by eexists _, _, _. }
  clear a b Ra Rb Ea Eb. intros b a Rb Ra Eb Ea. apply (mev_swap_back _ (MNet a b [] [])). by apply IH.
Qed.

(** The pingpong over MPI: whether the library lets [MPI_Send] return before its
    message has been received or not, every run ends with both ranks through and no
    message left; it never depends on the library keeping a copy, no message is too
    long for its [MPI_Recv], no access leaves a buffer, and the data that is checked is
    that of the other rank. *)
Theorem mpi_pingpong_completes (c : config) (calls : list (Z * Z)) (a0 a1 b0 b1 : list char)
    (Hcalls : BenchSched.schedule_ok c calls)
    (La : Z.of_nat (length a0) = max_msg_size c ∧ Z.of_nat (length a1) = max_msg_size c)
    (Lb : Z.of_nat (length b0) = max_msg_size c ∧ Z.of_nat (length b1) = max_msg_size c) :
  mcompletes mfinished (MNet (Rank a0 a1 (run c 0 calls)) (Rank b0 b1 (run c 1 calls)) [] []).
Proof.
  apply (mev_run _ _ mfinished_final), (iterations_end c calls); [by apply BenchSched.schedule_calls|done..].
Qed.

Lemma mpi_pingpong_completes_witness :
  let c := BenchSched.demo_config in
  mcompletes mfinished
    (MNet (Rank (replicate 16 NUL) (replicate 16 NUL) (run c 0 BenchSched.demo_calls))
       (Rank (replicate 16 NUL) (replicate 16 NUL) (run c 1 BenchSched.demo_calls)) [] []).
Proof.
  apply mpi_pingpong_completes; [exact BenchSched.demo_schedule|split; reflexivity|split; reflexivity].
Defined.
