(* ===== verification/RdvImm.v ===== *)
(** * The rendezvous by write with immediate data
      (benchmarks/rendezvous/ibv_pingpong_rdv_write_imm.cpp)

    The sender asks to send ([postRTS]), the receiver allocates a context, puts its
    address into the archive and answers with the key and its buffer ([handleRTS]),
    the sender writes the data with the key as immediate data ([handleRTR]), and
    the receiver takes the context out of the archive ([handleWriteImm]).  The two
    processes change roles in every iteration. *)

From Stdlib Require Import ZifyBool.
From S2P Require Import Prelude CLib OS Mlog LcmArchive DeviceConfig BenchCommon BenchNet BenchSched.

Local Open Scope Z_scope.

(** The messages.  [recv_ctx_key] is an [uint16_t]. *)
Inductive msg :=
  | RTSMsg (send_ctx size : Z)
  | RTRMsg (send_ctx remote_addr rkey recv_ctx_key : Z).

Definition sizeof_RTSMsg : Z := 16.
Definition sizeof_RTRMsg : Z := 24.

Definition MSG_RTS : Z := 0.
Definition MSG_RTR : Z := 1.

(** The contexts, without their memory region, of which there is one. *)
Inductive ctx :=
  | SendCtx (buf : slot) (size user_context : Z)
  | RecvCtx (buf : slot) (size user_context : Z).

Abbreviation endst := (@endst msg ctx).
Abbreviation op := (M endst ()).

(** ** The handlers *)

(** The line of a cache, and the greatest size of a message. *)
Section program.
Context (log : mlog) (CACHE_LINE_SIZE : Z) (W : env).

Definition pollRecvCQ : op :=
  take_recv (λ wc, c_status wc =? IBV_WC_SUCCESS) SCtl CACHE_LINE_SIZE (addr_of W SCtl).

Definition postRTS (rank : Z) (buf : slot) (size user_context : Z) : op :=
  ctx ← malloc W (SendCtx buf size user_context);
  put_msg SRts (RTSMsg ctx size);;
  ret ← postSendImm W rank SRts sizeof_RTSMsg MSG_RTS 0;
  bench_assert (ret =? 0).

Definition handleRTS (buf : slot) (size user_context : Z) : op :=
  wc ← local_wc;
  bench_assert (bool_decide (c_opcode wc = WC_RECV) && (c_imm_data wc =? MSG_RTS));;
  recvRTSMsg ← get_msg_at W (c_wr_id wc);
  match recvRTSMsg with
  | RTSMsg send_ctx rts_size =>
      bench_assert (rts_size <=? size);;
      src_rank ← src_rank W wc;
      ctx ← malloc W (RecvCtx buf size user_context);
      e ← get;
      '(ctx_key, a) ← lift (LCM_archive_put (x_arch e) ctx);
      match ctx_key with
      | Some ctx_key =>
          modify (set_arch (LcmArchive (Some a) (lcm_nbits (x_arch e))));;
          put_msg SRtr (RTRMsg send_ctx (addr_of W buf) (v_rkey W) (wrap_u 16 ctx_key));;
          ret ← postSendImm W src_rank SRtr sizeof_RTRMsg MSG_RTR 0;
          bench_assert (ret =? 0)
      | None => bench_assert false
      end
  | _ => fault_ OutOfBounds
  end.

Definition handleRTR : op :=
  wc ← local_wc;
  bench_assert (bool_decide (c_opcode wc = WC_RECV) && (c_imm_data wc =? MSG_RTR));;
  recvRTRMsg ← get_msg_at W (c_wr_id wc);
  match recvRTRMsg with
  | RTRMsg send_ctx remote_addr rkey recv_ctx_key =>
      src_rank ← src_rank W wc;
      ctx ← read_ctx send_ctx;
      match ctx with
      | SendCtx buf size _ =>
          ret ← postWriteImm W src_rank buf size remote_addr rkey recv_ctx_key 0;
          bench_assert (ret =? 0);;
          delete_ctx send_ctx
      | _ => fault_ OutOfBounds
      end
  | _ => fault_ OutOfBounds
  end.

Definition handleWriteImm : op :=
  wc ← local_wc;
  bench_assert (is_success wc WC_RECV_RDMA_WITH_IMM);;
  e ← get;
  '(ctx, a) ← lift (LCM_archive_remove (x_arch e) (c_imm_data wc));
  modify (set_arch (LcmArchive (Some a) (lcm_nbits (x_arch e))));;
  delete_ctx ctx.

(** ** The program *)

(** One rendezvous as the sender, and as the receiver. *)
Definition send_half (c : config) (msg_size : Z) (value : char) : list op :=
  [ fill_buffer (touch_data c) SSend msg_size value;
    postRTS (1 - v_rank W) SSend msg_size 0;
    wait_send WC_SEND;
    pollRecvCQ;
    handleRTR;
    wait_send WC_RDMA_WRITE ].

Definition recv_half (c : config) (msg_size : Z) (peer_value : char) : list op :=
  [ pollRecvCQ;
    handleRTS SRecv msg_size 0;
    wait_send WC_SEND;
    pollRecvCQ;
    handleWriteImm;
    verify_buffer (touch_data c) SRecv msg_size peer_value ].

Definition iteration (c : config) (call : Z * Z) : list op :=
  let msg_size := call.1 in
  let value := value_of (v_rank W) in
  let peer_value := value_of (1 - v_rank W) in
  if v_rank W =? 0
  then send_half c msg_size value ++ recv_half c msg_size peer_value
  else recv_half c msg_size peer_value ++ send_half c msg_size value.

(** [LCM_archive_init (&recv_ctx_archive, 10)]; [posix_memalign] succeeds. *)
Definition archive_init : op :=
  '(ret, archive) ← lift (LCM_archive_init (L "lcm_archive.h") 0 10 log).1;
  modify (set_arch archive);;
  bench_assert (ret =? LCM_SUCCESS).

Definition archive_fini : op :=
  e ← get;
  let '(ret, archive) := LCM_archive_fini (x_arch e) in
  modify (set_arch archive);;
  bench_assert (ret =? LCM_SUCCESS).

(** [run] behind [init], given the calls that [RUN_VARY_MSG] makes. *)
Definition run (c : config) (calls : list (Z * Z)) : list op :=
  [ bench_assert ((sizeof_RTSMsg <=? CACHE_LINE_SIZE) && (sizeof_RTRMsg <=? CACHE_LINE_SIZE) &&
                  (wrap_u 32 (CACHE_LINE_SIZE * 3 + max_msg_size c * 2) <=? v_mr_size W));
    checkAndPostRecvs SCtl CACHE_LINE_SIZE (addr_of W SCtl);
    archive_init ] ++
  (calls ≫= iteration c) ++
  [ archive_fini ].

End program.

(** The registered memory, as [run] cuts it up. *)
Definition rdv_layout (CACHE_LINE_SIZE : Z) (c : config) : layout :=
  [(SRts, CACHE_LINE_SIZE); (SRtr, CACHE_LINE_SIZE); (SCtl, CACHE_LINE_SIZE);
   (SSend, max_msg_size c); (SRecv, max_msg_size c)].

(** ** The handlers on a process *)

(** The archive while no receive is under way, and while one is whose context is
    at [p]. *)
Definition key_of (p : Z) : Z := lcm_hash 10 p.
Definition empty_archive : lcm_archive :=
  LcmArchive (Some (replicate (Z.to_nat (2 ^ 10)) LCM_ARCHIVE_EMPTY)) 10.
Definition archive_with (p : Z) : lcm_archive :=
  LcmArchive (Some (<[Z.to_nat (key_of p) := p]> (replicate (Z.to_nat (2 ^ 10)) LCM_ARCHIVE_EMPTY))) 10.

Lemma ctl_in CL c : SCtl ∈ (rdv_layout CL c).*1.
Proof. cbn. rewrite !elem_of_cons. tauto. Qed.
Lemma recv_in CL c : SRecv ∈ (rdv_layout CL c).*1.
Proof. cbn. rewrite !elem_of_cons. tauto. Qed.

Section handlers.
Context (CL : Z) (c : config) (r : Z) (W : env) (Hw : process_ok (rdv_layout CL c) r W).
Context (Hin : v_inline_size W = 0).

Lemma postRTS_run m rq n ar w size :
  postRTS W (1 - r) SSend size 0 (End m [] rq [] [] 8 n ∅ ar w) =
  (Done tt, End (Mem (Some (RTSMsg (v_alloc W n) size)) (m_rtr m) (m_fin m) (m_ctl m) (m_send m) (m_recv m))
     [SendWr 0 WR_SEND_WITH_IMM SRts sizeof_RTSMsg None MSG_RTS 0 0] rq [] [] 8 (S n)
     {[v_alloc W n := SendCtx SSend size 0]} ar w).
Proof using Hw Hin.
  unfold postRTS. then_by (by apply malloc_run, (pr_alloc _ _ _ Hw)).
  then_by (by apply put_msg_run).
  unfold postSendImm. post_it Hw.
Qed.

(** The archive, from empty to empty. *)
Lemma archive_put p :
  LCM_archive_put empty_archive p =
  Done (Some (key_of p), <[Z.to_nat (key_of p) := p]> (replicate (Z.to_nat (2 ^ 10)) LCM_ARCHIVE_EMPTY)).
Proof using.
  unfold LCM_archive_put, empty_archive. cbn [lcm_ptr lcm_nbits]. apply put_first. lia.
Qed.

Lemma archive_remove p :
  LCM_archive_remove (archive_with p) (key_of p) =
  Done (p, replicate (Z.to_nat (2 ^ 10)) LCM_ARCHIVE_EMPTY).
Proof using. apply (put_found 10 p (key_of p) (replicate (Z.to_nat (2 ^ 10)) LCM_ARCHIVE_EMPTY)), archive_put. Qed.

Lemma key_16 p : wrap_u 16 (key_of p) = key_of p.
Proof using. apply wrap_u_small. pose proof (lcm_hash_bounds 10 p ltac:(lia)). unfold key_of. lia. Qed.

Lemma handleRTS_run m rq n w send_ctx size :
  m_ctl m = Some (RTSMsg send_ctx size) → c_opcode w = WC_RECV → c_imm_data w = MSG_RTS →
  c_wr_id w = addr_of W SCtl → c_qp_num w = v_qpn W →
  handleRTS W SRecv size 0 (End m [] rq [] [] 8 n ∅ empty_archive (Some w)) =
  (Done tt, End (Mem (m_rts m) (Some (RTRMsg send_ctx (addr_of W SRecv) (v_rkey W) (key_of (v_alloc W n))))
       (m_fin m) (m_ctl m) (m_send m) (m_recv m))
     [SendWr 0 WR_SEND_WITH_IMM SRtr sizeof_RTRMsg None MSG_RTR 0 0] rq [] [] 8 (S n)
     {[v_alloc W n := RecvCtx SRecv size 0]}
     (archive_with (v_alloc W n)) (Some w)).
Proof using Hw Hin.
  intros H1 H2 H3 H4 H5. unfold handleRTS.
  then_by (by apply local_wc_run).
  then_by (apply assert_run; by rewrite H2, H3).
  read_ctl Hw ltac:(apply ctl_in).
  then_by (apply assert_run; lia).
  then_by (by apply (peer_run _ _ _ Hw)).
  then_by (apply malloc_run, (pr_alloc _ _ _ Hw)).
  rewrite bind_get. flat. rewrite archive_put. unfold lift. then_by done.
  then_by done. rewrite key_16. then_by (by apply put_msg_run).
  unfold postSendImm. post_it Hw.
Qed.
Lemma handleRTR_run m rq n ar w p addr key k size :
  m_ctl m = Some (RTRMsg p addr key k) → c_opcode w = WC_RECV → c_imm_data w = MSG_RTR →
  c_wr_id w = addr_of W SCtl → c_qp_num w = v_qpn W → 0 < size →
  handleRTR W (End m [] rq [] [] 8 n {[p := SendCtx SSend size 0]} ar (Some w)) =
  (Done tt, End m [SendWr 0 WR_RDMA_WRITE_WITH_IMM SSend size None k addr key] rq [] [] 8 n ∅ ar (Some w)).
Proof using Hw Hin.
  intros H1 H2 H3 H4 H5 Hs. unfold handleRTR.
  then_by (by apply local_wc_run).
  then_by (apply assert_run; by rewrite H2, H3).
  read_ctl Hw ltac:(apply ctl_in).
  then_by (by apply (peer_run _ _ _ Hw)).
  unfold read_ctx. rewrite bind_assoc, bind_get. flat. rewrite lookup_singleton_eq. unfold or_fault. then_by done.
  unfold postWriteImm. post_it Hw. then_by done.
  erewrite delete_run by apply lookup_singleton_eq. flat. by rewrite delete_singleton_eq.
Qed.

Lemma handleWriteImm_local m sq rq scq rcq p n (x : ctx) q w :
  is_success w WC_RECV_RDMA_WITH_IMM = true → c_imm_data w = key_of q →
  local handleWriteImm
    (End m sq rq scq rcq p n {[q := x]} (archive_with q) (Some w))
    (Delta 0 0 [] p n ∅ empty_archive (Some w)).
Proof using.
  intros H1 H2. constructor; cbn [d_scq d_rcq x_scq x_rcq]; [lia|lia|].
  intros e [_ _ _ E1 E2 E3 E4 E5]. unfold handleWriteImm.
  then_by (by apply local_wc_run).
  then_by (by apply assert_run).
  rewrite bind_get, E4, H2. flat. rewrite archive_remove. unfold lift. then_by done. then_by done.
  erewrite delete_run by (flat; rewrite E3; apply lookup_singleton_eq). flat.
  unfold apply_delta, set_heap, set_arch. flat. cbn in E1, E2, E3, E5.
  rewrite E1, E2, E3, E5, delete_singleton_eq. cbn. by rewrite app_nil_r, !drop_0.
Qed.
End handlers.

#[local] Opaque empty_archive archive_with.

(** ** One rendezvous *)

(** A process between two rendezvous. *)
Definition idle (CL : Z) (W : env) (m : @mem msg) (n : nat) (w : option bwc) : endst :=
  End m [] (replicate 8 (RecvWr (addr_of W SCtl) SCtl CL)) [] [] 8 n ∅ empty_archive w.

Section rendezvous.
Context (CL : Z) (c : config) (r : Z) (Wa Wb : env).
Context (Ha : process_ok (rdv_layout CL c) r Wa) (Hb : process_ok (rdv_layout CL c) (1 - r) Wb).
Context (Hia : v_inline_size Wa = 0) (Hib : v_inline_size Wb = 0) (Hcl : 24 ≤ CL).

Lemma half (P : @net msg ctx → Prop) pa pb ma mb na nb wa wb size value :
  final Wa Wb P → 0 < size ≤ max_msg_size c → bufs_ok c ma → bufs_ok c mb →
  (∀ ma' mb' na' nb' wa' wb', bufs_ok c ma' → bufs_ok c mb' →
     (touch_data c = true → ∃ rest, m_recv mb' = replicate (Z.to_nat size) value ++ rest) →
     ev Wa Wb P (Net (idle CL Wa ma' na' wa') (idle CL Wb mb' nb' wb') pa
       (verify_buffer (touch_data c) SRecv size value :: pb))) →
  ev Wa Wb P (Net (idle CL Wa ma na wa) (idle CL Wb mb nb wb)
    (send_half CL Wa c size value ++ pa) (recv_half CL Wb c size value ++ pb)).
Proof using Ha Hb Hia Hib Hcl.
  intros HP Hs [La1 La2] [Lb1 Lb2] Hcont. unfold send_half, recv_half, idle. cbn [app].
  proc_step ProcA ltac:(rewrite fill_send_run by (flat; lia)).
  assert (La1' : Z.of_nat (length (m_send (filled (touch_data c) size value ma))) = max_msg_size c)
    by (rewrite filled_length; lia).
  assert (Hra : v_rank Wa = r) by apply (pr_rank _ _ _ Ha). rewrite Hra.
  proc_step ProcA ltac:(rewrite (postRTS_run CL c r Wa Ha Hia)).
  nic_step NicA ltac:(erewrite nic_send_run by first [reflexivity | cbn; unfold sizeof_RTSMsg; lia]).
  local_a HP is_local. local_b HP is_local.
  proc_step ProcB ltac:(erewrite (handleRTS_run CL c (1 - r) Wb Hb Hib); [|reflexivity..]).
  nic_step NicB ltac:(erewrite nic_send_run by first [reflexivity | cbn; unfold sizeof_RTRMsg; lia]).
  local_b HP is_local. local_a HP is_local.
  proc_step ProcA ltac:(erewrite (handleRTR_run CL c r Wa Ha Hia); [|reflexivity..|lia]).
  nic_step NicA ltac:(erewrite nic_write_imm_run by first
    [reflexivity | by left | apply (layout_positive _ _ _ Hb) | apply (in_layout _ _ _ Hb), recv_in
    | cbn; lia]).
  local_a HP is_local. local_b HP is_local.
  local_b HP ltac:(eapply handleWriteImm_local; [reflexivity|reflexivity]).
  eapply Hcont; clear Hcont.
  - split; cbn [m_send m_recv]; [done|]. by destruct (touch_data c).
  - split; cbn [m_send m_recv]; [done|]. rewrite length_app, length_take, length_drop. lia.
  - intros Ht. rewrite Ht. cbn [m_recv]. rewrite take_filled by lia. by eexists.
Qed.
End rendezvous.

(** ** The whole run *)

Lemma archive_fini_local e :
  local archive_fini e (Delta 0 0 [] (x_posted e) (x_nalloc e) (x_heap e) (LcmArchive None 0) (x_wc e)).
Proof. by apply arch_local. Qed.

#[local] Transparent empty_archive.
Lemma archive_init_local log e :
  local (archive_init log) e (Delta 0 0 [] (x_posted e) (x_nalloc e) (x_heap e) empty_archive (x_wc e)).
Proof. apply arch_local. intros e' _. done. Qed.
#[local] Opaque empty_archive.

Section benchmark.
Context (CL : Z) (c : config) (Wa Wb : env).
Context (Ha : process_ok (rdv_layout CL c) 0 Wa) (Hb : process_ok (rdv_layout CL c) 1 Wb).
Context (Hia : v_inline_size Wa = 0) (Hib : v_inline_size Wb = 0) (Hcl : 24 ≤ CL).

Abbreviation rest_a calls := ((calls ≫= iteration CL Wa c) ++ [archive_fini]).
Abbreviation rest_b calls := ((calls ≫= iteration CL Wb c) ++ [archive_fini]).

Lemma iteration_a call : iteration CL Wa c call =
  send_half CL Wa c call.1 (value_of 0) ++ recv_half CL Wa c call.1 (value_of 1).
Proof using Ha. unfold iteration. by rewrite (pr_rank _ _ _ Ha). Qed.

Lemma iteration_b call : iteration CL Wb c call =
  recv_half CL Wb c call.1 (value_of 0) ++ send_half CL Wb c call.1 (value_of 1).
Proof using Hb. unfold iteration. by rewrite (pr_rank _ _ _ Hb). Qed.

(** The program of process B starts with a wait, or with a local statement. *)
Lemma iterations_run calls : Forall (call_ok c) calls → ∀ ma mb na nb wa wb left,
  bufs_ok c ma → bufs_ok c mb → check_left c ma (value_of 1) left →
  ev Wa Wb finished (Net (idle CL Wa ma na wa) (idle CL Wb mb nb wb) (left ++ rest_a calls) (rest_b calls)).
Proof using Ha Hb Hia Hib Hcl.
  pose proof (@finished_final msg ctx Wa Wb) as HP.
  induction 1 as [|[size i] calls [Hs0 Hs] _ IH]; intros ma mb na nb wa wb left La Lb Hleft; cbn [mbind list_bind app].
  - local_b HP ltac:(apply archive_fini_local).
    destruct Hleft as [-> |(size & H0 & -> & Hd)]; cbn [app]; unfold idle.
    2: proc_step ProcA ltac:(rewrite verify_recv_run by (done || lia)).
    all: local_a HP ltac:(apply archive_fini_local); by apply ev_here.
  - assert (ev Wa Wb finished (Net (idle CL Wa ma na wa) (idle CL Wb mb nb wb)
      (rest_a ((size, i) :: calls)) (rest_b ((size, i) :: calls)))) as Hnext.
    2:{ destruct Hleft as [-> |(size' & H0 & -> & Hd)]; [done|]. cbn [app].
        revert Hnext. cbn [mbind list_bind]. rewrite iteration_b. intros Hnext. unfold idle in *.
        proc_step ProcA ltac:(rewrite verify_recv_run by (done || lia)). done. }
    cbn [mbind list_bind]. rewrite iteration_a, iteration_b.
    rewrite <-!(assoc_L app). cbn [fst] in *.
    apply (half CL c 0 Wa Wb Ha Hb Hia Hib Hcl); [done|lia|done|done|].
    clear ma mb na nb wa wb La Lb Hleft left. intros ma mb na nb wa wb La Lb Hd.
    unfold idle, recv_half at 1. cbn [app].
    proc_step ProcB ltac:(rewrite verify_recv_run by (done || lia)).
    apply ev_swap. cbn [swap_net n_a n_b n_pa n_pb].
    apply (half CL c 1 Wb Wa Hb Ha Hib Hia Hcl).
    all: try done.
    { by apply final_swap. }
    clear ma mb na nb wa wb La Lb Hd. intros mb ma nb na wb wa Lb La Hd.
    apply ev_swap_back. cbn [swap_net n_a n_b n_pa n_pb].
    apply (IH ma mb na nb wa wb [verify_buffer (touch_data c) SRecv size (value_of 1)]); [done|done|].
    right. by exists size.
Qed.
End benchmark.

(** C7: the rendezvous by write with immediate data: however the steps of the two
    processes and of their adapters interleave, the run ends, no assertion fails and
    no memory is touched that should not be; every transfer has its receive posted,
    each side finds the data the other has sent (when it looks at it), every context
    is freed and the archive is empty in the end. *)
Theorem rdv_imm_completes (CL : Z) (c : config) (Wa Wb : env) (log : mlog) (ma mb : @mem msg) (calls : list (Z * Z))
    (Ha : process_ok (rdv_layout CL c) 0 Wa) (Hb : process_ok (rdv_layout CL c) 1 Wb)
    (Hia : v_inline_size Wa = 0) (Hib : v_inline_size Wb = 0) (Hcl : 24 ≤ CL)
    (La : bufs_ok c ma) (Lb : bufs_ok c mb) (Hcalls : schedule_ok c calls) :
  completes Wa Wb finished (Net (start ma) (start mb) (run log CL Wa c calls) (run log CL Wb c calls)).
Proof.
  pose proof (@finished_final msg ctx Wa Wb) as HP. apply ev_run; [done|].
  pose proof (schedule_calls _ _ Hcalls) as Hok.
  unfold run, start. cbn [app].
  assert (∀ r W, process_ok (rdv_layout CL c) r W → wrap_u 32 (CL * 3 + max_msg_size c * 2) ≤ v_mr_size W) as Hsize.
  { intros r W H. pose proof (pr_size _ _ _ H) as Hsz. pose proof (so_max _ _ Hcalls).
    pose proof (wrap_u_le 32 (CL * 3 + max_msg_size c * 2)). cbn in Hsz. lia. }
  pose proof (Hsize _ _ Ha). pose proof (Hsize _ _ Hb).
  local_a HP ltac:(apply assert_local; unfold sizeof_RTSMsg, sizeof_RTRMsg; lia).
  local_b HP ltac:(apply assert_local; unfold sizeof_RTSMsg, sizeof_RTRMsg; lia).
  local_a HP ltac:(apply (check_post_local _ _ _ _ 8); [reflexivity|lia|apply Nat.leb_le; reflexivity]).
  local_b HP ltac:(apply (check_post_local _ _ _ _ 8); [reflexivity|lia|apply Nat.leb_le; reflexivity]).
  local_a HP ltac:(apply archive_init_local). local_b HP ltac:(apply archive_init_local).
  apply (iterations_run CL c Wa Wb Ha Hb Hia Hib Hcl calls Hok ma mb 0 0 None None []); [done|done|by left].
Qed.

(** ** Two processes *)

Lemma imm_demo_layout : Forall (λ x, 0 < x.2) (rdv_layout 64 demo_config).
Proof. repeat constructor; cbn; lia. Qed.

Abbreviation demo := (demo_env (rdv_layout 64 demo_config)).

Definition demo_log : mlog := mlog_start (OS ∅ ∅ (OS.Net [] [] [] 1 [] true)).

Lemma rdv_imm_completes_witness :
  completes (demo 0) (demo 1) finished
    (Net (start demo_mem) (start demo_mem)
       (run demo_log 64 (demo 0) demo_config demo_calls) (run demo_log 64 (demo 1) demo_config demo_calls)).
Proof.
  apply rdv_imm_completes.
  - apply demo_process; [apply imm_demo_layout|by left].
  - apply demo_process; [apply imm_demo_layout|by right].
  - reflexivity.
  - reflexivity.
  - lia.
  - split; reflexivity.
  - split; reflexivity.
  - exact demo_schedule.
Defined.
