(* ===== verification/RdvWrite.v ===== *)
(** * The rendezvous by write (benchmarks/rendezvous/ibv_pingpong_rdv_write.cpp)

    The sender asks to send ([postRTS]), the receiver answers with its context and
    its buffer ([handleRTS]), the sender writes the data ([handleRTR]) and tells the
    receiver when that is complete ([handleWriteCompletion], [handleFIN]).  The two
    processes change roles in every iteration. *)

From Stdlib Require Import ZifyBool.
From S2P Require Import Prelude CLib LcmArchive DeviceConfig BenchCommon BenchNet BenchSched BenchTurns.

Local Open Scope Z_scope.

Inductive msg :=
  | RTSMsg (send_ctx size : Z)
  | RTRMsg (send_ctx recv_ctx remote_addr rkey : Z)
  | FINMsg (recv_ctx : Z).

Definition sizeof_RTSMsg : Z := 16.
Definition sizeof_RTRMsg : Z := 32.
Definition sizeof_FINMsg : Z := 8.

Definition MSG_RTS : Z := 0.
Definition MSG_RTR : Z := 1.
Definition MSG_FIN : Z := 2.

(** The contexts, without their memory region, of which there is one; the field
    [recv_ctx] is set when the answer arrives. *)
Inductive ctx :=
  | SendCtx (buf : slot) (size user_context : Z) (recv_ctx : option Z)
  | RecvCtx (buf : slot) (size user_context : Z).

Abbreviation endst := (@endst msg ctx).
Abbreviation op := (M endst ()).

(** ** The handlers *)

(** The options; there is none for the inline size. *)
Definition parseArgs : list (char * cstr) → config := BenchCommon.parseArgs None.

Section program.
Context (CACHE_LINE_SIZE : Z) (W : env).

Definition pollRecvCQ : op :=
  take_recv (λ wc, is_success wc WC_RECV) SCtl CACHE_LINE_SIZE (addr_of W SCtl).

Definition postRTS (rank : Z) (buf : slot) (size user_context : Z) : op :=
  ctx ← malloc W (SendCtx buf size user_context None);
  put_msg SRts (RTSMsg ctx size);;
  ret ← postSendImm W rank SRts sizeof_RTSMsg MSG_RTS 0;
  bench_assert (ret =? 0).

Definition handleRTS (buf : slot) (size user_context : Z) : op :=
  wc ← local_wc;
  bench_assert (bool_decide (c_opcode wc = WC_RECV) && (c_imm_data wc =? MSG_RTS));;
  recvRTSMsg ← get_msg_at W (c_wr_id wc);
  match recvRTSMsg with
  | RTSMsg send_ctx rts_size =>
      bench_assert (rts_size <=? size);;
      src_rank ← src_rank W wc;
      ctx ← malloc W (RecvCtx buf size user_context);
      put_msg SRtr (RTRMsg send_ctx ctx (addr_of W buf) (v_rkey W));;
      ret ← postSendImm W src_rank SRtr sizeof_RTRMsg MSG_RTR 0;
      bench_assert (ret =? 0)
  | _ => fault_ OutOfBounds
  end.

(** [ctx->field = ...] on a context that exists. *)
Definition write_ctx (p : Z) (x : ctx) : op := modify (λ e, set_heap (x_nalloc e) (<[p := x]> (x_heap e)) e).

Definition handleRTR : op :=
  wc ← local_wc;
  bench_assert (bool_decide (c_opcode wc = WC_RECV) && (c_imm_data wc =? MSG_RTR));;
  recvRTRMsg ← get_msg_at W (c_wr_id wc);
  match recvRTRMsg with
  | RTRMsg send_ctx recv_ctx remote_addr rkey =>
      src_rank ← src_rank W wc;
      ctx ← read_ctx send_ctx;
      match ctx with
      | SendCtx buf size user_context _ =>
          write_ctx send_ctx (SendCtx buf size user_context (Some recv_ctx));;
          ret ← postWrite W src_rank buf size remote_addr rkey send_ctx;
          bench_assert (ret =? 0)
      | _ => fault_ OutOfBounds
      end
  | _ => fault_ OutOfBounds
  end.

Definition handleWriteCompletion : op :=
  wc ← local_wc;
  bench_assert (is_success wc WC_RDMA_WRITE);;
  ctx ← read_ctx (c_wr_id wc);
  src_rank ← src_rank W wc;
  match ctx with
  | SendCtx _ _ _ recv_ctx =>
      recv_ctx ← or_fault Uninitialised recv_ctx;
      put_msg SFin (FINMsg recv_ctx);;
      delete_ctx (c_wr_id wc);;
      ret ← postSendImm W src_rank SFin sizeof_FINMsg MSG_FIN 0;
      bench_assert (ret =? 0)
  | _ => fault_ OutOfBounds
  end.

Definition handleFIN : op :=
  wc ← local_wc;
  bench_assert (c_imm_data wc =? MSG_FIN);;
  recvFINMsg ← get_msg_at W (c_wr_id wc);
  match recvFINMsg with
  | FINMsg recv_ctx => delete_ctx recv_ctx
  | _ => fault_ OutOfBounds
  end.

(** ** The program *)

Definition send_half (c : config) (msg_size : Z) (value : char) : list op :=
  [ fill_buffer (touch_data c) SSend msg_size value;
    postRTS (1 - v_rank W) SSend msg_size 0;
    wait_send WC_SEND;
    pollRecvCQ;
    handleRTR;
    poll_send;
    handleWriteCompletion;
    wait_send WC_SEND ].

Definition recv_half (c : config) (msg_size : Z) (peer_value : char) : list op :=
  [ pollRecvCQ;
    handleRTS SRecv msg_size 0;
    wait_send WC_SEND;
    pollRecvCQ;
    handleFIN;
    verify_buffer (touch_data c) SRecv msg_size peer_value ].

Definition iteration (c : config) (call : Z * Z) : list op :=
  let msg_size := call.1 in
  let value := value_of (v_rank W) in
  let peer_value := value_of (1 - v_rank W) in
  if v_rank W =? 0
  then send_half c msg_size value ++ recv_half c msg_size peer_value
  else recv_half c msg_size peer_value ++ send_half c msg_size value.

Definition run (c : config) (calls : list (Z * Z)) : list op :=
  [ bench_assert ((sizeof_RTSMsg <=? CACHE_LINE_SIZE) && (sizeof_RTRMsg <=? CACHE_LINE_SIZE) &&
                  (sizeof_FINMsg <=? CACHE_LINE_SIZE) &&
                  (wrap_u 32 (CACHE_LINE_SIZE * 4 + max_msg_size c * 2) <=? v_mr_size W));
    checkAndPostRecvs SCtl CACHE_LINE_SIZE (addr_of W SCtl) ] ++
  (calls ≫= iteration c).

End program.

Definition rdv_layout (CACHE_LINE_SIZE : Z) (c : config) : layout :=
  [(SRts, CACHE_LINE_SIZE); (SRtr, CACHE_LINE_SIZE); (SFin, CACHE_LINE_SIZE); (SCtl, CACHE_LINE_SIZE);
   (SSend, max_msg_size c); (SRecv, max_msg_size c)].

(** ** The handlers on a process *)

Lemma write_ctl_in CL c : SCtl ∈ (rdv_layout CL c).*1.
Proof. cbn. rewrite !elem_of_cons. tauto. Qed.
Lemma write_recv_in CL c : SRecv ∈ (rdv_layout CL c).*1.
Proof. cbn. rewrite !elem_of_cons. tauto. Qed.

Section handlers.
Context (CL : Z) (c : config) (r : Z) (W : env) (Hw : process_ok (rdv_layout CL c) r W).
Context (Hin : v_inline_size W = 0).

Lemma write_postRTS_run m rq n ar w size :
  postRTS W (1 - r) SSend size 0 (End m [] rq [] [] 8 n ∅ ar w) =
  (Done tt, End (Mem (Some (RTSMsg (v_alloc W n) size)) (m_rtr m) (m_fin m) (m_ctl m) (m_send m) (m_recv m))
     [SendWr 0 WR_SEND_WITH_IMM SRts sizeof_RTSMsg None MSG_RTS 0 0] rq [] [] 8 (S n)
     {[v_alloc W n := SendCtx SSend size 0 None]} ar w).
Proof using Hw Hin.
  unfold postRTS. then_by (by apply malloc_run, (pr_alloc _ _ _ Hw)).
  then_by (by apply put_msg_run). unfold postSendImm. post_it Hw.
Qed.

Lemma write_handleRTS_run m rq n ar w send_ctx size :
  m_ctl m = Some (RTSMsg send_ctx size) → c_opcode w = WC_RECV → c_imm_data w = MSG_RTS →
  c_wr_id w = addr_of W SCtl → c_qp_num w = v_qpn W →
  handleRTS W SRecv size 0 (End m [] rq [] [] 8 n ∅ ar (Some w)) =
  (Done tt, End (Mem (m_rts m) (Some (RTRMsg send_ctx (v_alloc W n) (addr_of W SRecv) (v_rkey W)))
       (m_fin m) (m_ctl m) (m_send m) (m_recv m))
     [SendWr 0 WR_SEND_WITH_IMM SRtr sizeof_RTRMsg None MSG_RTR 0 0] rq [] [] 8 (S n)
     {[v_alloc W n := RecvCtx SRecv size 0]} ar (Some w)).
Proof using Hw Hin.
  intros H1 H2 H3 H4 H5. unfold handleRTS.
  then_by (by apply local_wc_run).
  then_by (apply assert_run; by rewrite H2, H3).
  read_ctl Hw ltac:(apply write_ctl_in). then_by (apply assert_run; lia).
  then_by (by apply (peer_run _ _ _ Hw)).
  then_by (apply malloc_run, (pr_alloc _ _ _ Hw)).
  then_by (by apply put_msg_run). unfold postSendImm. post_it Hw.
Qed.

Lemma write_handleRTR_run m rq n ar w p q addr key size :
  m_ctl m = Some (RTRMsg p q addr key) → c_opcode w = WC_RECV → c_imm_data w = MSG_RTR →
  c_wr_id w = addr_of W SCtl → c_qp_num w = v_qpn W → 0 < size →
  handleRTR W (End m [] rq [] [] 8 n {[p := SendCtx SSend size 0 None]} ar (Some w)) =
  (Done tt, End m [SendWr p WR_RDMA_WRITE SSend size None 0 addr key] rq [] [] 8 n
     {[p := SendCtx SSend size 0 (Some q)]} ar (Some w)).
Proof using Hw Hin.
  intros H1 H2 H3 H4 H5 Hs. unfold handleRTR.
  then_by (by apply local_wc_run).
  then_by (apply assert_run; by rewrite H2, H3).
  read_ctl Hw ltac:(apply write_ctl_in). then_by (by apply (peer_run _ _ _ Hw)).
  unfold read_ctx. rewrite bind_assoc, bind_get. flat. rewrite lookup_singleton_eq. unfold or_fault. then_by done.
  unfold write_ctx. then_by done. rewrite insert_singleton_eq. unfold postWrite. post_it Hw.
Qed.

Lemma handleWriteCompletion_run m rq n ar w p q size :
  is_success w WC_RDMA_WRITE = true → c_wr_id w = p → c_qp_num w = v_qpn W →
  handleWriteCompletion W (End m [] rq [] [] 8 n {[p := SendCtx SSend size 0 (Some q)]} ar (Some w)) =
  (Done tt, End (Mem (m_rts m) (m_rtr m) (Some (FINMsg q)) (m_ctl m) (m_send m) (m_recv m))
     [SendWr 0 WR_SEND_WITH_IMM SFin sizeof_FINMsg None MSG_FIN 0 0] rq [] [] 8 n ∅ ar (Some w)).
Proof using Hw Hin.
  intros H1 H2 H3. unfold handleWriteCompletion.
  then_by (by apply local_wc_run).
  then_by (by apply assert_run).
  rewrite H2. unfold read_ctx. rewrite bind_assoc, bind_get. flat. rewrite lookup_singleton_eq. unfold or_fault.
  then_by done. then_by (by apply (peer_run _ _ _ Hw)). then_by done. then_by (by apply put_msg_run).
  then_by (by eapply delete_run, lookup_singleton_eq). rewrite delete_singleton_eq. unfold postSendImm. post_it Hw.
Qed.

Lemma handleFIN_run m sq rq scq rcq p n ar w q (x : ctx) :
  m_ctl m = Some (FINMsg q) → c_imm_data w = MSG_FIN → c_wr_id w = addr_of W SCtl →
  handleFIN W (End m sq rq scq rcq p n {[q := x]} ar (Some w)) = (Done tt, End m sq rq scq rcq p n ∅ ar (Some w)).
Proof using Hw.
  intros H1 H2 H3. unfold handleFIN.
  then_by (by apply local_wc_run).
  then_by (apply assert_run; by rewrite H2).
  read_ctl Hw ltac:(apply write_ctl_in). erewrite delete_run by apply lookup_singleton_eq. unfold set_heap. flat. by rewrite delete_singleton_eq.
Qed.
End handlers.

(** ** One rendezvous *)

(** A process between two rendezvous. *)
Definition idle (CL : Z) (c : config) (W : env) (e : endst) : Prop :=
  ∃ m n w, bufs_ok c m ∧
    e = End m [] (replicate 8 (RecvWr (addr_of W SCtl) SCtl CL)) [] [] 8 n ∅ (LcmArchive None 0) w.

Section rendezvous.
Context (CL : Z) (c : config) (r : Z) (Wa Wb : env).
Context (Ha : process_ok (rdv_layout CL c) r Wa) (Hb : process_ok (rdv_layout CL c) (1 - r) Wb).
Context (Hia : v_inline_size Wa = 0) (Hib : v_inline_size Wb = 0) (Hcl : 32 ≤ CL).

Abbreviation sends := (λ W, send_half CL W c).
Abbreviation receives := (λ W, recv_half CL W c).

Lemma rendezvous_transfers : transfers c sends receives (idle CL c) (idle CL c) Wa Wb.
Proof using Ha Hb Hia Hib Hcl.
  intros P pa pb a b size HP Hw Hs (ma & na & wa & [La1 La2] & ->) (mb & nb & wb & [Lb1 Lb2] & ->) Hcont.
  assert (blocked pa) as Hblk.
  { destruct Hw as [->|(s & rest & _ & ->)]; [apply blocked_nil|]. unfold recv_half, pollRecvCQ. cbn [app].
    apply blocked_recv. }
  unfold send_half, recv_half. cbn [app]. set (value := value_of (v_rank Wa)).
  proc_step ProcA ltac:(rewrite fill_send_run by (flat; lia)).
  assert (La1' : Z.of_nat (length (m_send (filled (touch_data c) size value ma))) = max_msg_size c)
    by (rewrite filled_length; lia).
  assert (Hra : v_rank Wa = r) by apply (pr_rank _ _ _ Ha). rewrite Hra.
  proc_step ProcA ltac:(rewrite (write_postRTS_run CL c r Wa Ha Hia)).
  nic_step NicA ltac:(erewrite nic_send_run by first [reflexivity | cbn; unfold sizeof_RTSMsg; lia]).
  local_a HP is_local. local_b HP is_local.
  proc_step ProcB ltac:(erewrite (write_handleRTS_run CL c (1 - r) Wb Hb Hib); [|reflexivity..]).
  nic_step NicB ltac:(erewrite nic_send_run by first [reflexivity | cbn; unfold sizeof_RTRMsg; lia]).
  local_b HP is_local. local_a HP is_local.
  proc_step ProcA ltac:(erewrite (write_handleRTR_run CL c r Wa Ha Hia); [|reflexivity..|lia]).
  nic_step NicA ltac:(erewrite nic_write_run by first
    [reflexivity | by left | apply (layout_positive _ _ _ Hb) | apply (in_layout _ _ _ Hb), write_recv_in | cbn; lia]).
  local_a HP is_local.
  proc_step ProcA ltac:(erewrite (handleWriteCompletion_run CL c r Wa Ha Hia); [|reflexivity..]).
  nic_step NicA ltac:(erewrite nic_send_run by first [reflexivity | cbn; unfold sizeof_FINMsg; lia]).
  local_a HP is_local. local_b HP is_local.
  proc_step ProcB ltac:(erewrite (handleFIN_run CL c (1 - r) Wb Hb); [|reflexivity..]).
  proc_step ProcB ltac:(rewrite verify_recv_run; [|lia|
    intros ->; cbn [x_mem m_recv]; rewrite take_filled by lia; by eexists]).
  apply Hcont; eexists _, _, _; (split; [|reflexivity]); split; cbn [m_send m_recv]; try lia.
  - by destruct (touch_data c).
  - rewrite length_app, length_take, length_drop. lia.
Qed.
End rendezvous.

(** C8: the rendezvous by write with a notice when it is complete: however the steps
    of the two processes and of their adapters interleave, the run ends, no assertion
    fails and no memory is touched that should not be; every message has its receive
    posted and is read before the next one arrives in the same buffer, each side
    finds the data the other has sent (when it looks at it), and every context is
    freed. *)
Theorem rdv_write_completes (CL : Z) (c : config) (Wa Wb : env) (ma mb : @mem msg) (calls : list (Z * Z))
    (Ha : process_ok (rdv_layout CL c) 0 Wa) (Hb : process_ok (rdv_layout CL c) 1 Wb)
    (Hia : v_inline_size Wa = 0) (Hib : v_inline_size Wb = 0) (Hcl : 32 ≤ CL)
    (La : bufs_ok c ma) (Lb : bufs_ok c mb) (Hcalls : schedule_ok c calls) :
  completes Wa Wb finished (Net (start ma) (start mb) (run CL Wa c calls) (run CL Wb c calls)).
Proof.
  pose proof (@finished_final msg ctx Wa Wb) as HP. apply ev_run; [done|].
  pose proof (schedule_calls _ _ Hcalls) as Hok.
  unfold run, start. cbn [app].
  assert (∀ r W, process_ok (rdv_layout CL c) r W → wrap_u 32 (CL * 4 + max_msg_size c * 2) ≤ v_mr_size W) as Hsize.
  { intros r W H. pose proof (pr_size _ _ _ H) as Hsz. pose proof (so_max _ _ Hcalls).
    pose proof (wrap_u_le 32 (CL * 4 + max_msg_size c * 2)). cbn in Hsz. lia. }
  pose proof (Hsize _ _ Ha). pose proof (Hsize _ _ Hb).
  local_a HP ltac:(apply assert_local; unfold sizeof_RTSMsg, sizeof_RTRMsg, sizeof_FINMsg; lia).
  local_b HP ltac:(apply assert_local; unfold sizeof_RTSMsg, sizeof_RTRMsg, sizeof_FINMsg; lia).
  local_a HP ltac:(apply (check_post_local _ _ _ _ 8); [reflexivity|lia|apply Nat.leb_le; reflexivity]).
  local_b HP ltac:(apply (check_post_local _ _ _ _ 8); [reflexivity|lia|apply Nat.leb_le; reflexivity]).
  apply (turns_run c (λ W, send_half CL W c) (λ W, recv_half CL W c) (idle CL c) (idle CL c)).
  - apply (pr_rank _ _ _ Ha).
  - apply (pr_rank _ _ _ Hb).
  - by apply (rendezvous_transfers CL c 0).
  - by apply (rendezvous_transfers CL c 1).
  - intros a b (m & n & w & _ & ->) (m' & n' & w' & _ & ->). done.
  - exact Hok.
  - by exists ma, 0%nat, None.
  - by exists mb, 0%nat, None.
Qed.

(** ** Two processes *)

Lemma write_demo_layout : Forall (λ x, 0 < x.2) (rdv_layout 64 demo_config).
Proof. repeat constructor; cbn; lia. Qed.

Abbreviation demo := (demo_env (rdv_layout 64 demo_config)).

Lemma rdv_write_completes_witness :
  completes (demo 0) (demo 1) finished
    (Net (start demo_mem) (start demo_mem)
       (run 64 (demo 0) demo_config demo_calls) (run 64 (demo 1) demo_config demo_calls)).
Proof.
  apply rdv_write_completes.
  - apply demo_process; [apply write_demo_layout|by left].
  - apply demo_process; [apply write_demo_layout|by right].
  - reflexivity.
  - reflexivity.
  - lia.
  - split; reflexivity.
  - split; reflexivity.
  - exact demo_schedule.
Defined.
