(* ===== verification/RdvRead.v ===== *)
(** * The rendezvous by read (benchmarks/rendezvous/ibv_pingpong_rdv_read.cpp)

    The sender tells the receiver where its data is ([postRTS]), the receiver reads
    it ([handleRTS]) and tells the sender when that is complete
    ([handleReadCompletion], [handleFIN]).  The two processes change roles in every
    iteration.  The receiver goes on while the sender is still to release its
    context, so that its next request may be over the notice in the control buffer
    of the sender ([fin_overwritten]); the sender does not read the notice. *)

From Stdlib Require Import ZifyBool.
From S2P Require Import Prelude CLib LcmArchive DeviceConfig BenchCommon BenchNet BenchSched.

Local Open Scope Z_scope.

Inductive msg :=
  | RTSMsg (send_ctx send_buf size rkey : Z)
  | FINMsg (send_ctx : Z).

Definition sizeof_RTSMsg : Z := 24.
Definition sizeof_FINMsg : Z := 8.

Definition MSG_RTS : Z := 0.
Definition MSG_FIN : Z := 1.

(** The contexts, without their memory region, of which there is one. *)
Inductive ctx :=
  | SendCtx (buf : slot) (size user_context : Z)
  | RecvCtx (buf : slot) (size user_context send_ctx : Z).

Abbreviation endst := (@endst msg ctx).
Abbreviation op := (M endst ()).

(** ** The handlers *)

(** The options; there is none for the inline size. *)
Definition parseArgs : list (char * cstr) → config := BenchCommon.parseArgs None.

Section program.
Context (CACHE_LINE_SIZE : Z) (W : env).

Definition pollRecvCQ : op :=
  take_recv (λ wc, is_success wc WC_RECV) SCtl CACHE_LINE_SIZE (addr_of W SCtl).

(** [buf] as an integer is its address. *)
Definition postRTS (rank : Z) (buf : slot) (size user_context : Z) : op :=
  ctx ← malloc W (SendCtx buf size user_context);
  put_msg SRts (RTSMsg ctx (addr_of W buf) size (v_rkey W));;
  ret ← postSendImm W rank SRts sizeof_RTSMsg MSG_RTS ctx;
  bench_assert (ret =? 0).

Definition handleRTS (buf : slot) (size user_context : Z) : op :=
  wc ← local_wc;
  bench_assert (bool_decide (c_opcode wc = WC_RECV) && (c_imm_data wc =? MSG_RTS));;
  src_rank ← src_rank W wc;
  recvRTSMsg ← get_msg_at W (c_wr_id wc);
  match recvRTSMsg with
  | RTSMsg send_ctx send_buf rts_size rkey =>
      bench_assert (rts_size <=? size);;
      ctx ← malloc W (RecvCtx buf size user_context send_ctx);
      ret ← postRead W src_rank buf size send_buf rkey ctx;
      bench_assert (ret =? 0)
  | _ => fault_ OutOfBounds
  end.

Definition handleReadCompletion : M endst Z :=
  wc ← local_wc;
  bench_assert (is_success wc WC_RDMA_READ);;
  src_rank ← src_rank W wc;
  ctx ← read_ctx (c_wr_id wc);
  match ctx with
  | RecvCtx _ _ _ send_ctx =>
      put_msg SFin (FINMsg send_ctx);;
      delete_ctx (c_wr_id wc);;
      postSendImm W src_rank SFin sizeof_FINMsg MSG_FIN 0
  | _ => fault_ OutOfBounds
  end.

(** The context is the one of the request that the process has sent itself. *)
Definition handleFIN : op :=
  wc ← local_wc;
  bench_assert (c_imm_data wc =? MSG_FIN);;
  rtsMsg ← get_msg SRts;
  match rtsMsg with
  | RTSMsg send_ctx _ _ _ => delete_ctx send_ctx
  | _ => fault_ OutOfBounds
  end.

(** ** The program *)

Definition send_half (c : config) (msg_size : Z) (value : char) : list op :=
  [ fill_buffer (touch_data c) SSend msg_size value;
    postRTS (1 - v_rank W) SSend msg_size 0;
    wait_send WC_SEND;
    pollRecvCQ;
    handleFIN ].

(** The result of [handleReadCompletion] is not looked at. *)
Definition recv_half (c : config) (msg_size : Z) (peer_value : char) : list op :=
  [ pollRecvCQ;
    handleRTS SRecv msg_size 0;
    poll_send;
    (handleReadCompletion;; mret tt);
    wait_send WC_SEND;
    verify_buffer (touch_data c) SRecv msg_size peer_value ].

Definition iteration (c : config) (call : Z * Z) : list op :=
  let msg_size := call.1 in
  let value := value_of (v_rank W) in
  let peer_value := value_of (1 - v_rank W) in
  if v_rank W =? 0
  then send_half c msg_size value ++ recv_half c msg_size peer_value
  else recv_half c msg_size peer_value ++ send_half c msg_size value.

Definition run (c : config) (calls : list (Z * Z)) : list op :=
  [ bench_assert ((sizeof_RTSMsg <=? CACHE_LINE_SIZE) && (sizeof_FINMsg <=? CACHE_LINE_SIZE) &&
                  (wrap_u 32 (CACHE_LINE_SIZE * 3 + max_msg_size c * 2) <=? v_mr_size W));
    checkAndPostRecvs SCtl CACHE_LINE_SIZE (addr_of W SCtl) ] ++
  (calls ≫= iteration c).

End program.

Definition rdv_layout (CACHE_LINE_SIZE : Z) (c : config) : layout :=
  [(SRts, CACHE_LINE_SIZE); (SFin, CACHE_LINE_SIZE); (SCtl, CACHE_LINE_SIZE);
   (SSend, max_msg_size c); (SRecv, max_msg_size c)].

(** ** The handlers on a process *)

Lemma read_ctl_in CL c : SCtl ∈ (rdv_layout CL c).*1.
Proof. cbn. rewrite !elem_of_cons. tauto. Qed.
Lemma read_send_in CL c : SSend ∈ (rdv_layout CL c).*1.
Proof. cbn. rewrite !elem_of_cons. tauto. Qed.

Section handlers.
Context (CL : Z) (c : config) (r : Z) (W : env) (Hw : process_ok (rdv_layout CL c) r W).
Context (Hin : v_inline_size W = 0).

Lemma read_postRTS_run m rq n ar w size :
  postRTS W (1 - r) SSend size 0 (End m [] rq [] [] 8 n ∅ ar w) =
  (Done tt, End (Mem (Some (RTSMsg (v_alloc W n) (addr_of W SSend) size (v_rkey W)))
       (m_rtr m) (m_fin m) (m_ctl m) (m_send m) (m_recv m))
     [SendWr (v_alloc W n) WR_SEND_WITH_IMM SRts sizeof_RTSMsg None MSG_RTS 0 0] rq [] [] 8 (S n)
     {[v_alloc W n := SendCtx SSend size 0]} ar w).
Proof using Hw Hin.
  unfold postRTS. then_by (by apply malloc_run, (pr_alloc _ _ _ Hw)).
  then_by (by apply put_msg_run). unfold postSendImm. post_it Hw.
Qed.

Lemma read_handleRTS_run m rq n ar w send_ctx addr key size :
  m_ctl m = Some (RTSMsg send_ctx addr size key) → c_opcode w = WC_RECV → c_imm_data w = MSG_RTS →
  c_wr_id w = addr_of W SCtl → c_qp_num w = v_qpn W →
  handleRTS W SRecv size 0 (End m [] rq [] [] 8 n ∅ ar (Some w)) =
  (Done tt, End m [SendWr (v_alloc W n) WR_RDMA_READ SRecv size None 0 addr key] rq [] [] 8 (S n)
     {[v_alloc W n := RecvCtx SRecv size 0 send_ctx]} ar (Some w)).
Proof using Hw.
  intros H1 H2 H3 H4 H5. unfold handleRTS.
  then_by (by apply local_wc_run).
  then_by (apply assert_run; by rewrite H2, H3).
  then_by (by apply (peer_run _ _ _ Hw)).
  read_ctl Hw ltac:(apply read_ctl_in). then_by (apply assert_run; lia).
  then_by (apply malloc_run, (pr_alloc _ _ _ Hw)).
  unfold postRead. then_by (apply (post_to_peer_run _ _ _ Hw); cbn; lia). done.
Qed.

Lemma handleReadCompletion_run m rq n ar w p q size :
  is_success w WC_RDMA_READ = true → c_wr_id w = p → c_qp_num w = v_qpn W →
  (handleReadCompletion W;; mret tt) (End m [] rq [] [] 8 n {[p := RecvCtx SRecv size 0 q]} ar (Some w)) =
  (Done tt, End (Mem (m_rts m) (m_rtr m) (Some (FINMsg q)) (m_ctl m) (m_send m) (m_recv m))
     [SendWr 0 WR_SEND_WITH_IMM SFin sizeof_FINMsg None MSG_FIN 0 0] rq [] [] 8 n ∅ ar (Some w)).
Proof using Hw Hin.
  intros H1 H2 H3. unfold handleReadCompletion. rewrite bind_assoc.
  then_by (by apply local_wc_run). rewrite bind_assoc.
  then_by (by apply assert_run). rewrite bind_assoc.
  then_by (by apply (peer_run _ _ _ Hw)).
  rewrite H2. unfold read_ctx. rewrite bind_assoc, bind_assoc, bind_get. flat.
  rewrite lookup_singleton_eq. unfold or_fault.
  then_by done. rewrite bind_assoc. then_by (by apply put_msg_run). rewrite bind_assoc.
  then_by (by eapply delete_run, lookup_singleton_eq). rewrite delete_singleton_eq. unfold postSendImm. post_it Hw.
Qed.

Lemma read_handleFIN_run m sq rq scq rcq p n ar w q (x : ctx) addr size key :
  m_rts m = Some (RTSMsg q addr size key) → c_imm_data w = MSG_FIN →
  handleFIN (End m sq rq scq rcq p n {[q := x]} ar (Some w)) = (Done tt, End m sq rq scq rcq p n ∅ ar (Some w)).
Proof using.
  intros H1 H2. unfold handleFIN.
  then_by (by apply local_wc_run).
  then_by (apply assert_run; by rewrite H2).
  then_by (unfold get_msg; rewrite bind_get; flat; cbn [load]; rewrite H1; reflexivity).
  erewrite delete_run by apply lookup_singleton_eq. unfold set_heap. flat. by rewrite delete_singleton_eq.
Qed.
End handlers.

(** ** One rendezvous *)

Section rendezvous.
Context (CL : Z) (c : config).

Abbreviation arch0 := (LcmArchive None 0).
Abbreviation recvs W n := (replicate n (RecvWr (addr_of W SCtl) SCtl CL)).

(** A process with nothing under way; the sender, with its context, until the
    notice is treated; the receiver when the request has arrived. *)
Definition idle (W : env) (m : @mem msg) (n : nat) (w : option bwc) : endst :=
  End m [] (recvs W 8) [] [] 8 n ∅ arch0 w.
Definition sending (W : env) (m : @mem msg) (n : nat) (p size : Z) (w : option bwc) : endst :=
  End m [] (recvs W 8) [] [] 8 n {[p := SendCtx SSend size 0]} arch0 w.
Definition asked (W : env) (m : @mem msg) (n : nat) (w : option bwc) : endst :=
  End m [] (recvs W 7) [] [BWc (addr_of W SCtl) IBV_WC_SUCCESS WC_RECV MSG_RTS (v_qpn W)] 8 n ∅ arch0 w.

(** The request a process sends. *)
Abbreviation request W p size := (Some (RTSMsg p (addr_of W SSend) size (v_rkey W))).
Abbreviation bytes touch b size value := (touch = true → ∃ rest, b = replicate (Z.to_nat size) value ++ rest).

Section sender_receiver.
Context (r : Z) (Wa Wb : env).
Context (Ha : process_ok (rdv_layout CL c) r Wa) (Hb : process_ok (rdv_layout CL c) (1 - r) Wb).
Context (Hia : v_inline_size Wa = 0) (Hib : v_inline_size Wb = 0) (Hcl : 24 ≤ CL).

(** From the request to the notice. *)
Lemma transfer (P : @net msg ctx → Prop) pa pb ma mb na nb wa wb p size value :
  final Wa Wb P → 0 < size ≤ max_msg_size c → bufs_ok c ma → bufs_ok c mb →
  m_rts ma = request Wa p size → m_ctl mb = request Wa p size →
  bytes (touch_data c) (m_send ma) size value →
  (∀ ma' mb' nb' wa' wb', bufs_ok c ma' → bufs_ok c mb' → m_rts ma' = request Wa p size →
     c_imm_data wa' = MSG_FIN → bytes (touch_data c) (m_recv mb') size value →
     ev Wa Wb P (Net (sending Wa ma' na p size (Some wa')) (idle Wb mb' nb' wb') (handleFIN :: pa)
       (verify_buffer (touch_data c) SRecv size value :: pb))) →
  ev Wa Wb P (Net (sending Wa ma na p size wa) (asked Wb mb nb wb)
    (pollRecvCQ CL Wa :: handleFIN :: pa) (recv_half CL Wb c size value ++ pb)).
Proof using Ha Hb Hib Hcl.
  intros HP Hs [La1 La2] [Lb1 Lb2] Hrts Hctl Hdata Hcont. unfold recv_half, sending, asked. cbn [app].
  local_b HP is_local.
  proc_step ProcB ltac:(erewrite (read_handleRTS_run CL c (1 - r) Wb Hb); [|exact Hctl|reflexivity..]).
  nic_step NicB ltac:(erewrite nic_read_run by first
    [reflexivity | apply (layout_positive _ _ _ Ha) | apply (in_layout _ _ _ Ha), read_send_in | cbn; lia]).
  local_b HP is_local.
  proc_step ProcB ltac:(erewrite (handleReadCompletion_run CL c (1 - r) Wb Hb Hib); [|reflexivity..]).
  nic_step NicB ltac:(erewrite nic_send_run by first [reflexivity | cbn; unfold sizeof_FINMsg; lia]).
  local_b HP is_local. local_a HP is_local.
  eapply Hcont; clear Hcont; [split; cbn [m_send m_recv]; done|split; cbn [m_send m_recv]; [done|]|done|done|].
  - rewrite length_app, length_take, length_drop. lia.
  - intros Ht. cbn [m_recv]. destruct (Hdata Ht) as [rest ->].
    rewrite take_app_length' by (by rewrite length_replicate). by eexists.
Qed.

(** The next request, while the sender may not have treated the notice yet: from
    then on, the roles are the other way round. *)
Lemma change_roles (P : @net msg ctx → Prop) pa pb ma mb na nb wa wb p size value size' value' :
  final Wa Wb P → blocked pa → 0 < size → 0 < size' ≤ max_msg_size c → bufs_ok c ma → bufs_ok c mb →
  m_rts ma = request Wa p size → c_imm_data wa = MSG_FIN → bytes (touch_data c) (m_recv mb) size value →
  (∀ ma' mb' nb' wb' p', bufs_ok c ma' → bufs_ok c mb' →
     m_rts mb' = request Wb p' size' → m_ctl ma' = request Wb p' size' →
     bytes (touch_data c) (m_send mb') size' value' →
     ev Wa Wb P (Net (asked Wa ma' na (Some wa)) (sending Wb mb' nb' p' size' wb') pa
       (pollRecvCQ CL Wb :: handleFIN :: pb))) →
  ev Wa Wb P (Net (sending Wa ma na p size (Some wa)) (idle Wb mb nb wb) (handleFIN :: pa)
    (verify_buffer (touch_data c) SRecv size value :: send_half CL Wb c size' value' ++ pb)).
Proof using Hb Hib Hcl.
  intros HP Hblk Hs Hs' [La1 La2] [Lb1 Lb2] Hrts Hfin Hdata Hcont.
  assert (v_rank Wb = 1 - r) as Hrb by apply (pr_rank _ _ _ Hb).
  unfold send_half, sending, idle. cbn [app]. rewrite Hrb.
  pose proof (read_handleFIN_run ma [] (recvs Wa 8) [] [] 8 na arch0 wa p (SendCtx SSend size 0) _ _ _ Hrts Hfin) as Ho.
  enough (ev Wa Wb P (Net (sending Wa ma na p size (Some wa)) (idle Wb mb nb wb) (handleFIN :: pa)
      (verify_buffer (touch_data c) SRecv size value :: send_half CL Wb c size' value' ++ pb)) ∧
    ev Wa Wb P (Net (idle Wa ma na (Some wa)) (idle Wb mb nb wb) pa
      (verify_buffer (touch_data c) SRecv size value :: send_half CL Wb c size' value' ++ pb))) as [H _]
    by (unfold send_half in H; rewrite Hrb in H; exact H).
  unfold send_half, sending, idle. cbn [app]. rewrite Hrb.
  eapply ev_beside_proc; [exact Ho| |reflexivity..|by apply Hblk|].
  { cbn [run_op]. rewrite verify_recv_run by (done || lia). reflexivity. }
  eapply ev_beside_proc; [exact Ho| |reflexivity..|by apply Hblk|].
  { cbn [run_op]. rewrite fill_send_run by (flat; lia). reflexivity. }
  settle. eapply ev_beside_proc; [exact Ho| |reflexivity..|by apply Hblk|].
  { cbn [run_op]. rewrite (read_postRTS_run CL c (1 - r) Wb Hb Hib). reflexivity. }
  eapply ev_beside_nic; [exact Ho| | |reflexivity..|by apply Hblk|].
  { erewrite nic_send_run by first [reflexivity | cbn; unfold sizeof_RTSMsg; lia]. reflexivity. }
  { erewrite nic_send_run by first [reflexivity | cbn; unfold sizeof_RTSMsg; lia]. reflexivity. }
  settle. settle.
  assert (length (m_send (filled (touch_data c) size' value' mb)) = length (m_send mb)) as Hlen
    by (apply filled_length; lia).
  split; local_b HP is_local.
  1: proc_step ProcA ltac:(erewrite read_handleFIN_run; [|exact Hrts|exact Hfin]).
  all: (eapply Hcont; clear Hcont; [by split|split; cbn [m_send m_recv]; [lia|by destruct (touch_data c)]|done|done|]).
  all: intros ->; cbn [m_send filled]; by eexists.
Qed.

(** The end of the run. *)
Lemma last_notice ma mb na nb wa wb p size value :
  0 < size → m_rts ma = request Wa p size → c_imm_data wa = MSG_FIN →
  bytes (touch_data c) (m_recv mb) size value →
  ev Wa Wb finished (Net (sending Wa ma na p size (Some wa)) (idle Wb mb nb wb) [handleFIN]
    [verify_buffer (touch_data c) SRecv size value]).
Proof using.
  intros Hs Hrts Hfin Hdata.
  pose proof (read_handleFIN_run ma [] (recvs Wa 8) [] [] 8 na arch0 wa p (SendCtx SSend size 0) _ _ _ Hrts Hfin) as Ho.
  unfold sending, idle.
  enough (ev Wa Wb finished (Net (sending Wa ma na p size (Some wa)) (idle Wb mb nb wb) [handleFIN]
      [verify_buffer (touch_data c) SRecv size value]) ∧
    ev Wa Wb finished (Net (idle Wa ma na (Some wa)) (idle Wb mb nb wb) []
      [verify_buffer (touch_data c) SRecv size value])) as [H _] by exact H.
  unfold sending, idle.
  eapply ev_beside_proc; [exact Ho| |reflexivity..|].
  { cbn [run_op]. rewrite verify_recv_run by (done || lia). reflexivity. }
  split; [proc_step ProcA ltac:(rewrite Ho)|]; by apply ev_here.
Qed.
End sender_receiver.
End rendezvous.

(** ** The whole run *)

Lemma finished_swap (s : @net msg ctx) : finished s → finished (swap_net s).
Proof. intros (H1 & H2 & H3 & H4). done. Qed.

Section benchmark.
Context (CL : Z) (c : config) (Wa Wb : env).
Context (Ha : process_ok (rdv_layout CL c) 0 Wa) (Hb : process_ok (rdv_layout CL c) 1 Wb).
Context (Hia : v_inline_size Wa = 0) (Hib : v_inline_size Wb = 0) (Hcl : 24 ≤ CL).

Lemma read_iteration_a call : iteration CL Wa c call =
  send_half CL Wa c call.1 (value_of 0) ++ recv_half CL Wa c call.1 (value_of 1).
Proof using Ha. unfold iteration. by rewrite (pr_rank _ _ _ Ha). Qed.

Lemma read_iteration_b call : iteration CL Wb c call =
  recv_half CL Wb c call.1 (value_of 0) ++ send_half CL Wb c call.1 (value_of 1).
Proof using Hb. unfold iteration. by rewrite (pr_rank _ _ _ Hb). Qed.

Lemma read_blocked W size value p : blocked (recv_half CL W c size value ++ p).
Proof using. unfold recv_half, pollRecvCQ. cbn [app]. apply blocked_recv. Qed.

Lemma read_blocked_b calls : blocked (calls ≫= iteration CL Wb c).
Proof using Hb.
  destruct calls; [apply blocked_nil|]. cbn [mbind list_bind]. rewrite read_iteration_b, <-(assoc_L app).
  apply read_blocked.
Qed.

(** From the request of process A for a call to the end. *)
Lemma from_request calls : Forall (call_ok c) calls → ∀ size i ma mb na nb wa wb p,
  call_ok c (size, i) → bufs_ok c ma → bufs_ok c mb →
  m_rts ma = Some (RTSMsg p (addr_of Wa SSend) size (v_rkey Wa)) →
  m_ctl mb = Some (RTSMsg p (addr_of Wa SSend) size (v_rkey Wa)) →
  (touch_data c = true → ∃ rest, m_send ma = replicate (Z.to_nat size) (value_of 0) ++ rest) →
  ev Wa Wb finished (Net (sending CL Wa ma na p size wa) (asked CL Wb mb nb wb)
    (pollRecvCQ CL Wa :: handleFIN :: recv_half CL Wa c size (value_of 1) ++ (calls ≫= iteration CL Wa c))
    (recv_half CL Wb c size (value_of 0) ++ send_half CL Wb c size (value_of 1) ++ (calls ≫= iteration CL Wb c))).
Proof using Ha Hb Hia Hib Hcl.
  pose proof (@finished_final msg ctx Wa Wb) as HP.
  pose proof (final_swap Wa Wb finished HP) as HP'.
  induction 1 as [|[size' i'] calls Hok _ IH]; intros size i ma mb na nb wa wb p Hs La Lb Hrts Hctl Hdata.
  all: unfold call_ok in *; cbn [fst] in *.
  all: eapply (transfer CL c 0 Wa Wb Ha Hb Hib Hcl); try done.
  all: clear ma mb nb wa wb La Lb Hrts Hctl Hdata; intros ma mb nb wa wb La Lb Hrts Hfin Hdata.
  all: eapply (change_roles CL c 0 Wa Wb Hb Hib Hcl); try done; [apply read_blocked|lia|].
  all: clear ma mb nb wb p La Lb Hrts Hdata; intros ma mb nb wb p La Lb Hrts Hctl Hdata.
  all: apply ev_swap; cbn [swap_net n_a n_b n_pa n_pb].
  all: eapply (transfer CL c 1 Wb Wa Hb Ha Hia Hcl); try done.
  all: clear ma mb na wa wb La Lb Hrts Hctl Hdata Hfin; intros mb ma na wb wa Lb La Hrts Hfin Hdata.
  - eapply ev_mono; [apply finished_swap|]. cbn [mbind list_bind]. apply last_notice; [lia|done..].
  - cbn [mbind list_bind]. rewrite read_iteration_a, <-(assoc_L app).
    eapply (change_roles CL c 1 Wb Wa Ha Hia Hcl); try done; [apply (read_blocked_b ((size', i') :: calls))|lia|].
    clear ma mb na wa p La Lb Hrts Hdata. intros mb ma na wa p Lb La Hrts Hctl Hdata.
    apply ev_swap_back. cbn [swap_net n_a n_b n_pa n_pb]. rewrite read_iteration_b, <-(assoc_L app).
    by eapply (IH size' i').
Qed.

Lemma read_iterations_run calls ma mb na nb wa wb : Forall (call_ok c) calls →
  bufs_ok c ma → bufs_ok c mb →
  ev Wa Wb finished (Net (idle CL Wa ma na wa) (idle CL Wb mb nb wb)
    (calls ≫= iteration CL Wa c) (calls ≫= iteration CL Wb c)).
Proof using Ha Hb Hia Hib Hcl.
  pose proof (@finished_final msg ctx Wa Wb) as HP.
  intros Hcalls [La1 La2] Lb. destruct Hcalls as [|[size i] calls [Hs0 Hs] Hcalls]; [by apply ev_here|].
  pose proof (read_blocked_b ((size, i) :: calls)) as Hblk.
  cbn [mbind list_bind] in *. rewrite read_iteration_a. rewrite read_iteration_b, <-!(assoc_L app) in *.
  cbn [fst] in *. unfold send_half at 1, idle. cbn [app]. rewrite (pr_rank _ _ _ Ha).
  proc_step ProcA ltac:(rewrite fill_send_run by (flat; lia)).
  proc_step ProcA ltac:(rewrite (read_postRTS_run CL c 0 Wa Ha Hia)).
  nic_step NicA ltac:(erewrite nic_send_run by first [reflexivity | cbn; unfold sizeof_RTSMsg; lia]).
  local_a HP is_local.
  assert (length (m_send (filled (touch_data c) size (value_of 0) ma)) = length (m_send ma)) as Hlen
    by (apply filled_length; lia).
  eapply (from_request calls Hcalls size i); try done.
  - split; cbn [m_send m_recv]; [lia|by destruct (touch_data c)].
  - intros ->. cbn [m_send filled]. by eexists.
Qed.
End benchmark.

(** C6: the rendezvous by read: however the steps of the two processes and of their
    adapters interleave, the run ends, no assertion fails and no memory is touched
    that should not be, although a process may be sent the next request before it has
    treated the notice of the last transfer; every message has its receive posted,
    each side finds the data the other has sent (when it looks at it), and every
    context is freed. *)
Theorem rdv_read_completes (CL : Z) (c : config) (Wa Wb : env) (ma mb : @mem msg) (calls : list (Z * Z))
    (Ha : process_ok (rdv_layout CL c) 0 Wa) (Hb : process_ok (rdv_layout CL c) 1 Wb)
    (Hia : v_inline_size Wa = 0) (Hib : v_inline_size Wb = 0) (Hcl : 24 ≤ CL)
    (La : bufs_ok c ma) (Lb : bufs_ok c mb) (Hcalls : schedule_ok c calls) :
  completes Wa Wb finished (Net (start ma) (start mb) (run CL Wa c calls) (run CL Wb c calls)).
Proof.
  pose proof (@finished_final msg ctx Wa Wb) as HP. apply ev_run; [done|].
  pose proof (schedule_calls _ _ Hcalls) as Hok.
  unfold run, start. cbn [app].
  assert (∀ r W, process_ok (rdv_layout CL c) r W → wrap_u 32 (CL * 3 + max_msg_size c * 2) ≤ v_mr_size W) as Hsize.
  { intros r W H. pose proof (pr_size _ _ _ H) as Hsz. pose proof (so_max _ _ Hcalls).
    pose proof (wrap_u_le 32 (CL * 3 + max_msg_size c * 2)). cbn in Hsz. lia. }
  pose proof (Hsize _ _ Ha). pose proof (Hsize _ _ Hb).
  local_a HP ltac:(apply assert_local; unfold sizeof_RTSMsg, sizeof_FINMsg; lia).
  local_b HP ltac:(apply assert_local; unfold sizeof_RTSMsg, sizeof_FINMsg; lia).
  local_a HP ltac:(apply (check_post_local _ _ _ _ 8); [reflexivity|lia|apply Nat.leb_le; reflexivity]).
  local_b HP ltac:(apply (check_post_local _ _ _ _ 8); [reflexivity|lia|apply Nat.leb_le; reflexivity]).
  by apply (read_iterations_run CL c Wa Wb Ha Hb Hia Hib Hcl calls ma mb 0 0 None None).
Qed.

(** ** Two processes *)

Lemma read_demo_layout : Forall (λ x, 0 < x.2) (rdv_layout 64 demo_config).
Proof. repeat constructor; cbn; lia. Qed.

Abbreviation demo := (demo_env (rdv_layout 64 demo_config)).

Lemma rdv_read_completes_witness :
  completes (demo 0) (demo 1) finished
    (Net (start demo_mem) (start demo_mem)
       (run 64 (demo 0) demo_config demo_calls) (run 64 (demo 1) demo_config demo_calls)).
Proof.
  apply rdv_read_completes.
  - apply demo_process; [apply read_demo_layout|by left].
  - apply demo_process; [apply read_demo_layout|by right].
  - reflexivity.
  - reflexivity.
  - lia.
  - split; reflexivity.
  - split; reflexivity.
  - exact demo_schedule.
Defined.

(** The notice has been taken, its context is still there, and the next request is
    over the notice: what the comment in [handleFIN] says. *)
Definition overwritten (s : @net msg ctx) : bool :=
  match x_wc (n_a s), m_rts (x_mem (n_a s)), m_ctl (x_mem (n_a s)) with
  | Some wc, Some (RTSMsg p _ _ _), Some (RTSMsg _ _ _ _) =>
      (c_imm_data wc =? MSG_FIN) && (c_wr_id wc =? addr_of (demo 0) SCtl) &&
      bool_decide (is_Some (x_heap (n_a s) !! p))
  | _, _, _ => false
  end.

Lemma fin_overwritten calls :
  ∃ s, rtc (some_step (demo 0) (demo 1))
      (Net (start demo_mem) (start demo_mem)
        (run 64 (demo 0) demo_config ((8, 0) :: calls)) (run 64 (demo 1) demo_config ((8, 0) :: calls))) s ∧
    overwritten s = true.
Proof.
  set (s0 := Net _ _ _ _).
  set (ags := [ProcA; ProcA; ProcB; ProcB; ProcA; ProcA; NicA; ProcA; ProcB; ProcB; NicB; ProcB; ProcB; NicB;
    ProcA; ProcB; ProcB; ProcB; ProcB; NicB]).
  assert (match exec (demo 0) (demo 1) ags s0 with Done s => overwritten s | _ => false end = true) as H
    by (vm_compute; reflexivity).
  destruct (exec (demo 0) (demo 1) ags s0) as [s| | |] eqn:E; [|done..].
  exists s. split; [by apply (exec_reach _ _ ags)|done].
Qed.
