(* ===== verification/BenchStart.v ===== *)
(** * From [init] to a benchmark

    What [init] leaves on each of two ranks is what the theorems on the benchmarks
    suppose of a process, and the two know each other's memory region. *)

From S2P Require Import Prelude CLib OS Verbs BenchCommon BenchNet BenchSched.
From S2P Require PmWrapper PmStore IbvInit IbvMesh BenchTurns BenchWriteImm.

Local Open Scope Z_scope.

(** The process of rank [r], from the device that [init] has filled in: its memory is
    cut up as [lay], and its calls of [malloc] return [alloc]. *)
Definition env_of (r : nat) (H : IbvInit.host) (W : world) (D : IbvInit.Device) (lay : layout) (alloc : nat → Z) : env :=
  let d := IbvInit.the_dev D in
  let rm := default (IbvInit.Rmr 0 0 0) (IbvInit.rmrs D !! (1 - r)%nat) in
  Env (Z.of_nat r) (qp_num (h_dev W) (default 0 (IbvInit.qps D !! (1 - r)%nat)))
    (IbvInit.qp2rank D) (IbvInit.qp2rank_mod D) lay (IbvInit.mr_addr d) (IbvInit.ho_rkey H (IbvInit.dev_mr d))
    (wrap_u 32 (IbvInit.ho_mr_size H))
    (IbvInit.rm_addr rm) (IbvInit.rm_rkey rm) (IbvInit.ho_inline_size H) alloc.

Section start.
Context {S : Type} (PM : nat → PmWrapper.PmWrapper S) (H : nat → IbvInit.host) (s0 : nat → IbvInit.ibv_state S).

Abbreviation process r D lay alloc := (env_of r (H r) (h_world (IbvInit.ib_hw (s0 r))) D lay alloc).

Lemma init_process_ok r D s lay alloc :
  (r < 2)%nat → IbvMesh.meshed 2 PM H s0 r D s → Forall (λ x, 0 < x.2) lay →
  layout_size lay ≤ wrap_u 32 (IbvInit.ho_mr_size (H r)) → (∀ n, alloc n ≠ 0) →
  process_ok lay (Z.of_nat r) (process r D lay alloc).
Proof using.
  intros Hr (_ & Hl & _ & Hm) Hlay Hsz Ha. constructor; [done| |done|done|exact Hsz|done].
  destruct (lookup_lt_is_Some_2 (IbvInit.qps D) (1 - r) ltac:(lia)) as [qp Eq].
  destruct (Hm _ _ Eq) as (_ & Ht). unfold env_of. cbn [v_qp2rank v_qpn v_qp2rank_mod]. rewrite Eq.
  cbn [default from_option id]. rewrite Ht. f_equal. lia.
Qed.

(** Each knows the memory region of the other. *)
Lemma init_remote r D s D' s' lay lay' alloc alloc' :
  (r < 2)%nat → IbvMesh.meshed 2 PM H s0 r D s → IbvMesh.meshed 2 PM H s0 (1 - r) D' s' →
  v_rmr_addr (process r D lay alloc) = v_mr_addr (process (1 - r) D' lay' alloc') ∧
  v_rmr_rkey (process r D lay alloc) = v_rkey (process (1 - r) D' lay' alloc').
Proof using.
  intros Hr (_ & Hl & _ & Hm) (Hp & _ & _ & _).
  destruct (lookup_lt_is_Some_2 (IbvInit.qps D) (1 - r) ltac:(lia)) as [qp Eq].
  destruct (Hm _ _ Eq) as ((d' & l' & qp' & Hp' & _ & _ & Hrm) & _). rewrite Hp in Hp'. injection Hp' as <- <-.
  unfold env_of. cbn [v_rmr_addr v_rmr_rkey v_mr_addr v_rkey]. by rewrite Hrm.
Qed.
End start.

(** C10: a whole job of two ranks: when [init] can open the devices, publish the
    addresses and exchange them, it returns on both, and from what it leaves there the
    pingpong by writes with immediate data runs to its end under every schedule: the
    remote addresses and keys that the ranks write with, and the table that gives the
    rank of a queue pair, are those that [init] has exchanged. *)
Theorem job_completes {S : Type} (PM : nat → PmWrapper.PmWrapper S) (ST : ∀ r, PmStore.PmStore S (PM r))
    (H : nat → IbvInit.host) (s0 : nat → IbvInit.ibv_state S) (bound : Z)
    (c : config) (calls : list (Z * Z)) (alloc : nat → nat → Z) (m : nat → @mem Empty_set)
    (Hstarts : ∀ r, (r < 2)%nat → IbvMesh.starts 2 PM ST H s0 bound r) (Hn : 2 ≤ bound) (Hbound : bound < RankTable.INT32_MAX)
    (Hbarrier : ∀ r, (r < 2)%nat → ∃ t,
       @PmWrapper.pm_barrier S (PM r) (IbvInit.ib_pm (IbvMesh.pub PM H s0 r).2) = (Done tt, t) ∧
       @PmStore.ps_holds S (PM r) (ST r) t 1 (IbvMesh.all_sent 2 PM H s0) [])
    (Hagain : ∀ r t, (r < 2)%nat → @PmStore.ps_holds S (PM r) (ST r) t 1 (IbvMesh.all_sent 2 PM H s0) [] →
       ∃ t', @PmWrapper.pm_barrier S (PM r) t = (Done tt, t'))
    (Hcfg : ∀ r, (r < 2)%nat →
       IbvInit.ho_mr_size (H r) = max_msg_size c * 2 ∧ IbvInit.ho_inline_size (H r) = inline_size c)
    (Hcalls : schedule_ok c calls) (Halloc : ∀ r k, alloc r k ≠ 0) (Hbufs : ∀ r, (r < 2)%nat → bufs_ok c (m r)) :
  ∃ D t D' t',
    IbvInit.init (H 0%nat) (PM 0%nat) (s0 0%nat) = (Done D, t) ∧
    IbvInit.init (H 1%nat) (PM 1%nat) (s0 1%nat) = (Done D', t') ∧
    let Wa := env_of 0 (H 0%nat) (h_world (IbvInit.ib_hw (s0 0%nat))) D (BenchTurns.plain_layout c) (alloc 0%nat) in
    let Wb := env_of 1 (H 1%nat) (h_world (IbvInit.ib_hw (s0 1%nat))) D' (BenchTurns.plain_layout c) (alloc 1%nat) in
    completes Wa Wb finished
      (Net (start (m 0%nat)) (start (m 1%nat)) (BenchWriteImm.run c Wa calls) (BenchWriteImm.run c Wb calls)).
Proof.
  pose proof (IbvMesh.init_meshed 2 PM ST H s0 bound Hstarts Hn Hbound Hbarrier Hagain) as Hmesh.
  destruct (Hmesh 0%nat ltac:(lia)) as (D & t & E & M), (Hmesh 1%nat ltac:(lia)) as (D' & t' & E' & M').
  exists D, t, D', t'. split; [exact E|]. split; [exact E'|]. cbv zeta.
  assert (Forall (λ x, 0 < x.2) (BenchTurns.plain_layout c)) as Hlay
    by (pose proof (so_max _ _ Hcalls); repeat constructor; done).
  assert (∀ r, (r < 2)%nat → layout_size (BenchTurns.plain_layout c) ≤ wrap_u 32 (IbvInit.ho_mr_size (H r))) as Hsz.
  { intros r Hr. destruct (Hcfg r Hr) as [-> _]. pose proof (so_max _ _ Hcalls).
    pose proof (so_max_int _ _ Hcalls) as Hi. unfold is_int, int_max in Hi. rewrite wrap_u_small by lia. cbn. lia. }
  apply BenchWriteImm.write_imm_completes.
  - apply (init_process_ok PM H s0 0 D t); [lia|exact M|exact Hlay|apply Hsz; lia|apply Halloc].
  - apply (init_process_ok PM H s0 1 D' t'); [lia|exact M'|exact Hlay|apply Hsz; lia|apply Halloc].
  - apply (init_remote PM H s0 0 D t D' t'); [lia|exact M|exact M'].
  - apply (init_remote PM H s0 1 D' t' D t); [lia|exact M'|exact M].
  - apply Hbufs. lia.
  - apply Hbufs. lia.
  - exact Hcalls.
Qed.

Lemma job_completes_witness :
  ∃ D t D' t',
    IbvInit.init (IbvMesh.job_host 0) (IbvMesh.job_pm 0%nat) (IbvMesh.job_start 0) = (Done D, t) ∧
    IbvInit.init (IbvMesh.job_host 1) (IbvMesh.job_pm 1%nat) (IbvMesh.job_start 1) = (Done D', t') ∧
    let Wa := env_of 0 (IbvMesh.job_host 0) (h_world (IbvInit.ib_hw (IbvMesh.job_start 0))) D
      (BenchTurns.plain_layout demo_config) (λ n, 64 * Z.of_nat (Datatypes.S n)) in
    let Wb := env_of 1 (IbvMesh.job_host 1) (h_world (IbvInit.ib_hw (IbvMesh.job_start 1))) D'
      (BenchTurns.plain_layout demo_config) (λ n, 64 * Z.of_nat (Datatypes.S n)) in
    completes Wa Wb finished
      (Net (start demo_mem) (start demo_mem) (BenchWriteImm.run demo_config Wa demo_calls)
        (BenchWriteImm.run demo_config Wb demo_calls)).
Proof.
  apply (job_completes IbvMesh.job_pm (λ r, PmStore.mpi_store (IbvMesh.job_env r) (IbvMesh.job_alloc r))
    IbvMesh.job_host IbvMesh.job_start 4096 demo_config demo_calls (λ _ n, 64 * Z.of_nat (Datatypes.S n)) (λ _, demo_mem)
    IbvMesh.job_starts).
  - lia.
  - reflexivity.
  - intros r. apply (IbvMesh.mpi_barrier 2 IbvMesh.job_env IbvMesh.job_alloc IbvMesh.job_host IbvMesh.job_start 4096
      IbvMesh.job_starts); [lia|reflexivity|vm_compute; discriminate|exact IbvMesh.job_delivers].
  - intros r t. apply (IbvMesh.mpi_barrier_again 2 IbvMesh.job_env IbvMesh.job_alloc IbvMesh.job_host IbvMesh.job_start 4096
      IbvMesh.job_starts); [lia|reflexivity|vm_compute; discriminate|exact IbvMesh.job_delivers_again].
  - intros r _. split; reflexivity.
  - exact demo_schedule.
  - intros _ n. lia.
  - intros r _. split; reflexivity.
Defined.
